(** * FinanceHub: filtering, derived metrics, table trends and export

    A shallow embedding of the dashboard components

    - [financial-dashboard.jsx]  ([FinancialDashboard], [ExportButtons]),
    - [metrics-cards]            ([MetricsCards], [calculateMetrics]),
    - [financial-table.jsx]      ([FinancialTable], [getProfitTrend]),
    - [financial-chart]          ([FinancialChart], its two formatters
                                  and [chartData]),

    together with the part of the JavaScript runtime they call.

    JavaScript numbers are IEEE 754 binary64 values.  They are modelled by
    [spec_float] at precision 53 and maximal exponent 1024, with the
    operations of the standard library's [SpecFloat], so that sums,
    quotients and the texts produced by [toFixed] are those of the code,
    bit for bit.  Texts are [string]s of bytes.  An object is the list
    of its own properties; a read that finds none of a name goes on to
    the built-in objects that an object literal inherits from, and an
    evaluation ends normally or with an exception. *)

From Stdlib Require Import ZArith QArith Qround List String Ascii Bool Lia.
From Stdlib Require Import Floats.SpecFloat.
From Stdlib Require Import DecimalString DecimalFacts DecimalPos DecimalN.
From Stdlib Require Import Permutation Sorted Qpower Lqa.
Import ListNotations.
Open Scope Z_scope.

(** ** The runtime: numbers *)

Module JS.

Definition number := spec_float.

Definition prec : Z := 53.
Definition emax : Z := 1024.

(** The number denoted by an integer literal. *)
Definition of_Z (z : Z) : number := binary_normalize prec emax z 0 false.

Definition add : number -> number -> number := SFadd prec emax.
Definition sub : number -> number -> number := SFsub prec emax.
Definition mul : number -> number -> number := SFmul prec emax.
Definition div : number -> number -> number := SFdiv prec emax.

(** [x > y] *)
Definition gt (x y : number) : bool := SFltb y x.

Definition Math_abs : number -> number := SFabs.

Definition is_zero (x : number) : bool :=
  match x with S754_zero _ => true | _ => false end.

Definition is_nan (x : number) : bool :=
  match x with S754_nan => true | _ => false end.

Definition is_finite (x : number) : bool :=
  match x with S754_zero _ | S754_finite _ _ _ => true | _ => false end.

(** ToBoolean on a number: zero and NaN are falsy. *)
Definition truthy (x : number) : bool := negb (is_zero x || is_nan x).

(** A value that may be absent: the result of [previousItem?.profit], the
    argument of a formatter. *)
Inductive value :=
| Undefined
| Num (x : number).

Definition ToBoolean (v : value) : bool :=
  match v with Undefined => false | Num x => truthy x end.

Definition ToNumber (v : value) : number :=
  match v with Undefined => S754_nan | Num x => x end.

(** [v || d] *)
Definition or_else (v : value) (d : number) : number :=
  if ToBoolean v then ToNumber v else d.

(** *** Decimal digits *)

Definition digits_of (n : Z) : string :=
  NilZero.string_of_uint (N.to_uint (Z.to_N n)).

Fixpoint repeat0 (n : nat) : string :=
  match n with
  | O => EmptyString
  | S n' => String "0" (repeat0 n')
  end.

(** The exact value [m * 2^e] of a finite number. *)
Definition exact (m : positive) (e : Z) : Q :=
  (inject_Z (Zpos m) * Qpower 2 e)%Q.

Definition to_integer (m : positive) (e : Z) : option Z :=
  if 0 <=? e then Some (Zpos m * 2 ^ e)
  else if Zpos m mod 2 ^ (- e) =? 0 then Some (Zpos m / 2 ^ (- e))
  else None.

(** *** Number::toString (radix 10)

    The digits are the shortest decimal that rounds back to the number
    (its rounding interval is [lo, hi], closed when the mantissa is
    even); among several the closest to the number, then the even one. *)

Definition in_interval (incl : bool) (lo hi y : Q) : bool :=
  if incl then Qle_bool lo y && Qle_bool y hi
  else negb (Qle_bool y lo) && negb (Qle_bool hi y).

Definition distance (a b : Q) : Q :=
  if Qle_bool a b then (b - a)%Q else (a - b)%Q.

Definition candidate (incl : bool) (lo hi v : Q) (p : Z) : option Z :=
  let s1 := Qfloor (v * Qpower 10 (- p)) in
  let s2 := s1 + 1 in
  let y1 := (inject_Z s1 * Qpower 10 p)%Q in
  let y2 := (inject_Z s2 * Qpower 10 p)%Q in
  let ok1 := (0 <? s1) && in_interval incl lo hi y1 in
  let ok2 := in_interval incl lo hi y2 in
  match ok1, ok2 with
  | true, false => Some s1
  | false, true => Some s2
  | false, false => None
  | true, true =>
      let d1 := distance v y1 in
      let d2 := distance v y2 in
      if Qle_bool d1 d2 then
        if Qle_bool d2 d1 then (if Z.even s1 then Some s1 else Some s2)
        else Some s1
      else Some s2
  end.

Fixpoint shortest (fuel : nat) (incl : bool) (lo hi v : Q) (p : Z) : Z * Z :=
  match fuel with
  | O => (Qfloor (v * Qpower 10 (- p)), p)
  | S fuel' =>
      match candidate incl lo hi v p with
      | Some s => (s, p)
      | None => shortest fuel' incl lo hi v (p - 1)
      end
  end.

Fixpoint strip_zeros (fuel : nat) (s p : Z) : Z * Z :=
  match fuel with
  | O => (s, p)
  | S fuel' =>
      if (s mod 10 =? 0) && (0 <? s) then strip_zeros fuel' (s / 10) (p + 1)
      else (s, p)
  end.

(** The least [p] with [v < 10^p], searched downwards from an estimate. *)
Fixpoint settle (fuel : nat) (v : Q) (p : Z) : Z :=
  match fuel with
  | O => p
  | S fuel' =>
      if Qle_bool (Qpower 10 (p - 1)) v then p else settle fuel' v (p - 1)
  end.

Definition decimal_exponent (m : positive) (e : Z) : Z :=
  settle 4 (exact m e) ((Z.log2 (Zpos m) + e) * 30103 / 100000 + 2).

Definition shortest_digits (m : positive) (e : Z) : Z * Z :=
  let v := exact m e in
  let up := Qpower 2 e in
  let down :=
    if (Zpos m =? 2 ^ (prec - 1)) && (3 - emax - prec <? e)
    then Qpower 2 (e - 1) else up in
  let lo := (v - down / 2)%Q in
  let hi := (v + up / 2)%Q in
  let '(s, p) :=
    shortest 20 (Z.even (Zpos m)) lo hi v (decimal_exponent m e - 1) in
  strip_zeros 400 s p.

Definition exponent_text (x : Z) : string :=
  ((if (x <? 0)%Z then "-" else "+") ++ digits_of (Z.abs x))%string.

(** The layout of [k] digits [ds] with decimal exponent [n]
    (the value is [0.ds * 10^n]). *)
Definition layout (ds : string) (n : Z) : string :=
  let k := Z.of_nat (String.length ds) in
  if (k <=? n) && (n <=? 21) then
    (ds ++ repeat0 (Z.to_nat (n - k)))%string
  else if (0 <? n) && (n <=? 21) then
    (substring 0 (Z.to_nat n) ds ++ "." ++
     substring (Z.to_nat n) (Z.to_nat (k - n)) ds)%string
  else if (-6 <? n) && (n <=? 0) then
    ("0." ++ repeat0 (Z.to_nat (- n)) ++ ds)%string
  else if k =? 1 then
    (ds ++ "e" ++ exponent_text (n - 1))%string
  else
    (substring 0 1 ds ++ "." ++ substring 1 (Z.to_nat (k - 1)) ds ++
     "e" ++ exponent_text (n - 1))%string.

Definition shortest_text (m : positive) (e : Z) : string :=
  let '(s, p) := shortest_digits m e in
  layout (digits_of s) (p + Z.of_nat (String.length (digits_of s))).

(** An integer below [2^53] is its own shortest decimal. *)
Definition positive_toString (m : positive) (e : Z) : string :=
  match to_integer m e with
  | Some z => if z <? 2 ^ prec then digits_of z else shortest_text m e
  | None => shortest_text m e
  end.

Definition Number_toString (x : number) : string :=
  match x with
  | S754_nan => "NaN"
  | S754_zero _ => "0"
  | S754_infinity false => "Infinity"
  | S754_infinity true => "-Infinity"
  | S754_finite s m e =>
      ((if s then "-" else "") ++ positive_toString m e)%string
  end.

(** *** Number.prototype.toFixed

    [scaled_nearest m e f] is the integer [n] for which [n / 10^f] is
    closest to [m * 2^e], the larger one of two. *)

Definition scaled_nearest (m : positive) (e : Z) (f : nat) : Z :=
  if 0 <=? e then Zpos m * 2 ^ e * 10 ^ Z.of_nat f
  else (2 * Zpos m * 10 ^ Z.of_nat f + 2 ^ (- e)) / 2 ^ (1 - e).

Definition fixed_layout (f : nat) (n : Z) : string :=
  let m := digits_of n in
  match f with
  | O => m
  | S _ =>
      let m' := (repeat0 (S f - String.length m) ++ m)%string in
      let k := String.length m' in
      (substring 0 (k - f) m' ++ "." ++ substring (k - f) f m')%string
  end.

Definition at_least_1e21 (m : positive) (e : Z) : bool :=
  Qle_bool (inject_Z (10 ^ 21)) (exact m e).

Definition toFixed (f : nat) (x : number) : string :=
  match x with
  | S754_zero _ => fixed_layout f 0
  | S754_finite s m e =>
      if at_least_1e21 m e then Number_toString x
      else ((if s then "-" else "") ++
            fixed_layout f (scaled_nearest m e f))%string
  | _ => Number_toString x
  end.

(** *** Number.parseInt (no radix argument)

    Leading white space is skipped (its ASCII members), then a sign, then
    a [0x] prefix, then the longest run of digits of the radix; no digit
    at all gives NaN. *)

Definition is_whitespace (c : ascii) : bool :=
  let n := nat_of_ascii c in
  ((9 <=? n) && (n <=? 13) || (n =? 32))%nat.

Fixpoint skip_whitespace (cs : list ascii) : list ascii :=
  match cs with
  | c :: cs' => if is_whitespace c then skip_whitespace cs' else cs
  | [] => []
  end.

Definition digit_value (c : ascii) : option Z :=
  let n := Z.of_nat (nat_of_ascii c) in
  if (48 <=? n) && (n <=? 57) then Some (n - 48)
  else if (97 <=? n) && (n <=? 122) then Some (n - 87)
  else if (65 <=? n) && (n <=? 90) then Some (n - 55)
  else None.

Fixpoint take_digits (radix : Z) (cs : list ascii) (acc : option Z)
  : option Z :=
  match cs with
  | [] => acc
  | c :: cs' =>
      match digit_value c with
      | Some d =>
          if d <? radix then
            take_digits radix cs'
              (Some (match acc with Some a => a * radix + d | None => d end))
          else acc
      | None => acc
      end
  end.

Definition strip_sign (cs : list ascii) : bool * list ascii :=
  match cs with
  | "-"%char :: r => (true, r)
  | "+"%char :: r => (false, r)
  | _ => (false, cs)
  end.

Definition strip_prefix (cs : list ascii) : Z * list ascii :=
  match cs with
  | "0"%char :: "x"%char :: r => (16, r)
  | "0"%char :: "X"%char :: r => (16, r)
  | _ => (10, cs)
  end.

Definition parseInt (s : string) : number :=
  let '(neg, cs) := strip_sign (skip_whitespace (list_ascii_of_string s)) in
  let '(radix, ds) := strip_prefix cs in
  match take_digits radix ds None with
  | None => S754_nan
  | Some n => binary_normalize prec emax (if neg then - n else n) 0 neg
  end.

(** *** Intl.NumberFormat("en-US", ...).format

    The digits formatted are the shortest decimal digits of the number,
    those of [Number::toString]: at most [maxF] fraction digits of
    them, rounded half away from zero, no trailing zero kept (the
    minimum is zero digits), the integer part grouped by three. *)

(** The shortest decimal [s * 10^p] of a finite number. *)
Definition shortest_decimal (m : positive) (e : Z) : Z * Z :=
  match to_integer m e with
  | Some z => if z <? 2 ^ prec then (z, 0) else shortest_digits m e
  | None => shortest_digits m e
  end.

(** The integer nearest to [s * 10^(p + f)], the larger one of two. *)
Definition rounded_decimal (s p : Z) (f : nat) : Z :=
  let k := p + Z.of_nat f in
  if 0 <=? k then s * 10 ^ k
  else (2 * s + 10 ^ (- k)) / (2 * 10 ^ (- k)).

Fixpoint group3 (n : nat) (rev_digits : list ascii) (acc : list ascii)
  : list ascii :=
  match rev_digits with
  | [] => acc
  | c :: r =>
      match n with
      | O => group3 2 r (c :: ","%char :: acc)
      | S n' => group3 n' r (c :: acc)
      end
  end.

Definition grouped (ds : string) : string :=
  string_of_list_ascii (group3 3 (rev (list_ascii_of_string ds)) []).

Fixpoint drop_zeros (rev_digits : list ascii) : list ascii :=
  match rev_digits with
  | "0"%char :: r => drop_zeros r
  | _ => rev_digits
  end.

Definition fraction_text (maxF : nat) (n : Z) : string :=
  let ds := digits_of n in
  let padded := (repeat0 (maxF - String.length ds) ++ ds)%string in
  match drop_zeros (rev (list_ascii_of_string padded)) with
  | [] => ""
  | r => String "." (string_of_list_ascii (rev r))
  end.

Definition magnitude_text (maxF : nat) (m : positive) (e : Z) : string :=
  let '(s, p) := shortest_decimal m e in
  let n := rounded_decimal s p maxF in
  let unit := 10 ^ Z.of_nat maxF in
  (grouped (digits_of (n / unit)) ++ fraction_text maxF (n mod unit))%string.

Definition infinity_sign : string :=
  String "226" (String "136" (String "158" EmptyString)).

Definition NumberFormat (symbol : string) (maxF : nat) (x : number)
  : string :=
  match x with
  | S754_nan => (symbol ++ "NaN")%string
  | S754_infinity s =>
      ((if s then "-" else "") ++ symbol ++ infinity_sign)%string
  | S754_zero s => ((if s then "-" else "") ++ symbol ++ "0")%string
  | S754_finite s m e =>
      ((if s then "-" else "") ++ symbol ++ magnitude_text maxF m e)%string
  end.

(** [{ style: "currency", currency: "USD", minimumFractionDigits: 0 }] *)
Definition format_currency (v : value) : string :=
  NumberFormat "$" 2 (ToNumber v).

(** No option: a plain decimal number. *)
Definition format_decimal (v : value) : string :=
  NumberFormat "" 3 (ToNumber v).

(** *** Plain objects

    An object is the list of its own properties in creation order, each
    key once; [get] reads an own property, and [Realm] below holds what
    [obj[key]] finds when there is none of that name.
    [Object.entries] lists the keys that are array indices first, in
    ascending order, and then the other keys as created. *)

Definition object (V : Type) := list (string * V).

Fixpoint get {V : Type} (o : object V) (k : string) : option V :=
  match o with
  | [] => None
  | (k', v) :: o' => if String.eqb k' k then Some v else get o' k
  end.

Definition all_digits (cs : list ascii) : bool :=
  forallb (fun c => let n := nat_of_ascii c in (48 <=? n) && (n <=? 57))%nat
          cs.

Definition array_index (k : string) : option Z :=
  let cs := list_ascii_of_string k in
  match take_digits 10 cs None with
  | Some n =>
      if all_digits cs && String.eqb (digits_of n) k && (n <? 2 ^ 32 - 1)
      then Some n else None
  | None => None
  end.

Fixpoint insert_by_index {V : Type} (n : Z) (kv : string * V)
  (sorted : list (Z * (string * V))) : list (Z * (string * V)) :=
  match sorted with
  | [] => [(n, kv)]
  | (n', kv') :: rest =>
      if n <? n' then (n, kv) :: sorted
      else (n', kv') :: insert_by_index n kv rest
  end.

Fixpoint split_keys {V : Type} (o : object V)
  : list (Z * (string * V)) * list (string * V) :=
  match o with
  | [] => ([], [])
  | kv :: o' =>
      let '(indexed, named) := split_keys o' in
      match array_index (fst kv) with
      | Some n => (insert_by_index n kv indexed, named)
      | None => (indexed, kv :: named)
      end
  end.

Definition Object_entries {V : Type} (o : object V) : list (string * V) :=
  let '(indexed, named) := split_keys o in
  (map snd indexed ++ named)%list.

Definition Object_keys {V : Type} (o : object V) : list string :=
  map fst (Object_entries o).

(** *** Completions

    A read or a call that fails raises an exception: the outcome of an
    evaluation is normal, with a value, or abrupt. *)

Inductive Error := TypeError.

Inductive completion (A : Type) :=
| Normal (a : A)
| Throw (e : Error).

Arguments Normal {A} a.
Arguments Throw {A} e.

Definition bind {A B : Type} (c : completion A) (f : A -> completion B)
  : completion B :=
  match c with
  | Normal a => f a
  | Throw e => Throw e
  end.

(** [list.flatMap(f)] with a callback that may raise. *)
Fixpoint flatMap {A B : Type} (f : A -> completion (list B)) (l : list A)
  : completion (list B) :=
  match l with
  | [] => Normal []
  | a :: l' =>
      bind (f a) (fun bs =>
      bind (flatMap f l') (fun rest => Normal (bs ++ rest)%list))
  end.

End JS.

(** ** The runtime: what a plain object inherits

    [obj[key]] reads an own property of [obj] or, when there is none of
    that name, a property of its prototype chain.  The data objects of
    the dashboard are written as object literals, so that their
    prototype is [%Object.prototype%], whose properties ([constructor],
    [toString], [__proto__], ...) hold built-in functions and objects.
    This module holds those built-in objects, as far as a read of the
    filter can reach them, with their properties as ECMAScript 2024
    lists them (Annex B included); all of these properties are
    non-enumerable. *)

Module Realm.
Import JS.

(** A built-in function other than the four constructors has two
    properties of its own, its name and its length. *)
Inductive intrinsic :=
| Object_prototype
| Function_prototype
| String_prototype
| Number_prototype
| Object_constructor
| Function_constructor
| String_constructor
| Number_constructor
| builtin_function (name : string) (length : Z).

Inductive value :=
| undefined
| null
| number_value (x : number)
| string_value (s : string)
| object_value (o : intrinsic).

(** A property holds a value, or is the accessor [__proto__], or is one
    of the accessors [caller] and [arguments] of [%Function.prototype%],
    whose getter is [%ThrowTypeError%]. *)
Inductive property :=
| data (v : value)
| proto_accessor
| restricted.

Definition holds (name : string) (v : value) : string * property :=
  (name, data v).

Definition method (name : string) (length : Z) : string * property :=
  (name, data (object_value (builtin_function name length))).

(** A property that holds a function whose name is not the key. *)
Definition alias (key name : string) (length : Z) : string * property :=
  (key, data (object_value (builtin_function name length))).

Definition accessor (name : string) (p : property) : string * property :=
  (name, p).

Definition function_properties (name : string) (length : Z)
  : object property :=
  [ holds "length" (number_value (of_Z length));
    holds "name" (string_value name) ].

Definition own (o : intrinsic) : object property :=
  match o with
  | Object_prototype =>
      [ holds "constructor" (object_value Object_constructor);
        method "__defineGetter__" 2;
        method "__defineSetter__" 2;
        method "hasOwnProperty" 1;
        method "__lookupGetter__" 1;
        method "__lookupSetter__" 1;
        method "isPrototypeOf" 1;
        method "propertyIsEnumerable" 1;
        method "toString" 0;
        method "valueOf" 0;
        accessor "__proto__" proto_accessor;
        method "toLocaleString" 0 ]
  | Function_prototype =>
      (function_properties "" 0 ++
       [ accessor "arguments" restricted;
         accessor "caller" restricted;
         holds "constructor" (object_value Function_constructor);
         method "apply" 2;
         method "bind" 1;
         method "call" 1;
         method "toString" 0 ])%list
  | String_prototype =>
      [ holds "length" (number_value (of_Z 0));
        holds "constructor" (object_value String_constructor);
        method "anchor" 1; method "at" 1; method "big" 0;
        method "blink" 0; method "bold" 0; method "charAt" 1;
        method "charCodeAt" 1; method "codePointAt" 1; method "concat" 1;
        method "endsWith" 1; method "fontcolor" 1; method "fontsize" 1;
        method "fixed" 0; method "includes" 1; method "indexOf" 1;
        method "isWellFormed" 0; method "italics" 0;
        method "lastIndexOf" 1; method "link" 1;
        method "localeCompare" 1; method "match" 1; method "matchAll" 1;
        method "normalize" 0; method "padEnd" 1; method "padStart" 1;
        method "repeat" 1; method "replace" 2; method "replaceAll" 2;
        method "search" 1; method "slice" 2; method "small" 0;
        method "split" 2; method "strike" 0; method "sub" 0;
        method "substr" 2; method "substring" 2; method "sup" 0;
        method "startsWith" 1; method "toString" 0;
        method "toWellFormed" 0; method "trim" 0;
        method "trimStart" 0; alias "trimLeft" "trimStart" 0;
        method "trimEnd" 0; alias "trimRight" "trimEnd" 0;
        method "toLocaleLowerCase" 0; method "toLocaleUpperCase" 0;
        method "toLowerCase" 0; method "toUpperCase" 0;
        method "valueOf" 0 ]
  | Number_prototype =>
      [ holds "constructor" (object_value Number_constructor);
        method "toExponential" 1;
        method "toFixed" 1;
        method "toPrecision" 1;
        method "toString" 1;
        method "valueOf" 0;
        method "toLocaleString" 0 ]
  | Object_constructor =>
      (function_properties "Object" 1 ++
       [ holds "prototype" (object_value Object_prototype);
         method "assign" 2;
         method "getOwnPropertyDescriptor" 2;
         method "getOwnPropertyDescriptors" 1;
         method "getOwnPropertyNames" 1;
         method "getOwnPropertySymbols" 1;
         method "hasOwn" 2;
         method "is" 2;
         method "preventExtensions" 1;
         method "seal" 1;
         method "create" 2;
         method "defineProperties" 2;
         method "defineProperty" 3;
         method "freeze" 1;
         method "getPrototypeOf" 1;
         method "setPrototypeOf" 2;
         method "isExtensible" 1;
         method "isFrozen" 1;
         method "isSealed" 1;
         method "keys" 1;
         method "entries" 1;
         method "fromEntries" 1;
         method "values" 1;
         method "groupBy" 2 ])%list
  | Function_constructor =>
      (function_properties "Function" 1 ++
       [ holds "prototype" (object_value Function_prototype) ])%list
  | String_constructor =>
      (function_properties "String" 1 ++
       [ holds "prototype" (object_value String_prototype);
         method "fromCharCode" 1;
         method "fromCodePoint" 1;
         method "raw" 1 ])%list
  | Number_constructor =>
      (function_properties "Number" 1 ++
       [ holds "prototype" (object_value Number_prototype);
         method "isFinite" 1;
         method "isInteger" 1;
         method "isNaN" 1;
         method "isSafeInteger" 1;
         method "parseFloat" 1;
         method "parseInt" 2;
         holds "MAX_VALUE"
           (number_value (S754_finite false 9007199254740991 971));
         holds "MIN_VALUE" (number_value (S754_finite false 1 (-1074)));
         holds "NaN" (number_value S754_nan);
         holds "NEGATIVE_INFINITY" (number_value (S754_infinity true));
         holds "POSITIVE_INFINITY" (number_value (S754_infinity false));
         holds "MAX_SAFE_INTEGER" (number_value (of_Z (2 ^ 53 - 1)));
         holds "MIN_SAFE_INTEGER" (number_value (of_Z (- (2 ^ 53 - 1))));
         holds "EPSILON"
           (number_value (S754_finite false 4503599627370496 (-104))) ])%list
  | builtin_function name length => function_properties name length
  end.

(** [[Prototype]]: that of a function is [%Function.prototype%]. *)
Definition prototype (o : intrinsic) : option intrinsic :=
  match o with
  | Object_prototype => None
  | Function_prototype | String_prototype | Number_prototype =>
      Some Object_prototype
  | _ => Some Function_prototype
  end.

(** The property of that name of an object or, failing that, of its
    prototype chain, which is three objects long at most. *)
Fixpoint find (further : nat) (o : intrinsic) (key : string)
  : option property :=
  match get (own o) key with
  | Some p => Some p
  | None =>
      match further, prototype o with
      | S further', Some parent => find further' parent key
      | _, _ => None
      end
  end.

Definition lookup (o : intrinsic) (key : string) : option property :=
  find 2 o key.

(** The value of a property that was found, for a receiver whose
    prototype is [parent]: [__proto__] gives that prototype. *)
Definition read (parent : value) (p : option property) : completion value :=
  match p with
  | None => Normal undefined
  | Some (data v) => Normal v
  | Some proto_accessor => Normal parent
  | Some restricted => Throw TypeError
  end.

Definition prototype_value (o : intrinsic) : value :=
  match prototype o with
  | Some parent => object_value parent
  | None => null
  end.

(** The characters of a text, each with its index as a key. *)
Fixpoint indexed (i : Z) (s : string) : object value :=
  match s with
  | EmptyString => []
  | String c s' =>
      (digits_of i, string_value (String c EmptyString)) :: indexed (i + 1) s'
  end.

(** The own properties of a string: its length and its characters. *)
Definition string_property (s : string) (key : string) : option value :=
  if String.eqb key "length"
  then Some (number_value (of_Z (Z.of_nat (String.length s))))
  else get (indexed 0 s) key.

(** [v[key]]: a string and a number are read as the objects that wrap
    them; nothing can be read from [undefined] and [null]. *)
Definition Get (v : value) (key : string) : completion value :=
  match v with
  | undefined | null => Throw TypeError
  | number_value _ =>
      read (object_value Number_prototype) (lookup Number_prototype key)
  | string_value s =>
      match string_property s key with
      | Some c => Normal c
      | None =>
          read (object_value String_prototype) (lookup String_prototype key)
      end
  | object_value o => read (prototype_value o) (lookup o key)
  end.

(** [obj[key]] for an object literal [obj] that has no own property
    [key]. *)
Definition inherited (key : string) : completion value :=
  read (object_value Object_prototype) (lookup Object_prototype key).

(** The names that an object literal inherits. *)
Definition inherited_names : list string := map fst (own Object_prototype).

Definition ToBoolean (v : value) : bool :=
  match v with
  | undefined | null => false
  | number_value x => truthy x
  | string_value s => negb (String.eqb s "")
  | object_value _ => true
  end.

(** [Object.entries(v)]: the enumerable own properties; a built-in
    object has none, a number has none, a string has its characters. *)
Definition Object_entries (v : value) : completion (object value) :=
  match v with
  | undefined | null => Throw TypeError
  | number_value _ => Normal []
  | string_value s => Normal (indexed 0 s)
  | object_value _ => Normal []
  end.

(** [v.map(callback)]: what [v.map] holds is called, and a value that is
    not a function cannot be called.  No value of this realm has a
    property [map] (lemma [Get_map]): the call always fails, and no
    built-in function is ever run. *)
Definition invoke_map {A : Type} (v : value) : completion A :=
  match Get v "map" with
  | Normal _ => Throw TypeError
  | Throw e => Throw e
  end.

End Realm.

(** ** The runtime: JSON *)

Module JSON.
Import JS.

#[local] Set Warnings "-register-all".

Inductive json :=
| JNull
| JBool (b : bool)
| JNum (x : number)
| JStr (s : string)
| JArr (items : list json)
| JObj (members : list (string * json)).

Definition dquote : ascii := "034".
Definition backslash : ascii := "092".
Definition newline : string := String "010" EmptyString.

Fixpoint join (sep : string) (l : list string) : string :=
  match l with
  | [] => ""
  | [s] => s
  | s :: l' => (s ++ sep ++ join sep l')%string
  end.

(** *** JSON.stringify(value, null, 2) *)

Definition hex_digit (n : nat) : ascii :=
  if (n <? 10)%nat then ascii_of_nat (48 + n) else ascii_of_nat (87 + n).

Definition escape_char (c : ascii) : list ascii :=
  let n := nat_of_ascii c in
  if Ascii.eqb c dquote then [backslash; dquote]
  else if Ascii.eqb c backslash then [backslash; backslash]
  else if (n =? 8)%nat then [backslash; "b"%char]
  else if (n =? 9)%nat then [backslash; "t"%char]
  else if (n =? 10)%nat then [backslash; "n"%char]
  else if (n =? 12)%nat then [backslash; "f"%char]
  else if (n =? 13)%nat then [backslash; "r"%char]
  else if (n <? 32)%nat then
    [backslash; "u"%char; "0"%char; "0"%char;
     hex_digit (n / 16); hex_digit (n mod 16)]
  else [c].

Definition quote (s : string) : string :=
  string_of_list_ascii
    (dquote :: flat_map escape_char (list_ascii_of_string s) ++ [dquote]).

Definition number_text (x : number) : string :=
  if is_finite x then Number_toString x else "null".

Fixpoint stringify (indent : string) (v : json) : string :=
  let inner := (indent ++ "  ")%string in
  let separator := ("," ++ newline ++ inner)%string in
  match v with
  | JNull => "null"
  | JBool b => if b then "true" else "false"
  | JNum x => number_text x
  | JStr s => quote s
  | JArr [] => "[]"
  | JArr items =>
      ("[" ++ newline ++ inner ++
       join separator (map (stringify inner) items) ++
       newline ++ indent ++ "]")%string
  | JObj [] => "{}"
  | JObj members =>
      ("{" ++ newline ++ inner ++
       join separator
         (map (fun kv => (quote (fst kv) ++ ": " ++ stringify inner (snd kv))%string)
              members) ++
       newline ++ indent ++ "}")%string
  end.

Definition JSON_stringify (v : json) : string := stringify "" v.

(** *** JSON.parse

    A scanner turns the text into tokens, a parser turns the tokens into
    a value.  Escapes [\u....] are outside this model: the scanner
    rejects them ([None] stands for a SyntaxError or for such a text). *)

Inductive token :=
| TLBracket | TRBracket | TLBrace | TRBrace | TComma | TColon
| TNull | TBool (b : bool) | TNum (x : number) | TStr (s : string).

Definition is_digit (c : ascii) : bool :=
  let n := nat_of_ascii c in ((48 <=? n) && (n <=? 57))%nat.

Fixpoint span_digits (cs : list ascii) : list ascii * list ascii :=
  match cs with
  | c :: cs' =>
      if is_digit c then
        let '(ds, rest) := span_digits cs' in (c :: ds, rest)
      else ([], cs)
  | [] => ([], [])
  end.

Definition digits_value (ds : list ascii) : Z :=
  match take_digits 10 ds None with
  | Some n => n
  | None => 0
  end.

(** The number nearest to [d * 10^e]. *)
Definition of_decimal (neg : bool) (d e : Z) : number :=
  if d =? 0 then S754_zero neg
  else if 0 <=? e then
    binary_normalize prec emax ((if neg then - d else d) * 10 ^ e) 0 neg
  else
    let '(q, e', l) := SFdiv_core_binary prec emax d 0 (10 ^ (- e)) 0 in
    binary_round_aux prec emax neg q e' l.

(** [-? int frac? exp?] with [int] = [0] or a digit run without leading
    zero. *)
Definition minus_sign (cs : list ascii) : bool * list ascii :=
  match cs with
  | c :: r => if Ascii.eqb c "-" then (true, r) else (false, cs)
  | [] => (false, cs)
  end.

Definition leading_zero (int : list ascii) : bool :=
  match int with
  | c :: _ :: _ => Ascii.eqb c "0"
  | _ => false
  end.

Definition fraction_part (cs : list ascii)
  : option (list ascii * list ascii) :=
  match cs with
  | c :: r =>
      if Ascii.eqb c "." then
        match span_digits r with
        | ([], _) => None
        | (ds, r') => Some (ds, r')
        end
      else Some ([], cs)
  | [] => Some ([], cs)
  end.

Definition exponent_part (cs : list ascii) : option Z :=
  match cs with
  | [] => Some 0
  | c :: r =>
      if Ascii.eqb c "e" || Ascii.eqb c "E" then
        let '(eneg, r1) :=
          match r with
          | c' :: r' =>
              if Ascii.eqb c' "-" then (true, r')
              else if Ascii.eqb c' "+" then (false, r')
              else (false, r)
          | [] => (false, r)
          end in
        match span_digits r1 with
        | ([], _) => None
        | (ds, []) =>
            Some (if eneg then - digits_value ds else digits_value ds)
        | (_, _ :: _) => None
        end
      else None
  end.

Definition unsigned_number (neg : bool) (cs : list ascii) : option number :=
  let '(int, cs2) := span_digits cs in
  match int with
  | [] => None
  | _ :: _ =>
      if leading_zero int then None
      else
        match fraction_part cs2 with
        | None => None
        | Some (frac, cs3) =>
            match exponent_part cs3 with
            | None => None
            | Some x =>
                Some (of_decimal neg (digits_value (int ++ frac))
                        (x - Z.of_nat (List.length frac)))
            end
        end
  end.

Definition number_of (cs : list ascii) : option number :=
  let '(neg, cs1) := minus_sign cs in unsigned_number neg cs1.

Definition keyword (cs : list ascii) : option token :=
  let w := string_of_list_ascii cs in
  if String.eqb w "null" then Some TNull
  else if String.eqb w "true" then Some (TBool true)
  else if String.eqb w "false" then Some (TBool false)
  else None.

Inductive scan_state :=
| Idle
| InNumber (seen : list ascii)
| InWord (seen : list ascii)
| InString (seen : list ascii)
| InEscape (seen : list ascii).

Definition is_json_space (c : ascii) : bool :=
  let n := nat_of_ascii c in
  ((n =? 32) || (n =? 9) || (n =? 10) || (n =? 13))%nat.

Definition is_number_char (c : ascii) : bool :=
  is_digit c || Ascii.eqb c "-" || Ascii.eqb c "+" || Ascii.eqb c "."
  || Ascii.eqb c "e" || Ascii.eqb c "E".

Definition is_letter (c : ascii) : bool :=
  let n := nat_of_ascii c in ((97 <=? n) && (n <=? 122))%nat.

(** One character read between tokens. *)
Definition idle_step (c : ascii) : option (list token * scan_state) :=
  if is_json_space c then Some ([], Idle)
  else if Ascii.eqb c "[" then Some ([TLBracket], Idle)
  else if Ascii.eqb c "]" then Some ([TRBracket], Idle)
  else if Ascii.eqb c "{" then Some ([TLBrace], Idle)
  else if Ascii.eqb c "}" then Some ([TRBrace], Idle)
  else if Ascii.eqb c "," then Some ([TComma], Idle)
  else if Ascii.eqb c ":" then Some ([TColon], Idle)
  else if Ascii.eqb c dquote then Some ([], InString [])
  else if is_digit c || Ascii.eqb c "-" then Some ([], InNumber [c])
  else if is_letter c then Some ([], InWord [c])
  else None.

Definition unescape (c : ascii) : option ascii :=
  if Ascii.eqb c dquote then Some dquote
  else if Ascii.eqb c backslash then Some backslash
  else if Ascii.eqb c "/" then Some "/"%char
  else if Ascii.eqb c "b" then Some "008"%char
  else if Ascii.eqb c "f" then Some "012"%char
  else if Ascii.eqb c "n" then Some "010"%char
  else if Ascii.eqb c "r" then Some "013"%char
  else if Ascii.eqb c "t" then Some "009"%char
  else None.

Definition after (t : option token) (c : ascii)
  : option (list token * scan_state) :=
  match t, idle_step c with
  | Some t', Some (ts, st) => Some (t' :: ts, st)
  | _, _ => None
  end.

Definition scan_step (st : scan_state) (c : ascii)
  : option (list token * scan_state) :=
  match st with
  | Idle => idle_step c
  | InNumber seen =>
      if is_number_char c then Some ([], InNumber (c :: seen))
      else after (option_map TNum (number_of (rev seen))) c
  | InWord seen =>
      if is_letter c then Some ([], InWord (c :: seen))
      else after (keyword (rev seen)) c
  | InString seen =>
      if Ascii.eqb c dquote then
        Some ([TStr (string_of_list_ascii (rev seen))], Idle)
      else if Ascii.eqb c backslash then Some ([], InEscape seen)
      else if (nat_of_ascii c <? 32)%nat then None
      else Some ([], InString (c :: seen))
  | InEscape seen =>
      match unescape c with
      | Some c' => Some ([], InString (c' :: seen))
      | None => None
      end
  end.

Definition scan_end (st : scan_state) : option (list token) :=
  match st with
  | Idle => Some []
  | InNumber seen => option_map (fun x => [TNum x]) (number_of (rev seen))
  | InWord seen => option_map (fun t => [t]) (keyword (rev seen))
  | InString _ | InEscape _ => None
  end.

(** The tokens read from a run of characters, and the state after it. *)
Fixpoint scan_run (st : scan_state) (cs : list ascii)
  : option (list token * scan_state) :=
  match cs with
  | [] => Some ([], st)
  | c :: cs' =>
      match scan_step st c with
      | Some (ts, st') =>
          match scan_run st' cs' with
          | Some (ts', st'') => Some ((ts ++ ts')%list, st'')
          | None => None
          end
      | None => None
      end
  end.

Definition scan (cs : list ascii) : option (list token) :=
  match scan_run Idle cs with
  | Some (ts, st) =>
      match scan_end st with
      | Some ts' => Some (ts ++ ts')%list
      | None => None
      end
  | None => None
  end.

(** The parser, on a budget of nested calls. *)
Fixpoint parse_value (fuel : nat) (ts : list token)
  : option (json * list token) :=
  match fuel with
  | O => None
  | S fuel' =>
      match ts with
      | TNull :: r => Some (JNull, r)
      | TBool b :: r => Some (JBool b, r)
      | TNum x :: r => Some (JNum x, r)
      | TStr s :: r => Some (JStr s, r)
      | TLBracket :: TRBracket :: r => Some (JArr [], r)
      | TLBracket :: r =>
          match parse_items fuel' r with
          | Some (items, r') => Some (JArr items, r')
          | None => None
          end
      | TLBrace :: TRBrace :: r => Some (JObj [], r)
      | TLBrace :: r =>
          match parse_members fuel' r with
          | Some (members, r') => Some (JObj members, r')
          | None => None
          end
      | _ => None
      end
  end
with parse_items (fuel : nat) (ts : list token)
  : option (list json * list token) :=
  match fuel with
  | O => None
  | S fuel' =>
      match parse_value fuel' ts with
      | Some (v, TComma :: r) =>
          match parse_items fuel' r with
          | Some (vs, r') => Some (v :: vs, r')
          | None => None
          end
      | Some (v, TRBracket :: r) => Some ([v], r)
      | _ => None
      end
  end
with parse_members (fuel : nat) (ts : list token)
  : option (list (string * json) * list token) :=
  match fuel with
  | O => None
  | S fuel' =>
      match ts with
      | TStr k :: TColon :: r =>
          match parse_value fuel' r with
          | Some (v, TComma :: r') =>
              match parse_members fuel' r' with
              | Some (ms, r'') => Some ((k, v) :: ms, r'')
              | None => None
              end
          | Some (v, TRBrace :: r') => Some ([(k, v)], r')
          | _ => None
          end
      | _ => None
      end
  end.

Definition JSON_parse (text : string) : option json :=
  match scan (list_ascii_of_string text) with
  | Some ts =>
      match parse_value (S (List.length ts)) ts with
      | Some (v, []) => Some v
      | _ => None
      end
  | None => None
  end.

End JSON.

(** ** The runtime: Number.parseFloat

    Leading white space is skipped (its ASCII members) and the longest
    prefix that is a decimal literal is read: a sign, then [Infinity],
    or digits with a fraction and an exponent, each of which may be
    missing; the value is the number nearest to the literal, every digit
    of which counts.  When there is no such prefix the result is NaN. *)

Module NumberParsing.
Import JS JSON.

Fixpoint starts_with (prefix cs : list ascii) : bool :=
  match prefix, cs with
  | [], _ => true
  | a :: prefix', c :: cs' => Ascii.eqb a c && starts_with prefix' cs'
  | _ :: _, [] => false
  end.

(** The digits after a point, if a point comes next. *)
Definition fraction_prefix (cs : list ascii) : list ascii * list ascii :=
  match cs with
  | c :: r => if Ascii.eqb c "." then span_digits r else ([], cs)
  | [] => ([], cs)
  end.

(** The exponent, if one comes next: [e] or [E], a sign or none, and at
    least one digit. *)
Definition exponent_prefix (cs : list ascii) : Z :=
  match cs with
  | c :: r =>
      if Ascii.eqb c "e" || Ascii.eqb c "E" then
        let '(eneg, r1) :=
          match r with
          | c' :: r' =>
              if Ascii.eqb c' "-" then (true, r')
              else if Ascii.eqb c' "+" then (false, r')
              else (false, r)
          | [] => (false, r)
          end in
        match span_digits r1 with
        | ([], _) => 0
        | (ds, _) => if eneg then - digits_value ds else digits_value ds
        end
      else 0
  | [] => 0
  end.

Definition parseFloat (s : string) : number :=
  let '(neg, cs) := strip_sign (skip_whitespace (list_ascii_of_string s)) in
  if starts_with (list_ascii_of_string "Infinity") cs then S754_infinity neg
  else
    let '(int, cs1) := span_digits cs in
    let '(frac, cs2) := fraction_prefix cs1 in
    match (int ++ frac)%list with
    | [] => S754_nan
    | ds =>
        of_decimal neg (digits_value ds)
          (exponent_prefix cs2 - Z.of_nat (List.length frac))
    end.

End NumberParsing.

(** ** The data model *)

Import JS.

(** A quarter as the dataset stores it, under its year. *)
Module Stored.
Record entry := {
  quarter : number;
  sales_volume : number;
  profit : number
}.
End Stored.

(** A quarter as the components receive it: [{ ...q, year }]. *)
Record PeriodRecord := {
  quarter : number;
  sales_volume : number;
  profit : number;
  year : number
}.

(** category -> company -> year -> quarters *)
Definition Dataset := object (object (object (list Stored.entry))).

(** ** financial-dashboard.jsx: [FinancialDashboard] *)

Module FinancialDashboard.

Definition q (quarter sales_volume profit : Z) : Stored.entry :=
  {| Stored.quarter := of_Z quarter;
     Stored.sales_volume := of_Z sales_volume;
     Stored.profit := of_Z profit |}.

Definition sampleData : Dataset :=
  [ ("food"%string,
     [ ("MC"%string,
        [ ("2023"%string,
           [q 1 1000 100; q 2 2000 50; q 3 1800 120; q 4 2200 180]);
          ("2024"%string,
           [q 1 2100 150; q 2 2400 200; q 3 2600 220; q 4 2800 250]) ]) ]);
    ("technology"%string,
     [ ("TECH"%string,
        [ ("2023"%string,
           [q 1 5000 800; q 2 5500 900; q 3 6000 1000; q 4 6200 1100]);
          ("2024"%string,
           [q 1 6500 1200; q 2 7000 1300; q 3 7200 1400; q 4 7500 1500]) ]) ])
  ].

(** [{ ...q, year: Number.parseInt(year) }] *)
Definition with_year (year : string) (q : Stored.entry) : PeriodRecord :=
  {| quarter := Stored.quarter q;
     sales_volume := Stored.sales_volume q;
     profit := Stored.profit q;
     year := parseInt year |}.

(** [yearData ? yearData.map(...) : []] when [yearData] is not an array
    of the dataset but a value that the company inherits. *)
Definition of_yearData (yearData : Realm.value)
  : completion (list PeriodRecord) :=
  if Realm.ToBoolean yearData then Realm.invoke_map yearData else Normal [].

(** The rest of the filter when [companyData] is not an object of the
    dataset: the test, then one of the two branches. *)
Definition of_companyData (companyData : Realm.value) (selectedYear : string)
  : completion (list PeriodRecord) :=
  if negb (Realm.ToBoolean companyData) then Normal []
  else if String.eqb selectedYear "all" then
    bind (Realm.Object_entries companyData) (fun entries =>
    flatMap (fun entry => Realm.invoke_map (snd entry)) entries)
  else bind (Realm.Get companyData selectedYear) of_yearData.

(** The rest of the filter when [categoryData] is not an object of the
    dataset. *)
Definition of_categoryData (categoryData : Realm.value)
  (selectedYear selectedCompany : string)
  : completion (list PeriodRecord) :=
  if negb (Realm.ToBoolean categoryData) then Normal []
  else
    bind (Realm.Get categoryData selectedCompany) (fun companyData =>
    of_companyData companyData selectedYear).

(** The memoised [filteredData], as a function of the dataset and of the
    three pieces of selection state.  The dataset, its categories and
    its companies are object literals and the years hold arrays: what
    [get] finds is truthy, and where it finds nothing the read goes on
    to what an object literal inherits. *)
Definition filteredData (dataset : Dataset)
  (selectedCategory selectedYear selectedCompany : string)
  : completion (list PeriodRecord) :=
  match get dataset selectedCategory with
  | Some categoryData =>
      match get categoryData selectedCompany with
      | Some companyData =>
          if String.eqb selectedYear "all" then
            Normal
              (flat_map
                 (fun entry => map (with_year (fst entry)) (snd entry))
                 (Object_entries companyData))
          else
            match get companyData selectedYear with
            | Some yearData => Normal (map (with_year selectedYear) yearData)
            | None => bind (Realm.inherited selectedYear) of_yearData
            end
      | None =>
          bind (Realm.inherited selectedCompany) (fun companyData =>
          of_companyData companyData selectedYear)
      end
  | None =>
      bind (Realm.inherited selectedCategory) (fun categoryData =>
      of_categoryData categoryData selectedYear selectedCompany)
  end.

Definition categories : list string := Object_keys sampleData.

(** [Object.keys(sampleData[selectedCategory] || {})]: what the dataset
    inherits under a name is a built-in object, which has no enumerable
    property, as [{}] has none. *)
Definition companies (selectedCategory : string) : list string :=
  match get sampleData selectedCategory with
  | Some categoryData => Object_keys categoryData
  | None => []
  end.

Definition years : list string :=
  ["all"%string; "2023"%string; "2024"%string].

End FinancialDashboard.

(** ** metrics-cards: [MetricsCards] *)

Module MetricsCards.

Definition formatCurrency (value : value) : string := format_currency value.

Definition formatNumber (value : value) : string := format_decimal value.

Record Metrics := {
  totalSales : number;
  totalProfit : number;
  avgProfitMargin : number;
  growthRate : number;
  isGrowthPositive : bool
}.

Definition calculateMetrics (data : option (list PeriodRecord)) : Metrics :=
  match data with
  | None | Some [] =>
      {| totalSales := of_Z 0;
         totalProfit := of_Z 0;
         avgProfitMargin := of_Z 0;
         growthRate := of_Z 0;
         isGrowthPositive := false |}
  | Some data =>
      let totalSales :=
        fold_left (fun sum item => add sum (sales_volume item)) data (of_Z 0) in
      let totalProfit :=
        fold_left (fun sum item => add sum (profit item)) data (of_Z 0) in
      let avgProfitMargin := mul (div totalProfit totalSales) (of_Z 100) in
      let firstQuarter := nth_error data 0 in
      let lastQuarter := nth_error data (List.length data - 1) in
      let growthRate :=
        match firstQuarter, lastQuarter with
        | Some firstQuarter, Some lastQuarter =>
            mul (div (sub (profit lastQuarter) (profit firstQuarter))
                     (profit firstQuarter))
                (of_Z 100)
        | _, _ => of_Z 0
        end in
      {| totalSales := totalSales;
         totalProfit := totalProfit;
         avgProfitMargin := avgProfitMargin;
         growthRate := Math_abs growthRate;
         isGrowthPositive := gt growthRate (of_Z 0) |}
  end.

Record CardTrend := {
  trend_value : number;
  isPositive : bool;
  label : string
}.

Record Card := {
  title : string;
  value : string;
  description : string;
  trend : option CardTrend
}.

Definition cards (data : option (list PeriodRecord)) : list Card :=
  let metrics := calculateMetrics data in
  [ {| title := "Total Sales Volume";
       value := formatNumber (Num (totalSales metrics));
       description := "Cumulative sales across all periods";
       trend := None |};
    {| title := "Total Profit";
       value := formatCurrency (Num (totalProfit metrics));
       description := "Total profit generated";
       trend := None |};
    {| title := "Average Profit Margin";
       value := (toFixed 2 (avgProfitMargin metrics) ++ "%")%string;
       description := "Overall profitability ratio";
       trend :=
         Some {| trend_value := avgProfitMargin metrics;
                 isPositive := gt (avgProfitMargin metrics) (of_Z 10);
                 label := if gt (avgProfitMargin metrics) (of_Z 10)
                          then "Healthy" else "Below Target" |} |};
    {| title := "Growth Rate";
       value := (toFixed 1 (growthRate metrics) ++ "%")%string;
       description := "Period-over-period growth";
       trend :=
         Some {| trend_value := growthRate metrics;
                 isPositive := isGrowthPositive metrics;
                 label := if isGrowthPositive metrics
                          then "Growing" else "Declining" |} |} ].

End MetricsCards.

(** ** financial-dashboard.jsx: [ExportButtons] *)

Module ExportButtons.
Import JSON.

(** The calls an export makes on the browser, in order.  [link.click()]
    is the delivery of the file. *)
Inductive effect :=
| new_Blob (content type : string)
| createElement (tagName : string)
| createObjectURL
| setAttribute (name value : string)
| set_visibility (value : string)
| appendChild
| click
| removeChild.

Definition effect_eq_dec (a b : effect) : {a = b} + {a <> b}.
Proof. repeat decide equality. Defined.

(** The text an object URL is written as. *)
Definition url : string := "blob:".

Definition download (content type filename : string) : list effect :=
  [ new_Blob content type;
    createElement "a";
    createObjectURL;
    setAttribute "href" url;
    setAttribute "download" filename;
    set_visibility "hidden";
    appendChild;
    click;
    removeChild ].

Definition headers : list string :=
  ["Year"; "Quarter"; "Sales Volume"; "Profit"; "Profit Margin"]%string.

Definition csv_row (item : PeriodRecord) : string :=
  let profitMargin :=
    toFixed 2 (mul (div (profit item) (sales_volume item)) (of_Z 100)) in
  join ","
    [ Number_toString (year item);
      ("Q" ++ Number_toString (quarter item))%string;
      Number_toString (sales_volume item);
      Number_toString (profit item);
      (profitMargin ++ "%")%string ].

Definition csvContent (data : list PeriodRecord) : string :=
  join newline (join "," headers :: map csv_row data).

Definition exportToCSV (data : option (list PeriodRecord)) : list effect :=
  match data with
  | None | Some [] => []
  | Some data =>
      download (csvContent data) "text/csv;charset=utf-8;" "financial-data.csv"
  end.

(** The own properties of a record, in creation order. *)
Definition record_json (item : PeriodRecord) : json :=
  JObj [ ("quarter"%string, JNum (quarter item));
         ("sales_volume"%string, JNum (sales_volume item));
         ("profit"%string, JNum (profit item));
         ("year"%string, JNum (year item)) ].

Definition data_json (data : list PeriodRecord) : json :=
  JArr (map record_json data).

Definition jsonContent (data : list PeriodRecord) : string :=
  JSON_stringify (data_json data).

Definition exportToJSON (data : option (list PeriodRecord)) : list effect :=
  match data with
  | None | Some [] => []
  | Some data =>
      download (jsonContent data) "application/json;charset=utf-8;"
        "financial-data.json"
  end.

(** What a reader of the file gets back from the parsed text. *)
Definition json_number (v : json) : option number :=
  match v with JNum x => Some x | _ => None end.

Definition json_record (v : json) : option PeriodRecord :=
  match v with
  | JObj [ (k1, v1); (k2, v2); (k3, v3); (k4, v4) ] =>
      if String.eqb k1 "quarter" && String.eqb k2 "sales_volume"
         && String.eqb k3 "profit" && String.eqb k4 "year"
      then
        match json_number v1, json_number v2, json_number v3, json_number v4
        with
        | Some a, Some b, Some c, Some d =>
            Some {| quarter := a; sales_volume := b; profit := c; year := d |}
        | _, _, _, _ => None
        end
      else None
  | _ => None
  end.

Fixpoint json_records (vs : list json) : option (list PeriodRecord) :=
  match vs with
  | [] => Some []
  | v :: vs' =>
      match json_record v, json_records vs' with
      | Some r, Some rs => Some (r :: rs)
      | _, _ => None
      end
  end.

Definition read_back (text : string) : option (list PeriodRecord) :=
  match JSON_parse text with
  | Some (JArr items) => json_records items
  | _ => None
  end.

End ExportButtons.

(** ** financial-table.jsx: [FinancialTable] *)

Module FinancialTable.

Definition formatCurrency (value : value) : string := format_currency value.

Definition formatNumber (value : value) : string := format_decimal value.

Record Trend := {
  percentage : string;
  isPositive : bool
}.

Definition getProfitTrend (current : number) (previous : value)
  : option Trend :=
  if negb (ToBoolean previous) then None
  else
    let previous := ToNumber previous in
    let change := mul (div (sub current previous) previous) (of_Z 100) in
    Some {| percentage := toFixed 1 (Math_abs change);
            isPositive := gt change (of_Z 0) |}.

(** A body row: its cells, left to right.  The variant of the margin
    badge is left out. *)
Record Row := {
  key : string;
  year_cell : string;
  quarter_cell : string;
  sales_cell : string;
  profit_cell : string;
  margin_cell : string;
  trend_cell : option Trend
}.

Definition row (data : list PeriodRecord) (item : PeriodRecord)
  (index : nat) : Row :=
  let profitMargin :=
    toFixed 2 (mul (div (profit item) (sales_volume item)) (of_Z 100)) in
  let previousItem :=
    if (0 <? index)%nat then nth_error data (index - 1) else None in
  let trend :=
    getProfitTrend (profit item)
      (match previousItem with
       | Some p => Num (profit p)
       | None => Undefined
       end) in
  {| key := (Number_toString (year item) ++ "-" ++
             Number_toString (quarter item))%string;
     year_cell := Number_toString (year item);
     quarter_cell := ("Q" ++ Number_toString (quarter item))%string;
     sales_cell := formatNumber (Num (sales_volume item));
     profit_cell := formatCurrency (Num (profit item));
     margin_cell := (profitMargin ++ "%")%string;
     trend_cell := trend |}.

(** [data.map((item, index) => ...)] *)
Fixpoint mapi {A B : Type} (f : A -> nat -> B) (index : nat) (l : list A)
  : list B :=
  match l with
  | [] => []
  | a :: l' => f a index :: mapi f (S index) l'
  end.

Inductive TableBody :=
| NoData (message : string)
| Rows (rows : list Row).

Definition body (data : list PeriodRecord) : TableBody :=
  match data with
  | [] => NoData "No data available for the selected filters"
  | _ => Rows (mapi (row data) 0%nat data)
  end.

(** The variant of the badge around the margin of a row, which [Row]
    leaves out:
    [Number.parseFloat(profitMargin) > 10 ? "default" : "secondary"]. *)
Definition margin_variant (item : PeriodRecord) : string :=
  let profitMargin :=
    toFixed 2 (mul (div (profit item) (sales_volume item)) (of_Z 100)) in
  if gt (NumberParsing.parseFloat profitMargin) (of_Z 10)
  then "default" else "secondary".

End FinancialTable.

(** ** financial-chart: [FinancialChart] *)

Module FinancialChart.

Definition formatCurrency (value : value) : string :=
  format_currency (Num (or_else value (of_Z 0))).

Definition formatNumber (value : value) : string :=
  format_decimal (Num (or_else value (of_Z 0))).

(** An item as the chart reads it: the item itself may be missing
    ([item?.]), and so may each of its properties. *)
Module Item.
Record t := {
  quarter : value;
  sales_volume : value;
  profit : value;
  year : value
}.
End Item.

(** A point of [chartData]: the properties of the item, the label
    [period], and the two figures with their defaults. *)
Module Point.
Record t := {
  quarter : value;
  year : value;
  period : string;
  sales_volume : number;
  profit : number
}.
End Point.

(** [item?.f] *)
Definition field (item : option Item.t) (f : Item.t -> value) : value :=
  match item with
  | Some item => f item
  | None => Undefined
  end.

(** [v || d] inside a template literal: the number as [toString] writes
    it, or the default. *)
Definition text_or (v : value) (d : string) : string :=
  if ToBoolean v then Number_toString (ToNumber v) else d.

Definition chartData (data : option (list (option Item.t)))
  : list Point.t :=
  map
    (fun item =>
       {| Point.quarter := field item Item.quarter;
          Point.year := field item Item.year;
          Point.period :=
            (text_or (field item Item.year) "N/A" ++ " Q" ++
             text_or (field item Item.quarter) "N/A")%string;
          Point.sales_volume := or_else (field item Item.sales_volume) (of_Z 0);
          Point.profit := or_else (field item Item.profit) (of_Z 0) |})
    (match data with Some data => data | None => [] end).

(** What the component shows: two cards without a chart, or the bar
    chart of [sales_volume] and the line chart of [profit], both over
    [chartData] with [period] on the horizontal axis. *)
Inductive View :=
| NoData (description message : string)
| Charts (points : list Point.t).

Definition view (data : option (list (option Item.t))) : View :=
  match data with
  | None | Some [] => NoData "No data available" "No data to display"
  | Some _ => Charts (chartData data)
  end.

(** A record of the filter, as an item. *)
Definition of_record (r : PeriodRecord) : option Item.t :=
  Some {| Item.quarter := Num (quarter r);
          Item.sales_volume := Num (sales_volume r);
          Item.profit := Num (profit r);
          Item.year := Num (year r) |}.

End FinancialChart.

(** ** financial-dashboard.jsx: the state of [FinancialDashboard]

    Three pieces of state, each set by its select box to one of the
    items that the box offers; the filtered data go to the export
    buttons, to the metric cards and to the two tabs, the charts and the
    table. *)

Module Dashboard.

Record State := {
  selectedCategory : string;
  selectedYear : string;
  selectedCompany : string
}.

(** [useState("food")], [useState("all")], [useState("MC")] *)
Definition initial : State :=
  {| selectedCategory := "food";
     selectedYear := "all";
     selectedCompany := "MC" |}.

Inductive Event :=
| setSelectedCategory (value : string)
| setSelectedYear (value : string)
| setSelectedCompany (value : string).

Definition update (s : State) (e : Event) : State :=
  match e with
  | setSelectedCategory v =>
      {| selectedCategory := v;
         selectedYear := selectedYear s;
         selectedCompany := selectedCompany s |}
  | setSelectedYear v =>
      {| selectedCategory := selectedCategory s;
         selectedYear := v;
         selectedCompany := selectedCompany s |}
  | setSelectedCompany v =>
      {| selectedCategory := selectedCategory s;
         selectedYear := selectedYear s;
         selectedCompany := v |}
  end.

Definition among (v : string) (items : list string) : bool :=
  existsb (String.eqb v) items.

(** The value of the event is one of the items of its select box. *)
Definition offered (s : State) (e : Event) : bool :=
  match e with
  | setSelectedCategory v => among v FinancialDashboard.categories
  | setSelectedYear v => among v FinancialDashboard.years
  | setSelectedCompany v =>
      among v (FinancialDashboard.companies (selectedCategory s))
  end.

(** The state after a sequence of selections, each among the items
    offered when it is made. *)
Fixpoint play (s : State) (events : list Event) : option State :=
  match events with
  | [] => Some s
  | e :: events' =>
      if offered s e then play (update s e) events' else None
  end.

Definition filteredData (s : State) : completion (list PeriodRecord) :=
  FinancialDashboard.filteredData FinancialDashboard.sampleData
    (selectedCategory s) (selectedYear s) (selectedCompany s).

(** What the children are given and show; the two exports are what a
    click on the menu item does.  An exception of the filter is one of
    the rendering: nothing is shown. *)
Record Rendered := {
  exportToCSV : list ExportButtons.effect;
  exportToJSON : list ExportButtons.effect;
  category_items : list string;
  company_items : list string;
  year_items : list string;
  cards : list MetricsCards.Card;
  chart : FinancialChart.View;
  table : FinancialTable.TableBody
}.

Definition render (s : State) : completion Rendered :=
  bind (filteredData s) (fun data =>
  Normal
    {| exportToCSV := ExportButtons.exportToCSV (Some data);
       exportToJSON := ExportButtons.exportToJSON (Some data);
       category_items := FinancialDashboard.categories;
       company_items := FinancialDashboard.companies (selectedCategory s);
       year_items := FinancialDashboard.years;
       cards := MetricsCards.cards (Some data);
       chart :=
         FinancialChart.view (Some (map FinancialChart.of_record data));
       table := FinancialTable.body data |}).

End Dashboard.

(** ** The words of the specification *)

Module Spec.

(** The sum of a sequence of numbers, taken from left to right from zero. *)
Fixpoint sum_from (acc : number) (xs : list number) : number :=
  match xs with
  | [] => acc
  | x :: xs' => sum_from (add acc x) xs'
  end.

Definition sum (xs : list number) : number := sum_from (of_Z 0) xs.

(** The sum of a sequence of integers, and the sum of their magnitudes. *)
Definition total (zs : list Z) : Z := fold_right Z.add 0 zs.

Definition magnitude (zs : list Z) : Z :=
  fold_right (fun z acc => Z.abs z + acc) 0 zs.

(** A stored quarter annotated with a year. *)
Definition annotate (y : number) (q : Stored.entry) : PeriodRecord :=
  {| quarter := Stored.quarter q;
     sales_volume := Stored.sales_volume q;
     profit := Stored.profit q;
     year := y |}.

(** The per-row profit margin, [profit / sales_volume * 100]. *)
Definition margin (item : PeriodRecord) : number :=
  mul (div (profit item) (sales_volume item)) (of_Z 100).

(** The texts of the values that are not finite. *)
Definition non_finite_texts : list string :=
  ["NaN"; "Infinity"; "-Infinity"]%string.

(** A text that ends with a point and exactly [f] digits. *)
Definition fraction_digits (f : nat) (text : string) : Prop :=
  exists int_part frac_part : string,
    text = (int_part ++ "." ++ frac_part)%string /\
    String.length frac_part = f /\
    forallb JSON.is_digit (list_ascii_of_string frac_part) = true.

(** Every derived value that a component hands to [toFixed] is finite. *)
Definition displays_finite (data : list PeriodRecord) : bool :=
  let m := MetricsCards.calculateMetrics (Some data) in
  is_finite (MetricsCards.avgProfitMargin m)
  && is_finite (MetricsCards.growthRate m)
  && forallb (fun item => is_finite (margin item)) data.

Definition record (y q s p : Z) : PeriodRecord :=
  {| quarter := of_Z q; sales_volume := of_Z s; profit := of_Z p;
     year := of_Z y |}.

(** The pieces of a text between the occurrences of a separator. *)
Fixpoint split_on (sep : ascii) (text : string) : list string :=
  match text with
  | EmptyString => [EmptyString]
  | String c text' =>
      if Ascii.eqb c sep then EmptyString :: split_on sep text'
      else
        match split_on sep text' with
        | piece :: pieces => String c piece :: pieces
        | [] => [String c EmptyString]
        end
  end.

Definition free_of (sep : ascii) (text : string) : bool :=
  forallb (fun c => negb (Ascii.eqb c sep)) (list_ascii_of_string text).

(** The characters a number is written with. *)
Definition number_char (c : ascii) : bool :=
  JSON.is_digit c
  || existsb (Ascii.eqb c) (list_ascii_of_string "+-.eInfityNa").

Definition numeric (text : string) : bool :=
  forallb number_char (list_ascii_of_string text).

(** Finite and, in magnitude, below [10^21]: the numbers that [toFixed]
    writes in fixed notation. *)
Definition below_1e21 (x : number) : bool :=
  match x with
  | S754_zero _ => true
  | S754_finite _ m e => negb (at_least_1e21 m e)
  | _ => false
  end.

(** An integer of magnitude below [2^53], as a number. *)
Definition integral (x : number) : Prop :=
  exists z : Z, Z.abs z < 2 ^ 53 /\ x = of_Z z.

Definition integral_record (item : PeriodRecord) : Prop :=
  integral (quarter item) /\ integral (sales_volume item)
  /\ integral (profit item) /\ integral (year item).

(** A number whose JSON text is read back as the number itself.  A
    number that is not finite is written [null] and is not of these. *)
Definition readable (x : number) : Prop :=
  JSON.number_of (list_ascii_of_string (JSON.number_text x)) = Some x.

Definition readable_record (item : PeriodRecord) : Prop :=
  readable (quarter item) /\ readable (sales_volume item)
  /\ readable (profit item) /\ readable (year item).

(** A number that is finite and is not -0, in the canonical form of the
    numbers: a mantissa of 53 bits, or of fewer at the least exponent. *)
Definition negative_zero (x : number) : bool :=
  match x with S754_zero true => true | _ => false end.

Definition finite_figure (x : number) : bool :=
  valid_binary prec emax x && is_finite x && negb (negative_zero x).

Definition finite_record (item : PeriodRecord) : bool :=
  finite_figure (quarter item) && finite_figure (sales_volume item)
  && finite_figure (profit item) && finite_figure (year item).

(** The decimal numeral of an integer. *)
Definition numeral (z : Z) : string :=
  ((if (z <? 0)%Z then "-" else "") ++ digits_of (Z.abs z))%string.

(** The tokens of the JSON text of a record, and of a sequence of
    records that is not empty. *)
Definition record_tokens (item : PeriodRecord) : list JSON.token :=
  [ JSON.TLBrace;
    JSON.TStr "quarter"; JSON.TColon; JSON.TNum (quarter item); JSON.TComma;
    JSON.TStr "sales_volume"; JSON.TColon; JSON.TNum (sales_volume item);
    JSON.TComma;
    JSON.TStr "profit"; JSON.TColon; JSON.TNum (profit item); JSON.TComma;
    JSON.TStr "year"; JSON.TColon; JSON.TNum (year item);
    JSON.TRBrace ].

Fixpoint items_tokens (first : PeriodRecord) (rest : list PeriodRecord)
  : list JSON.token :=
  match rest with
  | [] => record_tokens first
  | next :: rest' =>
      (record_tokens first ++ JSON.TComma :: items_tokens next rest')%list
  end.

Definition csv_header : string :=
  "Year,Quarter,Sales Volume,Profit,Profit Margin".

(** The example of the specification: MC in 2023. *)
Definition food_MC_2023 : list PeriodRecord :=
  [ record 2023 1 1000 100; record 2023 2 2000 50;
    record 2023 3 1800 120; record 2023 4 2200 180 ].

End Spec.

(** ** Notions of the further properties *)

Module Notions.

(** Every key is the numeral of a natural number below [2^32 - 1]: an
    array index, as the years of the dashboard are. *)
Definition indexed_keys {V : Type} (o : object V) : Prop :=
  forall k, In k (map fst o) ->
    exists n, 0 <= n < 2 ^ 32 - 1 /\ k = digits_of n.

(** The index that a key reads as. *)
Definition index_of {V : Type} (kv : string * V) : Z :=
  match array_index (fst kv) with
  | Some n => n
  | None => 0
  end.

(** The years of the quarters of a company, one for each quarter. *)
Definition years_of (indexed : list (Z * (string * list Stored.entry)))
  : list Z :=
  flat_map (fun e => repeat (fst e) (List.length (snd (snd e)))) indexed.

(** A company whose later year was created first, and the same company
    with its years created in order. *)
Definition later_year_first : Dataset :=
  [ ("food"%string,
     [ ("MC"%string,
        [ ("2024"%string, [FinancialDashboard.q 1 2100 150]);
          ("2023"%string, [FinancialDashboard.q 1 1000 100]) ]) ]) ].

Definition earlier_year_first : Dataset :=
  [ ("food"%string,
     [ ("MC"%string,
        [ ("2023"%string, [FinancialDashboard.q 1 1000 100]);
          ("2024"%string, [FinancialDashboard.q 1 2100 150]) ]) ]) ].

(** The key of a row of the table and the label of a point of the
    charts, as functions of the record. *)
Definition key_of (item : PeriodRecord) : string :=
  (Number_toString (year item) ++ "-" ++ Number_toString (quarter item))%string.

Definition period_of (r : PeriodRecord) : string :=
  (Number_toString (year r) ++ " Q" ++ Number_toString (quarter r))%string.

(** The invariant of the data model on a company: every year key is a
    numeral, there once; under a year the figures are integers below
    [2^53] and every quarter is there once. *)
Definition integral_entry (q : Stored.entry) : Prop :=
  Spec.integral (Stored.quarter q)
  /\ Spec.integral (Stored.sales_volume q)
  /\ Spec.integral (Stored.profit q).

Definition well_formed (o : object (list Stored.entry)) : Prop :=
  NoDup (map fst o)
  /\ indexed_keys o
  /\ Forall (fun entry =>
               NoDup (map Stored.quarter (snd entry))
               /\ Forall integral_entry (snd entry)) o.

(** The year and the quarter of a record. *)
Definition period (item : PeriodRecord) : number * number :=
  (year item, quarter item).

(** The first character of a text is a digit. *)
Definition starts_with_digit (text : string) : Prop :=
  match text with
  | String c _ => JSON.is_digit c = true
  | EmptyString => False
  end.

(** A text without the occurrences of a character. *)
Definition without (c : ascii) (text : string) : string :=
  string_of_list_ascii
    (filter (fun x => negb (Ascii.eqb x c)) (list_ascii_of_string text)).

(** Counted from the right end, every fourth character is a comma and
    no other is. *)
Definition comma_every_fourth (text : string) : Prop :=
  forall (i : nat) (c : ascii),
    nth_error (rev (list_ascii_of_string text)) i = Some c ->
    (c = ","%char <-> (i mod 4 = 3)%nat).

Definition no_comma (c : ascii) : bool := negb (Ascii.eqb c ",").

(** [group3], read from the right end. *)
Fixpoint regroup (n : nat) (rev_digits : list ascii) : list ascii :=
  match rev_digits with
  | [] => []
  | c :: r =>
      match n with
      | O => ","%char :: c :: regroup 2 r
      | S n' => c :: regroup n' r
      end
  end.

(** A number in hundredths, rounded to the nearest, a half away from
    zero: what [toFixed(2)] writes, without the point. *)
Definition hundredths (x : number) : Z :=
  match x with
  | S754_finite s m e =>
      if s then - scaled_nearest m e 2 else scaled_nearest m e 2
  | _ => 0
  end.

(** What is read back for a figure of the JSON export: the number, or
    [null] for one that is not finite. *)
Definition figure_read (x : number) : JSON.json :=
  if is_finite x then JSON.JNum x else JSON.JNull.

Definition record_read (item : PeriodRecord) : JSON.json :=
  JSON.JObj [ ("quarter"%string, figure_read (quarter item));
              ("sales_volume"%string, figure_read (sales_volume item));
              ("profit"%string, figure_read (profit item));
              ("year"%string, figure_read (year item)) ].

Definition figure_token (x : number) : JSON.token :=
  if is_finite x then JSON.TNum x else JSON.TNull.

Definition record_tokens (item : PeriodRecord) : list JSON.token :=
  [ JSON.TLBrace;
    JSON.TStr "quarter"; JSON.TColon; figure_token (quarter item);
    JSON.TComma;
    JSON.TStr "sales_volume"; JSON.TColon; figure_token (sales_volume item);
    JSON.TComma;
    JSON.TStr "profit"; JSON.TColon; figure_token (profit item); JSON.TComma;
    JSON.TStr "year"; JSON.TColon; figure_token (year item);
    JSON.TRBrace ].

Fixpoint items_tokens (first : PeriodRecord) (rest : list PeriodRecord)
  : list JSON.token :=
  match rest with
  | [] => record_tokens first
  | next :: rest' =>
      (record_tokens first ++ JSON.TComma :: items_tokens next rest')%list
  end.

(** A figure that is read back from its text, or is not finite. *)
Definition exportable (x : number) : Prop :=
  Spec.readable x \/ is_finite x = false.

Definition exportable_record (item : PeriodRecord) : Prop :=
  exportable (quarter item) /\ exportable (sales_volume item)
  /\ exportable (profit item) /\ exportable (year item).

Definition all_finite (item : PeriodRecord) : bool :=
  is_finite (quarter item) && is_finite (sales_volume item)
  && is_finite (profit item) && is_finite (year item).

(** A company with a year whose key is no numeral. *)
Definition fiscal_year : Dataset :=
  [ ("food"%string,
     [ ("MC"%string,
        [ ("FY23"%string, [FinancialDashboard.q 1 1000 100]) ]) ]) ].

(** The selections that the select boxes can lead to. *)
Definition settled (s : Dashboard.State) : bool :=
  Dashboard.among (Dashboard.selectedCategory s) ["food"; "technology"]%string
  && Dashboard.among (Dashboard.selectedYear s) ["all"; "2023"; "2024"]%string
  && Dashboard.among (Dashboard.selectedCompany s) ["MC"; "TECH"]%string.

End Notions.

(** ** Notions of the proofs about rounding and numerals *)

Module Reading.

Definition pow2 (e : Z) : Q := Qpower 2 e.

Definition pow10 (p : Z) : Q := Qpower 10 p.

(** What a mantissa with its two bits says of the number [t] that it
    stands for: where [t] lies between the mantissa and the next
    integer. *)
Definition located (mrs : shr_record) (t : Q) : Prop :=
  match shr_r mrs, shr_s mrs with
  | false, false => (t == inject_Z (shr_m mrs))%Q
  | false, true =>
      (inject_Z (shr_m mrs) < t /\ t < inject_Z (shr_m mrs) + (1 # 2))%Q
  | true, false => (t == inject_Z (shr_m mrs) + (1 # 2))%Q
  | true, true =>
      (inject_Z (shr_m mrs) + (1 # 2) < t /\ t < inject_Z (shr_m mrs) + 1)%Q
  end.

(** The integer nearest to [t], the even one of two. *)
Definition nearest_even (t : Q) (n : Z) : Prop :=
  (inject_Z n - (1 # 2) <= t)%Q
  /\ (t <= inject_Z n + (1 # 2))%Q
  /\ ((t == inject_Z n - (1 # 2))%Q \/ (t == inject_Z n + (1 # 2))%Q ->
      Z.even n = true).

(** The half of the gap below a number, in units of its last place: a
    quarter below a power of two that is not in the lowest range. *)
Definition below (M : positive) (E : Z) : Q :=
  if (Zpos M =? 2 ^ (prec - 1)) && (3 - emax - prec <? E)
  then (1 # 4)%Q else (1 # 2)%Q.

(** The estimate that [decimal_exponent] starts from, for a number of
    binary order of magnitude [L]; twenty steps below it the step of the
    decimals is under a quarter of the last place of the number. *)
Definition estimate (L : Z) : Z := L * 30103 / 100000 + 2.

Definition fine_enough (L : Z) : bool :=
  negb (Qle_bool (Qpower 2 (L - 54)) (Qpower 10 (estimate L - 20))).

(** A numeral in the form that [layout] writes: an integer part, a
    fraction or none, an exponent or none. *)
Definition fraction_tail (frac : list ascii) : list ascii :=
  match frac with [] => [] | _ :: _ => "."%char :: frac end.

Definition exponent_tail (x : option Z) : list ascii :=
  match x with
  | None => []
  | Some x => "e"%char :: list_ascii_of_string (exponent_text x)
  end.

End Reading.

(** ** Properties of the runtime model *)

Section Numbers.

Lemma is_finite_false_cases (x : number) :
  is_finite x = false ->
  x = S754_nan \/ x = S754_infinity false \/ x = S754_infinity true.
Proof.
  destruct x as [s | [ | ] | | s m e]; simpl; intro H;
    try discriminate; auto.
Qed.

Lemma toFixed_non_finite (f : nat) (x : number) :
  is_finite x = false -> In (toFixed f x) Spec.non_finite_texts.
Proof.
  intro H.
  destruct (is_finite_false_cases x H) as [-> | [-> | ->]]; simpl; auto.
Qed.

Lemma div_by_zero_not_finite (x y : number) :
  is_zero y = true -> is_finite (div x y) = false.
Proof.
  destruct y as [sy | sy | | sy my ey]; simpl; try discriminate.
  intros _. destruct x as [sx | sx | | sx mx ex]; reflexivity.
Qed.

Lemma mul_100_not_finite (x : number) :
  is_finite x = false -> is_finite (mul x (of_Z 100)) = false.
Proof.
  intro H.
  destruct (is_finite_false_cases x H) as [-> | [-> | ->]]; reflexivity.
Qed.

Lemma abs_not_finite (x : number) :
  is_finite x = false -> is_finite (Math_abs x) = false.
Proof.
  intro H.
  destruct (is_finite_false_cases x H) as [-> | [-> | ->]]; reflexivity.
Qed.

Lemma abs_of_not_finite (x : number) :
  is_finite x = false ->
  Math_abs x = S754_nan \/ Math_abs x = S754_infinity false.
Proof.
  intro H.
  destruct (is_finite_false_cases x H) as [-> | [-> | ->]]; simpl; auto.
Qed.

End Numbers.

(** ** Rounding: what the proofs need of [binary_round_aux] *)

Section Rounding.

Local Abbreviation emin := (SpecFloat.emin prec emax).
Local Abbreviation fexp := (SpecFloat.fexp prec emax).

Lemma emin_value : emin = -1074.
Proof. reflexivity. Qed.

Lemma fexp_ge_emin (x : Z) : emin <= fexp x.
Proof. unfold SpecFloat.fexp. apply Z.le_max_r. Qed.

Lemma digits2_size (m : positive) : digits2_pos m = Pos.size m.
Proof. induction m; simpl; congruence. Qed.

Lemma digits_lower (m : positive) : 2 ^ (Zdigits2 (Zpos m) - 1) <= Zpos m.
Proof.
  simpl Zdigits2. rewrite digits2_size.
  pose proof (Pos.size_le m) as H.
  assert (H' : 2 ^ Zpos (Pos.size m) <= 2 * Zpos m).
  { change (Zpos (2 ^ Pos.size m) <= Zpos m~0) in H.
    rewrite Pos2Z.inj_pow in H. exact H. }
  replace (Zpos (Pos.size m)) with (Z.succ (Zpos (Pos.size m) - 1)) in H'
    by lia.
  rewrite Z.pow_succ_r in H' by lia. lia.
Qed.

Lemma digits_monotone (a b : positive) :
  (a <= b)%positive -> Zdigits2 (Zpos a) <= Zdigits2 (Zpos b).
Proof.
  intro H. simpl. rewrite !digits2_size.
  destruct (Z.le_gt_cases (Zpos (Pos.size a)) (Zpos (Pos.size b)))
    as [ | Hgt]; [assumption | exfalso].
  pose proof (Pos.size_gt b) as Hb. pose proof (digits_lower a) as Ha.
  simpl Zdigits2 in Ha. rewrite digits2_size in Ha.
  assert (Hb' : Zpos b < 2 ^ Zpos (Pos.size b)).
  { change (Zpos b < Zpos (2 ^ Pos.size b)) in Hb.
    rewrite Pos2Z.inj_pow in Hb. exact Hb. }
  assert (2 ^ Zpos (Pos.size b) <= 2 ^ (Zpos (Pos.size a) - 1))
    by (apply Z.pow_le_mono_r; lia).
  assert (Zpos a <= Zpos b) by exact H. lia.
Qed.

Lemma shr_1_m (mrs : shr_record) :
  0 <= shr_m mrs -> shr_m (shr_1 mrs) = shr_m mrs / 2.
Proof.
  destruct mrs as [m r s]. simpl. intro H.
  destruct m as [ | [p | p | ] | p]; try lia; simpl shr_m.
  - reflexivity.
  - rewrite Pos2Z.inj_xI. apply Z.div_unique with 1; lia.
  - rewrite Pos2Z.inj_xO. apply Z.div_unique with 0; lia.
  - reflexivity.
Qed.

Lemma iter_shr_m (p : positive) :
  forall mrs, 0 <= shr_m mrs ->
    shr_m (iter_pos shr_1 p mrs) = shr_m mrs / 2 ^ Zpos p.
Proof.
  assert (step : forall mrs, 0 <= shr_m mrs -> 0 <= shr_m (shr_1 mrs)).
  { intros mrs H. rewrite shr_1_m by exact H.
    apply Z.div_pos; lia. }
  induction p as [p IH | p IH | ]; intros mrs H; simpl iter_pos.
  - assert (Hp : 0 < 2 ^ Zpos p) by (apply Z.pow_pos_nonneg; lia).
    assert (E : 2 ^ Zpos p~1 = 2 * (2 ^ Zpos p * 2 ^ Zpos p)).
    { rewrite <- Z.pow_add_r, <- Z.pow_succ_r by lia. f_equal. lia. }
    rewrite E, IH, IH, shr_1_m; auto.
    + rewrite !Z.div_div by lia. reflexivity.
    + rewrite IH by auto. apply Z.div_pos; auto.
  - assert (Hp : 0 < 2 ^ Zpos p) by (apply Z.pow_pos_nonneg; lia).
    assert (E : 2 ^ Zpos p~0 = 2 ^ Zpos p * 2 ^ Zpos p).
    { rewrite <- Z.pow_add_r by lia. f_equal. lia. }
    rewrite E, IH, IH; auto.
    + rewrite !Z.div_div by lia. reflexivity.
    + rewrite IH by auto. apply Z.div_pos; auto.
  - rewrite shr_1_m by exact H. reflexivity.
Qed.

Lemma shr_record_m (m : Z) (l : location) :
  shr_m (shr_record_of_loc m l) = m.
Proof. destruct l as [ | [ | | ]]; reflexivity. Qed.

(** The exponent a rounding ends with is never below [emin]. *)
Lemma shr_fexp_exponent (m e : Z) (l : location) :
  emin <= snd (shr_fexp prec emax m e l).
Proof.
  unfold shr_fexp, shr.
  pose proof (fexp_ge_emin (Zdigits2 m + e)) as H.
  destruct (fexp (Zdigits2 m + e) - e) eqn:E; simpl snd; lia.
Qed.

(** A positive mantissa stays positive when the shift is shorter than it
    is wide. *)
Lemma shr_fexp_positive (m : positive) (e : Z) (l : location) :
  emin - e < Zdigits2 (Zpos m) ->
  0 < shr_m (fst (shr_fexp prec emax (Zpos m) e l)).
Proof.
  intro H. unfold shr_fexp, shr.
  destruct (fexp (Zdigits2 (Zpos m) + e) - e) as [ | n | n] eqn:E;
    simpl fst; try (rewrite shr_record_m; lia).
  rewrite iter_shr_m by (rewrite shr_record_m; lia).
  rewrite shr_record_m.
  assert (Hn : Zpos n <= Zdigits2 (Zpos m) - 1).
  { unfold SpecFloat.fexp in E. rewrite emin_value in *.
    change prec with 53 in E. lia. }
  pose proof (digits_lower m) as Hm.
  assert (2 ^ Zpos n <= 2 ^ (Zdigits2 (Zpos m) - 1))
    by (apply Z.pow_le_mono_r; lia).
  assert (0 < 2 ^ Zpos n) by (apply Z.pow_pos_nonneg; lia).
  apply Z.div_str_pos. lia.
Qed.

Lemma round_nearest_even_ge (m : Z) (l : location) :
  m <= round_nearest_even m l.
Proof.
  destruct l as [ | [ | | ]]; simpl; try lia.
  destruct (Z.even m); lia.
Qed.

(** Rounding keeps the sign it is given. *)
Lemma binary_round_aux_abs (s : bool) (m e : Z) (l : location) :
  SFabs (binary_round_aux prec emax s m e l)
  = binary_round_aux prec emax false m e l.
Proof.
  unfold binary_round_aux.
  destruct (shr_fexp prec emax m e l) as [mrs' e'].
  destruct (shr_fexp prec emax _ e' loc_Exact) as [mrs'' e''].
  destruct (shr_m mrs''); try reflexivity.
  destruct (e'' <=? emax - prec); reflexivity.
Qed.

Lemma binary_round_aux_exponent (s s' : bool) (m e : Z) (l : location)
  (m' : positive) (e' : Z) :
  binary_round_aux prec emax s m e l = S754_finite s' m' e' -> emin <= e'.
Proof.
  unfold binary_round_aux.
  destruct (shr_fexp prec emax m e l) as [mrs1 e1].
  pose proof (shr_fexp_exponent
                (round_nearest_even (shr_m mrs1) (loc_of_shr_record mrs1))
                e1 loc_Exact) as H.
  destruct (shr_fexp prec emax _ e1 loc_Exact) as [mrs2 e2].
  simpl snd in H.
  destruct (shr_m mrs2); try discriminate.
  destruct (e2 <=? emax - prec); try discriminate.
  intro E. injection E as _ _ <-. exact H.
Qed.

(** Rounding a positive mantissa that is wide enough never gives zero. *)
Lemma binary_round_aux_positive (s : bool) (m : positive) (e : Z) :
  emin - e < Zdigits2 (Zpos m) ->
  (exists m' e', binary_round_aux prec emax s (Zpos m) e loc_Exact
                 = S754_finite s m' e')
  \/ binary_round_aux prec emax s (Zpos m) e loc_Exact = S754_infinity s.
Proof.
  intro H. unfold binary_round_aux.
  pose proof (shr_fexp_positive m e loc_Exact H) as H1.
  pose proof (shr_fexp_exponent (Zpos m) e loc_Exact) as He1.
  destruct (shr_fexp prec emax (Zpos m) e loc_Exact) as [mrs1 e1].
  simpl fst in H1. simpl snd in He1.
  pose proof (round_nearest_even_ge (shr_m mrs1) (loc_of_shr_record mrs1))
    as H2.
  destruct (round_nearest_even (shr_m mrs1) (loc_of_shr_record mrs1))
    as [ | m2 | m2] eqn:E2; try lia.
  assert (H3 : emin - e1 < Zdigits2 (Zpos m2)) by (simpl Zdigits2; lia).
  pose proof (shr_fexp_positive m2 e1 loc_Exact H3) as H4.
  destruct (shr_fexp prec emax (Zpos m2) e1 loc_Exact) as [mrs2 e2].
  simpl fst in H4.
  destruct (shr_m mrs2) as [ | m3 | m3]; try lia.
  destruct (e2 <=? emax - prec); [left; eauto | right; reflexivity].
Qed.

Lemma binary_round_aux_sign (m e : Z) (l : location) :
  gt (binary_round_aux prec emax true m e l) (of_Z 0) = false.
Proof.
  unfold binary_round_aux.
  destruct (shr_fexp prec emax m e l) as [mrs' e'].
  destruct (shr_fexp prec emax _ e' loc_Exact) as [mrs'' e''].
  destruct (shr_m mrs''); try reflexivity.
  destruct (e'' <=? emax - prec); reflexivity.
Qed.

Lemma abs_mul (x y : number) :
  Math_abs (mul x y) = mul (Math_abs x) (Math_abs y).
Proof.
  destruct x as [sx | sx | | sx mx ex], y as [sy | sy | | sy my ey];
    try reflexivity.
  apply binary_round_aux_abs.
Qed.

Lemma div_exponent (a b : number) (s : bool) (m : positive) (e : Z) :
  div a b = S754_finite s m e -> emin <= e.
Proof.
  destruct a as [sa | sa | | sa ma ea], b as [sb | sb | | sb mb eb];
    try discriminate.
  unfold div, SFdiv.
  destruct (SFdiv_core_binary prec emax (Zpos ma) ea (Zpos mb) eb)
    as [[mz ez] lz].
  apply binary_round_aux_exponent.
Qed.

(** Multiplying by one hundred keeps a number on its side of zero. *)
Lemma mul_100_sign (x : number) :
  (forall s m e, x = S754_finite s m e -> emin <= e) ->
  gt (mul x (of_Z 100)) (of_Z 0) = gt x (of_Z 0).
Proof.
  intro Hx.
  destruct x as [s | [ | ] | | s m e]; try reflexivity; try (destruct s; reflexivity).
  pose proof (Hx s m e eq_refl) as He.
  change (of_Z 100) with (S754_finite false 7036874417766400 (-46)).
  unfold mul, SFmul. rewrite xorb_false_r.
  destruct s.
  - rewrite binary_round_aux_sign. reflexivity.
  - assert (H : emin - (e + -46)
                < Zdigits2 (Zpos (m * 7036874417766400))).
    { assert (53 <= Zdigits2 (Zpos (m * 7036874417766400))).
      { change 53 with (Zdigits2 (Zpos 7036874417766400)).
        apply digits_monotone. nia. }
      rewrite emin_value in *. lia. }
    destruct (binary_round_aux_positive false _ _ H)
      as [(m' & e' & ->) | ->]; reflexivity.
Qed.

End Rounding.

(** ** Derived metrics *)

Section Metrics.
Import MetricsCards.

Lemma reduce_sum (f : PeriodRecord -> number) (data : list PeriodRecord)
  (acc : number) :
  fold_left (fun sum item => add sum (f item)) data acc
  = Spec.sum_from acc (map f data).
Proof.
  revert acc. induction data as [ | item data IH]; intro acc; simpl.
  - reflexivity.
  - apply IH.
Qed.

Lemma last_cons (a d : PeriodRecord) (l : list PeriodRecord) :
  List.last (a :: l) d = List.last l a.
Proof.
  revert a d. induction l as [ | x t IH]; intros a d.
  - reflexivity.
  - change (List.last (x :: t) d = List.last (x :: t) a).
    rewrite (IH x d), (IH x a). reflexivity.
Qed.

Lemma nth_error_last (first : PeriodRecord) (rest : list PeriodRecord) :
  nth_error (first :: rest) (List.length (first :: rest) - 1)
  = Some (List.last rest first).
Proof.
  simpl List.length. rewrite Nat.sub_succ, Nat.sub_0_r.
  revert first. induction rest as [ | r rest IH]; intro first.
  - reflexivity.
  - change (nth_error (r :: rest) (List.length rest)
            = Some (List.last (r :: rest) first)).
    rewrite IH, last_cons. reflexivity.
Qed.

(** The metrics of a sequence that is not empty, field by field. *)
Lemma calculateMetrics_cons (first : PeriodRecord) (rest : list PeriodRecord) :
  let data := first :: rest in
  let growth :=
    mul (div (sub (profit (List.last rest first)) (profit first))
             (profit first)) (of_Z 100) in
  calculateMetrics (Some data)
  = {| totalSales := Spec.sum (map sales_volume data);
       totalProfit := Spec.sum (map profit data);
       avgProfitMargin :=
         mul (div (Spec.sum (map profit data))
                  (Spec.sum (map sales_volume data))) (of_Z 100);
       growthRate := Math_abs growth;
       isGrowthPositive := gt growth (of_Z 0) |}.
Proof.
  intros data growth. subst data growth. unfold calculateMetrics.
  cbv beta iota zeta.
  rewrite (nth_error_last first rest).
  change (nth_error (first :: rest) 0) with (Some first).
  cbv beta iota.
  rewrite !reduce_sum. reflexivity.
Qed.

End Metrics.

(** ** The table *)

Section Table.
Import FinancialTable.

Lemma nth_error_mapi {A B : Type} (f : A -> nat -> B) (l : list A) :
  forall k i,
    nth_error (mapi f k l) i
    = option_map (fun a => f a (k + i)%nat) (nth_error l i).
Proof.
  induction l as [ | a l IH]; intros k i.
  - destruct i; reflexivity.
  - destruct i as [ | i]; simpl.
    + rewrite Nat.add_0_r. reflexivity.
    + rewrite IH. rewrite Nat.add_succ_r. reflexivity.
Qed.

Lemma length_mapi {A B : Type} (f : A -> nat -> B) (l : list A) :
  forall k, List.length (mapi f k l) = List.length l.
Proof.
  induction l as [ | a l IH]; intro k; simpl; [ | rewrite IH]; reflexivity.
Qed.

Lemma body_rows (data : list PeriodRecord) (rows : list Row) :
  body data = Rows rows -> rows = mapi (row data) 0%nat data.
Proof.
  destruct data; simpl; intro H; [discriminate | ].
  injection H as <-. reflexivity.
Qed.

End Table.

(** ** Decimal numerals *)

Section Numerals.
Import DecimalPos.Unsigned.

Lemma digits_of_text (n : Z) :
  digits_of n = NilEmpty.string_of_uint (N.to_uint (Z.to_N n)).
Proof.
  unfold digits_of, NilZero.string_of_uint.
  destruct (N.to_uint (Z.to_N n)) eqn:E; try reflexivity.
  destruct (Z.to_N n); [discriminate | ].
  exfalso. exact (to_uint_nonnil _ E).
Qed.

Lemma to_uint_not_nil (k : N) : N.to_uint k <> Decimal.Nil.
Proof.
  destruct k; [discriminate | apply to_uint_nonnil].
Qed.

Lemma take_digits_step (c : ascii) (k : Z) (cs : list ascii) (a : Z) :
  digit_value c = Some k -> (k <? 10) = true ->
  take_digits 10 (c :: cs) (Some a) = take_digits 10 cs (Some (a * 10 + k)).
Proof.
  intros Hc Hk. cbn [take_digits]. rewrite Hc, Hk. reflexivity.
Qed.

Lemma take_digits_uint (d : Decimal.uint) :
  forall d' rest,
    take_digits 10
      (list_ascii_of_string (NilEmpty.string_of_uint d) ++ rest)
      (Some (Z.of_N (of_lu d')))
    = take_digits 10 rest (Some (Z.of_N (of_lu (Decimal.revapp d d')))).
Proof.
  induction d as [ | d IH | d IH | d IH | d IH | d IH | d IH | d IH | d IH
                   | d IH | d IH ];
    intros d' rest; [reflexivity | .. ];
    cbn [NilEmpty.string_of_uint list_ascii_of_string Decimal.revapp];
    rewrite <- IH, <- app_comm_cons;
    erewrite take_digits_step by reflexivity;
    do 2 f_equal; cbn [of_lu];
    match goal with
    | |- context [Z.of_nat (nat_of_ascii ?c) - 48] =>
        let v := eval compute in (Z.of_nat (nat_of_ascii c) - 48) in
        change (Z.of_nat (nat_of_ascii c) - 48) with v
    end; lia.
Qed.

Lemma take_digits_numeral (k : N) :
  take_digits 10 (list_ascii_of_string (digits_of (Z.of_N k))) None
  = Some (Z.of_N k).
Proof.
  rewrite digits_of_text, N2Z.id.
  pose proof (to_uint_not_nil k) as Hnil.
  pose proof (DecimalN.Unsigned.of_to k) as Hk.
  destruct (N.to_uint k) as [ | d | d | d | d | d | d | d | d | d | d ] eqn:E;
    [contradiction | .. ];
    rewrite <- (List.app_nil_r (list_ascii_of_string _));
    match goal with
    | |- take_digits 10 (list_ascii_of_string
                           (NilEmpty.string_of_uint ?u) ++ []) None = _ =>
        transitivity
          (take_digits 10
             (list_ascii_of_string (NilEmpty.string_of_uint u) ++ [])
             (Some (Z.of_N (of_lu Decimal.Nil))));
        [reflexivity | rewrite (take_digits_uint u Decimal.Nil [])]
    end;
    simpl take_digits; do 2 f_equal;
    rewrite <- Hk; unfold N.of_uint; rewrite of_uint_alt; reflexivity.
Qed.

End Numerals.

Section ParseInt.

Lemma digit_cases (c : ascii) :
  ((48 <=? nat_of_ascii c) && (nat_of_ascii c <=? 57))%nat = true ->
  In c ["0"; "1"; "2"; "3"; "4"; "5"; "6"; "7"; "8"; "9"]%char.
Proof.
  destruct c as [[ | ] [ | ] [ | ] [ | ] [ | ] [ | ] [ | ] [ | ]];
    intro H; try discriminate H; simpl; tauto.
Qed.

Lemma all_digits_uint (d : Decimal.uint) :
  all_digits (list_ascii_of_string (NilEmpty.string_of_uint d)) = true.
Proof.
  induction d; simpl; auto.
Qed.

Lemma all_digits_numeral (n : Z) :
  all_digits (list_ascii_of_string (digits_of n)) = true.
Proof. rewrite digits_of_text. apply all_digits_uint. Qed.

Lemma numeral_is_bare (cs : list ascii) :
  all_digits cs = true ->
  strip_sign (skip_whitespace cs) = (false, cs)
  /\ strip_prefix cs = (10, cs).
Proof.
  destruct cs as [ | c cs]; [split; reflexivity | ].
  intro H. simpl in H. apply andb_prop in H. destruct H as [Hc Hcs].
  apply digit_cases in Hc. simpl in Hc.
  destruct Hc as [<- | [<- | [<- | [<- | [<- | [<- | [<- | [<- | [<- | [<- | []]]]]]]]]]];
    try (split; reflexivity).
  split; [reflexivity | ].
  destruct cs as [ | c' cs]; [reflexivity | ].
  simpl in Hcs. apply andb_prop in Hcs. destruct Hcs as [Hc' _].
  apply digit_cases in Hc'. simpl in Hc'.
  destruct Hc' as [<- | [<- | [<- | [<- | [<- | [<- | [<- | [<- | [<- | [<- | []]]]]]]]]]];
    reflexivity.
Qed.

(** The numeral of a natural number is read back as that number. *)
Lemma parseInt_numeral (n : Z) :
  0 <= n -> parseInt (digits_of n) = of_Z n.
Proof.
  intro H. rewrite <- (Z2N.id n H) at 1. unfold parseInt.
  destruct (numeral_is_bare _ (all_digits_numeral (Z.of_N (Z.to_N n))))
    as [E1 E2].
  rewrite E1, E2, take_digits_numeral, Z2N.id by exact H. reflexivity.
Qed.

Lemma numeral_is_not_all (n : Z) : String.eqb (digits_of n) "all" = false.
Proof.
  destruct (String.eqb (digits_of n) "all") eqn:E; [ | reflexivity].
  apply String.eqb_eq in E.
  pose proof (all_digits_numeral n) as H. rewrite E in H. discriminate H.
Qed.

End ParseInt.

(** ** Objects *)

Section Objects.
Context {V : Type}.

Lemma insert_by_index_perm (n : Z) (kv : string * V)
  (sorted : list (Z * (string * V))) :
  Permutation (map snd (insert_by_index n kv sorted))
              (kv :: map snd sorted).
Proof.
  induction sorted as [ | [n' kv'] rest IH]; simpl.
  - apply Permutation_refl.
  - destruct (n <? n'); simpl.
    + apply Permutation_refl.
    + eapply perm_trans; [apply perm_skip, IH | apply perm_swap].
Qed.

(** [Object.entries] lists every own property once. *)
Lemma Object_entries_perm (o : object V) :
  Permutation (Object_entries o) o.
Proof.
  unfold Object_entries.
  induction o as [ | kv o IH]; simpl.
  - apply Permutation_refl.
  - destruct (split_keys o) as [indexed named].
    destruct (array_index (fst kv)) as [n | ].
    + eapply perm_trans.
      * apply Permutation_app_tail, insert_by_index_perm.
      * simpl. apply perm_skip, IH.
    + eapply perm_trans.
      * apply Permutation_sym, Permutation_middle.
      * apply perm_skip, IH.
Qed.

End Objects.

(** ** The filter *)

Section Filter.
Import FinancialDashboard.

Lemma with_year_annotate (k : string) (quarters : list Stored.entry) :
  map (with_year k) quarters = map (Spec.annotate (parseInt k)) quarters.
Proof. reflexivity. Qed.

Lemma length_all_years (companyData : object (list Stored.entry)) :
  List.length
    (flat_map (fun entry => map (with_year (fst entry)) (snd entry))
       (Object_entries companyData))
  = list_sum (map (fun entry => List.length (snd entry)) companyData).
Proof.
  rewrite (Permutation_length
             (Permutation_flat_map
                (fun entry => map (with_year (fst entry)) (snd entry))
                (Object_entries_perm companyData))).
  induction companyData as [ | entry rest IH]; simpl.
  - reflexivity.
  - rewrite length_app, length_map, IH. reflexivity.
Qed.

End Filter.

(** ** Texts *)

Section Texts.

Local Abbreviation chars := list_ascii_of_string.

Lemma chars_app (a b : string) : chars (a ++ b) = (chars a ++ chars b)%list.
Proof. induction a; simpl; congruence. Qed.

Lemma append_assoc (a b c : string) :
  ((a ++ b) ++ c)%string = (a ++ b ++ c)%string.
Proof. induction a; simpl; congruence. Qed.

Lemma length_append (a b : string) :
  String.length (a ++ b) = (String.length a + String.length b)%nat.
Proof. induction a; simpl; congruence. Qed.

Lemma length_repeat0 (n : nat) : String.length (repeat0 n) = n.
Proof. induction n; simpl; congruence. Qed.

Lemma length_substring (s : string) :
  forall n m, (n + m <= String.length s)%nat ->
    String.length (substring n m s) = m.
Proof.
  induction s as [ | c s IH]; intros n m H; simpl in H.
  - assert (m = 0%nat) by lia. subst m. destruct n; reflexivity.
  - destruct n as [ | n]; simpl.
    + destruct m as [ | m]; simpl; [reflexivity | ].
      rewrite IH by lia. reflexivity.
    + apply IH. lia.
Qed.

Lemma forallb_substring (P : ascii -> bool) (s : string) :
  forall n m, forallb P (chars s) = true ->
    forallb P (chars (substring n m s)) = true.
Proof.
  induction s as [ | c s IH]; intros n m H.
  - destruct n, m; reflexivity.
  - simpl in H. apply andb_prop in H. destruct H as [Hc Hs].
    destruct n as [ | n]; simpl.
    + destruct m as [ | m]; simpl; [reflexivity | ].
      rewrite Hc. apply IH, Hs.
    + apply IH, Hs.
Qed.

Lemma forallb_append (P : ascii -> bool) (a b : string) :
  forallb P (chars (a ++ b)) = forallb P (chars a) && forallb P (chars b).
Proof. rewrite chars_app. apply forallb_app. Qed.

Lemma forallb_digits_uint (d : Decimal.uint) :
  forallb JSON.is_digit (chars (NilEmpty.string_of_uint d)) = true.
Proof. induction d; simpl; auto. Qed.

Lemma forallb_digits_of (n : Z) :
  forallb JSON.is_digit (chars (digits_of n)) = true.
Proof. rewrite digits_of_text. apply forallb_digits_uint. Qed.

Lemma forallb_repeat0 (n : nat) :
  forallb JSON.is_digit (chars (repeat0 n)) = true.
Proof. induction n; simpl; auto. Qed.

Lemma forallb_weaken (P Q : ascii -> bool) (l : list ascii) :
  (forall c, P c = true -> Q c = true) ->
  forallb P l = true -> forallb Q l = true.
Proof.
  intros HPQ. induction l as [ | c l IH]; simpl; [reflexivity | ].
  intro H. apply andb_prop in H. destruct H as [Hc Hl].
  rewrite (HPQ c Hc). apply IH, Hl.
Qed.

(** The characters of the text of a number, for any set [P] of
    characters that has the digits and the marks of a decimal. *)
Section Alphabet.
Variable P : ascii -> bool.
Hypothesis P_digit : forall c, JSON.is_digit c = true -> P c = true.
Hypothesis P_minus : P "-" = true.
Hypothesis P_plus : P "+" = true.
Hypothesis P_point : P "." = true.
Hypothesis P_e : P "e" = true.

Local Abbreviation within s := (forallb P (chars s) = true).

Lemma within_digits_of (n : Z) : within (digits_of n).
Proof. apply (forallb_weaken _ _ _ P_digit), forallb_digits_of. Qed.

Lemma within_repeat0 (n : nat) : within (repeat0 n).
Proof. apply (forallb_weaken _ _ _ P_digit), forallb_repeat0. Qed.

Lemma within_append (a b : string) : within a -> within b -> within (a ++ b).
Proof. intros Ha Hb. rewrite forallb_append, Ha, Hb. reflexivity. Qed.

Lemma within_sign (s : bool) : within (if s then "-" else "").
Proof. destruct s; simpl; [rewrite P_minus | ]; reflexivity. Qed.

Lemma within_layout (ds : string) (n : Z) : within ds -> within (layout ds n).
Proof.
  intro H. unfold layout, exponent_text.
  assert (Hpoint : within ".") by (simpl; rewrite P_point; reflexivity).
  assert (Hzero : within "0.")
    by (simpl; rewrite P_point, (P_digit "0" eq_refl); reflexivity).
  assert (He : within "e") by (simpl; rewrite P_e; reflexivity).
  assert (Hminus : within "-") by (simpl; rewrite P_minus; reflexivity).
  assert (Hplus : within "+") by (simpl; rewrite P_plus; reflexivity).
  repeat match goal with
         | |- context [if ?b then _ else _] => destruct b
         end;
    repeat (apply within_append;
            auto using within_digits_of, within_repeat0, forallb_substring).
Qed.

Lemma within_positive_toString (m : positive) (e : Z) :
  within (positive_toString m e).
Proof.
  unfold positive_toString, shortest_text.
  destruct (shortest_digits m e) as [ds p].
  destruct (to_integer m e) as [z | ];
    [destruct (z <? 2 ^ prec) | ];
    auto using within_layout, within_digits_of.
Qed.

Lemma within_Number_toString (x : number) :
  is_finite x = true -> within (Number_toString x).
Proof.
  destruct x as [s | s | | s m e]; try discriminate; intros _.
  - simpl. rewrite (P_digit "0" eq_refl). reflexivity.
  - apply within_append;
      [apply within_sign | apply within_positive_toString].
Qed.

Lemma within_fixed_layout (f : nat) (n : Z) : within (fixed_layout f n).
Proof.
  unfold fixed_layout.
  assert (Hpoint : within ".") by (simpl; rewrite P_point; reflexivity).
  destruct f as [ | f]; [apply within_digits_of | ].
  set (m' := (repeat0 (S (S f) - String.length (digits_of n))
              ++ digits_of n)%string).
  assert (Hm : within m')
    by (apply within_append; [apply within_repeat0 | apply within_digits_of]).
  repeat apply within_append; auto using forallb_substring.
Qed.

Lemma within_toFixed (f : nat) (x : number) :
  is_finite x = true -> within (toFixed f x).
Proof.
  destruct x as [s | s | | s m e]; try discriminate; intros _.
  - apply within_fixed_layout.
  - unfold toFixed. destruct (at_least_1e21 m e).
    + apply (within_Number_toString (S754_finite s m e)). reflexivity.
    + apply within_append; [apply within_sign | apply within_fixed_layout].
Qed.

End Alphabet.

Lemma digit_is_number_char (c : ascii) :
  JSON.is_digit c = true -> Spec.number_char c = true.
Proof. unfold Spec.number_char. intros ->. reflexivity. Qed.

Lemma numeric_Number_toString (x : number) :
  Spec.numeric (Number_toString x) = true.
Proof.
  destruct (is_finite x) eqn:F.
  - apply (within_Number_toString Spec.number_char); auto;
      apply digit_is_number_char.
  - destruct (is_finite_false_cases x F) as [-> | [-> | ->]]; reflexivity.
Qed.

Lemma numeric_toFixed (f : nat) (x : number) :
  Spec.numeric (toFixed f x) = true.
Proof.
  destruct (is_finite x) eqn:F.
  - apply (within_toFixed Spec.number_char); auto;
      apply digit_is_number_char.
  - destruct (is_finite_false_cases x F) as [-> | [-> | ->]]; reflexivity.
Qed.

Lemma digit_is_json_number_char (c : ascii) :
  JSON.is_digit c = true -> JSON.is_number_char c = true.
Proof. unfold JSON.is_number_char. intros ->. reflexivity. Qed.

(** The text of a finite number is made of characters that the scanner
    takes for those of a number. *)
Lemma Number_toString_number_chars (x : number) :
  is_finite x = true ->
  forallb JSON.is_number_char (chars (Number_toString x)) = true.
Proof.
  apply (within_Number_toString JSON.is_number_char); auto.
  apply digit_is_json_number_char.
Qed.

(** The text of a finite number begins with a digit or with the sign. *)
Lemma substring_head (c : ascii) (s : string) (n : nat) :
  substring 0 (S n) (String c s) = String c (substring 0 n s).
Proof. reflexivity. Qed.

Lemma layout_head (c : ascii) (ds : string) (n : Z) :
  JSON.is_digit c = true ->
  exists c' s', layout (String c ds) n = String c' s'
                /\ JSON.is_digit c' = true.
Proof.
  intro H. unfold layout.
  destruct ((Z.of_nat (String.length (String c ds)) <=? n) && (n <=? 21));
    [eexists; eexists; split; [reflexivity | exact H] | ].
  destruct ((0 <? n) && (n <=? 21)) eqn:E.
  { apply andb_prop in E. destruct E as [E _]. apply Z.ltb_lt in E.
    destruct (Z.to_nat n) as [ | k] eqn:K; [lia | ].
    eexists; eexists; split; [reflexivity | exact H]. }
  destruct ((-6 <? n) && (n <=? 0));
    [eexists; eexists; split; reflexivity | ].
  destruct (Z.of_nat (String.length (String c ds)) =? 1);
    eexists; eexists; split; try reflexivity; exact H.
Qed.

Lemma digits_of_head (n : Z) :
  exists c s, digits_of n = String c s /\ JSON.is_digit c = true.
Proof.
  pose proof (forallb_digits_of n) as D.
  destruct (digits_of n) as [ | c s] eqn:E.
  - exfalso. rewrite digits_of_text in E.
    pose proof (to_uint_not_nil (Z.to_N n)) as H.
    destruct (N.to_uint (Z.to_N n)); try discriminate E. contradiction.
  - simpl in D. apply andb_prop in D. exists c, s. split; tauto.
Qed.

Lemma Number_toString_head (x : number) :
  is_finite x = true ->
  exists c s,
    Number_toString x = String c s
    /\ (JSON.is_digit c = true \/ c = "-"%char).
Proof.
  destruct x as [sg | sg | | sg m e]; try discriminate; intros _.
  - exists "0"%char, EmptyString. split; [reflexivity | left; reflexivity].
  - unfold Number_toString. destruct sg.
    + eexists; eexists; split; [reflexivity | right; reflexivity].
    + change (("" ++ positive_toString m e)%string)
        with (positive_toString m e).
      unfold positive_toString, shortest_text.
      destruct (shortest_digits m e) as [ds p].
      destruct (digits_of_head ds) as (c & s & E & Hc).
      assert (L : exists c' s',
                 layout (digits_of ds)
                   (p + Z.of_nat (String.length (digits_of ds)))
                 = String c' s' /\ JSON.is_digit c' = true).
      { rewrite E. apply layout_head, Hc. }
      destruct L as (c' & s' & E' & Hc').
      destruct (to_integer m e) as [z | ].
      * destruct (z <? 2 ^ prec).
        -- destruct (digits_of_head z) as (c1 & s1 & E1 & H1).
           exists c1, s1. split; [exact E1 | left; exact H1].
        -- exists c', s'. split; [exact E' | left; exact Hc'].
      * exists c', s'. split; [exact E' | left; exact Hc'].
Qed.

End Texts.

Section Splitting.

Local Abbreviation chars := list_ascii_of_string.

Lemma split_on_free (sep : ascii) (a : string) :
  Spec.free_of sep a = true -> Spec.split_on sep a = [a].
Proof.
  unfold Spec.free_of. induction a as [ | c a IH]; simpl; intro H.
  - reflexivity.
  - apply andb_prop in H. destruct H as [Hc Ha].
    destruct (Ascii.eqb c sep); [discriminate | ].
    rewrite (IH Ha). reflexivity.
Qed.

Lemma split_on_append (sep : ascii) (a b : string) :
  Spec.free_of sep a = true ->
  Spec.split_on sep (a ++ String sep b) = a :: Spec.split_on sep b.
Proof.
  unfold Spec.free_of. induction a as [ | c a IH]; simpl; intro H.
  - rewrite Ascii.eqb_refl. reflexivity.
  - apply andb_prop in H. destruct H as [Hc Ha].
    destruct (Ascii.eqb c sep); [discriminate | ].
    rewrite (IH Ha). reflexivity.
Qed.

Lemma split_on_join (sep : ascii) (l : list string) :
  l <> [] ->
  Forall (fun a => Spec.free_of sep a = true) l ->
  Spec.split_on sep (JSON.join (String sep EmptyString) l) = l.
Proof.
  induction l as [ | a l IH]; [congruence | ].
  intros _ H. inversion H as [ | a' l' Ha Hl]; subst.
  destruct l as [ | b l].
  - apply split_on_free, Ha.
  - change (JSON.join (String sep EmptyString) (a :: b :: l))
      with (a ++ String sep (JSON.join (String sep EmptyString) (b :: l)))%string.
    rewrite split_on_append by exact Ha.
    rewrite IH by (congruence || exact Hl). reflexivity.
Qed.

Lemma free_of_append (sep : ascii) (a b : string) :
  Spec.free_of sep (a ++ b)
  = Spec.free_of sep a && Spec.free_of sep b.
Proof. apply forallb_append. Qed.

Lemma numeric_free_of (sep : ascii) (a : string) :
  Spec.number_char sep = false ->
  Spec.numeric a = true -> Spec.free_of sep a = true.
Proof.
  intro Hsep. apply forallb_weaken. intros c Hc.
  destruct (Ascii.eqb c sep) eqn:E; [ | reflexivity].
  apply Ascii.eqb_eq in E. congruence.
Qed.

(** A row of the CSV text has no line break in it, and none of its five
    fields has a comma. *)
Lemma csv_row_fields (item : PeriodRecord) :
  Spec.free_of "010" (ExportButtons.csv_row item) = true
  /\ Spec.split_on "," (ExportButtons.csv_row item)
     = [ Number_toString (year item);
         ("Q" ++ Number_toString (quarter item))%string;
         Number_toString (sales_volume item);
         Number_toString (profit item);
         (toFixed 2 (Spec.margin item) ++ "%")%string ].
Proof.
  assert (N : forall sep x, Spec.number_char sep = false ->
                Spec.free_of sep (Number_toString x) = true)
    by (intros; apply numeric_free_of, numeric_Number_toString; assumption).
  assert (F : forall sep x, Spec.number_char sep = false ->
                Spec.free_of sep (toFixed 2 x) = true)
    by (intros; apply numeric_free_of, numeric_toFixed; assumption).
  split.
  - unfold ExportButtons.csv_row. cbn [JSON.join].
    rewrite !free_of_append, !N, F by reflexivity. reflexivity.
  - apply split_on_join; [discriminate | ].
    repeat constructor;
      rewrite ?free_of_append, ?N, ?F by reflexivity; reflexivity.
Qed.

Lemma csvContent_lines (data : list PeriodRecord) :
  Spec.split_on "010" (ExportButtons.csvContent data)
  = Spec.csv_header :: map ExportButtons.csv_row data.
Proof.
  unfold ExportButtons.csvContent.
  apply (split_on_join "010"); [discriminate | ].
  constructor; [reflexivity | ].
  apply Forall_forall. intros row Hrow.
  apply in_map_iff in Hrow. destruct Hrow as (item & <- & _).
  apply csv_row_fields.
Qed.

Lemma fixed_layout_fraction (f : nat) (n : Z) :
  Spec.fraction_digits (S f) (fixed_layout (S f) n).
Proof.
  unfold fixed_layout.
  set (m' := (repeat0 (S (S f) - String.length (digits_of n))
              ++ digits_of n)%string).
  assert (L : (S (S f) <= String.length m')%nat).
  { unfold m'. rewrite length_append, length_repeat0. lia. }
  assert (D : forallb JSON.is_digit (chars m') = true).
  { unfold m'. rewrite forallb_append, forallb_repeat0, forallb_digits_of.
    reflexivity. }
  exists (substring 0 (String.length m' - S f) m'),
         (substring (String.length m' - S f) (S f) m').
  split; [reflexivity | split].
  - apply length_substring. lia.
  - apply forallb_substring, D.
Qed.

Lemma toFixed_fraction (f : nat) (x : number) :
  Spec.below_1e21 x = true -> Spec.fraction_digits (S f) (toFixed (S f) x).
Proof.
  destruct x as [s | s | | s m e]; simpl Spec.below_1e21;
    try discriminate; intro H.
  - apply fixed_layout_fraction.
  - unfold toFixed. apply negb_true_iff in H. rewrite H.
    destruct (fixed_layout_fraction f (scaled_nearest m e (S f)))
      as (a & b & E & L & D).
    exists ((if s then "-" else "") ++ a)%string, b.
    rewrite E, append_assoc. auto.
Qed.

Lemma toFixed_large (f : nat) (x : number) :
  Spec.below_1e21 x = false -> toFixed f x = Number_toString x.
Proof.
  destruct x as [s | s | | s m e]; try reflexivity; try discriminate.
  simpl. intro H. apply negb_false_iff in H. rewrite H. reflexivity.
Qed.

Lemma fraction_digits_point (f : nat) (text : string) :
  Spec.fraction_digits f text -> In "."%char (chars text).
Proof.
  intros (a & b & -> & _). rewrite chars_app. apply in_or_app. right.
  left. reflexivity.
Qed.

End Splitting.

(** ** Integers as numbers *)

Section Integers.

Local Abbreviation emin := (SpecFloat.emin prec emax).
Local Abbreviation fexp := (SpecFloat.fexp prec emax).

Lemma shr_fexp_stays (m e : Z) (l : location) :
  fexp (Zdigits2 m + e) <= e ->
  shr_fexp prec emax m e l = (shr_record_of_loc m l, e).
Proof.
  intro H. unfold shr_fexp, shr.
  destruct (fexp (Zdigits2 m + e) - e) eqn:E; try reflexivity. lia.
Qed.

(** A mantissa that needs no shift is kept as it is. *)
Lemma binary_round_aux_exact (s : bool) (m : positive) (e : Z) :
  fexp (Zdigits2 (Zpos m) + e) <= e -> e <= emax - prec ->
  binary_round_aux prec emax s (Zpos m) e loc_Exact = S754_finite s m e.
Proof.
  intros H1 H2. unfold binary_round_aux.
  rewrite shr_fexp_stays by exact H1. simpl shr_m.
  simpl loc_of_shr_record. simpl round_nearest_even.
  rewrite shr_fexp_stays by exact H1. simpl shr_m.
  apply Z.leb_le in H2. rewrite H2. reflexivity.
Qed.

Lemma iter_xO_value (p k : positive) :
  Zpos (Pos.iter xO p k) = Zpos p * 2 ^ Zpos k.
Proof.
  induction k as [ | k IH] using Pos.peano_ind.
  - simpl Pos.iter. rewrite Pos2Z.inj_xO. change (2 ^ 1) with 2. lia.
  - rewrite Pos.iter_succ, Pos2Z.inj_xO, IH, Pos2Z.inj_succ,
      Z.pow_succ_r by lia. ring.
Qed.

Lemma iter_xO_digits (p k : positive) :
  Zpos (digits2_pos (Pos.iter xO p k)) = Zpos (digits2_pos p) + Zpos k.
Proof.
  induction k as [ | k IH] using Pos.peano_ind.
  - simpl. lia.
  - rewrite Pos.iter_succ. simpl digits2_pos.
    rewrite Pos2Z.inj_succ, IH. lia.
Qed.

Lemma digits_upper (p : positive) :
  Zpos p < 2 ^ 53 -> Zpos (digits2_pos p) <= 53.
Proof.
  intro H. pose proof (digits_lower p) as L. simpl Zdigits2 in L.
  destruct (Z.le_gt_cases (Zpos (digits2_pos p)) 53) as [ | G];
    [assumption | exfalso].
  assert (2 ^ 53 <= 2 ^ (Zpos (digits2_pos p) - 1))
    by (apply Z.pow_le_mono_r; lia).
  lia.
Qed.

(** The number of a positive integer below [2^53]: the integer itself,
    shifted to fifty-three digits. *)
Lemma binary_round_integer (s : bool) (p : positive) :
  Zpos p < 2 ^ 53 ->
  exists m e,
    binary_round prec emax s p 0 = S754_finite s m e
    /\ to_integer m e = Some (Zpos p).
Proof.
  intro H. pose proof (digits_upper p H) as D.
  unfold binary_round, shl_align.
  assert (F : fexp (Zpos (digits2_pos p) + 0) = Zpos (digits2_pos p) - 53).
  { unfold SpecFloat.fexp. rewrite emin_value. change prec with 53. lia. }
  rewrite F.
  destruct (Zpos (digits2_pos p) - 53 - 0) as [ | k | k] eqn:E; try lia.
  - exists p, 0. split.
    + apply binary_round_aux_exact.
      * simpl Zdigits2. rewrite F. lia.
      * change (emax - prec) with 971. lia.
    + unfold to_integer. simpl. f_equal. lia.
  - exists (Pos.iter xO p k), (Zpos (digits2_pos p) - 53). split.
    + apply binary_round_aux_exact.
      * simpl Zdigits2. rewrite iter_xO_digits.
        unfold SpecFloat.fexp. rewrite emin_value. change prec with 53. lia.
      * change (emax - prec) with 971. lia.
    + unfold to_integer.
      replace (0 <=? Zpos (digits2_pos p) - 53) with false
        by (symmetry; apply Z.leb_gt; lia).
      replace (- (Zpos (digits2_pos p) - 53)) with (Zpos k) by lia.
      rewrite iter_xO_value.
      assert (0 < 2 ^ Zpos k) by (apply Z.pow_pos_nonneg; lia).
      rewrite Z.mod_mul, Z.div_mul by lia. reflexivity.
Qed.

(** An integer below [2^53] in magnitude is written with its decimal
    digits. *)
Lemma Number_toString_integer (z : Z) :
  Z.abs z < 2 ^ 53 ->
  Number_toString (of_Z z)
  = ((if (z <? 0)%Z then "-" else "") ++ digits_of (Z.abs z))%string.
Proof.
  intro H. destruct z as [ | p | p]; [reflexivity | | ];
    unfold of_Z, binary_normalize.
  - destruct (binary_round_integer false p H) as (m' & e' & E' & I').
    rewrite E'. unfold Number_toString, positive_toString. rewrite I'.
    apply Z.ltb_lt in H. simpl Z.abs in H. change prec with 53. rewrite H.
    reflexivity.
  - destruct (binary_round_integer true p H) as (m' & e' & E' & I').
    rewrite E'. unfold Number_toString, positive_toString. rewrite I'.
    apply Z.ltb_lt in H. simpl Z.abs in H. change prec with 53. rewrite H.
    reflexivity.
Qed.

Lemma of_Z_finite (z : Z) : Z.abs z < 2 ^ 53 -> is_finite (of_Z z) = true.
Proof.
  intro H. destruct z as [ | p | p]; [reflexivity | | ];
    unfold of_Z, binary_normalize.
  - destruct (binary_round_integer false p H) as (m & e & -> & _).
    reflexivity.
  - destruct (binary_round_integer true p H) as (m & e & -> & _).
    reflexivity.
Qed.

End Integers.

(** ** Sums of integers *)

Section ExactSums.

Local Abbreviation emin := (SpecFloat.emin prec emax).
Local Abbreviation fexp := (SpecFloat.fexp prec emax).

Lemma digits_unique (m : positive) (x : Z) :
  2 ^ (x - 1) <= Zpos m < 2 ^ x -> Zdigits2 (Zpos m) = x.
Proof.
  intros [L U]. pose proof (digits_lower m) as L'.
  assert (U' : Zpos m < 2 ^ Zdigits2 (Zpos m)).
  { simpl Zdigits2. rewrite digits2_size.
    pose proof (Pos.size_gt m) as G.
    change (Zpos m < Zpos (2 ^ Pos.size m)) in G.
    rewrite Pos2Z.inj_pow in G. exact G. }
  assert (P : 0 < Zdigits2 (Zpos m)) by (simpl; lia).
  destruct (Z.lt_trichotomy (Zdigits2 (Zpos m)) x) as [H | [H | H]];
    [exfalso | exact H | exfalso].
  - assert (2 ^ Zdigits2 (Zpos m) <= 2 ^ (x - 1))
      by (apply Z.pow_le_mono_r; lia).
    lia.
  - destruct (Z.le_gt_cases 0 x) as [Hx | Hx].
    + assert (2 ^ x <= 2 ^ (Zdigits2 (Zpos m) - 1))
        by (apply Z.pow_le_mono_r; lia).
      lia.
    + rewrite (Z.pow_neg_r 2 x) in U by lia. lia.
Qed.

Lemma digits_scaled (p M : positive) (k : Z) :
  0 <= k -> Zpos M = Zpos p * 2 ^ k ->
  Zdigits2 (Zpos M) = Zdigits2 (Zpos p) + k.
Proof.
  intros Hk E. apply digits_unique.
  pose proof (digits_lower p) as L.
  assert (U : Zpos p < 2 ^ Zdigits2 (Zpos p)).
  { simpl Zdigits2. rewrite digits2_size.
    pose proof (Pos.size_gt p) as G.
    change (Zpos p < Zpos (2 ^ Pos.size p)) in G.
    rewrite Pos2Z.inj_pow in G. exact G. }
  assert (P : 0 < Zdigits2 (Zpos p)) by (simpl; lia).
  assert (K : 0 < 2 ^ k) by (apply Z.pow_pos_nonneg; lia).
  replace (Zdigits2 (Zpos p) + k - 1) with (Zdigits2 (Zpos p) - 1 + k) by lia.
  rewrite E, !Z.pow_add_r by lia. split; nia.
Qed.

Lemma shr_1_exact (m : Z) :
  0 <= m ->
  shr_1 {| shr_m := 2 * m; shr_r := false; shr_s := false |}
  = {| shr_m := m; shr_r := false; shr_s := false |}.
Proof. destruct m as [ | q | q]; [reflexivity | reflexivity | lia]. Qed.

Lemma iter_shr_exact (q : positive) :
  forall m,
    0 <= m ->
    iter_pos shr_1 q
      {| shr_m := m * 2 ^ Zpos q; shr_r := false; shr_s := false |}
    = {| shr_m := m; shr_r := false; shr_s := false |}.
Proof.
  induction q as [q IH | q IH | ]; intros m Hm; cbn [iter_pos].
  - assert (Hq : 0 < 2 ^ Zpos q) by (apply Z.pow_pos_nonneg; lia).
    replace (m * 2 ^ Zpos q~1) with (2 * (m * 2 ^ Zpos q * 2 ^ Zpos q)).
    + rewrite shr_1_exact by nia. rewrite IH by nia. apply IH, Hm.
    + assert (E : 2 ^ Zpos q~1 = 2 * (2 ^ Zpos q * 2 ^ Zpos q)).
      { rewrite <- Z.pow_add_r, <- Z.pow_succ_r by lia. f_equal. lia. }
      rewrite E. ring.
  - assert (Hq : 0 < 2 ^ Zpos q) by (apply Z.pow_pos_nonneg; lia).
    replace (m * 2 ^ Zpos q~0) with (m * 2 ^ Zpos q * 2 ^ Zpos q).
    + rewrite IH by nia. apply IH, Hm.
    + assert (E : 2 ^ Zpos q~0 = 2 ^ Zpos q * 2 ^ Zpos q).
      { rewrite <- Z.pow_add_r by lia. f_equal. lia. }
      rewrite E. ring.
  - change (2 ^ 1) with 2. rewrite Z.mul_comm. apply shr_1_exact, Hm.
Qed.

(** Every way of writing a positive integer below [2^53] as a mantissa
    and a power of two rounds to the same number: the integer shifted to
    fifty-three digits. *)
Lemma binary_round_canonical (s : bool) (p M : positive) (k : Z) :
  Zpos p < 2 ^ 53 -> 0 <= k -> Zpos M = Zpos p * 2 ^ k ->
  exists m,
    Zpos m = Zpos p * 2 ^ (53 - Zdigits2 (Zpos p))
    /\ binary_round prec emax s M (- k)
       = S754_finite s m (Zdigits2 (Zpos p) - 53).
Proof.
  intros Hp Hk E.
  pose proof (digits_upper p Hp) as D.
  pose proof (digits_scaled p M k Hk E) as DM.
  set (d := Zdigits2 (Zpos p)) in *.
  assert (Dd : Zpos (digits2_pos p) = d) by reflexivity.
  assert (Pd : 0 < d) by (subst d; simpl; lia).
  unfold binary_round, shl_align.
  change (Zpos (digits2_pos M)) with (Zdigits2 (Zpos M)). rewrite DM.
  assert (F : fexp (d + k + - k) = d - 53).
  { unfold SpecFloat.fexp. rewrite emin_value. change prec with 53. lia. }
  rewrite F.
  destruct (d - 53 - - k) as [ | q | q] eqn:Q.
  - (* already at fifty-three digits *)
    exists M. split.
    + rewrite E. f_equal. f_equal. lia.
    + replace (d - 53) with (- k) by lia.
      apply binary_round_aux_exact.
      * rewrite DM, F. lia.
      * change (emax - prec) with 971. lia.
  - (* too wide: the low digits, all zero, are shifted out *)
    assert (K : k = Zpos q + (53 - d)) by lia.
    assert (Hm : 0 < Zpos p * 2 ^ (53 - d))
      by (apply Z.mul_pos_pos; [lia | apply Z.pow_pos_nonneg; lia]).
    destruct (Zpos p * 2 ^ (53 - d)) as [ | m | m] eqn:Em; try lia.
    exists m. split; [reflexivity | ].
    assert (EM : Zpos M = Zpos m * 2 ^ Zpos q).
    { rewrite E, K, Z.pow_add_r, <- Em by lia. ring. }
    assert (Dm : Zdigits2 (Zpos m) = 53).
    { replace 53 with (d + (53 - d)) by lia.
      apply (digits_scaled p m (53 - d)); [lia | ]. symmetry. exact Em. }
    unfold binary_round_aux, shr_fexp at 1, shr.
    rewrite DM, F, Q. cbn [shr_record_of_loc].
    rewrite EM, iter_shr_exact by lia.
    cbn [shr_m loc_of_shr_record round_nearest_even].
    rewrite shr_fexp_stays.
    + cbn [shr_record_of_loc shr_m].
      replace (- k + Zpos q) with (d - 53) by lia.
      replace (d - 53 <=? emax - prec) with true; [reflexivity | ].
      symmetry. apply Z.leb_le. change (emax - prec) with 971. lia.
    + rewrite Dm. unfold SpecFloat.fexp. rewrite emin_value.
      change prec with 53. lia.
  - (* too narrow: shifted to the left *)
    exists (Pos.iter xO M q). split.
    + rewrite iter_xO_value, E. rewrite <- Z.mul_assoc, <- Z.pow_add_r by lia.
      f_equal. f_equal. lia.
    + apply binary_round_aux_exact.
      * simpl Zdigits2. rewrite iter_xO_digits.
        change (Zpos (digits2_pos M)) with (Zdigits2 (Zpos M)). rewrite DM.
        unfold SpecFloat.fexp. rewrite emin_value. change prec with 53. lia.
      * change (emax - prec) with 971. lia.
Qed.

Lemma binary_round_scaled (s : bool) (p M : positive) (k : Z) :
  Zpos p < 2 ^ 53 -> 0 <= k -> Zpos M = Zpos p * 2 ^ k ->
  binary_round prec emax s M (- k) = binary_round prec emax s p 0.
Proof.
  intros Hp Hk E.
  destruct (binary_round_canonical s p M k Hp Hk E) as (m & Em & ->).
  destruct (binary_round_canonical s p p 0 Hp (Z.le_refl 0))
    as (m' & Em' & R); [change (2 ^ 0) with 1; lia | ].
  change (- 0) with 0 in R. rewrite R.
  assert (m = m') by (apply Pos2Z.inj; congruence). subst m'. reflexivity.
Qed.

(** The number of an integer [z * 2^k], written with the exponent
    [- k]. *)
Lemma binary_normalize_scaled (z Z' : Z) (k : Z) :
  Z.abs z < 2 ^ 53 -> 0 <= k -> Z' = z * 2 ^ k ->
  binary_normalize prec emax Z' (- k) false = of_Z z.
Proof.
  intros Hz Hk E.
  assert (K : 0 < 2 ^ k) by (apply Z.pow_pos_nonneg; lia).
  unfold of_Z, binary_normalize.
  destruct z as [ | p | p].
  - subst Z'. reflexivity.
  - destruct Z' as [ | M | M]; try nia.
    apply binary_round_scaled; assumption.
  - destruct Z' as [ | M | M]; try nia.
    apply binary_round_scaled; [assumption | assumption | ].
    change (Zpos M) with (- Zneg M). rewrite E.
    change (Zneg p) with (- Zpos p). ring.
Qed.

(** The mantissa and the exponent of the number of an integer. *)
Lemma of_Z_mantissa (z : Z) :
  z <> 0 -> Z.abs z < 2 ^ 53 ->
  exists m e,
    of_Z z = S754_finite (z <? 0) m e
    /\ e <= 0
    /\ Zpos m = Z.abs z * 2 ^ (- e).
Proof.
  intros Hz Hb.
  assert (H : exists p, Z.abs z = Zpos p)
    by (destruct z; [lia | eexists; reflexivity | eexists; reflexivity]).
  destruct H as (p & Ep). rewrite Ep in *.
  pose proof (digits_upper p Hb) as D.
  destruct (binary_round_canonical (z <? 0) p p 0 Hb (Z.le_refl 0))
    as (m & Em & R); [change (2 ^ 0) with 1; lia | ].
  exists m, (Zdigits2 (Zpos p) - 53).
  simpl Zdigits2 in *.
  split; [ | split; [lia | ]].
  - unfold of_Z, binary_normalize.
    destruct z as [ | q | q]; try lia; simpl Z.abs in Ep;
      injection Ep as ->; exact R.
  - rewrite Em. f_equal. f_equal. lia.
Qed.

Lemma shl_align_value (m : positive) (e ez : Z) :
  ez <= e ->
  Zpos (fst (shl_align m e ez)) = Zpos m * 2 ^ (e - ez).
Proof.
  intro H. unfold shl_align.
  destruct (ez - e) as [ | q | q] eqn:Q; simpl fst; try lia.
  - replace (e - ez) with 0 by lia. change (2 ^ 0) with 1. lia.
  - rewrite iter_xO_value. f_equal. f_equal. lia.
Qed.

(** The sum of two integers is exact as long as it stays below
    [2^53]. *)
Lemma add_integers (a b : Z) :
  Z.abs a < 2 ^ 53 -> Z.abs b < 2 ^ 53 -> Z.abs (a + b) < 2 ^ 53 ->
  add (of_Z a) (of_Z b) = of_Z (a + b).
Proof.
  intros Ha Hb Hab.
  destruct (Z.eq_dec a 0) as [-> | Na].
  { destruct (Z.eq_dec b 0) as [-> | Nb]; [reflexivity | ].
    rewrite Z.add_0_l.
    destruct (of_Z_mantissa b Nb Hb) as (m & e & E & _).
    rewrite E. reflexivity. }
  destruct (Z.eq_dec b 0) as [-> | Nb].
  { rewrite Z.add_0_r.
    destruct (of_Z_mantissa a Na Ha) as (m & e & E & _).
    rewrite E. reflexivity. }
  destruct (of_Z_mantissa a Na Ha) as (ma & ea & Ea & Hea & Ema).
  destruct (of_Z_mantissa b Nb Hb) as (mb & eb & Eb & Heb & Emb).
  rewrite Ea, Eb.
  unfold add, SFadd.
  set (ez := Z.min ea eb).
  assert (Hz : ez <= 0) by (subst ez; lia).
  assert (Hza : ez <= ea) by (subst ez; lia).
  assert (Hzb : ez <= eb) by (subst ez; lia).
  replace ez with (- (- ez)) at 3 by lia.
  apply binary_normalize_scaled; [assumption | lia | ].
  rewrite !shl_align_value by assumption.
  rewrite Ema, Emb.
  rewrite <- !Z.mul_assoc, <- !Z.pow_add_r by lia.
  replace (- ea + (ea - ez)) with (- ez) by lia.
  replace (- eb + (eb - ez)) with (- ez) by lia.
  unfold cond_Zopp.
  destruct (Z.ltb_spec a 0), (Z.ltb_spec b 0); nia.
Qed.

Lemma magnitude_nonneg (zs : list Z) : 0 <= Spec.magnitude zs.
Proof. induction zs; simpl; lia. Qed.

Lemma sum_from_integers (zs : list Z) :
  forall a,
    Z.abs a + Spec.magnitude zs < 2 ^ 53 ->
    Spec.sum_from (of_Z a) (map of_Z zs) = of_Z (a + Spec.total zs).
Proof.
  induction zs as [ | z zs IH]; intros a H; simpl in *.
  - rewrite Z.add_0_r. reflexivity.
  - pose proof (magnitude_nonneg zs).
    rewrite add_integers by lia.
    rewrite IH by lia. f_equal. lia.
Qed.

(** The sum of integers whose magnitudes add up to less than [2^53] is
    the number of their sum. *)
Lemma sum_integers (zs : list Z) :
  Spec.magnitude zs < 2 ^ 53 ->
  Spec.sum (map of_Z zs) = of_Z (Spec.total zs).
Proof.
  intro H. unfold Spec.sum. rewrite sum_from_integers by (simpl; lia).
  reflexivity.
Qed.

End ExactSums.

(** ** Reading a numeral *)

Section ReadingNumerals.
Import JSON.

Local Abbreviation chars := list_ascii_of_string.

Lemma digit_facts (c : ascii) :
  is_digit c = true ->
  Ascii.eqb c "-" = false
  /\ is_number_char c = true
  /\ idle_step c = Some ([], InNumber [c]).
Proof.
  intro H. apply digit_cases in H. simpl in H.
  destruct H as [<- | [<- | [<- | [<- | [<- | [<- | [<- | [<- | [<- | [<- | []]]]]]]]]]];
    repeat split; reflexivity.
Qed.

Lemma span_digits_all (cs : list ascii) :
  forallb is_digit cs = true -> span_digits cs = (cs, []).
Proof.
  induction cs as [ | c cs IH]; simpl; [reflexivity | ].
  intro H. apply andb_prop in H. destruct H as [Hc Hcs].
  rewrite Hc, (IH Hcs). reflexivity.
Qed.

Lemma nzhead_not_zero (d x : Decimal.uint) :
  Decimal.nzhead d <> Decimal.D0 x.
Proof. induction d; simpl; auto; discriminate. Qed.

Lemma to_uint_leading (p : positive) (x : Decimal.uint) :
  Pos.to_uint p <> Decimal.D0 x.
Proof.
  intro E.
  pose proof (DecimalPos.Unsigned.to_of (Pos.to_uint p)) as H.
  rewrite DecimalPos.Unsigned.of_to in H. simpl N.to_uint in H.
  unfold Decimal.unorm in H.
  destruct (Decimal.nzhead (Pos.to_uint p)) eqn:N;
    try (rewrite E in H; discriminate H).
  - exact (DecimalPos.Unsigned.to_uint_nonzero p H).
  - rewrite E in H. rewrite <- H in N. exact (nzhead_not_zero _ _ N).
Qed.

Lemma numeral_without_leading_zero (n : Z) :
  leading_zero (chars (digits_of n)) = false.
Proof.
  rewrite digits_of_text.
  destruct (Z.to_N n) as [ | p]; [reflexivity | ].
  simpl N.to_uint. pose proof (to_uint_leading p) as H.
  destruct (Pos.to_uint p) as [ | d | d | d | d | d | d | d | d | d | d ];
    [ reflexivity | exfalso; exact (H d eq_refl) | .. ];
    destruct d; reflexivity.
Qed.

Lemma numeral_not_empty (n : Z) :
  exists c cs, chars (digits_of n) = c :: cs /\ is_digit c = true.
Proof.
  pose proof (forallb_digits_of n) as D.
  rewrite digits_of_text in *.
  pose proof (to_uint_not_nil (Z.to_N n)) as H.
  destruct (N.to_uint (Z.to_N n)); try contradiction;
    simpl in *; eexists; eexists; split; reflexivity.
Qed.

Lemma digits_value_numeral (n : Z) :
  0 <= n -> digits_value (chars (digits_of n)) = n.
Proof.
  intro H. unfold digits_value.
  rewrite <- (Z2N.id n H) at 1. rewrite take_digits_numeral.
  apply Z2N.id, H.
Qed.

Lemma of_decimal_integer (neg : bool) (p : positive) :
  of_decimal neg (Zpos p) 0
  = of_Z (if neg then Zneg p else Zpos p).
Proof.
  unfold of_decimal. change (Zpos p =? 0) with false.
  change (0 <=? 0) with true. cbv iota.
  change (10 ^ 0) with 1. rewrite Z.mul_1_r.
  destruct neg; reflexivity.
Qed.

Lemma unsigned_number_digits (neg : bool) (n : Z) :
  0 <= n ->
  unsigned_number neg (chars (digits_of n)) = Some (of_decimal neg n 0).
Proof.
  intro H. unfold unsigned_number.
  rewrite (span_digits_all _ (forallb_digits_of n)).
  rewrite numeral_without_leading_zero.
  destruct (numeral_not_empty n) as (c & cs & E & _).
  rewrite E. rewrite <- E. simpl fraction_part. simpl exponent_part.
  cbv iota beta. rewrite List.app_nil_r, digits_value_numeral by exact H.
  reflexivity.
Qed.

(** The numeral of an integer is read as the number of that integer. *)
Lemma number_of_numeral (z : Z) :
  number_of (chars (Spec.numeral z)) = Some (of_Z z).
Proof.
  unfold Spec.numeral, number_of.
  destruct z as [ | p | p].
  - reflexivity.
  - change (Zpos p <? 0) with false. cbv iota.
    change (chars ("" ++ digits_of (Z.abs (Zpos p))))
      with (chars (digits_of (Zpos p))).
    destruct (numeral_not_empty (Zpos p)) as (c & cs & E & Hc).
    assert (M : minus_sign (chars (digits_of (Zpos p)))
                = (false, chars (digits_of (Zpos p)))).
    { rewrite E. unfold minus_sign.
      rewrite (proj1 (digit_facts c Hc)). reflexivity. }
    rewrite M. cbv iota beta.
    rewrite unsigned_number_digits, of_decimal_integer by lia.
    reflexivity.
  - change (Zneg p <? 0) with true. cbv iota.
    change (chars ("-" ++ digits_of (Z.abs (Zneg p))))
      with ("-"%char :: chars (digits_of (Zpos p))).
    change (minus_sign ("-"%char :: chars (digits_of (Zpos p))))
      with (true, chars (digits_of (Zpos p))).
    cbv iota beta.
    rewrite unsigned_number_digits, of_decimal_integer by lia.
    reflexivity.
Qed.

End ReadingNumerals.

(** ** Digits, and texts made of them *)

Section ReadingDigits.
Import JSON NumberParsing.

Local Abbreviation chars := list_ascii_of_string.

Lemma digit_plain (c : ascii) (cs : list ascii) :
  is_digit c = true ->
  skip_whitespace (c :: cs) = c :: cs
  /\ strip_sign (c :: cs) = (false, c :: cs)
  /\ starts_with (chars "Infinity") (c :: cs) = false
  /\ Ascii.eqb c "." = false
  /\ take_digits 10 (c :: cs) (Some 0) = take_digits 10 (c :: cs) None.
Proof.
  intro H. apply digit_cases in H. simpl in H.
  destruct H as [<- | [<- | [<- | [<- | [<- | [<- | [<- | [<- | [<- | [<- | []]]]]]]]]]];
    repeat split; reflexivity.
Qed.

Lemma span_digits_app (ds : list ascii) (c : ascii) (rest : list ascii) :
  forallb is_digit ds = true -> is_digit c = false ->
  span_digits (ds ++ c :: rest) = (ds, c :: rest).
Proof.
  intros H Hc. induction ds as [ | d ds IH]; simpl.
  - rewrite Hc. reflexivity.
  - simpl in H. apply andb_prop in H. destruct H as [Hd Hds].
    rewrite Hd, (IH Hds). reflexivity.
Qed.

Lemma substring_split (s : string) :
  forall a b, (a + b = String.length s)%nat ->
    (substring 0 a s ++ substring a b s)%string = s.
Proof.
  induction s as [ | c s IH]; intros a b H; simpl in H.
  - assert (a = 0 /\ b = 0)%nat as [-> ->] by lia. reflexivity.
  - destruct a as [ | a].
    + simpl in H. subst b. simpl. f_equal.
      clear. induction s as [ | c s IH]; simpl; [reflexivity | ].
      f_equal. exact IH.
    + simpl. f_equal. apply IH. lia.
Qed.

Lemma digits_value_padded (j : nat) (n : Z) :
  0 <= n -> digits_value (chars (repeat0 j ++ digits_of n)) = n.
Proof.
  intro H. rewrite <- (digits_value_numeral n H) at 2.
  unfold digits_value. f_equal.
  induction j as [ | j IH]; [reflexivity | ].
  cbn [repeat0 append list_ascii_of_string]. rewrite <- IH.
  assert (D : exists c cs, chars (repeat0 j ++ digits_of n) = c :: cs
                           /\ is_digit c = true).
  { destruct j as [ | j]; [apply numeral_not_empty | ].
    eexists; eexists. split; reflexivity. }
  destruct D as (c & cs & E & Hc). rewrite E.
  destruct (digit_plain c cs Hc) as (_ & _ & _ & _ & T).
  rewrite <- T. reflexivity.
Qed.

End ReadingDigits.

(** ** Rounding to the nearest number *)

Section Nearest.
Import Reading.

Local Abbreviation emin := (SpecFloat.emin prec emax).
Local Abbreviation fexp := (SpecFloat.fexp prec emax).

Lemma pow2_pos (e : Z) : (0 < pow2 e)%Q.
Proof. apply Qpower_0_lt. reflexivity. Qed.

Lemma pow2_add (a b : Z) : (pow2 (a + b) == pow2 a * pow2 b)%Q.
Proof. apply Qpower_plus. discriminate. Qed.

Lemma pow2_succ (e : Z) : (pow2 (e + 1) == 2 * pow2 e)%Q.
Proof. rewrite pow2_add. change (pow2 1) with 2%Q. ring. Qed.

Lemma pow2_pred (e : Z) : (pow2 (e - 1) == (1 # 2) * pow2 e)%Q.
Proof.
  replace e with (e - 1 + 1)%Z at 2 by lia. rewrite pow2_succ. ring.
Qed.

Lemma pow2_Z (e : Z) : 0 <= e -> (pow2 e == inject_Z (2 ^ e))%Q.
Proof.
  intro H. unfold pow2. rewrite Zpower_Qpower by exact H. reflexivity.
Qed.

Lemma pow2_ge_1 (e : Z) : 0 <= e -> (1 <= pow2 e)%Q.
Proof.
  intro H. rewrite pow2_Z by exact H.
  change 1%Q with (inject_Z 1). rewrite <- Zle_Qle.
  assert (0 < 2 ^ e) by (apply Z.pow_pos_nonneg; lia). lia.
Qed.

Lemma pow2_le (a b : Z) : a <= b -> (pow2 a <= pow2 b)%Q.
Proof.
  intro H. replace b with (a + (b - a))%Z by lia. rewrite pow2_add.
  pose proof (pow2_ge_1 (b - a) ltac:(lia)). pose proof (pow2_pos a).
  nra.
Qed.

Lemma pow2_lt (a b : Z) : a < b -> (pow2 a < pow2 b)%Q.
Proof.
  intro H. replace b with (a + 1 + (b - a - 1))%Z by lia.
  rewrite pow2_add, pow2_succ.
  pose proof (pow2_ge_1 (b - a - 1) ltac:(lia)). pose proof (pow2_pos a).
  nra.
Qed.

Lemma pow2_lt_inv (a b : Z) : (pow2 a < pow2 b)%Q -> a < b.
Proof.
  intro H. destruct (Z.lt_ge_cases a b) as [L | G]; [exact L | ].
  pose proof (pow2_le b a G). lra.
Qed.

Lemma located_compat (mrs : shr_record) (t t' : Q) :
  (t == t')%Q -> located mrs t -> located mrs t'.
Proof.
  unfold located. intro E.
  destruct (shr_r mrs), (shr_s mrs); rewrite E; auto.
Qed.

Lemma located_bounds (mrs : shr_record) (t : Q) :
  located mrs t ->
  (inject_Z (shr_m mrs) <= t /\ t < inject_Z (shr_m mrs) + 1)%Q.
Proof.
  unfold located. destruct (shr_r mrs), (shr_s mrs); intro H; lra.
Qed.

Lemma inject_xO (p : positive) :
  (inject_Z (Zpos p~0) == 2 * inject_Z (Zpos p))%Q.
Proof. rewrite Pos2Z.inj_xO, inject_Z_mult. reflexivity. Qed.

Lemma inject_xI (p : positive) :
  (inject_Z (Zpos p~1) == 2 * inject_Z (Zpos p) + 1)%Q.
Proof. rewrite Pos2Z.inj_xI, inject_Z_plus, inject_Z_mult. reflexivity. Qed.

Lemma shr_1_located (mrs : shr_record) (t : Q) :
  0 <= shr_m mrs -> located mrs t ->
  located (shr_1 mrs) (t * (1 # 2)) /\ 0 <= shr_m (shr_1 mrs).
Proof.
  destruct mrs as [m r s]. cbn [shr_m]. intros Hm H.
  destruct m as [ | p | p]; [ | | lia].
  - destruct r, s; unfold located in *;
      cbn [shr_1 shr_m shr_r shr_s orb] in *;
      change (inject_Z 0) with 0%Q in *; (split; [ | lia]); lra.
  - destruct p as [p | p | ]; destruct r, s; unfold located in *;
      cbn [shr_1 shr_m shr_r shr_s orb] in *;
      rewrite ?inject_xO, ?inject_xI in H;
      (split; [ | lia]);
      change (inject_Z 0) with 0%Q; change (inject_Z 1) with 1%Q in H; lra.
Qed.

Lemma iter_shr_located (p : positive) :
  forall (mrs : shr_record) (t : Q),
    0 <= shr_m mrs -> located mrs t ->
    located (SpecFloat.iter_pos shr_1 p mrs) (t * pow2 (- Zpos p))
    /\ 0 <= shr_m (SpecFloat.iter_pos shr_1 p mrs).
Proof.
  induction p as [p IH | p IH | ]; intros mrs t Hm H; cbn [SpecFloat.iter_pos].
  - destruct (shr_1_located mrs t Hm H) as [H1 M1].
    destruct (IH _ _ M1 H1) as [H2 M2].
    destruct (IH _ _ M2 H2) as [H3 M3].
    split; [ | exact M3].
    eapply located_compat; [ | exact H3].
    replace (- Zpos p~1)%Z with (- Zpos p + - Zpos p - 1)%Z by lia.
    rewrite pow2_pred, pow2_add. ring.
  - destruct (IH _ _ Hm H) as [H2 M2].
    destruct (IH _ _ M2 H2) as [H3 M3].
    split; [ | exact M3].
    eapply located_compat; [ | exact H3].
    replace (- Zpos p~0)%Z with (- Zpos p + - Zpos p)%Z by lia.
    rewrite pow2_add. ring.
  - destruct (shr_1_located mrs t Hm H) as [H1 M1].
    split; [ | exact M1].
    eapply located_compat; [ | exact H1].
    change (pow2 (- 1)) with (1 # 2)%Q. reflexivity.
Qed.

(** The first shift of a rounding. *)
Lemma shr_fexp_located (m e : Z) (l : location) (y : Q) :
  0 <= m ->
  located (shr_record_of_loc m l) (y * pow2 (- e)) ->
  e <= fexp (Zdigits2 m + e) ->
  let '(mrs, e1) := shr_fexp prec emax m e l in
  e1 = fexp (Zdigits2 m + e)
  /\ located mrs (y * pow2 (- e1))
  /\ 0 <= shr_m mrs.
Proof.
  intros Hm H He. unfold shr_fexp, shr.
  assert (M0 : 0 <= shr_m (shr_record_of_loc m l))
    by (destruct l as [ | [ | | ]]; exact Hm).
  destruct (fexp (Zdigits2 m + e) - e) as [ | p | p] eqn:N; try lia.
  - split; [lia | split; [exact H | exact M0]].
  - destruct (iter_shr_located p _ _ M0 H) as [H1 M1].
    split; [lia | split; [ | exact M1]].
    eapply located_compat; [ | exact H1].
    replace (- (e + Zpos p))%Z with (- e + - Zpos p)%Z by lia.
    rewrite pow2_add. ring.
Qed.

Lemma nearest_even_compat (t t' : Q) (n : Z) :
  (t == t')%Q -> nearest_even t n -> nearest_even t' n.
Proof. unfold nearest_even. intro E. rewrite E. auto. Qed.

Lemma round_nearest_even_located (mrs : shr_record) (t : Q) :
  located mrs t ->
  nearest_even t (round_nearest_even (shr_m mrs) (loc_of_shr_record mrs)).
Proof.
  destruct mrs as [m r s]. unfold located, nearest_even.
  cbn [shr_m shr_r shr_s loc_of_shr_record].
  destruct r, s; cbn [round_nearest_even]; intro H.
  - rewrite inject_Z_plus. change (inject_Z 1) with 1%Q.
    split; [lra | split; [lra | intros [E | E]; lra]].
  - destruct (Z.even m) eqn:Ev.
    + split; [lra | split; [lra | auto]].
    + rewrite inject_Z_plus. change (inject_Z 1) with 1%Q.
      split; [lra | split; [lra | ]]. intros _.
      rewrite Z.even_add, Ev. reflexivity.
  - split; [lra | split; [lra | intros [E | E]; lra]].
  - split; [lra | split; [lra | intros [E | E]; lra]].
Qed.

Lemma nearest_even_unique (t : Q) (a b : Z) :
  nearest_even t a -> nearest_even t b -> a = b.
Proof.
  intros (A1 & A2 & A3) (B1 & B2 & B3).
  assert (L1 : a <= b + 1).
  { rewrite Zle_Qle, inject_Z_plus. change (inject_Z 1) with 1%Q. lra. }
  assert (L2 : b <= a + 1).
  { rewrite Zle_Qle, inject_Z_plus. change (inject_Z 1) with 1%Q. lra. }
  destruct (Z.eq_dec a b) as [E | N]; [exact E | exfalso].
  assert (C : a = b + 1 \/ b = a + 1) by lia.
  destruct C as [-> | ->].
  - rewrite inject_Z_plus in *. change (inject_Z 1) with 1%Q in *.
    assert (Eb : Z.even b = true) by (apply B3; right; lra).
    assert (Ea : Z.even (b + 1) = true) by (apply A3; left; lra).
    rewrite Z.even_add, Eb in Ea. discriminate Ea.
  - rewrite inject_Z_plus in *. change (inject_Z 1) with 1%Q in *.
    assert (Ea : Z.even a = true) by (apply A3; right; lra).
    assert (Eb : Z.even (a + 1) = true) by (apply B3; left; lra).
    rewrite Z.even_add, Ea in Eb. discriminate Eb.
Qed.


Lemma digits_upper_bound (p : positive) : Zpos p < 2 ^ Zdigits2 (Zpos p).
Proof.
  simpl Zdigits2. rewrite digits2_size.
  pose proof (Pos.size_gt p) as G.
  change (Zpos p < Zpos (2 ^ Pos.size p)) in G.
  rewrite Pos2Z.inj_pow in G. exact G.
Qed.

Lemma digits_positive (p : positive) : 0 < Zdigits2 (Zpos p).
Proof. simpl. lia. Qed.

(** The bounds of a positive integer of [d] digits, as numbers. *)
Lemma digits_bounds_Q (p : positive) :
  (pow2 (Zdigits2 (Zpos p) - 1) <= inject_Z (Zpos p))%Q
  /\ (inject_Z (Zpos p) + 1 <= pow2 (Zdigits2 (Zpos p)))%Q.
Proof.
  pose proof (digits_lower p) as L.
  pose proof (digits_upper_bound p) as U.
  pose proof (digits_positive p) as P.
  rewrite !pow2_Z by lia. split.
  - rewrite <- Zle_Qle. exact L.
  - change 1%Q with (inject_Z 1). rewrite <- inject_Z_plus, <- Zle_Qle. lia.
Qed.

(** Rounding a number that lies in the rounding interval of [M * 2^E]
    gives [M * 2^E]. *)
Lemma binary_round_aux_nearest (s : bool) (m e : Z) (l : location) (y : Q)
  (M : positive) (E : Z) :
  0 <= m ->
  located (shr_record_of_loc m l) (y * pow2 (- e)) ->
  e <= fexp (Zdigits2 m + e) ->
  bounded prec emax M E = true ->
  let u := (y * pow2 (- E))%Q in
  (inject_Z (Zpos M) - below M E <= u)%Q ->
  (u <= inject_Z (Zpos M) + (1 # 2))%Q ->
  (Z.even (Zpos M) = false ->
   (inject_Z (Zpos M) - below M E < u)%Q
   /\ (u < inject_Z (Zpos M) + (1 # 2))%Q) ->
  binary_round_aux prec emax s m e l = S754_finite s M E.
Proof.
  intros Hm Hl He Hb u Lo Hi Open.
  unfold bounded, canonical_mantissa in Hb.
  apply andb_prop in Hb. destruct Hb as [Hc Hx].
  apply Z.eqb_eq in Hc. apply Z.leb_le in Hx.
  change (Zpos (digits2_pos M)) with (Zdigits2 (Zpos M)) in Hc.
  set (D := Zdigits2 (Zpos M)) in *.
  assert (PD : 0 < D) by apply digits_positive.
  destruct (digits_bounds_Q M) as [LM UM]. fold D in LM, UM.
  assert (Bq : (1 # 4 <= below M E)%Q /\ (below M E <= 1 # 2)%Q).
  { unfold below. destruct (_ && _); split; lra. }
  (* [u] is at least one half *)
  assert (U0 : (pow2 (D - 2) <= u)%Q).
  { rewrite pow2_pred in LM.
    replace (D - 2)%Z with (D - 1 - 1)%Z by lia. rewrite pow2_pred.
    assert (1 <= pow2 D)%Q by (apply pow2_ge_1; lia).
    rewrite pow2_pred. lra. }
  assert (U1 : (u < pow2 D)%Q) by lra.
  (* the exponent after the first shift *)
  pose proof (shr_fexp_located m e l y Hm Hl He) as S1.
  assert (Y : forall k, (y * pow2 (- k) == u * pow2 (E - k))%Q).
  { intro k. subst u. replace (- k)%Z with (- E + (E - k))%Z by lia.
    rewrite pow2_add. ring. }
  assert (C : fexp (Zdigits2 m + e) = E
              \/ (fexp (Zdigits2 m + e) = E - 1
                  /\ Zpos M = 2 ^ 52 /\ emin < E
                  /\ (u < inject_Z (Zpos M))%Q)).
  { pose proof (located_bounds _ _ Hl) as [B1 B2].
    assert (Sm : shr_m (shr_record_of_loc m l) = m)
      by (destruct l as [ | [ | | ]]; reflexivity).
    rewrite Sm in B1, B2. rewrite (Y e) in B1, B2.
    pose proof (pow2_pos (E - e)) as Pe.
    destruct m as [ | p | p]; [ | | lia].
    - (* nothing before the point *)
      left. change (inject_Z 0) with 0%Q in B2.
      cbn [Zdigits2] in *.
      assert (e <= emin).
      { unfold SpecFloat.fexp in He. rewrite emin_value in *.
        change prec with 53 in He. lia. }
      assert (G : fexp (0 + e) = emin).
      { unfold SpecFloat.fexp. rewrite emin_value in *.
        change prec with 53. lia. }
      rewrite G.
      assert (emin <= E) by (rewrite <- Hc; apply fexp_ge_emin).
      destruct (Z.eq_dec E emin) as [-> | N]; [reflexivity | exfalso].
      assert (pow2 (D - 2) < pow2 (e - E))%Q.
      { assert (pow2 (E - e) * pow2 (e - E) == 1)%Q.
        { rewrite <- pow2_add. replace (E - e + (e - E))%Z with 0%Z by lia.
          reflexivity. }
        pose proof (pow2_pos (e - E)). nra. }
      apply pow2_lt_inv in H1. lia.
    - destruct (digits_bounds_Q p) as [Lp Up].
      set (dm := Zdigits2 (Zpos p)) in *.
      assert (Pdm : 0 < dm) by apply digits_positive.
      (* the binade of [u] *)
      assert (V1 : (pow2 (dm - 1 + e - E) <= u)%Q).
      { replace (dm - 1 + e - E)%Z with (dm - 1 + (e - E))%Z by lia.
        rewrite pow2_add.
        assert (pow2 (E - e) * pow2 (e - E) == 1)%Q.
        { rewrite <- pow2_add. replace (E - e + (e - E))%Z with 0%Z by lia.
          reflexivity. }
        pose proof (pow2_pos (e - E)). pose proof (pow2_pos (dm - 1)).
        nra. }
      assert (V2 : (u < pow2 (dm + e - E))%Q).
      { replace (dm + e - E)%Z with (dm + (e - E))%Z by lia.
        rewrite pow2_add.
        assert (pow2 (E - e) * pow2 (e - E) == 1)%Q.
        { rewrite <- pow2_add. replace (E - e + (e - E))%Z with 0%Z by lia.
          reflexivity. }
        pose proof (pow2_pos (e - E)). pose proof (pow2_pos dm).
        nra. }
      assert (J1 : D - 2 < dm + e - E).
      { apply pow2_lt_inv. lra. }
      assert (J2 : dm - 1 + e - E < D).
      { apply pow2_lt_inv. lra. }
      assert (J : dm + e = D + E \/ dm + e = D + E - 1) by lia.
      destruct J as [J | J]; [left; rewrite J; exact Hc | ].
      rewrite J.
      assert (V3 : (u < pow2 (D - 1))%Q).
      { replace (D - 1)%Z with (dm + e - E)%Z by lia. exact V2. }
      unfold SpecFloat.fexp in Hc |- *. rewrite emin_value in *.
      change prec with 53 in *.
      destruct (Z.eq_dec E (-1074)) as [Em | Em]; [left; lia | right].
      assert (D = 53) by lia.
      split; [lia | ].
      assert (ML : (inject_Z (Zpos M) < pow2 (D - 1) + 1)%Q) by lra.
      rewrite pow2_Z in ML, LM by lia.
      change 1%Q with (inject_Z 1) in ML.
      rewrite <- inject_Z_plus, <- Zlt_Qlt in ML.
      rewrite <- Zle_Qle in LM.
      replace (D - 1)%Z with 52%Z in * by lia.
      split; [lia | split; [lia | ]].
      rewrite pow2_Z in V3 by lia.
      assert (EM : Zpos M = 2 ^ 52) by lia. rewrite EM. exact V3. }
  unfold binary_round_aux.
  destruct (shr_fexp prec emax m e l) as [mrs1 e1].
  destruct S1 as (E1 & L1 & M1).
  pose proof (round_nearest_even_located mrs1 _ L1) as R.
  set (m2 := round_nearest_even (shr_m mrs1) (loc_of_shr_record mrs1)) in *.
  destruct C as [C | (C & EM & GE & UM')].
  - (* the last place of the number is that of [M * 2^E] *)
    assert (N : nearest_even u (Zpos M)).
    { split; [lra | split; [lra | ]].
      intro T. destruct (Z.even (Zpos M)) eqn:Ev; [reflexivity | exfalso].
      destruct (Open eq_refl) as [O1 O2]. destruct T as [T | T]; lra. }
    assert (E2 : m2 = Zpos M).
    { apply (nearest_even_unique u); [ | exact N].
      eapply nearest_even_compat; [ | exact R].
      subst u. rewrite E1, C. reflexivity. }
    rewrite E2. unfold shr_fexp. fold D. rewrite E1, C, Hc.
    rewrite Z.sub_diag. cbn [shr shr_record_of_loc shr_m].
    replace (E <=? emax - prec) with true by (symmetry; apply Z.leb_le, Hx).
    reflexivity.
  - (* one place finer: the number is just below a power of two *)
    assert (Bw : below M E = (1 # 4)%Q).
    { unfold below. rewrite EM. change (2 ^ 52 =? 2 ^ (prec - 1)) with true.
      replace (3 - emax - prec <? E) with true; [reflexivity | ].
      symmetry. apply Z.ltb_lt. rewrite emin_value in GE.
      change (3 - emax - prec) with (-1074). exact GE. }
    rewrite Bw in *. rewrite EM in *.
    assert (T : (y * pow2 (- e1) == 2 * u)%Q).
    { subst u. rewrite E1, C.
      replace (- (E - 1))%Z with (- E + 1)%Z by lia.
      rewrite pow2_succ. ring. }
    assert (N : nearest_even (2 * u) (2 ^ 53)).
    { change (inject_Z (2 ^ 52)) with (4503599627370496 # 1)%Q in *.
      unfold nearest_even.
      change (inject_Z (2 ^ 53)) with (9007199254740992 # 1)%Q.
      split; [lra | split; [lra | reflexivity]]. }
    assert (E2 : m2 = 2 ^ 53).
    { apply (nearest_even_unique (2 * u)); [ | exact N].
      eapply nearest_even_compat; [exact T | exact R]. }
    rewrite E2. unfold shr_fexp.
    change (Zdigits2 (2 ^ 53)) with 54. rewrite E1, C.
    assert (F : fexp (54 + (E - 1)) - (E - 1) = 1).
    { unfold SpecFloat.fexp. rewrite emin_value in *.
      change prec with 53. lia. }
    rewrite F.
    cbn [shr shr_record_of_loc SpecFloat.iter_pos].
    change (2 ^ 53) with (Zpos (xO 4503599627370496)).
    cbn [shr_1 shr_m orb].
    replace (E - 1 + 1)%Z with E by lia.
    replace (E <=? emax - prec) with true by (symmetry; apply Z.leb_le, Hx).
    assert (PM : M = 4503599627370496%positive)
      by (apply Pos2Z.inj; exact EM).
    rewrite PM. reflexivity.
Qed.


(** *** The number of an integer mantissa *)

Lemma shl_align_spec (m : positive) (e e' : Z) :
  snd (shl_align m e e') = Z.min e e'
  /\ Zpos (fst (shl_align m e e')) = Zpos m * 2 ^ (e - Z.min e e').
Proof.
  unfold shl_align. destruct (e' - e) as [ | q | q] eqn:N; cbn [fst snd].
  - replace (Z.min e e') with e by lia. rewrite Z.sub_diag. split; lia.
  - replace (Z.min e e') with e by lia. rewrite Z.sub_diag. split; lia.
  - replace (Z.min e e') with e' by lia. split; [reflexivity | ].
    rewrite iter_xO_value. f_equal. f_equal. lia.
Qed.

Lemma fexp_monotone (a b : Z) : a <= b -> fexp a <= fexp b.
Proof. unfold SpecFloat.fexp. lia. Qed.

Lemma binary_round_nearest (s : bool) (m : positive) (e : Z) (y : Q)
  (M : positive) (E : Z) :
  (y == inject_Z (Zpos m) * pow2 e)%Q ->
  bounded prec emax M E = true ->
  let u := (y * pow2 (- E))%Q in
  (inject_Z (Zpos M) - below M E <= u)%Q ->
  (u <= inject_Z (Zpos M) + (1 # 2))%Q ->
  (Z.even (Zpos M) = false ->
   (inject_Z (Zpos M) - below M E < u)%Q
   /\ (u < inject_Z (Zpos M) + (1 # 2))%Q) ->
  binary_round prec emax s m e = S754_finite s M E.
Proof.
  intros Hy Hb u Lo Hi Open. unfold binary_round.
  destruct (shl_align_spec m e (fexp (Zpos (digits2_pos m) + e)))
    as [A1 A2].
  destruct (shl_align m e (fexp (Zpos (digits2_pos m) + e))) as [mz ez].
  cbn [fst snd] in A1, A2.
  assert (K : 0 <= e - ez) by lia.
  assert (Dz : Zdigits2 (Zpos mz) = Zdigits2 (Zpos m) + (e - ez)).
  { apply digits_scaled; [exact K | ]. rewrite A2, A1. reflexivity. }
  apply (binary_round_aux_nearest s (Zpos mz) ez loc_Exact y M E);
    try assumption; try lia.
  - unfold located. cbn [shr_record_of_loc shr_m shr_r shr_s].
    rewrite Hy, A2, <- A1, inject_Z_mult, <- (pow2_Z (e - ez)) by exact K.
    replace (e - ez)%Z with (e + - ez)%Z by lia.
    rewrite pow2_add. ring.
  - rewrite Dz. replace (Zdigits2 (Zpos m) + (e - ez) + ez)
      with (Zpos (digits2_pos m) + e) by (simpl Zdigits2; lia).
    lia.
Qed.

(** *** The number of a quotient *)

Lemma new_location_located (nb r q : Z) :
  0 < nb -> 0 <= r < nb -> Z.even nb = true ->
  located (shr_record_of_loc q (new_location nb r))
    (inject_Z q + inject_Z r / inject_Z nb).
Proof.
  intros Hn Hr Ev. unfold new_location, new_location_even. rewrite Ev.
  assert (Pn : (0 < inject_Z nb)%Q).
  { change 0%Q with (inject_Z 0). rewrite <- Zlt_Qlt. exact Hn. }
  assert (F : forall c : Q, (c * inject_Z nb / inject_Z nb == c)%Q).
  { intro c. field. lra. }
  destruct (Z.eqb_spec r 0) as [-> | N].
  - unfold located. cbn [shr_record_of_loc shr_m shr_r shr_s].
    change (inject_Z 0) with 0%Q. unfold Qdiv. ring.
  - assert (R0 : (0 < inject_Z r)%Q).
    { change 0%Q with (inject_Z 0). rewrite <- Zlt_Qlt. lia. }
    assert (Q0 : (0 < inject_Z r / inject_Z nb)%Q).
    { apply Qlt_shift_div_l; [exact Pn | lra]. }
    destruct (Z.compare_spec (2 * r) nb) as [C | C | C];
      unfold located; cbn [shr_record_of_loc shr_m shr_r shr_s].
    + assert (X : (inject_Z r / inject_Z nb == 1 # 2)%Q).
      { rewrite <- C, inject_Z_mult. change (inject_Z 2) with 2%Q.
        field. lra. }
      rewrite X. reflexivity.
    + assert (X : (inject_Z r / inject_Z nb < 1 # 2)%Q).
      { apply Qlt_shift_div_r; [exact Pn | ].
        rewrite Zlt_Qlt, inject_Z_mult in C.
        change (inject_Z 2) with 2%Q in C. lra. }
      split; lra.
    + assert (X : (1 # 2 < inject_Z r / inject_Z nb)%Q).
      { apply Qlt_shift_div_l; [exact Pn | ].
        rewrite Zlt_Qlt, inject_Z_mult in C.
        change (inject_Z 2) with 2%Q in C. lra. }
      assert (X1 : (inject_Z r / inject_Z nb < 1)%Q).
      { apply Qlt_shift_div_r; [exact Pn | ].
        destruct Hr as [_ Hr]. rewrite Zlt_Qlt in Hr. lra. }
      split; lra.
Qed.

Lemma digits_not_below (q : positive) (n : Z) :
  2 ^ (n - 1) <= Zpos q -> 1 <= n -> n <= Zdigits2 (Zpos q).
Proof.
  intros H Hn. pose proof (digits_upper_bound q) as U.
  pose proof (digits_positive q) as P.
  assert (L : 2 ^ (n - 1) < 2 ^ Zdigits2 (Zpos q)) by lia.
  apply Z.pow_lt_mono_r_iff in L; lia.
Qed.

Lemma div_core_located (d k : positive) :
  Z.even (Zpos k) = true ->
  let '(q, e', l) := SFdiv_core_binary prec emax (Zpos d) 0 (Zpos k) 0 in
  0 <= q
  /\ located (shr_record_of_loc q l)
       (inject_Z (Zpos d) / inject_Z (Zpos k) * pow2 (- e'))
  /\ e' <= fexp (Zdigits2 q + e').
Proof.
  intro Ev. unfold SFdiv_core_binary.
  set (d1 := Zdigits2 (Zpos d)). set (d2 := Zdigits2 (Zpos k)).
  replace (d1 + 0 - (d2 + 0)) with (d1 - d2) by lia.
  set (e' := Z.min (fexp (d1 - d2)) (0 - 0)).
  assert (He' : e' <= 0) by (subst e'; lia).
  assert (Hf : e' <= fexp (d1 - d2)) by (subst e'; lia).
  set (m' := match 0 - 0 - e' with
             | 0 => Zpos d
             | Zpos _ => Z.shiftl (Zpos d) (0 - 0 - e')
             | Zneg _ => 0
             end).
  assert (Em : m' = Zpos d * 2 ^ (- e')).
  { subst m'. destruct (0 - 0 - e') as [ | p | p] eqn:N; try lia.
    - replace (- e') with 0 by lia. change (2 ^ 0) with 1. lia.
    - rewrite Z.shiftl_mul_pow2 by lia. f_equal. f_equal. lia. }
  assert (K : 0 < 2 ^ (- e')) by (apply Z.pow_pos_nonneg; lia).
  pose proof (Z.div_eucl_eq m' (Zpos k) ltac:(lia)) as Q.
  pose proof (Z.mod_pos_bound m' (Zpos k) ltac:(lia)) as R.
  unfold Z.modulo in R.
  destruct (Z.div_eucl m' (Zpos k)) as [q r].
  assert (Hq : 0 <= q) by nia.
  split; [exact Hq | split].
  - eapply located_compat;
      [ | apply (new_location_located (Zpos k) r q); [lia | exact R | exact Ev]].
    assert (Pk : (0 < inject_Z (Zpos k))%Q) by reflexivity.
    assert (X : (inject_Z (Zpos d) * pow2 (- e')
                 == inject_Z (Zpos k) * inject_Z q + inject_Z r)%Q).
    { rewrite pow2_Z by lia.
      rewrite <- !inject_Z_mult, <- inject_Z_plus, <- Q, Em. reflexivity. }
    transitivity ((inject_Z (Zpos k) * inject_Z q + inject_Z r)
                  / inject_Z (Zpos k))%Q; [field; lra | ].
    rewrite <- X. field. lra.
  - (* the quotient has digits enough *)
    pose proof (digits_lower d) as Ld. fold d1 in Ld.
    pose proof (digits_upper_bound k) as Uk. fold d2 in Uk.
    pose proof (digits_positive d) as Pd. fold d1 in Pd.
    pose proof (digits_positive k) as Pk. fold d2 in Pk.
    destruct (Z.le_gt_cases 0 (d1 - 1 - e' - d2)) as [G | G].
    + assert (L : 2 ^ (d1 - 1 - e' - d2) <= q).
      { assert (X : 2 ^ (d1 - 1 - e' - d2) * 2 ^ d2 = 2 ^ (d1 - 1) * 2 ^ (- e')).
        { rewrite <- !Z.pow_add_r by lia. f_equal. lia. }
        assert (P1 : 0 < 2 ^ (d1 - 1 - e' - d2))
          by (apply Z.pow_pos_nonneg; lia).
        assert (2 ^ (d1 - 1 - e' - d2) * Zpos k < Zpos k * (q + 1)) by nia.
        nia. }
      destruct q as [ | q | q]; [ | | lia].
      * assert (0 < 2 ^ (d1 - 1 - e' - d2))
          by (apply Z.pow_pos_nonneg; lia). lia.
      * pose proof (digits_not_below q (d1 - e' - d2)) as X.
        replace (d1 - e' - d2 - 1) with (d1 - 1 - e' - d2) in X by lia.
        specialize (X L ltac:(lia)).
        apply (Z.le_trans _ (fexp (d1 - d2))); [exact Hf | ].
        apply fexp_monotone. lia.
    + assert (e' <= emin).
      { unfold SpecFloat.fexp in Hf. rewrite emin_value in *.
        change prec with 53 in Hf. lia. }
      apply (Z.le_trans _ emin); [assumption | apply fexp_ge_emin].
Qed.


(** *** The number nearest to a decimal *)

Lemma pow10_Q (k : Z) : 0 <= k -> (Qpower 10 k == inject_Z (10 ^ k))%Q.
Proof. intro H. rewrite Zpower_Qpower by exact H. reflexivity. Qed.

Lemma pow10_neg_Q (k : Z) :
  0 <= k -> (Qpower 10 (- k) == / inject_Z (10 ^ k))%Q.
Proof.
  intro H. rewrite Qpower_opp, pow10_Q by exact H. reflexivity.
Qed.

Lemma of_decimal_nearest (neg : bool) (d ex : Z) (M : positive) (E : Z) :
  0 < d ->
  bounded prec emax M E = true ->
  let u := (inject_Z d * Qpower 10 ex * pow2 (- E))%Q in
  (inject_Z (Zpos M) - below M E <= u)%Q ->
  (u <= inject_Z (Zpos M) + (1 # 2))%Q ->
  (Z.even (Zpos M) = false ->
   (inject_Z (Zpos M) - below M E < u)%Q
   /\ (u < inject_Z (Zpos M) + (1 # 2))%Q) ->
  JSON.of_decimal neg d ex = S754_finite neg M E.
Proof.
  intros Hd Hb u Lo Hi Open. unfold JSON.of_decimal.
  replace (d =? 0) with false by (symmetry; apply Z.eqb_neq; lia).
  destruct d as [ | pd | pd]; try lia.
  destruct (Z.leb_spec 0 ex) as [Hx | Hx].
  - assert (P : 0 < 10 ^ ex) by (apply Z.pow_pos_nonneg; lia).
    destruct (10 ^ ex) as [ | pk | pk] eqn:Ek; try lia.
    assert (R : binary_round prec emax neg (pd * pk) 0 = S754_finite neg M E).
    { apply (binary_round_nearest neg (pd * pk) 0
               (inject_Z (Zpos pd) * Qpower 10 ex)%Q); try assumption.
      rewrite pow10_Q, Ek, Pos2Z.inj_mul, inject_Z_mult by exact Hx.
      change (pow2 0) with 1%Q. ring. }
    unfold binary_normalize. destruct neg; cbn [Z.opp Z.mul]; exact R.
  - set (k := (- ex)%Z). assert (Hk : 0 < k) by (subst k; lia).
    assert (P : 0 < 10 ^ k) by (apply Z.pow_pos_nonneg; lia).
    assert (Ev : Z.even (10 ^ k) = true).
    { replace k with (Z.succ (k - 1)) by lia.
      rewrite Z.pow_succ_r by lia. rewrite Z.even_mul. reflexivity. }
    destruct (10 ^ k) as [ | pk | pk] eqn:Ek; try lia.
    pose proof (div_core_located pd pk Ev) as C.
    destruct (SFdiv_core_binary prec emax (Zpos pd) 0 (Zpos pk) 0)
      as [[q e'] l].
    destruct C as (Hq & Hl & He).
    assert (Y : (inject_Z (Zpos pd) / inject_Z (Zpos pk)
                 == inject_Z (Zpos pd) * Qpower 10 ex)%Q).
    { replace ex with (- k)%Z by (subst k; lia).
      rewrite pow10_neg_Q, Ek by lia. reflexivity. }
    apply (binary_round_aux_nearest neg q e' l
             (inject_Z (Zpos pd) / inject_Z (Zpos pk))%Q M E);
      try assumption; rewrite Y; assumption.
Qed.

(** The rounding interval of [M * 2^E], in units of its last place. *)
Lemma interval_units (M : positive) (E : Z) (y : Q) :
  let v := exact M E in
  let up := Qpower 2 E in
  let down :=
    if (Zpos M =? 2 ^ (prec - 1)) && (3 - emax - prec <? E)
    then Qpower 2 (E - 1) else up in
  in_interval (Z.even (Zpos M)) (v - down / 2) (v + up / 2) y = true ->
  let u := (y * pow2 (- E))%Q in
  (inject_Z (Zpos M) - below M E <= u)%Q
  /\ (u <= inject_Z (Zpos M) + (1 # 2))%Q
  /\ (Z.even (Zpos M) = false ->
      (inject_Z (Zpos M) - below M E < u)%Q
      /\ (u < inject_Z (Zpos M) + (1 # 2))%Q).
Proof.
  intros v up down H u. subst v up down u. unfold exact, below in *.
  fold (pow2 E) in *. fold (pow2 (E - 1)) in *.
  pose proof (pow2_pos E) as PE. pose proof (pow2_pos (- E)) as PN.
  assert (I : (pow2 E * pow2 (- E) == 1)%Q).
  { rewrite <- pow2_add. replace (E + - E)%Z with 0%Z by lia. reflexivity. }
  assert (G : forall a b : Q,
             ((inject_Z (Zpos M) * pow2 E + a * pow2 E) * pow2 (- E)
              == inject_Z (Zpos M) + a)%Q).
  { intros a _. 
    transitivity ((inject_Z (Zpos M) + a) * (pow2 E * pow2 (- E)))%Q;
      [ring | rewrite I; ring]. }
  set (c := (Zpos M =? 2 ^ (prec - 1)) && (3 - emax - prec <? E)) in *.
  set (lo := (inject_Z (Zpos M) * pow2 E
              - (if c then pow2 (E - 1) else pow2 E) / 2)%Q) in *.
  set (hi := (inject_Z (Zpos M) * pow2 E + pow2 E / 2)%Q) in *.
  assert (Elo : (lo * pow2 (- E)
                 == inject_Z (Zpos M) - (if c then 1 # 4 else 1 # 2))%Q).
  { subst lo. destruct c.
    - rewrite pow2_pred.
      transitivity ((inject_Z (Zpos M) * pow2 E + (- (1 # 4)) * pow2 E)
                    * pow2 (- E))%Q; [field | rewrite (G _ 0%Q); ring].
    - transitivity ((inject_Z (Zpos M) * pow2 E + (- (1 # 2)) * pow2 E)
                    * pow2 (- E))%Q; [field | rewrite (G _ 0%Q); ring]. }
  assert (Ehi : (hi * pow2 (- E) == inject_Z (Zpos M) + (1 # 2))%Q).
  { subst hi.
    transitivity ((inject_Z (Zpos M) * pow2 E + (1 # 2) * pow2 E)
                  * pow2 (- E))%Q; [field | rewrite (G _ 0%Q); ring]. }
  rewrite <- Elo, <- Ehi.
  unfold in_interval in H. destruct (Z.even (Zpos M)).
  - apply andb_prop in H. destruct H as [H1 H2].
    apply Qle_bool_iff in H1, H2.
    split; [nra | split; [nra | discriminate]].
  - apply andb_prop in H. destruct H as [H1 H2].
    apply negb_true_iff in H1, H2.
    assert (L1 : (lo < y)%Q).
    { apply Qnot_le_lt. intro A. apply Qle_bool_iff in A. congruence. }
    assert (L2 : (y < hi)%Q).
    { apply Qnot_le_lt. intro A. apply Qle_bool_iff in A. congruence. }
    split; [nra | split; [nra | intros _; split; nra]].
Qed.

End Nearest.

(** ** The shortest digits of a number *)

Section Shortest.
Import Reading.

Local Abbreviation emin := (SpecFloat.emin prec emax).
Local Abbreviation fexp := (SpecFloat.fexp prec emax).

Lemma pow10_pos (p : Z) : (0 < pow10 p)%Q.
Proof. apply Qpower_0_lt. reflexivity. Qed.

Lemma pow10_add (a b : Z) : (pow10 (a + b) == pow10 a * pow10 b)%Q.
Proof. apply Qpower_plus. discriminate. Qed.

Lemma pow10_ge_1 (e : Z) : 0 <= e -> (1 <= pow10 e)%Q.
Proof.
  intro H. unfold pow10. rewrite pow10_Q by exact H.
  change 1%Q with (inject_Z 1). rewrite <- Zle_Qle.
  assert (0 < 10 ^ e) by (apply Z.pow_pos_nonneg; lia). lia.
Qed.

Lemma pow10_le (a b : Z) : a <= b -> (pow10 a <= pow10 b)%Q.
Proof.
  intro H. replace b with (a + (b - a))%Z by lia. rewrite pow10_add.
  pose proof (pow10_ge_1 (b - a) ltac:(lia)). pose proof (pow10_pos a).
  nra.
Qed.

Lemma settle_le (fuel : nat) (v : Q) :
  forall p, settle fuel v p <= p.
Proof.
  induction fuel as [ | fuel IH]; intro p; cbn [settle]; [lia | ].
  destruct (Qle_bool (Qpower 10 (p - 1)) v); [lia | ].
  specialize (IH (p - 1)). lia.
Qed.

(** A candidate is a positive integer whose decimal lies in the
    interval. *)
Lemma candidate_sound (incl : bool) (lo hi v : Q) (p s : Z) :
  (0 <= v)%Q ->
  candidate incl lo hi v p = Some s ->
  0 < s /\ in_interval incl lo hi (inject_Z s * Qpower 10 p) = true.
Proof.
  intros Hv. unfold candidate.
  set (s1 := Qfloor (v * Qpower 10 (- p))).
  assert (H1 : 0 <= s1).
  { subst s1. rewrite <- (Qfloor_Z 0). apply Qfloor_resp_le.
    pose proof (pow10_pos (- p)). unfold pow10 in *.
    change (inject_Z 0) with 0%Q. nra. }
  destruct ((0 <? s1) && in_interval incl lo hi (inject_Z s1 * Qpower 10 p))
    eqn:O1;
    destruct (in_interval incl lo hi (inject_Z (s1 + 1) * Qpower 10 p))
      eqn:O2.
  - apply andb_prop in O1. destruct O1 as [P1 I1]. apply Z.ltb_lt in P1.
    destruct (Qle_bool _ _);
      [destruct (Qle_bool _ _); [destruct (Z.even s1) | ] | ];
      intro E; injection E as <-; split; try assumption; lia.
  - apply andb_prop in O1. destruct O1 as [P1 I1]. apply Z.ltb_lt in P1.
    intro E. injection E as <-. split; assumption.
  - intro E. injection E as <-. split; [lia | assumption].
  - discriminate.
Qed.

(** There is a candidate as soon as the step is below the distance to
    the lower end of the interval. *)
Lemma candidate_exists (incl : bool) (lo hi v : Q) (p : Z) :
  (lo < v)%Q -> (v < hi)%Q ->
  (Qpower 10 p < v - lo)%Q -> (Qpower 10 p <= v)%Q ->
  candidate incl lo hi v p <> None.
Proof.
  intros Hlo Hhi Hs Hv. unfold candidate.
  set (s1 := Qfloor (v * Qpower 10 (- p))).
  fold (pow10 p) in *. fold (pow10 (- p)) in *.
  pose proof (pow10_pos p) as Pp. pose proof (pow10_pos (- p)) as Pn.
  assert (I : (pow10 p * pow10 (- p) == 1)%Q).
  { rewrite <- pow10_add. replace (p + - p)%Z with 0%Z by lia. reflexivity. }
  pose proof (Qfloor_le (v * pow10 (- p))) as F1.
  pose proof (Qlt_floor (v * pow10 (- p))) as F2.
  fold s1 in F1, F2. rewrite inject_Z_plus in F2.
  change (inject_Z 1) with 1%Q in F2.
  assert (Y1 : (inject_Z s1 * pow10 p <= v)%Q).
  { assert (v == v * pow10 (- p) * pow10 p)%Q.
    { rewrite <- Qmult_assoc, (Qmult_comm (pow10 (- p))), I. ring. }
    nra. }
  assert (Y2 : (v < inject_Z s1 * pow10 p + pow10 p)%Q).
  { assert (v == v * pow10 (- p) * pow10 p)%Q.
    { rewrite <- Qmult_assoc, (Qmult_comm (pow10 (- p))), I. ring. }
    nra. }
  assert (P1 : 0 < s1).
  { assert (1 <= v * pow10 (- p))%Q.
    { assert (pow10 p * pow10 (- p) <= v * pow10 (- p))%Q by nra. lra. }
    assert (1 <= s1); [ | lia].
    rewrite <- (Qfloor_Z 1). apply Qfloor_resp_le. exact H. }
  assert (O1 : in_interval incl lo hi (inject_Z s1 * pow10 p) = true).
  { unfold in_interval. destruct incl.
    - apply andb_true_intro. split; apply Qle_bool_iff; lra.
    - apply andb_true_intro. split; apply negb_true_iff;
        (destruct (Qle_bool _ _) eqn:B; [ | reflexivity]);
        apply Qle_bool_iff in B; lra. }
  apply Z.ltb_lt in P1. rewrite P1, O1. cbn [andb].
  destruct (in_interval incl lo hi (inject_Z (s1 + 1) * pow10 p));
    [ | discriminate].
  destruct (Qle_bool _ _);
    [destruct (Qle_bool _ _); [destruct (Z.even s1) | ] | ]; discriminate.
Qed.

(** The search stops at the first exponent that has a candidate. *)
Lemma shortest_found (incl : bool) (lo hi v : Q) (fuel : nat) :
  forall p,
    (exists j, 0 <= j < Z.of_nat fuel
               /\ candidate incl lo hi v (p - j) <> None) ->
    candidate incl lo hi v (snd (shortest fuel incl lo hi v p))
    = Some (fst (shortest fuel incl lo hi v p)).
Proof.
  induction fuel as [ | fuel IH]; intros p (j & Hj & C); [lia | ].
  cbn [shortest].
  destruct (candidate incl lo hi v p) as [s | ] eqn:E; [exact E | ].
  apply IH. exists (j - 1). 
  assert (j <> 0) by (intros ->; rewrite Z.sub_0_r in C; contradiction).
  split; [lia | ].
  replace (p - 1 - (j - 1)) with (p - j) by lia. exact C.
Qed.

(** Dropping final zeros keeps the decimal. *)
Lemma strip_zeros_value (fuel : nat) :
  forall s p,
    0 < s ->
    0 < fst (strip_zeros fuel s p)
    /\ (inject_Z (fst (strip_zeros fuel s p))
        * Qpower 10 (snd (strip_zeros fuel s p))
        == inject_Z s * Qpower 10 p)%Q.
Proof.
  induction fuel as [ | fuel IH]; intros s p Hs; cbn [strip_zeros].
  - split; [exact Hs | reflexivity].
  - destruct ((s mod 10 =? 0) && (0 <? s)) eqn:C;
      [ | split; [exact Hs | reflexivity]].
    apply andb_prop in C. destruct C as [C _]. apply Z.eqb_eq in C.
    assert (E : s = 10 * (s / 10)).
    { pose proof (Z.div_mod s 10 ltac:(lia)). lia. }
    destruct (IH (s / 10) (p + 1) ltac:(lia)) as [I1 I2].
    split; [exact I1 | ].
    rewrite I2. fold (pow10 (p + 1)). fold (pow10 p).
    rewrite pow10_add. change (pow10 1) with 10%Q.
    rewrite E at 2. rewrite inject_Z_mult. change (inject_Z 10) with 10%Q.
    ring.
Qed.

(** The first exponent tried is high enough: twenty steps below the
    estimate the step is under a quarter of the last place.  The
    estimate depends on the binary order of magnitude only, of which
    there are 2098. *)
Lemma fine_enough_all :
  forallb fine_enough (map (fun i => Z.of_nat i - 1074) (seq 0 2098)) = true.
Proof. vm_compute. reflexivity. Qed.

Lemma estimate_fine (L : Z) :
  -1074 <= L <= 1023 -> (pow10 (estimate L - 20) < pow2 (L - 54))%Q.
Proof.
  intro H. pose proof fine_enough_all as A.
  rewrite forallb_forall in A.
  specialize (A L).
  assert (I : In L (map (fun i => Z.of_nat i - 1074) (seq 0 2098))).
  { apply in_map_iff. exists (Z.to_nat (L + 1074)). split; [lia | ].
    apply in_seq. lia. }
  specialize (A I). unfold fine_enough in A.
  apply negb_true_iff in A. unfold pow10, pow2.
  destruct (Qlt_le_dec (Qpower 10 (estimate L - 20)) (Qpower 2 (L - 54)))
    as [G | G]; [exact G | ].
  apply Qle_bool_iff in G. congruence.
Qed.

Lemma bounded_range (M : positive) (E : Z) :
  bounded prec emax M E = true ->
  -1074 <= E <= 971 /\ 0 <= Z.log2 (Zpos M) <= 52.
Proof.
  intro Hb. unfold bounded, canonical_mantissa in Hb.
  apply andb_prop in Hb. destruct Hb as [Hc Hx].
  apply Z.eqb_eq in Hc. apply Z.leb_le in Hx.
  change (Zpos (digits2_pos M)) with (Zdigits2 (Zpos M)) in Hc.
  pose proof (digits_lower M) as L.
  pose proof (digits_positive M) as P.
  unfold SpecFloat.fexp, SpecFloat.emin in Hc.
  change emax with 1024 in *. change prec with 53 in *.
  assert (D : Zdigits2 (Zpos M) <= 53) by lia.
  assert (Z.log2 (Zpos M) < Zdigits2 (Zpos M)).
  { apply Z.log2_lt_pow2; [lia | ]. apply digits_upper_bound. }
  pose proof (Z.log2_nonneg (Zpos M)). lia.
Qed.

Lemma in_interval_inside (incl : bool) (lo hi y : Q) :
  in_interval incl lo hi y = true ->
  (lo <= y)%Q /\ (y <= hi)%Q /\ (incl = false -> (lo < y)%Q /\ (y < hi)%Q).
Proof.
  unfold in_interval. destruct incl; intro H; apply andb_prop in H;
    destruct H as [A B].
  - apply Qle_bool_iff in A. apply Qle_bool_iff in B.
    repeat split; try assumption; discriminate.
  - apply negb_true_iff in A. apply negb_true_iff in B.
    assert (lo < y)%Q.
    { destruct (Qlt_le_dec lo y) as [G | G]; [exact G | ].
      apply Qle_bool_iff in G. congruence. }
    assert (y < hi)%Q.
    { destruct (Qlt_le_dec y hi) as [G | G]; [exact G | ].
      apply Qle_bool_iff in G. congruence. }
    repeat split; try assumption; apply Qlt_le_weak; assumption.
Qed.

(** The digits that [shortest_digits] finds are those of a positive
    decimal in the rounding interval of the number. *)
Lemma shortest_digits_inside (M : positive) (E : Z) :
  bounded prec emax M E = true ->
  let s := fst (shortest_digits M E) in
  let p := snd (shortest_digits M E) in
  let u := (inject_Z s * Qpower 10 p * pow2 (- E))%Q in
  0 < s
  /\ (inject_Z (Zpos M) - below M E <= u)%Q
  /\ (u <= inject_Z (Zpos M) + (1 # 2))%Q
  /\ (Z.even (Zpos M) = false ->
      (inject_Z (Zpos M) - below M E < u)%Q
      /\ (u < inject_Z (Zpos M) + (1 # 2))%Q).
Proof.
  intros Hb. destruct (bounded_range M E Hb) as [RE RL].
  unfold shortest_digits.
  set (v := exact M E).
  set (down := if (Zpos M =? 2 ^ (prec - 1)) && (3 - emax - prec <? E)
               then Qpower 2 (E - 1) else Qpower 2 E).
  set (lo := (v - down / 2)%Q). set (hi := (v + Qpower 2 E / 2)%Q).
  set (p0 := decimal_exponent M E - 1).
  pose proof (pow2_pos E) as PE. pose proof (pow2_pos (E - 1)) as PE1.
  assert (Hv : (pow2 E <= v)%Q).
  { subst v. unfold exact. fold (pow2 E).
    assert (1 <= inject_Z (Zpos M))%Q.
    { change 1%Q with (inject_Z 1). rewrite <- Zle_Qle. lia. }
    nra. }
  assert (Hd : (pow2 (E - 1) <= down)%Q /\ (down <= pow2 E)%Q).
  { subst down. fold (pow2 E). fold (pow2 (E - 1)).
    pose proof (pow2_pred E). destruct (_ && _); split; lra. }
  assert (F : candidate (Z.even (Zpos M)) lo hi v (p0 - 19) <> None).
  { assert (S : (Qpower 10 (p0 - 19) < pow2 (E - 2))%Q).
    { fold (pow10 (p0 - 19)).
      set (L := Z.log2 (Zpos M) + E).
      assert (p0 - 19 <= estimate L - 20).
      { subst p0. unfold decimal_exponent.
        pose proof (settle_le 4 (exact M E)
                      ((Z.log2 (Zpos M) + E) * 30103 / 100000 + 2)).
        unfold estimate. subst L. lia. }
      apply Qle_lt_trans with (pow10 (estimate L - 20));
        [apply pow10_le; assumption | ].
      apply Qlt_le_trans with (pow2 (L - 54));
        [apply estimate_fine; subst L; lia | ].
      apply pow2_le. subst L. lia. }
    assert (Q2 : (pow2 (E - 2) == (1 # 2) * pow2 (E - 1))%Q).
    { replace (E - 2) with (E - 1 - 1) by lia. apply pow2_pred. }
    pose proof (pow2_pred E) as Q1.
    fold (pow2 E) in hi.
    assert (H1 : (down / 2 == (1 # 2) * down)%Q) by (field; discriminate).
    assert (H2 : (pow2 E / 2 == (1 # 2) * pow2 E)%Q) by (field; discriminate).
    apply candidate_exists; subst lo hi; rewrite ?H1, ?H2; lra. }
  pose proof (shortest_found (Z.even (Zpos M)) lo hi v 20 p0) as G.
  destruct (shortest 20 (Z.even (Zpos M)) lo hi v p0) as [s1 p1] eqn:Es.
  cbn [fst snd] in G.
  assert (C : candidate (Z.even (Zpos M)) lo hi v p1 = Some s1).
  { apply G. exists 19. split; [lia | exact F]. }
  apply candidate_sound in C; [ | lra].
  destruct C as [Ps I].
  destruct (strip_zeros_value 400 s1 p1 Ps) as [P2 V2].
  cbv zeta. split; [exact P2 | ].
  pose proof (interval_units M E (inject_Z s1 * Qpower 10 p1)) as U.
  cbv zeta in U. fold v down lo hi in U. specialize (U I).
  rewrite V2. exact U.
Qed.

End Shortest.

(** ** Reading the text of a number *)

Section ReadingShortest.
Import JSON Reading.

Local Abbreviation chars := list_ascii_of_string.

Lemma digit_value_digit (c : ascii) :
  is_digit c = true ->
  exists k, digit_value c = Some k /\ (k <? 10) = true.
Proof.
  intro H. apply digit_cases in H. simpl in H.
  destruct H as [<- | [<- | [<- | [<- | [<- | [<- | [<- | [<- | [<- | [<- | []]]]]]]]]]];
    eexists; split; reflexivity.
Qed.

Lemma take_digits_app (ds : list ascii) :
  forall rest acc,
    forallb is_digit ds = true ->
    take_digits 10 (ds ++ rest) acc
    = take_digits 10 rest (take_digits 10 ds acc).
Proof.
  induction ds as [ | c ds IH]; intros rest acc H; [reflexivity | ].
  simpl in H. apply andb_prop in H. destruct H as [Hc Hds].
  destruct (digit_value_digit c Hc) as (k & K1 & K2).
  cbn [app take_digits]. rewrite K1, K2. apply IH, Hds.
Qed.

Lemma take_digits_zeros (j : nat) :
  forall a,
    take_digits 10 (chars (repeat0 j)) (Some a)
    = Some (a * 10 ^ Z.of_nat j).
Proof.
  induction j as [ | j IH]; intro a.
  - cbn. f_equal. lia.
  - cbn [repeat0 list_ascii_of_string].
    rewrite (take_digits_step "0" 0) by reflexivity.
    rewrite IH. f_equal. rewrite Nat2Z.inj_succ, Z.pow_succ_r by lia. lia.
Qed.

Lemma digits_value_zeros (s : Z) (j : nat) :
  0 <= s ->
  digits_value (chars (digits_of s) ++ chars (repeat0 j))
  = s * 10 ^ Z.of_nat j.
Proof.
  intro H. unfold digits_value.
  rewrite take_digits_app by apply forallb_digits_of.
  rewrite <- (Z2N.id s H) at 1. rewrite take_digits_numeral.
  rewrite take_digits_zeros, Z2N.id by exact H. reflexivity.
Qed.

Lemma exponent_part_text (x : Z) :
  exponent_part ("e"%char :: chars (exponent_text x)) = Some x.
Proof.
  unfold exponent_text.
  destruct (numeral_not_empty (Z.abs x)) as (c & cs & E & Hc).
  pose proof (span_digits_all _ (forallb_digits_of (Z.abs x))) as S.
  pose proof (digits_value_numeral (Z.abs x) (Z.abs_nonneg x)) as V.
  destruct (Z.ltb_spec x 0) as [N | N].
  - change (chars ("-" ++ digits_of (Z.abs x)))
      with ("-"%char :: chars (digits_of (Z.abs x))).
    cbn [exponent_part]. change (Ascii.eqb "e" "e") with true.
    change (Ascii.eqb "-" "-") with true. cbn [orb]. cbv iota beta.
    rewrite S, E, <- E, V. f_equal. lia.
  - change (chars ("+" ++ digits_of (Z.abs x)))
      with ("+"%char :: chars (digits_of (Z.abs x))).
    cbn [exponent_part]. change (Ascii.eqb "e" "e") with true.
    change (Ascii.eqb "+" "-") with false.
    change (Ascii.eqb "+" "+") with true. cbn [orb]. cbv iota beta.
    rewrite S, E, <- E, V. f_equal. lia.
Qed.

(** The first digit of the numeral of a positive integer is not 0. *)
Lemma numeral_head (s : Z) :
  0 < s ->
  exists c cs, chars (digits_of s) = c :: cs
               /\ is_digit c = true /\ Ascii.eqb c "0" = false.
Proof.
  intro H. destruct (numeral_not_empty s) as (c & cs & E & Hc).
  exists c, cs. split; [exact E | split; [exact Hc | ]].
  pose proof (numeral_without_leading_zero s) as L. rewrite E in L.
  destruct cs as [ | c' cs]; [ | exact L].
  destruct (Ascii.eqb c "0") eqn:Z; [ | reflexivity].
  apply Ascii.eqb_eq in Z. subst c.
  pose proof (digits_value_numeral s ltac:(lia)) as V. rewrite E in V.
  cbv in V. lia.
Qed.

Lemma leading_zero_head (c : ascii) (cs : list ascii) :
  Ascii.eqb c "0" = false -> leading_zero (c :: cs) = false.
Proof. intro H. destruct cs; [reflexivity | exact H]. Qed.

Lemma number_of_parts (neg : bool) (c : ascii) (int frac : list ascii)
  (x : option Z) :
  is_digit c = true -> forallb is_digit int = true ->
  leading_zero (c :: int) = false ->
  forallb is_digit frac = true ->
  number_of ((if neg then ["-"%char] else []) ++
             (c :: int) ++ fraction_tail frac ++ exponent_tail x)
  = Some (of_decimal neg (digits_value ((c :: int) ++ frac))
            (match x with Some x => x | None => 0 end
             - Z.of_nat (List.length frac))).
Proof.
  intros Hc Hi Lz Hf.
  assert (Di : forallb is_digit (c :: int) = true)
    by (simpl; rewrite Hc; exact Hi).
  unfold number_of.
  assert (M : minus_sign ((if neg then ["-"%char] else []) ++
                          (c :: int) ++ fraction_tail frac ++ exponent_tail x)
              = (neg, (c :: int) ++ fraction_tail frac ++ exponent_tail x)).
  { destruct neg; [reflexivity | ].
    cbn [app minus_sign]. rewrite (proj1 (digit_facts c Hc)). reflexivity. }
  rewrite M. cbv iota beta. unfold unsigned_number.
  assert (X : exponent_part (exponent_tail x)
              = Some (match x with Some x => x | None => 0 end)).
  { destruct x as [x | ]; [apply exponent_part_text | reflexivity]. }
  assert (T : forall r, span_digits (r ++ exponent_tail x)
                        = (fst (span_digits (r ++ exponent_tail x)),
                           snd (span_digits (r ++ exponent_tail x))))
    by (intro r; destruct (span_digits _); reflexivity).
  assert (S : forall r, forallb is_digit r = true ->
                        span_digits (r ++ exponent_tail x)
                        = (r, exponent_tail x)).
  { intros r Hr. destruct x as [x | ]; cbn [exponent_tail].
    - apply span_digits_app; [exact Hr | reflexivity].
    - rewrite List.app_nil_r. apply span_digits_all, Hr. }
  destruct frac as [ | f frac].
  - cbn [fraction_tail app]. 
    change (c :: int ++ exponent_tail x) with ((c :: int) ++ exponent_tail x).
    rewrite (S _ Di). rewrite Lz.
    assert (F : fraction_part (exponent_tail x) = Some ([], exponent_tail x)).
    { destruct x as [x | ]; reflexivity. }
    rewrite F, X. reflexivity.
  - cbn [fraction_tail].
    change ((c :: int) ++ ("."%char :: f :: frac) ++ exponent_tail x)
      with ((c :: int) ++ "."%char :: (f :: frac) ++ exponent_tail x).
    rewrite span_digits_app by (exact Di || reflexivity).
    rewrite Lz. cbn [fraction_part]. change (Ascii.eqb "." ".") with true.
    cbv iota. rewrite (S _ Hf). rewrite X. reflexivity.
Qed.


Lemma length_chars (s : string) : List.length (chars s) = String.length s.
Proof. induction s; simpl; congruence. Qed.

Lemma split_numeral (ds : string) (a b : nat) (c : ascii) (cs : list ascii) :
  chars ds = c :: cs -> forallb is_digit (chars ds) = true ->
  (0 < a)%nat -> (0 < b)%nat -> (a + b = String.length ds)%nat ->
  exists int f fr,
    chars (substring 0 a ds) = c :: int
    /\ chars (substring a b ds) = f :: fr
    /\ (c :: int) ++ f :: fr = chars ds
    /\ List.length (f :: fr) = b
    /\ forallb is_digit int = true
    /\ forallb is_digit (f :: fr) = true.
Proof.
  intros E D Ha Hb H.
  pose proof (substring_split ds a b H) as IF.
  pose proof (length_substring ds 0 a ltac:(lia)) as LI.
  pose proof (length_substring ds a b ltac:(lia)) as LF.
  pose proof (forallb_substring is_digit ds 0 a D) as DI.
  pose proof (forallb_substring is_digit ds a b D) as DF.
  apply (f_equal chars) in IF. rewrite chars_app in IF.
  rewrite <- length_chars in LI, LF.
  destruct (chars (substring 0 a ds)) as [ | c' int]; [simpl in LI; lia | ].
  destruct (chars (substring a b ds)) as [ | f fr]; [simpl in LF; lia | ].
  assert (c' = c).
  { rewrite E in IF. cbn [app] in IF. congruence. }
  subst c'. exists int, f, fr.
  simpl in DI. apply andb_prop in DI.
  repeat split; try assumption; try reflexivity. apply DI.
Qed.

(** What [layout] writes for the digits of [s] is read as the number
    nearest to the decimal that they stand for. *)
Lemma number_of_layout (neg : bool) (s n : Z) :
  0 < s ->
  let ds := digits_of s in
  let k := Z.of_nat (String.length ds) in
  exists d ex,
    number_of (chars ((if neg then "-" else "") ++ layout ds n))
    = Some (of_decimal neg d ex)
    /\ 0 < d
    /\ (inject_Z d * Qpower 10 ex == inject_Z s * Qpower 10 (n - k))%Q.
Proof.
  intros Hs ds k.
  destruct (numeral_head s Hs) as (c & cs & E & Hc & Hz). fold ds in E.
  pose proof (forallb_digits_of s) as D. fold ds in D.
  pose proof (digits_value_numeral s ltac:(lia)) as V. fold ds in V.
  assert (Dcs : forallb is_digit cs = true).
  { rewrite E in D. simpl in D. apply andb_prop in D. apply D. }
  assert (K : 1 <= k).
  { subst k. rewrite <- length_chars, E. simpl List.length. lia. }
  assert (Sg : forall T, chars ((if neg then "-" else "") ++ T)
                         = (if neg then ["-"%char] else []) ++ chars T)
    by (intro T; destruct neg; reflexivity).
  rewrite Sg. unfold layout. fold k.
  destruct ((k <=? n) && (n <=? 21)) eqn:C1.
  { (* the digits, then zeros *)
    apply andb_prop in C1. destruct C1 as [C1 _]. apply Z.leb_le in C1.
    set (j := Z.to_nat (n - k)).
    exists (s * 10 ^ Z.of_nat j), 0.
    assert (P : 0 < 10 ^ Z.of_nat j) by (apply Z.pow_pos_nonneg; lia).
    split; [ | split; [nia | ]].
    - rewrite chars_app, E.
      pose proof (number_of_parts neg c (cs ++ chars (repeat0 j)) [] None Hc)
        as G.
      cbn [fraction_tail exponent_tail List.length] in G.
      rewrite !List.app_nil_r in G.
      change (c :: cs ++ chars (repeat0 j))
        with ((c :: cs) ++ chars (repeat0 j)) in G.
      rewrite <- E in G at 3. unfold ds in G.
      rewrite digits_value_zeros in G by lia.
      rewrite G; [reflexivity | | | reflexivity].
      + rewrite forallb_app, Dcs. apply forallb_repeat0.
      + apply leading_zero_head, Hz.
    - rewrite inject_Z_mult. rewrite <- pow10_Q by lia.
      replace (Z.of_nat j) with (n - k) by (subst j; lia).
      change (Qpower 10 0) with 1%Q. ring. }
  destruct ((0 <? n) && (n <=? 21)) eqn:C2.
  { (* a point inside the digits *)
    apply andb_prop in C2. destruct C2 as [C2 C2'].
    apply Z.ltb_lt in C2. apply Z.leb_le in C2'.
    apply andb_false_iff in C1.
    assert (C : n < k).
    { destruct C1 as [C1 | C1]; apply Z.leb_gt in C1; lia. }
    destruct (split_numeral ds (Z.to_nat n) (Z.to_nat (k - n)) c cs E D)
      as (int & f & fr & EI & EF & IF & LF & DI & DF);
      [lia | lia | subst k; lia | ].
    exists s, (n - k). split; [ | split; [exact Hs | reflexivity]].
    rewrite !chars_app, EI, EF.
    pose proof (number_of_parts neg c int (f :: fr) None Hc DI) as G.
    cbn [fraction_tail exponent_tail] in G.
    rewrite List.app_nil_r, IF, V, LF in G.
    change (chars ".") with ["."%char]. cbn [app] in *.
    rewrite G; [ | apply leading_zero_head, Hz | exact DF].
    do 2 f_equal. lia. }
  destruct ((-6 <? n) && (n <=? 0)) eqn:C3.
  { (* zeros between the point and the digits *)
    apply andb_prop in C3. destruct C3 as [_ C3]. apply Z.leb_le in C3.
    set (j := Z.to_nat (- n)).
    exists s, (n - k). split; [ | split; [exact Hs | reflexivity]].
    change ("0." ++ repeat0 j ++ ds)%string
      with (String "0" (String "." (repeat0 j ++ ds))).
    cbn [list_ascii_of_string].
    set (frac := chars (repeat0 j ++ ds)).
    assert (Df : forallb is_digit frac = true).
    { subst frac. rewrite forallb_append, forallb_repeat0. exact D. }
    assert (Lf : Z.of_nat (List.length frac) = k - n).
    { subst frac. rewrite length_chars, length_append, length_repeat0.
      subst k j. lia. }
    assert (Vf : digits_value ("0"%char :: frac) = s).
    { subst frac.
      change ("0"%char :: chars (repeat0 j ++ ds))
        with (chars (repeat0 (S j) ++ ds)).
      apply digits_value_padded. lia. }
    pose proof (number_of_parts neg "0" [] frac None eq_refl eq_refl eq_refl
                  Df) as G.
    cbn [exponent_tail app] in G. rewrite List.app_nil_r in G.
    rewrite Vf, Lf in G.
    assert (Ff : fraction_tail frac = "."%char :: frac).
    { destruct frac; [simpl in Lf; lia | reflexivity]. }
    rewrite Ff in G. rewrite G. do 2 f_equal. lia. }
  destruct (Z.eqb_spec k 1) as [C4 | C4].
  { (* one digit and an exponent *)
    exists s, (n - k). split; [ | split; [exact Hs | reflexivity]].
    rewrite chars_app, E.
    pose proof (number_of_parts neg c cs [] (Some (n - 1)) Hc Dcs) as G.
    cbn [fraction_tail exponent_tail List.length app] in G.
    rewrite List.app_nil_r in G. rewrite <- E in G at 2. rewrite V in G.
    change (chars ("e" ++ exponent_text (n - 1)))
      with ("e"%char :: chars (exponent_text (n - 1))).
    cbn [app].
    rewrite G; [ | apply leading_zero_head, Hz | reflexivity].
    do 2 f_equal. lia. }
  (* a digit, a point, the other digits and an exponent *)
  destruct (split_numeral ds 1 (Z.to_nat (k - 1)) c cs E D)
    as (int & f & fr & EI & EF & IF & LF & DI & DF);
    [lia | lia | subst k; lia | ].
  exists s, (n - k). split; [ | split; [exact Hs | reflexivity]].
  rewrite !chars_app, EI, EF.
  pose proof (number_of_parts neg c int (f :: fr) (Some (n - 1)) Hc DI) as G.
  cbn [fraction_tail exponent_tail] in G.
  rewrite IF, V, LF in G.
  change (chars ".") with ["."%char]. change (chars "e") with ["e"%char].
  cbn [app] in *.
  rewrite G; [ | apply leading_zero_head, Hz | exact DF].
  do 2 f_equal. lia.
Qed.


Lemma to_integer_value (M : positive) (E z : Z) :
  to_integer M E = Some z ->
  0 < z /\ (inject_Z z * pow2 (- E) == inject_Z (Zpos M))%Q.
Proof.
  unfold to_integer. destruct (Z.leb_spec 0 E) as [H | H].
  - intro I. assert (Iz : z = Zpos M * 2 ^ E) by congruence.
    clear I. subst z.
    assert (P : 0 < 2 ^ E) by (apply Z.pow_pos_nonneg; lia).
    split; [apply Z.mul_pos_pos; lia | ].
    rewrite inject_Z_mult, <- pow2_Z by exact H.
    rewrite <- Qmult_assoc, <- pow2_add.
    replace (E + - E) with 0 by lia. change (pow2 0) with 1%Q. ring.
  - destruct (Z.eqb_spec (Zpos M mod 2 ^ (- E)) 0) as [D | D];
      [ | discriminate].
    intro I. assert (Iz : z = Zpos M / 2 ^ (- E)) by congruence.
    clear I. subst z.
    assert (P : 0 < 2 ^ (- E)) by (apply Z.pow_pos_nonneg; lia).
    pose proof (Z.div_mod (Zpos M) (2 ^ (- E)) ltac:(lia)) as Q.
    rewrite D, Z.add_0_r in Q.
    assert (0 < Zpos M / 2 ^ (- E)).
    { pose proof (Pos2Z.is_pos M). 
      destruct (Z.lt_trichotomy 0 (Zpos M / 2 ^ (- E))) as [G | [G | G]];
        [exact G | rewrite <- G in Q; lia | nia]. }
    split; [assumption | ].
    rewrite pow2_Z by lia. rewrite <- inject_Z_mult.
    rewrite Q at 2. apply inject_Z_injective. 
    rewrite Z.mul_comm. reflexivity.
Qed.

(** Every number that is finite, and is not -0, is read back from its
    JSON text. *)
Lemma finite_readable (x : number) :
  valid_binary prec emax x = true -> is_finite x = true ->
  x <> S754_zero true -> Spec.readable x.
Proof.
  intros Hv Hf Hz. unfold Spec.readable, number_text. rewrite Hf.
  destruct x as [[ | ] | | | neg M E]; try discriminate Hf;
    [exfalso; apply Hz; reflexivity | reflexivity | ].
  cbn [valid_binary] in Hv. cbn [Number_toString].
  assert (Sh : number_of
                 (list_ascii_of_string
                    ((if neg then "-" else "") ++ shortest_text M E))
               = Some (S754_finite neg M E)).
  { unfold shortest_text.
    pose proof (shortest_digits_inside M E Hv) as I. cbv zeta in I.
    destruct (shortest_digits M E) as [s p]. cbn [fst snd] in I.
    destruct I as (Ps & Lo & Hi & Open).
    destruct (number_of_layout neg s
                (p + Z.of_nat (String.length (digits_of s))) Ps)
      as (d & ex & N & Pd & V).
    rewrite N. f_equal.
    replace (p + Z.of_nat (String.length (digits_of s))
             - Z.of_nat (String.length (digits_of s))) with p in V by lia.
    apply of_decimal_nearest; try assumption; cbv zeta; rewrite V;
      assumption. }
  unfold positive_toString.
  destruct (to_integer M E) as [z | ] eqn:T; [ | exact Sh].
  destruct (z <? 2 ^ prec); [ | exact Sh].
  destruct (to_integer_value M E z T) as [Pz V].
  assert (N : number_of
                (list_ascii_of_string
                   ((if neg then "-" else "") ++ digits_of z))
              = Some (of_decimal neg z 0)).
  { destruct (numeral_not_empty z) as (c & cs & E' & Hc).
    unfold number_of. destruct neg.
    - change (list_ascii_of_string ("-" ++ digits_of z))
        with ("-"%char :: list_ascii_of_string (digits_of z)).
      cbn [minus_sign]. change (Ascii.eqb "-" "-") with true. cbv iota beta.
      apply unsigned_number_digits. lia.
    - change (list_ascii_of_string ("" ++ digits_of z))
        with (list_ascii_of_string (digits_of z)).
      assert (Mi : minus_sign (list_ascii_of_string (digits_of z))
                   = (false, list_ascii_of_string (digits_of z))).
      { rewrite E'. unfold minus_sign.
        rewrite (proj1 (digit_facts c Hc)). reflexivity. }
      rewrite Mi. apply unsigned_number_digits. lia. }
  rewrite N. f_equal.
  assert (U : (inject_Z z * Qpower 10 0 * pow2 (- E)
               == inject_Z (Zpos M))%Q).
  { change (Qpower 10 0) with 1%Q. rewrite Qmult_1_r. exact V. }
  assert (B : (1 # 4 <= below M E)%Q /\ (below M E <= 1 # 2)%Q).
  { unfold below. destruct (_ && _); split; lra. }
  apply of_decimal_nearest; try assumption; cbv zeta; rewrite U.
  - lra.
  - lra.
  - intros _. split; lra.
Qed.

Lemma finite_figure_readable (x : number) :
  Spec.finite_figure x = true -> Spec.readable x.
Proof.
  unfold Spec.finite_figure. intro H.
  apply andb_prop in H. destruct H as [H N].
  apply andb_prop in H. destruct H as [V F].
  apply finite_readable; try assumption.
  intros ->. discriminate N.
Qed.

Lemma finite_record_readable (item : PeriodRecord) :
  Spec.finite_record item = true -> Spec.readable_record item.
Proof.
  unfold Spec.finite_record, Spec.readable_record. intro H.
  apply andb_prop in H. destruct H as [H Y].
  apply andb_prop in H. destruct H as [H P].
  apply andb_prop in H. destruct H as [Q S].
  repeat split; apply finite_figure_readable; assumption.
Qed.

(** The number of an integer below [2^53] is in canonical form. *)
Lemma binary_round_integer_bounded (s : bool) (p : positive) :
  Zpos p < 2 ^ 53 ->
  exists m e,
    binary_round prec emax s p 0 = S754_finite s m e
    /\ bounded prec emax m e = true.
Proof.
  intro H. pose proof (digits_upper p H) as D.
  unfold binary_round, shl_align.
  assert (F : SpecFloat.fexp prec emax (Zpos (digits2_pos p) + 0)
              = Zpos (digits2_pos p) - 53).
  { unfold SpecFloat.fexp, SpecFloat.emin. change prec with 53.
    change emax with 1024. lia. }
  rewrite F.
  destruct (Zpos (digits2_pos p) - 53 - 0) as [ | k | k] eqn:E; try lia.
  - exists p, 0. split.
    + apply binary_round_aux_exact.
      * simpl Zdigits2. rewrite F. lia.
      * change (emax - prec) with 971. lia.
    + unfold bounded, canonical_mantissa. rewrite F.
      apply andb_true_intro. split; [apply Z.eqb_eq; lia | reflexivity].
  - exists (Pos.iter xO p k), (Zpos (digits2_pos p) - 53). split.
    + apply binary_round_aux_exact.
      * simpl Zdigits2. rewrite iter_xO_digits.
        unfold SpecFloat.fexp, SpecFloat.emin. change prec with 53.
        change emax with 1024. lia.
      * change (emax - prec) with 971. lia.
    + unfold bounded, canonical_mantissa. rewrite iter_xO_digits.
      apply andb_true_intro. split.
      * apply Z.eqb_eq. unfold SpecFloat.fexp, SpecFloat.emin.
        change prec with 53. change emax with 1024. lia.
      * apply Z.leb_le. change (emax - prec) with 971. lia.
Qed.

Lemma integral_finite_figure (x : number) :
  Spec.integral x -> Spec.finite_figure x = true.
Proof.
  intros (z & Hz & ->). unfold Spec.finite_figure.
  destruct z as [ | p | p]; [reflexivity | | ];
    unfold of_Z, binary_normalize.
  - destruct (binary_round_integer_bounded false p Hz) as (m & e & -> & B).
    cbn [valid_binary is_finite Spec.negative_zero]. rewrite B. reflexivity.
  - destruct (binary_round_integer_bounded true p Hz) as (m & e & -> & B).
    cbn [valid_binary is_finite Spec.negative_zero]. rewrite B. reflexivity.
Qed.

Lemma integral_record_finite (item : PeriodRecord) :
  Spec.integral_record item -> Spec.finite_record item = true.
Proof.
  intros (Q & S & P & Y). unfold Spec.finite_record.
  rewrite !integral_finite_figure by assumption. reflexivity.
Qed.

End ReadingShortest.

(** ** Scanning the exported text *)

Section Scanning.
Import JSON.

Local Abbreviation chars := list_ascii_of_string.

Lemma scan_run_app (a b : list ascii) :
  forall st,
    scan_run st (a ++ b)
    = match scan_run st a with
      | Some (ts, st') =>
          match scan_run st' b with
          | Some (ts', st'') => Some ((ts ++ ts')%list, st'')
          | None => None
          end
      | None => None
      end.
Proof.
  induction a as [ | c a IH]; intro st; simpl.
  - destruct (scan_run st b) as [[ts st'] | ]; reflexivity.
  - destruct (scan_step st c) as [[ts st'] | ]; [ | reflexivity].
    rewrite IH.
    destruct (scan_run st' a) as [[ts1 st1] | ]; [ | reflexivity].
    destruct (scan_run st1 b) as [[ts2 st2] | ]; [ | reflexivity].
    rewrite app_assoc. reflexivity.
Qed.

Lemma scan_run_in_number (cs : list ascii) :
  forall seen,
    forallb is_number_char cs = true ->
    scan_run (InNumber seen) cs = Some ([], InNumber (rev cs ++ seen)%list).
Proof.
  induction cs as [ | c cs IH]; intros seen H; simpl.
  - reflexivity.
  - simpl in H. apply andb_prop in H. destruct H as [Hc Hcs].
    rewrite Hc, (IH _ Hcs), <- app_assoc. reflexivity.
Qed.

Lemma readable_finite (x : number) :
  Spec.readable x -> is_finite x = true.
Proof.
  unfold Spec.readable, number_text.
  destruct (is_finite x); [reflexivity | discriminate].
Qed.

Lemma number_text_shape (x : number) :
  Spec.readable x ->
  exists c cs,
    chars (number_text x) = c :: cs
    /\ idle_step c = Some ([], InNumber [c])
    /\ forallb is_number_char cs = true.
Proof.
  intro R. pose proof (readable_finite x R) as F.
  unfold number_text. rewrite F.
  destruct (Number_toString_head x F) as (c & s & E & Hc).
  pose proof (Number_toString_number_chars x F) as N.
  rewrite E in *. exists c, (chars s).
  split; [reflexivity | split].
  - destruct Hc as [Hc | ->]; [apply digit_facts, Hc | reflexivity].
  - simpl in N. apply andb_prop in N. apply N.
Qed.

(** The text of a number, then a character that ends it. *)
Lemma scan_number (x : number) (c : ascii) (tc : list token)
  (rest : list ascii) :
  Spec.readable x ->
  is_number_char c = false ->
  idle_step c = Some (tc, Idle) ->
  scan_run Idle (chars (number_text x) ++ c :: rest)
  = match scan_run Idle rest with
    | Some (ts, st) => Some (TNum x :: tc ++ ts, st)%list
    | None => None
    end.
Proof.
  intros R Hc Hi.
  destruct (number_text_shape x R) as (c0 & cs & E & H0 & Hcs).
  unfold Spec.readable in R.
  rewrite E in *. rewrite <- app_comm_cons.
  cbn [scan_run scan_step]. rewrite H0.
  rewrite scan_run_app, (scan_run_in_number cs [c0] Hcs).
  cbn [scan_run scan_step]. rewrite Hc.
  replace (rev (rev cs ++ [c0])) with (c0 :: cs)
    by (rewrite rev_app_distr, rev_involutive; reflexivity).
  rewrite R. unfold after. cbn [option_map]. rewrite Hi.
  destruct (scan_run Idle rest) as [[ts st] | ]; reflexivity.
Qed.

(** Integers below [2^53] in magnitude are read back from their text. *)
Lemma integral_readable (x : number) : Spec.integral x -> Spec.readable x.
Proof.
  intros (z & Hz & ->). unfold Spec.readable, number_text.
  rewrite (of_Z_finite z Hz), (Number_toString_integer z Hz).
  apply number_of_numeral.
Qed.

Lemma scan_literal (L : list ascii) (tsL : list token) (rest : list ascii) :
  scan_run Idle L = Some (tsL, Idle) ->
  scan_run Idle (L ++ rest)
  = match scan_run Idle rest with
    | Some (ts, st) => Some ((tsL ++ ts)%list, st)
    | None => None
    end.
Proof. intro H. rewrite scan_run_app, H. reflexivity. Qed.

Lemma scan_number_comma (x : number) (rest : list ascii) :
  Spec.readable x ->
  scan_run Idle (chars (number_text x) ++ chars "," ++ rest)
  = match scan_run Idle rest with
    | Some (ts, st) => Some (TNum x :: TComma :: ts, st)
    | None => None
    end.
Proof. intro R. apply (scan_number x "," [TComma] rest); auto. Qed.

Lemma scan_number_newline (x : number) (rest : list ascii) :
  Spec.readable x ->
  scan_run Idle (chars (number_text x) ++ chars newline ++ rest)
  = match scan_run Idle rest with
    | Some (ts, st) => Some (TNum x :: ts, st)
    | None => None
    end.
Proof. intro R. apply (scan_number x "010" [] rest); auto. Qed.

Ltac scan_piece :=
  first [ rewrite scan_number_comma by assumption
        | rewrite scan_number_newline by assumption
        | erewrite scan_literal by reflexivity ].

(** The text of a record, read at the depth of the items of the array. *)
Lemma scan_record (item : PeriodRecord) (rest : list ascii) :
  Spec.readable_record item ->
  scan_run Idle (chars (stringify "  " (ExportButtons.record_json item))
                 ++ rest)
  = match scan_run Idle rest with
    | Some (ts, st) => Some ((Spec.record_tokens item ++ ts)%list, st)
    | None => None
    end.
Proof.
  destruct item as [q sv p y]. unfold Spec.readable_record.
  cbn [quarter sales_volume profit year].
  intros (Hq & Hs & Hp & Hy).
  unfold ExportButtons.record_json.
  cbn [stringify map JSON.join fst snd quarter sales_volume profit year].
  rewrite !chars_app, <- !app_assoc.
  repeat scan_piece.
  destruct (scan_run Idle rest) as [[ts st] | ]; reflexivity.
Qed.

End Scanning.

Section ReadingBack.
Import JSON.

Local Abbreviation chars := list_ascii_of_string.

Lemma scan_items (first : PeriodRecord) (rest : list PeriodRecord) :
  forall tail,
    Forall Spec.readable_record (first :: rest) ->
    scan_run Idle
      (chars (JSON.join ("," ++ newline ++ "  ")
                (map (stringify "  ")
                   (map ExportButtons.record_json (first :: rest))))
       ++ tail)
    = match scan_run Idle tail with
      | Some (ts, st) => Some ((Spec.items_tokens first rest ++ ts)%list, st)
      | None => None
      end.
Proof.
  revert first. induction rest as [ | next rest IH]; intros first tail H.
  - inversion H; subst. apply scan_record. assumption.
  - inversion H as [ | x l Hfirst Hrest]; subst.
    change (JSON.join ("," ++ newline ++ "  ")
              (map (stringify "  ")
                 (map ExportButtons.record_json (first :: next :: rest))))
      with (stringify "  " (ExportButtons.record_json first)
            ++ ("," ++ newline ++ "  ")
            ++ JSON.join ("," ++ newline ++ "  ")
                 (map (stringify "  ")
                    (map ExportButtons.record_json (next :: rest))))%string.
    rewrite !chars_app, <- !app_assoc.
    rewrite (scan_record first _ Hfirst).
    do 3 (erewrite scan_literal by reflexivity).
    rewrite (IH next tail Hrest).
    destruct (scan_run Idle tail) as [[ts st] | ]; [ | reflexivity].
    cbn [Spec.items_tokens]. rewrite <- app_assoc. reflexivity.
Qed.

Lemma scan_jsonContent (first : PeriodRecord) (rest : list PeriodRecord) :
  Forall Spec.readable_record (first :: rest) ->
  scan (chars (ExportButtons.jsonContent (first :: rest)))
  = Some (TLBracket :: Spec.items_tokens first rest ++ [TRBracket])%list.
Proof.
  intro H. unfold ExportButtons.jsonContent, JSON_stringify,
    ExportButtons.data_json, scan.
  change (stringify "" (JArr (map ExportButtons.record_json (first :: rest))))
    with ("[" ++ newline ++ "  "
          ++ JSON.join ("," ++ newline ++ "  ")
               (map (stringify "  ")
                  (map ExportButtons.record_json (first :: rest)))
          ++ newline ++ "" ++ "]")%string.
  rewrite !chars_app, <- ?app_assoc.
  do 3 (erewrite scan_literal by reflexivity).
  rewrite (scan_items first rest _ H).
  change (scan_run Idle (chars newline ++ chars "" ++ chars "]"))
    with (Some ([TRBracket], Idle)).
  cbn [scan_end app]. rewrite List.app_nil_r. reflexivity.
Qed.

Lemma parse_record (item : PeriodRecord) (fuel : nat) (rest : list token) :
  parse_value (S (S (S (S (S (S fuel)))))) (Spec.record_tokens item ++ rest)
  = Some (ExportButtons.record_json item, rest).
Proof. reflexivity. Qed.

Lemma parse_items_step (fuel : nat) (ts : list token) :
  parse_items (S fuel) ts
  = match parse_value fuel ts with
    | Some (v, TComma :: r) =>
        match parse_items fuel r with
        | Some (vs, r') => Some (v :: vs, r')
        | None => None
        end
    | Some (v, TRBracket :: r) => Some ([v], r)
    | _ => None
    end.
Proof. reflexivity. Qed.

Lemma parse_value_array (fuel : nat) (ts : list token) :
  parse_value (S fuel) (TLBracket :: TLBrace :: ts)
  = match parse_items fuel (TLBrace :: ts) with
    | Some (items, r') => Some (JArr items, r')
    | None => None
    end.
Proof. reflexivity. Qed.

Lemma items_tokens_head (first : PeriodRecord) (rest : list PeriodRecord) :
  exists ts, Spec.items_tokens first rest = TLBrace :: ts.
Proof. destruct rest; eexists; reflexivity. Qed.

Lemma parse_items_tokens (rest : list PeriodRecord) :
  forall first fuel tail,
    parse_items (S (S (S (S (S (S (S (List.length rest + fuel))))))))
      (Spec.items_tokens first rest ++ TRBracket :: tail)
    = Some (map ExportButtons.record_json (first :: rest), tail).
Proof.
  induction rest as [ | next rest IH]; intros first fuel tail.
  - rewrite parse_items_step. cbn [Spec.items_tokens].
    rewrite parse_record. reflexivity.
  - rewrite parse_items_step. cbn [Spec.items_tokens].
    rewrite <- app_assoc, parse_record.
    rewrite <- app_comm_cons.
    change (S (S (S (S (S (S (List.length (next :: rest) + fuel)))))))
      with (S (S (S (S (S (S (S (List.length rest + fuel)))))))).
    rewrite IH. reflexivity.
Qed.

Lemma length_items_tokens (rest : list PeriodRecord) :
  forall first,
    List.length (Spec.items_tokens first rest)
    = (17 + 18 * List.length rest)%nat.
Proof.
  induction rest as [ | next rest IH]; intro first.
  - reflexivity.
  - cbn [Spec.items_tokens]. rewrite length_app. cbn [List.length].
    rewrite IH. simpl List.length. lia.
Qed.

Lemma json_records_data (data : list PeriodRecord) :
  ExportButtons.json_records (map ExportButtons.record_json data) = Some data.
Proof.
  induction data as [ | [q s p y] data IH]; [reflexivity | ].
  cbn [map ExportButtons.json_records]. rewrite IH. reflexivity.
Qed.

Lemma parse_array (first : PeriodRecord) (rest : list PeriodRecord)
  (fuel : nat) :
  parse_value (S (S (S (S (S (S (S (S (List.length rest + fuel)))))))))
    (TLBracket :: Spec.items_tokens first rest ++ [TRBracket])
  = Some (ExportButtons.data_json (first :: rest), []).
Proof.
  pose proof (parse_items_tokens rest first fuel []) as P.
  destruct (items_tokens_head first rest) as (ts & E).
  rewrite E in *. rewrite <- app_comm_cons in *.
  rewrite parse_value_array, P. reflexivity.
Qed.

(** The exported JSON text parses to the records it was made from. *)
Lemma JSON_parse_jsonContent (first : PeriodRecord)
  (rest : list PeriodRecord) :
  Forall Spec.readable_record (first :: rest) ->
  JSON_parse (ExportButtons.jsonContent (first :: rest))
  = Some (ExportButtons.data_json (first :: rest)).
Proof.
  intro H. unfold JSON_parse. rewrite (scan_jsonContent first rest H).
  assert (L : S (List.length (TLBracket :: Spec.items_tokens first rest
                                ++ [TRBracket]))
              = S (S (S (S (S (S (S (S (List.length rest
                                         + (12 + 17 * List.length rest)))))))))).
  { cbn [List.length]. rewrite length_app, length_items_tokens.
    cbn [List.length]. lia. }
  rewrite L, parse_array. reflexivity.
Qed.

End ReadingBack.

Lemma integral_record_readable (item : PeriodRecord) :
  Spec.integral_record item -> Spec.readable_record item.
Proof.
  intros (Hq & Hs & Hp & Hy).
  repeat split; apply integral_readable; assumption.
Qed.

(** Numbers that are not integers are read back as well, one third and
    the largest number among them; NaN is not. *)
Example readable_numbers :
  Spec.readable (div (of_Z 1) (of_Z 3))
  /\ Spec.readable (S754_finite false 9007199254740991 971)
  /\ ~ Spec.readable S754_nan.
Proof.
  split; [vm_compute; reflexivity | split; [vm_compute; reflexivity | ]].
  intro H. apply readable_finite in H. discriminate H.
Qed.

(** ** What the filter finds outside the dataset *)

Section Inherited.
Import FinancialDashboard.

(** No value of the realm has a property [map]. *)
Lemma Get_map (v : Realm.value) :
  Realm.Get v "map" = Normal Realm.undefined
  \/ Realm.Get v "map" = Throw TypeError.
Proof.
  destruct v as [ | | x | s | o]; try (right; reflexivity);
    try (left; reflexivity).
  - left. unfold Realm.Get, Realm.string_property.
    change (String.eqb "map" "length") with false. cbv iota.
    replace (get (Realm.indexed 0 s) "map") with (@None Realm.value);
      [reflexivity | ].
    assert (H : forall i, 0 <= i ->
                  get (Realm.indexed i s) "map" = @None Realm.value);
      [ | symmetry; apply H; lia].
    induction s as [ | c s IH]; intros i Hi; [reflexivity | ].
    cbn [Realm.indexed get].
    destruct (String.eqb (digits_of i) "map") eqn:E; [ | apply IH; lia].
    apply String.eqb_eq in E.
    destruct (digits_of_head i) as (d & t & Ed & D).
    rewrite Ed in E. injection E as -> _. discriminate D.
  - left. destruct o; reflexivity.
Qed.

(** Calling [map] on a value of the realm raises TypeError. *)
Lemma invoke_map_throws (A : Type) (v : Realm.value) :
  @Realm.invoke_map A v = Throw TypeError.
Proof.
  unfold Realm.invoke_map.
  destruct (Realm.Get v "map") as [f | []]; reflexivity.
Qed.

(** Once the filter has left the dataset it gives no record: it returns
    the empty sequence or raises TypeError. *)
Lemma of_yearData_cases (v : Realm.value) :
  of_yearData v
  = if Realm.ToBoolean v then Throw TypeError else Normal [].
Proof.
  unfold of_yearData. rewrite invoke_map_throws. reflexivity.
Qed.

Lemma flatMap_invoke_map (entries : object Realm.value) :
  flatMap (fun entry => @Realm.invoke_map (list PeriodRecord) (snd entry))
    entries
  = match entries with [] => Normal [] | _ => Throw TypeError end.
Proof.
  destruct entries as [ | entry entries]; [reflexivity | ].
  cbn [flatMap]. rewrite invoke_map_throws. reflexivity.
Qed.

Lemma of_companyData_cases (v : Realm.value) (year : string) :
  of_companyData v year = Normal [] \/ of_companyData v year = Throw TypeError.
Proof.
  unfold of_companyData.
  destruct (Realm.ToBoolean v); [ | left; reflexivity]. cbn [negb].
  destruct (String.eqb year "all").
  - destruct (Realm.Object_entries v) as [entries | []];
      [ | right; reflexivity].
    cbn [bind]. rewrite flatMap_invoke_map.
    destruct entries; [left | right]; reflexivity.
  - destruct (Realm.Get v year) as [w | []]; [ | right; reflexivity].
    cbn [bind]. rewrite of_yearData_cases.
    destruct (Realm.ToBoolean w); [right | left]; reflexivity.
Qed.

Lemma of_categoryData_cases (v : Realm.value) (year company : string) :
  of_categoryData v year company = Normal []
  \/ of_categoryData v year company = Throw TypeError.
Proof.
  unfold of_categoryData.
  destruct (Realm.ToBoolean v); [ | left; reflexivity]. cbn [negb].
  destruct (Realm.Get v company) as [w | []]; [ | right; reflexivity].
  apply of_companyData_cases.
Qed.

(** A name that an object literal does not inherit reads as
    [undefined]; one that it inherits reads as an object. *)
Lemma inherited_absent (key : string) :
  ~ In key Realm.inherited_names -> Realm.inherited key = Normal Realm.undefined.
Proof.
  intro H. unfold Realm.inherited, Realm.lookup.
  replace (Realm.find 2 Realm.Object_prototype key)
    with (@None Realm.property); [reflexivity | ].
  symmetry. unfold Realm.find. cbn [Realm.prototype].
  unfold Realm.inherited_names in H.
  induction (Realm.own Realm.Object_prototype) as [ | [k p] o IH];
    [reflexivity | ].
  cbn [get]. destruct (String.eqb k key) eqn:E.
  - apply String.eqb_eq in E. exfalso. apply H. left. exact E.
  - rewrite IH; [reflexivity | ]. intro I. apply H. right. exact I.
Qed.

Lemma inherited_present (key : string) :
  In key Realm.inherited_names ->
  exists o, Realm.inherited key = Normal (Realm.object_value o).
Proof.
  intro H. unfold Realm.inherited_names in H. simpl in H.
  repeat (destruct H as [<- | H]; [eexists; reflexivity | ]).
  contradiction.
Qed.

(** The filter under a category and a company of the dataset. *)
Lemma filteredData_own (dataset : Dataset)
  (category year company : string) categoryData companyData :
  get dataset category = Some categoryData ->
  get categoryData company = Some companyData ->
  filteredData dataset category year company
  = if String.eqb year "all" then
      Normal
        (flat_map (fun entry => map (with_year (fst entry)) (snd entry))
           (Object_entries companyData))
    else
      match get companyData year with
      | Some yearData => Normal (map (with_year year) yearData)
      | None =>
          if existsb (String.eqb year) Realm.inherited_names
          then Throw TypeError else Normal []
      end.
Proof.
  intros H1 H2. unfold filteredData. rewrite H1, H2.
  destruct (String.eqb year "all"); [reflexivity | ].
  destruct (get companyData year); [reflexivity | ].
  destruct (existsb (String.eqb year) Realm.inherited_names) eqn:E.
  - apply existsb_exists in E. destruct E as (k & I & E).
    apply String.eqb_eq in E. subst k.
    destruct (inherited_present year I) as (o & ->).
    cbn [bind]. apply of_yearData_cases.
  - rewrite inherited_absent; [reflexivity | ].
    intro I. assert (X : existsb (String.eqb year) Realm.inherited_names = true).
    { apply existsb_exists. exists year. split; [exact I | apply String.eqb_refl]. }
    congruence.
Qed.

(** Outside the categories and companies of the dataset the filter
    gives no record. *)
Lemma filteredData_elsewhere (dataset : Dataset)
  (category year company : string) :
  get dataset category = None
  \/ (exists categoryData,
        get dataset category = Some categoryData
        /\ get categoryData company = None) ->
  filteredData dataset category year company = Normal []
  \/ filteredData dataset category year company = Throw TypeError.
Proof.
  unfold filteredData. intros [H | (cd & H1 & H2)].
  - rewrite H.
    destruct (Realm.inherited category) as [v | []]; [ | right; reflexivity].
    apply of_categoryData_cases.
  - rewrite H1, H2.
    destruct (Realm.inherited company) as [v | []]; [ | right; reflexivity].
    apply of_companyData_cases.
Qed.

End Inherited.

(** * The properties of the specification *)

(** C1, as the specification states it, fails: one quarter without sales
    and without profit gives metrics and a margin that are not finite. *)
Lemma displays_not_finite :
  Spec.displays_finite [Spec.record 2023 1 0 0] = false
  /\ map MetricsCards.value
       (MetricsCards.cards (Some [Spec.record 2023 1 0 0]))
     = ["0"; "$0"; "NaN%"; "NaN%"]%string
  /\ ExportButtons.csv_row (Spec.record 2023 1 0 0)
     = "2023,Q1,0,0,NaN%"%string.
Proof. vm_compute. repeat split; reflexivity. Qed.

(** C1, amended.  Of the divisions of the metrics, of the table and of
    the export, only that of the trend of a row is guarded:
    [getProfitTrend] gives no trend when the previous profit is zero,
    NaN or absent.  The three that the claim names have no fallback, and
    only the empty (or absent) sequence is answered with zeros: for a
    sequence that is not empty, a zero total of sales makes
    [avgProfitMargin] NaN or an infinity, a zero first profit makes
    [growthRate] NaN or [+Infinity], a zero [sales_volume] makes the
    margin of the row NaN or an infinity, in the CSV text and in the
    table; [toFixed] then writes [NaN], [Infinity] or [-Infinity]. *)
Theorem zero_divisor_reaches_display :
  forall first rest,
    let data := first :: rest in
    let m := MetricsCards.calculateMetrics (Some data) in
    (is_zero (MetricsCards.totalSales m) = true ->
       is_finite (MetricsCards.avgProfitMargin m) = false
       /\ In (toFixed 2 (MetricsCards.avgProfitMargin m))
             Spec.non_finite_texts)
    /\ (is_zero (profit first) = true ->
          (MetricsCards.growthRate m = S754_nan
           \/ MetricsCards.growthRate m = S754_infinity false)
          /\ In (toFixed 1 (MetricsCards.growthRate m))
                ["NaN"; "Infinity"]%string)
    /\ (forall item index,
          is_zero (sales_volume item) = true ->
          is_finite (Spec.margin item) = false
          /\ In (toFixed 2 (Spec.margin item)) Spec.non_finite_texts
          /\ ExportButtons.csv_row item
             = JSON.join ","
                 [ Number_toString (year item);
                   ("Q" ++ Number_toString (quarter item))%string;
                   Number_toString (sales_volume item);
                   Number_toString (profit item);
                   (toFixed 2 (Spec.margin item) ++ "%")%string ]
          /\ FinancialTable.margin_cell (FinancialTable.row data item index)
             = (toFixed 2 (Spec.margin item) ++ "%")%string)
    /\ (forall current previous,
          ToBoolean previous = false ->
          FinancialTable.getProfitTrend current previous = None)
    /\ (forall item index previous,
          nth_error data index = Some previous ->
          is_zero (profit previous) = true ->
          FinancialTable.trend_cell (FinancialTable.row data item (S index))
          = None)
    /\ MetricsCards.calculateMetrics (Some [])
       = MetricsCards.calculateMetrics None
    /\ MetricsCards.calculateMetrics None
       = {| MetricsCards.totalSales := of_Z 0;
            MetricsCards.totalProfit := of_Z 0;
            MetricsCards.avgProfitMargin := of_Z 0;
            MetricsCards.growthRate := of_Z 0;
            MetricsCards.isGrowthPositive := false |}.
Proof.
  intros first rest data m. subst m.
  split; [ | split; [ | split; [ | split; [ | split; [ | split]]]]];
    try reflexivity.
  - unfold data. rewrite calculateMetrics_cons. simpl. intro H.
    assert (F : is_finite
                  (mul (div (Spec.sum (profit first :: map profit rest))
                            (Spec.sum (sales_volume first
                                        :: map sales_volume rest)))
                       (of_Z 100)) = false)
      by (apply mul_100_not_finite, div_by_zero_not_finite, H).
    split; [exact F | apply toFixed_non_finite, F].
  - unfold data. rewrite calculateMetrics_cons.
    cbn [MetricsCards.growthRate]. intro H.
    assert (F : is_finite
                  (mul (div (sub (profit (List.last rest first))
                                 (profit first)) (profit first))
                       (of_Z 100)) = false)
      by (apply mul_100_not_finite, div_by_zero_not_finite, H).
    pose proof (abs_of_not_finite _ F) as G.
    split; [exact G | ].
    destruct G as [E | E]; rewrite E; simpl; auto.
  - intros item index H.
    assert (F : is_finite (Spec.margin item) = false)
      by (apply mul_100_not_finite, div_by_zero_not_finite, H).
    repeat split; [exact F | apply toFixed_non_finite, F].
  - intros current previous H.
    unfold FinancialTable.getProfitTrend. rewrite H. reflexivity.
  - intros item index previous Hp Hz.
    unfold FinancialTable.row, FinancialTable.trend_cell.
    change (0 <? S index)%nat with true. cbv iota.
    replace (S index - 1)%nat with index by lia.
    rewrite Hp.
    unfold FinancialTable.getProfitTrend, ToBoolean, truthy.
    rewrite Hz. reflexivity.
Qed.

Lemma zero_divisor_reaches_display_witness :
  is_finite
    (MetricsCards.avgProfitMargin
       (MetricsCards.calculateMetrics (Some [Spec.record 2023 1 0 100])))
  = false
  /\ is_finite (Spec.margin (Spec.record 2023 1 0 100)) = false
  /\ (MetricsCards.growthRate
        (MetricsCards.calculateMetrics
           (Some [Spec.record 2023 1 0 0; Spec.record 2023 2 10 5]))
      = S754_nan
      \/ MetricsCards.growthRate
           (MetricsCards.calculateMetrics
              (Some [Spec.record 2023 1 0 0; Spec.record 2023 2 10 5]))
         = S754_infinity false)
  /\ FinancialTable.trend_cell
       (FinancialTable.row
          [Spec.record 2023 1 0 0; Spec.record 2023 2 10 5]
          (Spec.record 2023 2 10 5) 1) = None.
Proof.
  destruct (zero_divisor_reaches_display (Spec.record 2023 1 0 100) [])
    as (H1 & _ & H3 & _).
  destruct (zero_divisor_reaches_display (Spec.record 2023 1 0 0)
              [Spec.record 2023 2 10 5])
    as (_ & H2 & _ & _ & H5 & _).
  split; [ | split; [ | split]].
  - apply H1. reflexivity.
  - apply (H3 (Spec.record 2023 1 0 100) 0%nat). reflexivity.
  - apply H2. reflexivity.
  - apply (H5 (Spec.record 2023 2 10 5) 0%nat (Spec.record 2023 1 0 0));
      reflexivity.
Defined.

(** C2. Under a category and a company of the dataset, a year that the
    company has (its key the numeral of [n]) gives the quarters stored
    under it, one for one and in order, each with the year [n]; the
    year "all" gives the quarters of every year, each with the year its
    key reads as, the years taken in the order of [Object.entries]
    (every year once), so that the length is the sum of the lengths
    stored under the years. *)
Theorem filteredData_of_present_key :
  forall (dataset : Dataset) (category company : string)
         categoryData companyData,
    get dataset category = Some categoryData ->
    get categoryData company = Some companyData ->
    (forall n quarters,
       0 <= n ->
       get companyData (digits_of n) = Some quarters ->
       exists records,
         FinancialDashboard.filteredData dataset category (digits_of n)
           company = Normal records
         /\ records = map (Spec.annotate (of_Z n)) quarters
         /\ List.length records = List.length quarters)
    /\ (exists all,
          FinancialDashboard.filteredData dataset category "all" company
          = Normal all
          /\ all
             = flat_map
                 (fun entry =>
                    map (Spec.annotate (parseInt (fst entry))) (snd entry))
                 (Object_entries companyData)
          /\ List.length all
             = list_sum
                 (map (fun entry => List.length (snd entry)) companyData))
    /\ (forall n, 0 <= n -> parseInt (digits_of n) = of_Z n)
    /\ Permutation (Object_entries companyData) companyData.
Proof.
  intros dataset category company cd yd H1 H2.
  unfold FinancialDashboard.filteredData. rewrite H1, H2.
  split; [ | split; [ | split]].
  - intros n quarters Hn Hq.
    rewrite numeral_is_not_all, Hq, with_year_annotate, parseInt_numeral
      by exact Hn.
    eexists. split; [reflexivity | ].
    split; [reflexivity | apply length_map].
  - eexists. split; [reflexivity | ].
    split; [reflexivity | apply length_all_years].
  - exact parseInt_numeral.
  - apply Object_entries_perm.
Qed.

Lemma filteredData_of_present_key_witness :
  FinancialDashboard.filteredData FinancialDashboard.sampleData
    "food" (digits_of 2023) "MC" = Normal Spec.food_MC_2023
  /\ exists all,
       FinancialDashboard.filteredData FinancialDashboard.sampleData
         "food" "all" "MC" = Normal all
       /\ List.length all = 8%nat.
Proof.
  destruct (filteredData_of_present_key FinancialDashboard.sampleData
              "food" "MC" _ _ eq_refl eq_refl)
    as (H1 & (all & A1 & _ & A3) & _).
  split.
  - destruct (H1 2023 _ ltac:(lia) eq_refl) as (records & -> & -> & _).
    reflexivity.
  - exists all. split; [exact A1 | rewrite A3; reflexivity].
Defined.

(** The figures of the specification's example: the four quarters of
    2023 of the company MC. *)
Example metrics_of_food_MC_2023 :
  FinancialDashboard.filteredData FinancialDashboard.sampleData
    "food" "2023" "MC" = Normal Spec.food_MC_2023
  /\ let m := MetricsCards.calculateMetrics (Some Spec.food_MC_2023) in
  MetricsCards.totalSales m = of_Z 7000
  /\ MetricsCards.totalProfit m = of_Z 450
  /\ toFixed 2 (MetricsCards.avgProfitMargin m) = "6.43"%string
  /\ MetricsCards.growthRate m = of_Z 80
  /\ MetricsCards.isGrowthPositive m = true.
Proof. vm_compute. repeat split; reflexivity. Qed.

(** C3. The metrics of the empty (or absent) sequence are all zero with
    a growth that is not positive; the metrics of a sequence that is not
    empty have [totalSales] the sum of the sales volumes, [totalProfit]
    the sum of the profits and [avgProfitMargin] the quotient of the two
    times one hundred (whatever the total sales, zero included).  The
    sums are those of the numbers, from left to right; for integer
    figures whose magnitudes add up to less than 2^53 they are the
    integer sums. *)
Theorem calculateMetrics_totals :
  let zero :=
    {| MetricsCards.totalSales := of_Z 0;
       MetricsCards.totalProfit := of_Z 0;
       MetricsCards.avgProfitMargin := of_Z 0;
       MetricsCards.growthRate := of_Z 0;
       MetricsCards.isGrowthPositive := false |} in
  MetricsCards.calculateMetrics (Some []) = zero
  /\ MetricsCards.calculateMetrics None = zero
  /\ (forall first rest,
        let data := first :: rest in
        let m := MetricsCards.calculateMetrics (Some data) in
        MetricsCards.totalSales m = Spec.sum (map sales_volume data)
        /\ MetricsCards.totalProfit m = Spec.sum (map profit data)
        /\ MetricsCards.avgProfitMargin m
           = mul (div (MetricsCards.totalProfit m) (MetricsCards.totalSales m))
                 (of_Z 100)
        /\ (forall sales profits : list Z,
              map sales_volume data = map of_Z sales ->
              map profit data = map of_Z profits ->
              Spec.magnitude sales < 2 ^ 53 ->
              Spec.magnitude profits < 2 ^ 53 ->
              MetricsCards.totalSales m = of_Z (Spec.total sales)
              /\ MetricsCards.totalProfit m = of_Z (Spec.total profits))).
Proof.
  intro zero. split; [reflexivity | split; [reflexivity | ]].
  intros first rest data m. subst m data.
  rewrite calculateMetrics_cons. cbn [MetricsCards.totalSales
    MetricsCards.totalProfit MetricsCards.avgProfitMargin].
  split; [reflexivity | split; [reflexivity | split; [reflexivity | ]]].
  intros sales profits Es Ep Hs Hp.
  rewrite Es, Ep, !sum_integers by assumption. auto.
Qed.

Lemma calculateMetrics_totals_witness :
  MetricsCards.totalSales
    (MetricsCards.calculateMetrics (Some Spec.food_MC_2023))
  = of_Z (1000 + (2000 + (1800 + (2200 + 0))))
  /\ MetricsCards.totalProfit
       (MetricsCards.calculateMetrics (Some Spec.food_MC_2023))
     = of_Z (100 + (50 + (120 + (180 + 0)))).
Proof.
  destruct calculateMetrics_totals as (_ & _ & H).
  destruct (H (Spec.record 2023 1 1000 100)
              [Spec.record 2023 2 2000 50; Spec.record 2023 3 1800 120;
               Spec.record 2023 4 2200 180]) as (_ & _ & _ & H').
  apply (H' [1000; 2000; 1800; 2200] [100; 50; 120; 180]);
    [reflexivity | reflexivity | simpl; lia | simpl; lia].
Defined.

(** C4. For a sequence that is not empty, [growthRate] is the absolute
    value of (last profit - first profit) / first profit, times one
    hundred, first and last by position; the growth is positive exactly
    when that quotient, before the absolute value, is greater than
    zero. *)
Theorem calculateMetrics_growth :
  forall first rest,
    let last := List.last rest first in
    let delta := div (sub (profit last) (profit first)) (profit first) in
    let m := MetricsCards.calculateMetrics (Some (first :: rest)) in
    MetricsCards.growthRate m = mul (Math_abs delta) (of_Z 100)
    /\ MetricsCards.isGrowthPositive m = gt delta (of_Z 0).
Proof.
  intros first rest last delta m. subst m.
  rewrite calculateMetrics_cons. simpl. split.
  - rewrite abs_mul. reflexivity.
  - apply mul_100_sign. intros s m e. apply div_exponent.
Qed.

(** C5, as the specification states it, fails: a record without sales
    has a margin that is not written with two decimal places. *)
Lemma csv_margin_without_decimals :
  ExportButtons.csvContent [Spec.record 2023 1 0 100]
  = (Spec.csv_header ++ JSON.newline ++ "2023,Q1,0,100,Infinity%")%string
  /\ ~ Spec.fraction_digits 2
         (toFixed 2 (Spec.margin (Spec.record 2023 1 0 100))).
Proof.
  split; [reflexivity | ].
  intro H. apply fraction_digits_point in H. vm_compute in H.
  repeat (destruct H as [H | H]; [discriminate H | ]). exact H.
Qed.

(** C5, amended.  For a sequence that is not empty the CSV text is the
    header line and then one line for each record, in order; the fields
    of a line are the year, [Q] and the quarter, the sales volume, the
    profit, and what [toFixed(2)] writes for profit / sales_volume * 100
    followed by [%]: two decimal places when that number is finite and
    below 10^21 in magnitude, and [NaN], [Infinity] or [-Infinity] when
    the sales volume is zero.  The record of 2023, quarter 1, sales 1000
    and profit 100 gives [2023,Q1,1000,100,10.00%]. *)
Theorem csv_export :
  forall first rest,
    let data := first :: rest in
    ExportButtons.exportToCSV (Some data)
    = ExportButtons.download (ExportButtons.csvContent data)
        "text/csv;charset=utf-8;" "financial-data.csv"
    /\ Spec.split_on "010" (ExportButtons.csvContent data)
       = Spec.csv_header :: map ExportButtons.csv_row data
    /\ (forall item,
          Spec.split_on "," (ExportButtons.csv_row item)
          = [ Number_toString (year item);
              ("Q" ++ Number_toString (quarter item))%string;
              Number_toString (sales_volume item);
              Number_toString (profit item);
              (toFixed 2 (Spec.margin item) ++ "%")%string ])
    /\ (forall item,
          Spec.below_1e21 (Spec.margin item) = true ->
          Spec.fraction_digits 2 (toFixed 2 (Spec.margin item)))
    /\ (forall item,
          is_zero (sales_volume item) = true ->
          In (toFixed 2 (Spec.margin item)) Spec.non_finite_texts)
    /\ ExportButtons.csvContent [Spec.record 2023 1 1000 100]
       = (Spec.csv_header ++ JSON.newline ++ "2023,Q1,1000,100,10.00%")%string.
Proof.
  intros first rest data.
  split; [reflexivity | split; [apply csvContent_lines | ]].
  split; [intro item; apply csv_row_fields | ].
  split; [intros item H; apply toFixed_fraction, H | ].
  split; [ | reflexivity].
  intros item H.
  apply toFixed_non_finite, mul_100_not_finite, div_by_zero_not_finite, H.
Qed.

Lemma csv_export_witness :
  Spec.fraction_digits 2
    (toFixed 2 (Spec.margin (Spec.record 2023 1 1000 100)))
  /\ In (toFixed 2 (Spec.margin (Spec.record 2023 1 0 100)))
        Spec.non_finite_texts.
Proof.
  destruct (csv_export (Spec.record 2023 1 1000 100) [])
    as (_ & _ & _ & H4 & H5 & _).
  split.
  - apply H4. reflexivity.
  - apply H5. reflexivity.
Defined.

(** C6, as the specification states it, fails: an infinite profit is
    written [null], and the records are not read back; a profit of -0 is
    written [0] and read back as +0. *)
Lemma json_export_loses_figures :
  Spec.split_on "010"
    (ExportButtons.jsonContent
       [ {| quarter := of_Z 1; sales_volume := of_Z 1000;
            profit := S754_infinity false; year := of_Z 2023 |} ])
  = [ "["; "  {";
      "    " ++ JSON.quote "quarter" ++ ": 1,";
      "    " ++ JSON.quote "sales_volume" ++ ": 1000,";
      "    " ++ JSON.quote "profit" ++ ": null,";
      "    " ++ JSON.quote "year" ++ ": 2023";
      "  }"; "]" ]%string
  /\ ExportButtons.read_back
       (ExportButtons.jsonContent
          [ {| quarter := of_Z 1; sales_volume := of_Z 1000;
               profit := S754_infinity false; year := of_Z 2023 |} ])
     = None
  /\ ExportButtons.read_back
       (ExportButtons.jsonContent
          [ {| quarter := of_Z 1; sales_volume := of_Z 1000;
               profit := S754_zero true; year := of_Z 2023 |} ])
     = Some [ {| quarter := of_Z 1; sales_volume := of_Z 1000;
                 profit := S754_zero false; year := of_Z 2023 |} ]
  /\ S754_zero true <> S754_zero false.
Proof.
  split; [vm_compute; reflexivity | ].
  split; [vm_compute; reflexivity | ].
  split; [vm_compute; reflexivity | discriminate].
Qed.

(** C6, amended.  For a sequence that is not empty, of records whose
    figures are finite and are not -0, the JSON export delivers a text
    that parses to the array of the records, each with its four
    properties, the year among them, in the order of the sequence: the
    records are read back as they were, whatever fractions their figures
    have.  The integers below 2^53 in magnitude are such figures.  A
    figure that is not finite is written [null], and a zero is written
    [0] whatever its sign. *)
Theorem json_export_round_trip :
  forall first rest,
    let data := first :: rest in
    ExportButtons.exportToJSON (Some data)
    = ExportButtons.download (ExportButtons.jsonContent data)
        "application/json;charset=utf-8;" "financial-data.json"
    /\ (forallb Spec.finite_record data = true ->
        JSON.JSON_parse (ExportButtons.jsonContent data)
        = Some (ExportButtons.data_json data)
        /\ ExportButtons.read_back (ExportButtons.jsonContent data)
           = Some data)
    /\ (forall item,
          Spec.integral_record item -> Spec.finite_record item = true)
    /\ (forall x, is_finite x = false -> JSON.number_text x = "null"%string)
    /\ (forall s, JSON.number_text (S754_zero s) = "0"%string).
Proof.
  intros first rest data. subst data.
  split; [reflexivity | ].
  split; [ | split; [exact integral_record_finite | split; [ | reflexivity]]].
  - intro H.
    assert (R : Forall Spec.readable_record (first :: rest)).
    { apply Forall_forall. intros item I.
      apply finite_record_readable.
      rewrite forallb_forall in H. apply H, I. }
    split.
    + apply JSON_parse_jsonContent, R.
    + unfold ExportButtons.read_back.
      rewrite (JSON_parse_jsonContent first rest R).
      apply json_records_data.
  - intros x F. unfold JSON.number_text. rewrite F. reflexivity.
Qed.

Lemma json_export_round_trip_witness :
  forallb Spec.finite_record
    [ Spec.record 2023 1 1000 100;
      {| quarter := of_Z 2; sales_volume := div (of_Z 4001) (of_Z 2);
         profit := div (of_Z (-1)) (of_Z 3); year := of_Z 2023 |} ] = true
  /\ ExportButtons.read_back
       (ExportButtons.jsonContent
          [ Spec.record 2023 1 1000 100;
            {| quarter := of_Z 2; sales_volume := div (of_Z 4001) (of_Z 2);
               profit := div (of_Z (-1)) (of_Z 3); year := of_Z 2023 |} ])
     = Some
         [ Spec.record 2023 1 1000 100;
           {| quarter := of_Z 2; sales_volume := div (of_Z 4001) (of_Z 2);
              profit := div (of_Z (-1)) (of_Z 3); year := of_Z 2023 |} ].
Proof.
  split; [vm_compute; reflexivity | ].
  destruct (json_export_round_trip
              (Spec.record 2023 1 1000 100)
              [ {| quarter := of_Z 2; sales_volume := div (of_Z 4001) (of_Z 2);
                   profit := div (of_Z (-1)) (of_Z 3); year := of_Z 2023 |} ])
    as (_ & H & _).
  apply H. vm_compute. reflexivity.
Defined.

(** C7, as the specification states it, fails: [constructor] is no year
    of the company MC and no category of the dataset, which inherit it
    from [%Object.prototype%]; selected as the year it is read as a
    function, which has no [map], and selected as the category with the
    company [name] it leads to the text "Object", whose characters have
    no [map] either: TypeError is raised. *)
Lemma absent_key_raises :
  (exists categoryData companyData,
     get FinancialDashboard.sampleData "food" = Some categoryData
     /\ get categoryData "MC" = Some companyData
     /\ get companyData "constructor" = None)
  /\ FinancialDashboard.filteredData FinancialDashboard.sampleData
       "food" "constructor" "MC" = Throw TypeError
  /\ get FinancialDashboard.sampleData "constructor" = None
  /\ FinancialDashboard.filteredData FinancialDashboard.sampleData
       "constructor" "all" "name" = Throw TypeError.
Proof.
  split; [do 2 eexists; repeat split; reflexivity | ].
  repeat split; reflexivity.
Qed.

(** C7, amended.  A name is absent for the filter when it names no
    property, own or inherited: a category that the dataset neither has
    nor inherits, a company that the category neither has nor inherits,
    a year (other than "all") that the company neither has nor inherits,
    each gives the empty sequence and no exception.  The names that an
    object literal inherits are the twelve of [%Object.prototype%]: as a
    year that the company does not have, each raises TypeError; as a
    category or a company that is not of the dataset, each gives the
    empty sequence or TypeError and never a record, and as such a
    company with the year "all" the empty sequence. *)
Theorem filteredData_of_absent_key :
  forall (dataset : Dataset) (category year company : string),
    ((get dataset category = None /\ ~ In category Realm.inherited_names)
     \/ (exists categoryData,
           get dataset category = Some categoryData
           /\ get categoryData company = None
           /\ ~ In company Realm.inherited_names)
     \/ (exists categoryData companyData,
           get dataset category = Some categoryData
           /\ get categoryData company = Some companyData
           /\ String.eqb year "all" = false
           /\ get companyData year = None
           /\ ~ In year Realm.inherited_names) ->
     FinancialDashboard.filteredData dataset category year company
     = Normal [])
    /\ Realm.inherited_names
       = [ "constructor"; "__defineGetter__"; "__defineSetter__";
           "hasOwnProperty"; "__lookupGetter__"; "__lookupSetter__";
           "isPrototypeOf"; "propertyIsEnumerable"; "toString"; "valueOf";
           "__proto__"; "toLocaleString" ]%string
    /\ (forall categoryData companyData,
          get dataset category = Some categoryData ->
          get categoryData company = Some companyData ->
          get companyData year = None ->
          In year Realm.inherited_names ->
          FinancialDashboard.filteredData dataset category year company
          = Throw TypeError)
    /\ (get dataset category = None
        \/ (exists categoryData,
              get dataset category = Some categoryData
              /\ get categoryData company = None) ->
        FinancialDashboard.filteredData dataset category year company
        = Normal []
        \/ FinancialDashboard.filteredData dataset category year company
           = Throw TypeError)
    /\ (forall categoryData,
          get dataset category = Some categoryData ->
          get categoryData company = None ->
          FinancialDashboard.filteredData dataset category "all" company
          = Normal []).
Proof.
  intros dataset category year company.
  split; [ | split; [reflexivity | split; [ | split]]].
  - intros [[H N] | [(cd & H1 & H2 & N) | (cd & yd & H1 & H2 & H3 & H4 & N)]];
      unfold FinancialDashboard.filteredData.
    + rewrite H, (inherited_absent category N). reflexivity.
    + rewrite H1, H2, (inherited_absent company N). reflexivity.
    + rewrite H1, H2, H3, H4, (inherited_absent year N). reflexivity.
  - intros cd yd H1 H2 H3 I.
    rewrite (filteredData_own dataset category year company cd yd H1 H2).
    assert (A : String.eqb year "all" = false).
    { destruct (String.eqb year "all") eqn:E; [ | reflexivity].
      apply String.eqb_eq in E. subst year. exfalso.
      simpl in I. repeat (destruct I as [I | I]; [discriminate I | ]).
      exact I. }
    rewrite A, H3.
    replace (existsb (String.eqb year) Realm.inherited_names) with true;
      [reflexivity | ].
    symmetry. apply existsb_exists. exists year.
    split; [exact I | apply String.eqb_refl].
  - apply filteredData_elsewhere.
  - intros cd H1 H2. unfold FinancialDashboard.filteredData.
    rewrite H1, H2.
    destruct (in_dec string_dec company Realm.inherited_names) as [I | N].
    + destruct (inherited_present company I) as (o & ->). reflexivity.
    + rewrite (inherited_absent company N). reflexivity.
Qed.

Lemma filteredData_of_absent_key_witness :
  FinancialDashboard.filteredData FinancialDashboard.sampleData
    "energy" "all" "MC" = Normal []
  /\ FinancialDashboard.filteredData FinancialDashboard.sampleData
       "technology" "all" "MC" = Normal []
  /\ FinancialDashboard.filteredData FinancialDashboard.sampleData
       "food" "2022" "MC" = Normal []
  /\ FinancialDashboard.filteredData FinancialDashboard.sampleData
       "food" "toString" "MC" = Throw TypeError.
Proof.
  assert (N : forall k : string,
             existsb (String.eqb k) Realm.inherited_names = false ->
             ~ In k Realm.inherited_names).
  { intros k E I.
    assert (X : existsb (String.eqb k) Realm.inherited_names = true)
      by (apply existsb_exists; exists k;
          split; [exact I | apply String.eqb_refl]).
    congruence. }
  split; [ | split; [ | split]].
  - apply (filteredData_of_absent_key FinancialDashboard.sampleData
             "energy" "all" "MC").
    left. split; [reflexivity | apply N; reflexivity].
  - apply (filteredData_of_absent_key FinancialDashboard.sampleData
             "technology" "all" "MC").
    right. left. eexists.
    split; [reflexivity | split; [reflexivity | apply N; reflexivity]].
  - apply (filteredData_of_absent_key FinancialDashboard.sampleData
             "food" "2022" "MC").
    right. right. do 2 eexists.
    repeat split; try reflexivity. apply N. reflexivity.
  - destruct (filteredData_of_absent_key FinancialDashboard.sampleData
                "food" "toString" "MC") as (_ & _ & H & _).
    apply (H _ _ eq_refl eq_refl eq_refl).
    simpl. tauto.
Defined.

(** C8. With an empty or an absent sequence neither export does
    anything: no text is made, no call is made on the browser, [click]
    among them; with a sequence that is not empty each export delivers
    once. *)
Theorem export_of_nothing :
  ExportButtons.exportToCSV None = []
  /\ ExportButtons.exportToCSV (Some []) = []
  /\ ExportButtons.exportToJSON None = []
  /\ ExportButtons.exportToJSON (Some []) = []
  /\ (forall first rest,
        count_occ ExportButtons.effect_eq_dec
          (ExportButtons.exportToCSV (Some (first :: rest)))
          ExportButtons.click = 1%nat
        /\ count_occ ExportButtons.effect_eq_dec
             (ExportButtons.exportToJSON (Some (first :: rest)))
             ExportButtons.click = 1%nat).
Proof.
  repeat split; reflexivity.
Qed.

(** C9, as the specification states it, fails: the formatters of the
    metric cards and of the table do not take an absent value for zero. *)
Lemma absent_is_not_formatted_as_zero :
  MetricsCards.formatCurrency Undefined
  <> MetricsCards.formatCurrency (Num (of_Z 0))
  /\ FinancialTable.formatCurrency Undefined
     <> FinancialTable.formatCurrency (Num (of_Z 0))
  /\ MetricsCards.formatNumber Undefined
     <> MetricsCards.formatNumber (Num (of_Z 0))
  /\ FinancialTable.formatNumber Undefined
     <> FinancialTable.formatNumber (Num (of_Z 0)).
Proof. vm_compute. repeat split; discriminate. Qed.

(** C9, amended.  The two formatters of the chart take an absent value,
    NaN and zero for zero and format any other number as it is; the
    formatters of the metric cards and of the table format their argument
    as it is, an absent value as NaN. *)
Theorem formatters_of_absent_value :
  (forall v, ToBoolean v = false ->
     FinancialChart.formatCurrency v = "$0"%string
     /\ FinancialChart.formatNumber v = "0"%string)
  /\ (forall x, truthy x = true ->
        FinancialChart.formatCurrency (Num x) = format_currency (Num x)
        /\ FinancialChart.formatNumber (Num x) = format_decimal (Num x))
  /\ (forall v,
        MetricsCards.formatCurrency v = NumberFormat "$" 2 (ToNumber v)
        /\ MetricsCards.formatNumber v = NumberFormat "" 3 (ToNumber v)
        /\ FinancialTable.formatCurrency v = NumberFormat "$" 2 (ToNumber v)
        /\ FinancialTable.formatNumber v = NumberFormat "" 3 (ToNumber v))
  /\ MetricsCards.formatCurrency Undefined = "$NaN"%string
  /\ MetricsCards.formatNumber Undefined = "NaN"%string
  /\ FinancialTable.formatCurrency Undefined = "$NaN"%string
  /\ FinancialTable.formatNumber Undefined = "NaN"%string.
Proof.
  split; [ | split; [ | repeat split]].
  - intros v H.
    unfold FinancialChart.formatCurrency, FinancialChart.formatNumber, or_else.
    rewrite H. split; reflexivity.
  - intros x H.
    unfold FinancialChart.formatCurrency, FinancialChart.formatNumber, or_else.
    simpl ToBoolean. rewrite H. split; reflexivity.
Qed.

Lemma formatters_of_absent_value_witness :
  FinancialChart.formatCurrency Undefined = "$0"%string
  /\ FinancialChart.formatNumber (Num (of_Z 7000)) = "7,000"%string.
Proof.
  destruct formatters_of_absent_value as (H1 & H2 & _).
  split.
  - apply (H1 Undefined). reflexivity.
  - rewrite (proj2 (H2 (of_Z 7000) eq_refl)). reflexivity.
Defined.

(** C10, as the specification states it, fails: a row after a record
    whose profit is NaN, which is not zero, shows no trend; and after a
    profit of 1 a profit of 10^19 shows the trend [1e+21], which is not
    a number written with one decimal place. *)
Lemma trend_not_as_stated :
  is_zero (profit {| quarter := of_Z 1; sales_volume := of_Z 1000;
                     profit := S754_nan; year := of_Z 2023 |}) = false
  /\ option_map FinancialTable.trend_cell
       (nth_error
          (FinancialTable.mapi
             (FinancialTable.row
                [ {| quarter := of_Z 1; sales_volume := of_Z 1000;
                     profit := S754_nan; year := of_Z 2023 |};
                  Spec.record 2023 2 2000 50 ])
             0%nat
             [ {| quarter := of_Z 1; sales_volume := of_Z 1000;
                  profit := S754_nan; year := of_Z 2023 |};
               Spec.record 2023 2 2000 50 ]) 1)
     = Some None
  /\ option_map FinancialTable.trend_cell
       (nth_error
          (FinancialTable.mapi
             (FinancialTable.row
                [ Spec.record 2023 1 1000 1;
                  Spec.record 2023 2 1000 (10 ^ 19) ])
             0%nat
             [ Spec.record 2023 1 1000 1;
               Spec.record 2023 2 1000 (10 ^ 19) ]) 1)
     = Some (Some {| FinancialTable.percentage := "1e+21";
                     FinancialTable.isPositive := true |})
  /\ ~ Spec.fraction_digits 1 "1e+21".
Proof.
  split; [reflexivity | ].
  split; [reflexivity | ].
  split; [vm_compute; reflexivity | ].
  intro H. apply fraction_digits_point in H. simpl in H.
  repeat (destruct H as [H | H]; [discriminate H | ]). exact H.
Qed.

(** C10, amended.  A sequence that is not empty is shown as one row for
    each record.  The first row has no trend; a row after a record whose
    profit is zero or NaN has none either; any other row shows the
    absolute value of (profit - previous profit) / previous profit,
    times one hundred, as [toFixed(1)] writes it: with one decimal place
    when it is finite and below 10^21, and as [Number::toString] writes
    it otherwise (exponent notation, [Infinity], [NaN]); it is marked
    positive exactly when the change (that quotient times one hundred)
    is greater than zero. *)
Theorem table_trend :
  forall first rest,
    let data := first :: rest in
    exists rows,
      FinancialTable.body data = FinancialTable.Rows rows
      /\ List.length rows = List.length data
      /\ (exists r, nth_error rows 0 = Some r
                    /\ FinancialTable.trend_cell r = None)
      /\ (forall j previous current,
            nth_error data j = Some previous ->
            nth_error data (S j) = Some current ->
            exists r,
              nth_error rows (S j) = Some r
              /\ let ratio :=
                   div (sub (profit current) (profit previous))
                       (profit previous) in
                 let shown := mul (Math_abs ratio) (of_Z 100) in
                 (is_zero (profit previous) = true
                  \/ is_nan (profit previous) = true ->
                  FinancialTable.trend_cell r = None)
                 /\ (is_zero (profit previous) = false ->
                     is_nan (profit previous) = false ->
                     FinancialTable.trend_cell r
                     = Some {| FinancialTable.percentage := toFixed 1 shown;
                               FinancialTable.isPositive :=
                                 gt (mul ratio (of_Z 100)) (of_Z 0) |}
                     /\ (Spec.below_1e21 shown = true ->
                         Spec.fraction_digits 1 (toFixed 1 shown))
                     /\ (Spec.below_1e21 shown = false ->
                         toFixed 1 shown = Number_toString shown))).
Proof.
  intros first rest data.
  exists (FinancialTable.mapi (FinancialTable.row data) 0%nat data).
  split; [reflexivity | ].
  split; [apply length_mapi | ].
  split.
  - eexists. split; [reflexivity | reflexivity].
  - intros j previous current Hp Hc.
    eexists. split; [rewrite nth_error_mapi, Hc; reflexivity | ].
    intros ratio shown. subst shown ratio.
    unfold FinancialTable.row, FinancialTable.trend_cell.
    change (0 + S j)%nat with (S j).
    change (0 <? S j)%nat with true. cbv iota.
    replace (S j - 1)%nat with j by lia. rewrite Hp.
    unfold FinancialTable.getProfitTrend, ToBoolean, ToNumber, truthy.
    split.
    + intros [Z | N]; rewrite ?Z, ?N, ?orb_true_r; reflexivity.
    + intros Z N. rewrite Z, N. simpl negb. cbv iota.
      rewrite abs_mul.
      split; [reflexivity | split; [apply toFixed_fraction | apply toFixed_large]].
Qed.

Lemma table_trend_witness :
  option_map FinancialTable.trend_cell
    (nth_error
       (FinancialTable.mapi (FinancialTable.row Spec.food_MC_2023) 0%nat
          Spec.food_MC_2023) 1)
  = Some (Some {| FinancialTable.percentage := "50.0";
                  FinancialTable.isPositive := false |}).
Proof.
  destruct (table_trend (Spec.record 2023 1 1000 100)
              [Spec.record 2023 2 2000 50; Spec.record 2023 3 1800 120;
               Spec.record 2023 4 2200 180])
    as (rows & B & _ & _ & H).
  apply body_rows in B.
  destruct (H 0%nat (Spec.record 2023 1 1000 100) (Spec.record 2023 2 2000 50)
              eq_refl eq_refl) as (r & Hr & _ & H').
  change (FinancialTable.mapi (FinancialTable.row Spec.food_MC_2023) 0%nat
            Spec.food_MC_2023)
    with (FinancialTable.mapi
            (FinancialTable.row
               (Spec.record 2023 1 1000 100
                :: [Spec.record 2023 2 2000 50; Spec.record 2023 3 1800 120;
                    Spec.record 2023 4 2200 180])) 0%nat
            (Spec.record 2023 1 1000 100
             :: [Spec.record 2023 2 2000 50; Spec.record 2023 3 1800 120;
                 Spec.record 2023 4 2200 180])).
  rewrite <- B, Hr. cbn [option_map].
  rewrite (proj1 (H' eq_refl eq_refl)). reflexivity.
Defined.

(** * Further properties of the components *)

(** ** The order of the years *)

Section Order.
Context {V : Type}.

Lemma get_In (o : object V) (k : string) (v : V) :
  get o k = Some v -> In (k, v) o.
Proof.
  induction o as [ | [k' v'] o IH]; simpl; [discriminate | ].
  destruct (String.eqb k' k) eqn:E.
  - apply String.eqb_eq in E. intro H. injection H as ->. subst. auto.
  - auto.
Qed.

Lemma In_get (o : object V) (k : string) (v : V) :
  NoDup (map fst o) -> In (k, v) o -> get o k = Some v.
Proof.
  induction o as [ | [k' v'] o IH]; simpl; [tauto | ].
  intros N [H | H].
  - injection H as -> ->. rewrite String.eqb_refl. reflexivity.
  - inversion N as [ | ? ? Hk No]; subst.
    destruct (String.eqb k' k) eqn:E.
    + apply String.eqb_eq in E. subst k'. exfalso. apply Hk.
      apply in_map_iff. exists (k, v). auto.
    + auto.
Qed.

Lemma array_index_numeral (n : Z) :
  0 <= n < 2 ^ 32 - 1 -> array_index (digits_of n) = Some n.
Proof.
  intros [H0 H1]. unfold array_index.
  rewrite <- (Z2N.id n H0) at 1.
  rewrite take_digits_numeral, Z2N.id by exact H0.
  rewrite all_digits_numeral, String.eqb_refl.
  apply Z.ltb_lt in H1. rewrite H1. reflexivity.
Qed.

Lemma array_index_spec (k : string) (n : Z) :
  array_index k = Some n -> 0 <= n < 2 ^ 32 - 1 /\ k = digits_of n.
Proof.
  unfold array_index.
  destruct (take_digits 10 (list_ascii_of_string k) None) as [m | ] eqn:T;
    [ | discriminate].
  destruct (all_digits (list_ascii_of_string k)) eqn:A; [ | discriminate].
  destruct (String.eqb (digits_of m) k) eqn:E; [ | discriminate].
  destruct (m <? 2 ^ 32 - 1) eqn:B; [ | discriminate].
  simpl. intro H. injection H as <-.
  apply String.eqb_eq in E. apply Z.ltb_lt in B.
  split; [split; [ | exact B] | symmetry; exact E].
  (* the digits read back are those of a natural number *)
  rewrite <- E in T. unfold digits_of in T.
  pose proof (take_digits_numeral (Z.to_N m)) as T'.
  unfold digits_of in T'. rewrite N2Z.id in T'.
  rewrite T' in T. injection T as T. lia.
Qed.

Lemma insert_by_index_sorted (n : Z) (kv : string * V)
  (sorted : list (Z * (string * V))) :
  StronglySorted Z.le (map fst sorted) ->
  StronglySorted Z.le (map fst (insert_by_index n kv sorted)).
Proof.
  induction sorted as [ | [n' kv'] rest IH]; simpl; intro H.
  - repeat constructor.
  - inversion H as [ | ? ? Hr Hn]; subst.
    destruct (Z.ltb_spec n n').
    + simpl. constructor; [exact H | ].
      constructor; [lia | ].
      eapply Forall_impl; [ | exact Hn]. intros; lia.
    + simpl. constructor; [apply IH, Hr | ].
      assert (P : Permutation (map fst (insert_by_index n kv rest))
                              (n :: map fst rest)).
      { clear. induction rest as [ | [m kv'] rest IH]; simpl.
        - apply Permutation_refl.
        - destruct (n <? m); simpl.
          + apply Permutation_refl.
          + eapply perm_trans; [apply perm_skip, IH | apply perm_swap]. }
      eapply Permutation_Forall; [apply Permutation_sym, P | ].
      constructor; [lia | exact Hn].
Qed.

Lemma insert_by_index_In (n : Z) (kv : string * V)
  (sorted : list (Z * (string * V))) (x : Z * (string * V)) :
  In x (insert_by_index n kv sorted) <-> x = (n, kv) \/ In x sorted.
Proof.
  induction sorted as [ | [n' kv'] rest IH]; simpl.
  - intuition auto.
  - destruct (n <? n'); simpl; rewrite ?IH; intuition auto.
Qed.

Lemma split_keys_sorted (o : object V) :
  StronglySorted Z.le (map fst (fst (split_keys o)))
  /\ (forall n kv, In (n, kv) (fst (split_keys o)) ->
        array_index (fst kv) = Some n)
  /\ (forall kv, In kv (snd (split_keys o)) -> array_index (fst kv) = None).
Proof.
  induction o as [ | kv o (IH1 & IH2 & IH3)]; simpl.
  - split; [constructor | split; intros; contradiction].
  - destruct (split_keys o) as [indexed named]. simpl in *.
    destruct (array_index (fst kv)) as [n | ] eqn:E; simpl.
    + split; [apply insert_by_index_sorted, IH1 | split].
      * intros m kv' H. apply insert_by_index_In in H.
        destruct H as [H | H]; [injection H as -> -> ; exact E | auto].
      * exact IH3.
    + split; [exact IH1 | split; [exact IH2 | ]].
      intros kv' [<- | H]; auto.
Qed.

Lemma split_keys_indexed (o : object V) :
  Notions.indexed_keys o -> snd (split_keys o) = [].
Proof.
  intro H.
  destruct (split_keys_sorted o) as (_ & _ & H3).
  pose proof (Object_entries_perm o) as P. unfold Object_entries in P.
  destruct (split_keys o) as [indexed named]. simpl in *.
  destruct named as [ | kv named]; [reflexivity | exfalso].
  assert (I : In kv o).
  { eapply Permutation_in; [exact P | ]. apply in_or_app. right. left.
    reflexivity. }
  destruct (H (fst kv)) as (n & Hn & E); [apply in_map, I | ].
  pose proof (array_index_numeral n Hn) as A. rewrite <- E in A.
  rewrite (H3 kv (or_introl eq_refl)) in A. discriminate A.
Qed.

End Order.

Section AllYears.
Import FinancialDashboard.

Lemma parseInt_index (k : string) (n : Z) :
  array_index k = Some n -> parseInt k = of_Z n.
Proof.
  intro H. apply array_index_spec in H. destruct H as [[H0 _] ->].
  apply parseInt_numeral, H0.
Qed.

Lemma years_of_all (indexed : list (Z * (string * list Stored.entry))) :
  (forall n kv, In (n, kv) indexed -> array_index (fst kv) = Some n) ->
  map year
    (flat_map (fun entry => map (with_year (fst entry)) (snd entry))
       (map snd indexed))
  = map of_Z (Notions.years_of indexed).
Proof.
  induction indexed as [ | [n [k quarters]] indexed IH]; intro H.
  - reflexivity.
  - simpl. unfold Notions.years_of in *. simpl.
    rewrite !map_app, IH by (intros; apply H; right; assumption).
    f_equal.
    pose proof (parseInt_index k n (H n (k, quarters) (or_introl eq_refl)))
      as E.
    clear - E. simpl fst. simpl snd.
    induction quarters as [ | q quarters IHq]; simpl; [reflexivity | ].
    rewrite E, IHq. reflexivity.
Qed.

Lemma years_of_sorted (indexed : list (Z * (string * list Stored.entry))) :
  StronglySorted Z.le (map fst indexed) ->
  StronglySorted Z.le (Notions.years_of indexed).
Proof.
  unfold Notions.years_of.
  induction indexed as [ | [n kv] indexed IH]; simpl; intro H.
  - constructor.
  - inversion H as [ | ? ? Hs Hn]; subst.
    specialize (IH Hs).
    assert (A : Forall (Z.le n)
                  (flat_map (fun e => repeat (fst e) (List.length (snd (snd e))))
                     indexed)).
    { apply Forall_forall. intros y Hy. apply in_flat_map in Hy.
      destruct Hy as (e & He & Hy). apply repeat_spec in Hy. subst y.
      rewrite Forall_forall in Hn. apply Hn, in_map, He. }
    induction (List.length (snd kv)) as [ | c IHc]; simpl.
    + exact IH.
    + constructor; [exact IHc | ].
      apply Forall_app. split; [ | exact A].
      apply Forall_forall. intros y Hy. apply repeat_spec in Hy. lia.
Qed.

End AllYears.

(** X1. For a company whose year keys are numerals (array indices, as
    "2023" is), the view of all years lists the quarters by ascending
    year, whatever the order in which the keys were created: the years
    of the records are those of a sequence of integers that never
    decreases. *)
Theorem all_years_ascending :
  forall (dataset : Dataset) (category company : string)
         categoryData companyData,
    get dataset category = Some categoryData ->
    get categoryData company = Some companyData ->
    Notions.indexed_keys companyData ->
    exists (all : list PeriodRecord) (ys : list Z),
      FinancialDashboard.filteredData dataset category "all" company
      = Normal all
      /\ StronglySorted Z.le ys
      /\ map year all = map of_Z ys.
Proof.
  intros dataset category company cd o H1 H2 K.
  unfold FinancialDashboard.filteredData. rewrite H1, H2.
  simpl String.eqb. cbv iota. unfold Object_entries.
  destruct (split_keys_sorted o) as (S1 & S2 & _).
  pose proof (split_keys_indexed o K) as N.
  destruct (split_keys o) as [indexed named]. simpl in *. subst named.
  rewrite List.app_nil_r.
  eexists. exists (Notions.years_of indexed).
  split; [reflexivity | split].
  - apply years_of_sorted, S1.
  - apply years_of_all, S2.
Qed.

Lemma all_years_ascending_witness :
  exists (all : list PeriodRecord) (ys : list Z),
    FinancialDashboard.filteredData Notions.later_year_first
      "food" "all" "MC" = Normal all
    /\ StronglySorted Z.le ys
    /\ map year all = map of_Z ys.
Proof.
  apply (all_years_ascending Notions.later_year_first "food" "MC" _ _
           eq_refl eq_refl).
  intros k [<- | [<- | []]]; [exists 2024 | exists 2023];
    (split; [lia | reflexivity]).
Defined.

Section CreationOrder.
Context {V : Type}.

Lemma sorted_perm_eq {A : Type} (key : A -> Z) (l : list A) :
  forall l',
    StronglySorted Z.lt (map key l) -> StronglySorted Z.lt (map key l') ->
    Permutation l l' -> l = l'.
Proof.
  induction l as [ | a t IH]; intros l' S S' P.
  - apply Permutation_nil in P. congruence.
  - destruct l' as [ | b t'];
      [apply Permutation_sym, Permutation_nil in P; discriminate | ].
    simpl in S, S'.
    inversion S as [ | ? ? St Ha]; subst.
    inversion S' as [ | ? ? St' Hb]; subst.
    rewrite Forall_forall in Ha, Hb.
    assert (E : a = b).
    { assert (Ia : In a (b :: t'))
        by (eapply Permutation_in; [exact P | left; reflexivity]).
      assert (Ib : In b (a :: t))
        by (eapply Permutation_in;
            [apply Permutation_sym; exact P | left; reflexivity]).
      destruct Ia as [Ia | Ia]; [congruence | ].
      destruct Ib as [Ib | Ib]; [congruence | ].
      pose proof (Hb _ (in_map key _ _ Ia)).
      pose proof (Ha _ (in_map key _ _ Ib)). lia. }
    subst b. f_equal. apply IH; try assumption.
    eapply Permutation_cons_inv, P.
Qed.

Lemma sorted_strictly (l : list Z) :
  StronglySorted Z.le l -> NoDup l -> StronglySorted Z.lt l.
Proof.
  induction 1 as [ | a l S IH Ha]; intro N; constructor;
    inversion N as [ | ? ? Hn Nl]; subst.
  - apply IH, Nl.
  - rewrite Forall_forall in *. intros x Hx.
    specialize (Ha x Hx).
    assert (x <> a) by (intros ->; contradiction). lia.
Qed.

Lemma indexed_keys_perm (o o' : object V) :
  Permutation o o' -> Notions.indexed_keys o -> Notions.indexed_keys o'.
Proof.
  intros P H k Hk. apply H.
  eapply Permutation_in; [apply Permutation_sym, Permutation_map, P | exact Hk].
Qed.

(** The entries of an object whose keys are array indices, each once:
    sorted by index, strictly. *)
Lemma Object_entries_sorted (o : object V) :
  NoDup (map fst o) -> Notions.indexed_keys o ->
  StronglySorted Z.lt (map Notions.index_of (Object_entries o)).
Proof.
  intros N K. pose proof (Object_entries_perm o) as P.
  unfold Object_entries in *.
  destruct (split_keys_sorted o) as (S1 & S2 & _).
  pose proof (split_keys_indexed o K) as E.
  destruct (split_keys o) as [indexed named]. simpl in *. subst named.
  rewrite List.app_nil_r in *.
  assert (M : map Notions.index_of (map snd indexed) = map fst indexed).
  { rewrite map_map. apply map_ext_in. intros [n kv] H. simpl.
    unfold Notions.index_of. rewrite (S2 n kv H). reflexivity. }
  rewrite M. apply sorted_strictly; [exact S1 | ].
  assert (D : map fst (map snd indexed)
              = map digits_of (map fst indexed)).
  { rewrite !map_map. apply map_ext_in. intros [n kv] H. simpl.
    apply (array_index_spec (fst kv) n), S2, H. }
  apply (NoDup_map_inv digits_of). rewrite <- D.
  eapply Permutation_NoDup; [ | exact N].
  apply Permutation_sym, Permutation_map, P.
Qed.

Lemma Object_entries_any_order (o o' : object V) :
  Permutation o o' -> NoDup (map fst o) -> Notions.indexed_keys o ->
  Object_entries o = Object_entries o'.
Proof.
  intros P N K.
  apply (sorted_perm_eq Notions.index_of).
  - apply Object_entries_sorted; assumption.
  - apply Object_entries_sorted.
    + eapply Permutation_NoDup; [apply Permutation_map, P | exact N].
    + eapply indexed_keys_perm; eassumption.
  - eapply perm_trans; [apply Object_entries_perm | ].
    eapply perm_trans; [exact P | ].
    apply Permutation_sym, Object_entries_perm.
Qed.

End CreationOrder.

(** X2. Two datasets that hold, for a company, the same years (numerals,
    each once) created in different orders give the same view of all
    years. *)
Theorem all_years_whatever_creation_order :
  forall (dataset dataset' : Dataset) (category company : string)
         categoryData categoryData' companyData companyData',
    get dataset category = Some categoryData ->
    get categoryData company = Some companyData ->
    get dataset' category = Some categoryData' ->
    get categoryData' company = Some companyData' ->
    Permutation companyData companyData' ->
    NoDup (map fst companyData) ->
    Notions.indexed_keys companyData ->
    exists all : list PeriodRecord,
      FinancialDashboard.filteredData dataset category "all" company
      = Normal all
      /\ FinancialDashboard.filteredData dataset' category "all" company
         = Normal all.
Proof.
  intros d d' category company cd cd' o o' H1 H2 H1' H2' P N K.
  unfold FinancialDashboard.filteredData.
  rewrite H1, H2, H1', H2'. simpl String.eqb. cbv iota.
  rewrite (Object_entries_any_order o o' P N K).
  eexists. split; reflexivity.
Qed.

Lemma all_years_whatever_creation_order_witness :
  exists all : list PeriodRecord,
    FinancialDashboard.filteredData Notions.later_year_first
      "food" "all" "MC" = Normal all
    /\ FinancialDashboard.filteredData Notions.earlier_year_first
         "food" "all" "MC" = Normal all.
Proof.
  apply (all_years_whatever_creation_order
           Notions.later_year_first Notions.earlier_year_first
           "food" "MC" _ _ _ _ eq_refl eq_refl eq_refl eq_refl).
  - apply perm_swap.
  - repeat constructor; simpl; [intros [H | []]; discriminate H | tauto].
  - intros k [<- | [<- | []]]; [exists 2024 | exists 2023];
      (split; [lia | reflexivity]).
Defined.

(** X3. Every record of the view of one year is in the view of all
    years; and when the keys of the company are each there once and none
    is "all", every record of the view of all years is in the view of
    one of its keys. *)
Theorem all_years_is_the_union_of_the_years :
  forall (dataset : Dataset) (category company : string),
    let view year :=
      FinancialDashboard.filteredData dataset category year company in
    (forall year records r,
       view year = Normal records -> In r records ->
       exists all, view "all"%string = Normal all /\ In r all)
    /\ (forall categoryData companyData,
          get dataset category = Some categoryData ->
          get categoryData company = Some companyData ->
          NoDup (map fst companyData) ->
          ~ In "all"%string (map fst companyData) ->
          exists all,
            view "all"%string = Normal all
            /\ forall r, In r all ->
                 exists year records,
                   In year (Object_keys companyData)
                   /\ view year = Normal records
                   /\ In r records).
Proof.
  intros dataset category company view. subst view. split.
  - intros y records r Hy Hr.
    destruct (get dataset category) as [cd | ] eqn:H1.
    + destruct (get cd company) as [o | ] eqn:H2.
      * rewrite (filteredData_own dataset category y company cd o H1 H2)
          in Hy.
        rewrite (filteredData_own dataset category "all" company cd o H1 H2).
        simpl (String.eqb "all" "all"). cbv iota.
        eexists. split; [reflexivity | ].
        destruct (String.eqb y "all"); [injection Hy as <-; exact Hr | ].
        destruct (get o y) as [quarters | ] eqn:G.
        -- injection Hy as <-.
           apply in_flat_map. exists (y, quarters). split.
           ++ eapply Permutation_in;
                [apply Permutation_sym, Object_entries_perm
                | apply get_In, G].
           ++ exact Hr.
        -- destruct (existsb (String.eqb y) Realm.inherited_names);
             [discriminate Hy | injection Hy as <-; destruct Hr].
      * destruct (filteredData_elsewhere dataset category y company)
          as [E | E];
          [right; exists cd; split; assumption | | congruence].
        rewrite E in Hy. injection Hy as <-. destruct Hr.
    + destruct (filteredData_elsewhere dataset category y company)
        as [E | E]; [left; exact H1 | | congruence].
      rewrite E in Hy. injection Hy as <-. destruct Hr.
  - intros cd o H1 H2 N A.
    rewrite (filteredData_own dataset category "all" company cd o H1 H2).
    simpl (String.eqb "all" "all"). cbv iota.
    eexists. split; [reflexivity | ].
    intros r Hr. apply in_flat_map in Hr.
    destruct Hr as ([k quarters] & He & Hr). simpl in Hr.
    exists k, (map (FinancialDashboard.with_year k) quarters).
    split; [ | split].
    + unfold Object_keys. apply (in_map fst _ _ He).
    + assert (I : In (k, quarters) o)
        by (eapply Permutation_in; [apply Object_entries_perm | exact He]).
      rewrite (filteredData_own dataset category k company cd o H1 H2).
      destruct (String.eqb k "all") eqn:E.
      * apply String.eqb_eq in E. subst k. exfalso. apply A.
        apply (in_map fst _ _ I).
      * rewrite (In_get o k quarters N I). reflexivity.
    + exact Hr.
Qed.

Lemma all_years_is_the_union_of_the_years_witness :
  exists year records,
    In year ["2024"; "2023"]%string
    /\ FinancialDashboard.filteredData Notions.later_year_first
         "food" year "MC" = Normal records
    /\ In (Spec.record 2023 1 1000 100) records.
Proof.
  destruct (all_years_is_the_union_of_the_years Notions.later_year_first
              "food" "MC") as [_ H].
  destruct (H _ _ eq_refl eq_refl) as (all & Ha & Hall).
  - repeat constructor; simpl; [intros [H' | []]; discriminate H' | tauto].
  - simpl. intros [H' | [H' | []]]; discriminate H'.
  - injection Ha as <-.
    destruct (Hall (Spec.record 2023 1 1000 100)) as (y & records & Hy & Hv & Hr).
    + vm_compute. tauto.
    + exists y, records. split; [ | split; assumption].
      destruct Hy as [<- | [<- | []]]; simpl; tauto.
Defined.

(** ** Numerals are told apart *)

Section NumeralsApart.

Local Abbreviation chars := list_ascii_of_string.

Lemma digits_of_inj (a b : Z) :
  0 <= a -> 0 <= b -> digits_of a = digits_of b -> a = b.
Proof.
  intros Ha Hb E.
  pose proof (take_digits_numeral (Z.to_N a)) as Ta.
  pose proof (take_digits_numeral (Z.to_N b)) as Tb.
  rewrite Z2N.id in Ta, Tb by assumption.
  rewrite E, Tb in Ta. congruence.
Qed.

Lemma numeral_inj (a b : Z) : Spec.numeral a = Spec.numeral b -> a = b.
Proof.
  unfold Spec.numeral.
  destruct (digits_of_head (Z.abs a)) as (ca & sa & Ea & Da).
  destruct (digits_of_head (Z.abs b)) as (cb & sb & Eb & Db).
  destruct (Z.ltb_spec a 0), (Z.ltb_spec b 0); simpl; intro E.
  - injection E as E. apply digits_of_inj in E; lia.
  - rewrite Eb in E. injection E as <- _. discriminate Db.
  - rewrite Ea in E. injection E as -> _. discriminate Da.
  - apply digits_of_inj in E; lia.
Qed.

Lemma Number_toString_numeral (z : Z) :
  Z.abs z < 2 ^ 53 -> Number_toString (of_Z z) = Spec.numeral z.
Proof. apply Number_toString_integer. Qed.

(** Two integers below [2^53] that are written alike are the same
    number. *)
Lemma integral_text_inj (x y : number) :
  Spec.integral x -> Spec.integral y ->
  Number_toString x = Number_toString y -> x = y.
Proof.
  intros (a & Ha & ->) (b & Hb & ->).
  rewrite !Number_toString_numeral by assumption.
  intro E. apply numeral_inj in E. congruence.
Qed.

(** Two texts that are free of a mark and are followed by it end where
    the mark is. *)
Lemma free_split (c : ascii) (a b r1 r2 : string) :
  Spec.free_of c a = true -> Spec.free_of c b = true ->
  (a ++ String c r1)%string = (b ++ String c r2)%string ->
  a = b /\ r1 = r2.
Proof.
  unfold Spec.free_of. revert b.
  induction a as [ | x a IH]; intros [ | y b]; simpl; intros Ha Hb E.
  - injection E as ->. auto.
  - injection E as <- _. rewrite Ascii.eqb_refl in Hb. discriminate Hb.
  - injection E as -> _. rewrite Ascii.eqb_refl in Ha. discriminate Ha.
  - injection E as -> E.
    apply andb_prop in Ha, Hb. destruct Ha as [_ Ha], Hb as [_ Hb].
    destruct (IH b Ha Hb E) as [-> ->]. auto.
Qed.

Lemma digits_free_of (c : ascii) (n : Z) :
  JSON.is_digit c = false -> Spec.free_of c (digits_of n) = true.
Proof.
  intro H. unfold Spec.free_of.
  apply (forallb_weaken JSON.is_digit); [ | apply forallb_digits_of].
  intros d Hd. destruct (Ascii.eqb d c) eqn:E; [ | reflexivity].
  apply Ascii.eqb_eq in E. congruence.
Qed.

(** A numeral, a mark that is no digit, and what follows: the numeral
    and what follows are determined, the mark being the minus sign or
    not. *)
Lemma numeral_split (c : ascii) (a b : Z) (r1 r2 : string) :
  JSON.is_digit c = false ->
  (Spec.numeral a ++ String c r1)%string
  = (Spec.numeral b ++ String c r2)%string ->
  a = b /\ r1 = r2.
Proof.
  intros Hc. unfold Spec.numeral.
  destruct (digits_of_head (Z.abs a)) as (ca & sa & Ea & Da).
  destruct (digits_of_head (Z.abs b)) as (cb & sb & Eb & Db).
  destruct (Z.ltb_spec a 0), (Z.ltb_spec b 0); simpl; intro E.
  - injection E as E.
    apply free_split in E; try (apply digits_free_of, Hc).
    destruct E as [E ->]. apply digits_of_inj in E; try lia. split; [lia | auto].
  - rewrite Eb in E. injection E as <- _. discriminate Db.
  - rewrite Ea in E. injection E as -> _. discriminate Da.
  - apply free_split in E; try (apply digits_free_of, Hc).
    destruct E as [E ->]. apply digits_of_inj in E; try lia. split; [lia | auto].
Qed.

End NumeralsApart.

Section Lossless.
Import ExportButtons.

Lemma csv_row_inj (a b : PeriodRecord) :
  Spec.integral_record a -> Spec.integral_record b ->
  csv_row a = csv_row b -> a = b.
Proof.
  intros (Aq & As & Ap & Ay) (Bq & Bs & Bp & By) E.
  apply (f_equal (Spec.split_on ",")) in E.
  rewrite !(proj2 (csv_row_fields _)) in E.
  injection E as Ey Eq Es Ep _.
  apply integral_text_inj in Ey, Eq, Es, Ep; try assumption.
  destruct a, b; simpl in *; congruence.
Qed.

Lemma csv_rows_inj (d1 d2 : list PeriodRecord) :
  Forall Spec.integral_record d1 -> Forall Spec.integral_record d2 ->
  map csv_row d1 = map csv_row d2 -> d1 = d2.
Proof.
  intro H1. revert d2.
  induction H1 as [ | a d1 Ha H1 IH]; intros [ | b d2] H2 E;
    try discriminate E; [reflexivity | ].
  inversion H2 as [ | ? ? Hb H2']; subst.
  injection E as E E'.
  f_equal; [apply csv_row_inj; assumption | apply IH; assumption].
Qed.

Lemma csvContent_inj (d1 d2 : list PeriodRecord) :
  Forall Spec.integral_record d1 -> Forall Spec.integral_record d2 ->
  csvContent d1 = csvContent d2 -> d1 = d2.
Proof.
  intros H1 H2 E.
  apply (f_equal (Spec.split_on "010")) in E.
  rewrite !csvContent_lines in E. injection E as E.
  apply csv_rows_inj; assumption.
Qed.

End Lossless.

(** X4. Two sequences of records of integer figures (below 2^53) that
    differ are exported to CSV differently: the effects differ, an empty
    sequence making none and any other a text from which the records can
    be told. *)
Theorem csv_export_is_lossless :
  forall data data' : list PeriodRecord,
    Forall Spec.integral_record data ->
    Forall Spec.integral_record data' ->
    data <> data' ->
    ExportButtons.exportToCSV (Some data)
    <> ExportButtons.exportToCSV (Some data').
Proof.
  intros data data' H1 H2 N E. apply N. clear N.
  destruct data as [ | a d1], data' as [ | b d2];
    try reflexivity; try discriminate E.
  apply csvContent_inj; try assumption.
  exact (f_equal
           (fun effects =>
              match effects with
              | ExportButtons.new_Blob content _ :: _ => content
              | _ => EmptyString
              end) E).
Qed.

Lemma integral_record_of (y q s p : Z) :
  Z.abs y < 2 ^ 53 -> Z.abs q < 2 ^ 53 -> Z.abs s < 2 ^ 53 ->
  Z.abs p < 2 ^ 53 -> Spec.integral_record (Spec.record y q s p).
Proof.
  intros. split; [ | split; [ | split]]; eexists; (split; [ | reflexivity]);
    assumption.
Qed.

Lemma csv_export_is_lossless_witness :
  ExportButtons.exportToCSV (Some [Spec.record 2023 1 1000 100])
  <> ExportButtons.exportToCSV (Some [Spec.record 2023 1 1000 101]).
Proof.
  apply csv_export_is_lossless.
  - constructor; [apply integral_record_of; simpl; lia | constructor].
  - constructor; [apply integral_record_of; simpl; lia | constructor].
  - intro H. vm_compute in H. discriminate H.
Defined.

(** ** Keys and labels *)

Section Keys.
Import FinancialTable.

Lemma keys_mapi (data l : list PeriodRecord) :
  forall k, map key (mapi (row data) k l) = map Notions.key_of l.
Proof.
  induction l as [ | a l IH]; intro k; simpl; [ | rewrite IH]; reflexivity.
Qed.

Lemma key_of_inj (a b : PeriodRecord) :
  Spec.integral_record a -> Spec.integral_record b ->
  Notions.key_of a = Notions.key_of b ->
  year a = year b /\ quarter a = quarter b.
Proof.
  intros (Aq & _ & _ & Ay) (Bq & _ & _ & By).
  destruct Aq as (qa & Hqa & Eqa), Ay as (ya & Hya & Eya).
  destruct Bq as (qb & Hqb & Eqb), By as (yb & Hyb & Eyb).
  unfold Notions.key_of. rewrite Eqa, Eya, Eqb, Eyb.
  rewrite !Number_toString_numeral by assumption.
  intro E. apply numeral_split in E; [ | reflexivity].
  destruct E as [-> E]. apply numeral_inj in E. subst. auto.
Qed.

Lemma NoDup_map_same {A B C : Type} (f : A -> B) (g : A -> C) (l : list A) :
  (forall a b, In a l -> In b l -> (f a = f b <-> g a = g b)) ->
  NoDup (map f l) <-> NoDup (map g l).
Proof.
  induction l as [ | x l IH]; intro H; simpl.
  - split; constructor.
  - assert (IH' : NoDup (map f l) <-> NoDup (map g l))
      by (apply IH; intros; apply H; right; assumption).
    assert (I : In (f x) (map f l) <-> In (g x) (map g l)).
    { rewrite !in_map_iff. split; intros (y & E & Hy); exists y;
        (split; [ | exact Hy]); symmetry;
        apply (H x y (or_introl eq_refl) (or_intror Hy)); symmetry; exact E. }
    split; intro N; inversion N; subst; constructor; tauto.
Qed.

End Keys.

(** X5. The keys of the rows of the table, [year-quarter], are
    pairwise distinct exactly when no two records have the same year and
    quarter (for integer figures below 2^53). *)
Theorem table_row_keys :
  forall data rows,
    Forall Spec.integral_record data ->
    FinancialTable.body data = FinancialTable.Rows rows ->
    (NoDup (map FinancialTable.key rows)
     <-> NoDup (map (fun item => (year item, quarter item)) data)).
Proof.
  intros data rows H B. apply body_rows in B. subst rows.
  rewrite keys_mapi. apply NoDup_map_same.
  intros a b Ha Hb. rewrite Forall_forall in H. split.
  - intro E. apply key_of_inj in E; auto. destruct E as [-> ->]. reflexivity.
  - intro E. injection E as E1 E2. unfold Notions.key_of.
    rewrite E1, E2. reflexivity.
Qed.

Lemma table_row_keys_witness :
  NoDup (map FinancialTable.key
           (FinancialTable.mapi (FinancialTable.row Spec.food_MC_2023) 0%nat
              Spec.food_MC_2023)).
Proof.
  apply (table_row_keys Spec.food_MC_2023 _).
  - repeat constructor; eexists; (split; [ | reflexivity]); simpl; lia.
  - reflexivity.
  - vm_compute. repeat constructor; simpl; intuition discriminate.
Defined.

Section Chart.
Import FinancialChart.

Lemma or_else_number (v : value) :
  is_nan (or_else v (of_Z 0)) = false
  /\ or_else v (of_Z 0) <> S754_zero true.
Proof.
  unfold or_else, ToBoolean, truthy.
  destruct v as [ | [s | s | | s m e]]; simpl; split;
    try reflexivity; try discriminate.
Qed.

Lemma integral_truthy (x : number) :
  Spec.integral x -> is_zero x = false -> truthy x = true.
Proof.
  intros (z & Hz & ->) Z. unfold truthy. rewrite Z.
  pose proof (of_Z_finite z Hz) as F.
  destruct (of_Z z); try discriminate F; reflexivity.
Qed.

Lemma period_of_inj (a b : PeriodRecord) :
  Spec.integral_record a -> Spec.integral_record b ->
  Notions.period_of a = Notions.period_of b ->
  year a = year b /\ quarter a = quarter b.
Proof.
  intros (Aq & _ & _ & Ay) (Bq & _ & _ & By).
  destruct Aq as (qa & Hqa & Eqa), Ay as (ya & Hya & Eya).
  destruct Bq as (qb & Hqb & Eqb), By as (yb & Hyb & Eyb).
  unfold Notions.period_of. rewrite Eqa, Eya, Eqb, Eyb.
  rewrite !Number_toString_numeral by assumption.
  intro E. apply numeral_split in E; [ | reflexivity].
  destruct E as [-> E]. injection E as E. apply numeral_inj in E.
  subst. auto.
Qed.

Lemma periods_of_records (records : list PeriodRecord) :
  Forall (fun r => truthy (year r) = true /\ truthy (quarter r) = true)
         records ->
  map Point.period (chartData (Some (map of_record records)))
  = map Notions.period_of records.
Proof.
  unfold chartData. rewrite !map_map.
  intro H. apply map_ext_in. intros r Hr.
  rewrite Forall_forall in H. destruct (H r Hr) as [Y Q].
  simpl. unfold text_or. simpl. rewrite Y, Q. reflexivity.
Qed.

End Chart.

(** X6. [chartData] has one point for each item, in order; the figures
    of a point are never NaN and never the negative zero; an item that
    is missing gives the label [N/A QN/A] and two zeros; a record of the
    filter keeps its figures, except that NaN and the zeros become
    zero. *)
Theorem chartData_figures :
  forall data : option (list (option FinancialChart.Item.t)),
    let items := match data with Some items => items | None => [] end in
    List.length (FinancialChart.chartData data) = List.length items
    /\ (forall p, In p (FinancialChart.chartData data) ->
          is_nan (FinancialChart.Point.sales_volume p) = false
          /\ FinancialChart.Point.sales_volume p <> S754_zero true
          /\ is_nan (FinancialChart.Point.profit p) = false
          /\ FinancialChart.Point.profit p <> S754_zero true)
    /\ (forall i, nth_error items i = Some None ->
          nth_error (FinancialChart.chartData data) i
          = Some {| FinancialChart.Point.quarter := Undefined;
                    FinancialChart.Point.year := Undefined;
                    FinancialChart.Point.period := "N/A QN/A";
                    FinancialChart.Point.sales_volume := of_Z 0;
                    FinancialChart.Point.profit := of_Z 0 |})
    /\ (forall i r records,
          data = Some (map FinancialChart.of_record records) ->
          nth_error records i = Some r ->
          exists p,
            nth_error (FinancialChart.chartData data) i = Some p
            /\ FinancialChart.Point.sales_volume p
               = (if truthy (sales_volume r) then sales_volume r else of_Z 0)
            /\ FinancialChart.Point.profit p
               = (if truthy (profit r) then profit r else of_Z 0)).
Proof.
  intros data items. unfold FinancialChart.chartData. fold items.
  split; [apply length_map | split; [ | split]].
  - intros p Hp. apply in_map_iff in Hp. destruct Hp as (item & <- & _).
    simpl.
    destruct (or_else_number
                (FinancialChart.field item FinancialChart.Item.sales_volume))
      as [S1 S2].
    destruct (or_else_number
                (FinancialChart.field item FinancialChart.Item.profit))
      as [P1 P2].
    auto.
  - intros i H. rewrite nth_error_map, H. reflexivity.
  - intros i r records E H. subst items. rewrite E.
    rewrite nth_error_map, nth_error_map, H. simpl.
    eexists. split; [reflexivity | ]. simpl. unfold or_else. simpl.
    split; reflexivity.
Qed.

Lemma chartData_figures_witness :
  exists p,
    nth_error
      (FinancialChart.chartData
         (Some (map FinancialChart.of_record [Spec.record 2023 1 0 100])))
      0 = Some p
    /\ FinancialChart.Point.sales_volume p = of_Z 0
    /\ FinancialChart.Point.profit p = of_Z 100.
Proof.
  destruct (chartData_figures
              (Some (map FinancialChart.of_record [Spec.record 2023 1 0 100])))
    as (_ & _ & _ & H).
  apply (H 0%nat (Spec.record 2023 1 0 100) [Spec.record 2023 1 0 100]);
    reflexivity.
Defined.

(** X7. For records of integer figures whose year and quarter are not
    zero, the labels of the charts are [year Qquarter], and they are
    pairwise distinct exactly when no two records have the same year and
    quarter. *)
Theorem chart_periods :
  forall records : list PeriodRecord,
    let points :=
      FinancialChart.chartData
        (Some (map FinancialChart.of_record records)) in
    Forall Spec.integral_record records ->
    Forall (fun r => is_zero (year r) = false /\ is_zero (quarter r) = false)
           records ->
    map FinancialChart.Point.period points
    = map (fun r => (Number_toString (year r) ++ " Q" ++
                     Number_toString (quarter r))%string) records
    /\ (NoDup (map FinancialChart.Point.period points)
        <-> NoDup (map (fun r => (year r, quarter r)) records)).
Proof.
  intros records points I Z. subst points.
  assert (P : map FinancialChart.Point.period
                (FinancialChart.chartData
                   (Some (map FinancialChart.of_record records)))
              = map Notions.period_of records).
  { apply periods_of_records. rewrite Forall_forall in *.
    intros r Hr. destruct (I r Hr) as (Iq & _ & _ & Iy).
    destruct (Z r Hr) as [Zy Zq].
    split; apply integral_truthy; assumption. }
  split; [exact P | ].
  rewrite P. apply NoDup_map_same.
  intros a b Ha Hb. rewrite Forall_forall in I. split.
  - intro E. apply period_of_inj in E; auto. destruct E as [-> ->]. reflexivity.
  - intro E. injection E as E1 E2. unfold Notions.period_of.
    rewrite E1, E2. reflexivity.
Qed.

Lemma chart_periods_witness :
  map FinancialChart.Point.period
    (FinancialChart.chartData
       (Some (map FinancialChart.of_record Spec.food_MC_2023)))
  = ["2023 Q1"; "2023 Q2"; "2023 Q3"; "2023 Q4"]%string.
Proof.
  destruct (chart_periods Spec.food_MC_2023) as [H _].
  - repeat constructor; eexists; (split; [ | reflexivity]); simpl; lia.
  - repeat constructor.
  - rewrite H. reflexivity.
Defined.

(** ** A profit that does not change *)

Section Steady.

Lemma sub_self (x : number) :
  is_finite x = true -> is_zero x = false -> sub x x = S754_zero false.
Proof.
  destruct x as [s | s | | s m e]; try discriminate. intros _ _.
  unfold sub, SFsub. rewrite Z.min_id.
  unfold shl_align. rewrite !Z.sub_diag. reflexivity.
Qed.

(** The change from a profit to the same profit: zero, of the sign of
    the profit, and so not greater than zero. *)
Lemma steady_change (x : number) :
  is_finite x = true -> is_zero x = false ->
  Math_abs (mul (div (sub x x) x) (of_Z 100)) = of_Z 0
  /\ gt (mul (div (sub x x) x) (of_Z 100)) (of_Z 0) = false.
Proof.
  intros F Z. rewrite (sub_self x F Z).
  destruct x as [s | s | | s m e]; try discriminate.
  destruct s; split; reflexivity.
Qed.

End Steady.

(** X8. When the last profit is the first one (a finite number other
    than zero; a sequence of one record among others), the growth rate
    is zero and is not positive: the card reads [0.0%] and
    [Declining]. *)
Theorem steady_profit_is_no_growth :
  forall first rest,
    let last := List.last rest first in
    let m := MetricsCards.calculateMetrics (Some (first :: rest)) in
    profit last = profit first ->
    is_finite (profit first) = true ->
    is_zero (profit first) = false ->
    MetricsCards.growthRate m = of_Z 0
    /\ MetricsCards.isGrowthPositive m = false
    /\ nth_error (MetricsCards.cards (Some (first :: rest))) 3
       = Some {| MetricsCards.title := "Growth Rate";
                 MetricsCards.value := "0.0%";
                 MetricsCards.description := "Period-over-period growth";
                 MetricsCards.trend :=
                   Some {| MetricsCards.trend_value := of_Z 0;
                           MetricsCards.isPositive := false;
                           MetricsCards.label := "Declining" |} |}.
Proof.
  intros first rest last m E F Z. subst m last.
  unfold MetricsCards.cards.
  rewrite calculateMetrics_cons.
  cbn [MetricsCards.growthRate MetricsCards.isGrowthPositive nth_error].
  rewrite E.
  destruct (steady_change (profit first) F Z) as [-> ->].
  repeat split.
Qed.

Lemma steady_profit_is_no_growth_witness :
  MetricsCards.growthRate
    (MetricsCards.calculateMetrics (Some [Spec.record 2023 1 1000 100]))
  = of_Z 0
  /\ MetricsCards.isGrowthPositive
       (MetricsCards.calculateMetrics (Some [Spec.record 2023 1 1000 100]))
     = false.
Proof.
  destruct (steady_profit_is_no_growth (Spec.record 2023 1 1000 100) [])
    as (H1 & H2 & _); try reflexivity.
  split; assumption.
Defined.

(** X9. A row whose profit is that of the row before (a finite number
    other than zero) shows the trend [0.0], marked as not positive. *)
Theorem steady_profit_trend :
  forall data rows j previous current r,
    FinancialTable.body data = FinancialTable.Rows rows ->
    nth_error data j = Some previous ->
    nth_error data (S j) = Some current ->
    nth_error rows (S j) = Some r ->
    profit current = profit previous ->
    is_finite (profit previous) = true ->
    is_zero (profit previous) = false ->
    FinancialTable.trend_cell r
    = Some {| FinancialTable.percentage := "0.0";
              FinancialTable.isPositive := false |}.
Proof.
  intros data rows j previous current r B Hp Hc Hr E F Z.
  apply body_rows in B. subst rows.
  rewrite nth_error_mapi, Hc in Hr. injection Hr as <-.
  unfold FinancialTable.row, FinancialTable.trend_cell.
  change (0 + S j)%nat with (S j).
  change (0 <? S j)%nat with true. cbv iota.
  replace (S j - 1)%nat with j by lia. rewrite Hp, E.
  unfold FinancialTable.getProfitTrend, ToBoolean, ToNumber, truthy.
  rewrite Z.
  assert (N : is_nan (profit previous) = false)
    by (destruct (profit previous); try discriminate F; reflexivity).
  rewrite N. simpl negb. cbv iota.
  destruct (steady_change (profit previous) F Z) as [-> ->].
  reflexivity.
Qed.

Lemma steady_profit_trend_witness :
  FinancialTable.trend_cell
    (FinancialTable.row
       [Spec.record 2023 1 1000 100; Spec.record 2023 2 2000 100]
       (Spec.record 2023 2 2000 100) 1)
  = Some {| FinancialTable.percentage := "0.0";
            FinancialTable.isPositive := false |}.
Proof.
  apply (steady_profit_trend
           [Spec.record 2023 1 1000 100; Spec.record 2023 2 2000 100]
           _ 0%nat (Spec.record 2023 1 1000 100)
           (Spec.record 2023 2 2000 100) _ eq_refl eq_refl eq_refl eq_refl
           eq_refl eq_refl eq_refl).
Defined.

(** ** Texts without a sign *)

Section Unsigned.

Local Abbreviation chars := list_ascii_of_string.
Local Abbreviation unsigned s := (Spec.free_of "-" s = true).

Lemma unsigned_append (a b : string) :
  unsigned a -> unsigned b -> unsigned (a ++ b).
Proof. intros Ha Hb. rewrite free_of_append, Ha, Hb. reflexivity. Qed.

Lemma unsigned_digits_of (n : Z) : unsigned (digits_of n).
Proof. apply digits_free_of. reflexivity. Qed.

Lemma unsigned_repeat0 (n : nat) : unsigned (repeat0 n).
Proof. induction n; simpl; auto. Qed.

Lemma unsigned_substring (s : string) (n m : nat) :
  unsigned s -> unsigned (substring n m s).
Proof. apply forallb_substring. Qed.

Lemma unsigned_fixed_layout (f : nat) (n : Z) : unsigned (fixed_layout f n).
Proof.
  unfold fixed_layout. destruct f as [ | f]; [apply unsigned_digits_of | ].
  set (m' := (repeat0 (S (S f) - String.length (digits_of n))
              ++ digits_of n)%string).
  assert (Hm : unsigned m')
    by (apply unsigned_append;
        [apply unsigned_repeat0 | apply unsigned_digits_of]).
  repeat apply unsigned_append; auto using unsigned_substring.
Qed.

(** A layout has a minus sign only in an exponent, below [10^-6]. *)
Lemma unsigned_layout (ds : string) (n : Z) :
  unsigned ds -> -6 < n -> unsigned (layout ds n).
Proof.
  intros H Hn. unfold layout, exponent_text.
  destruct ((Z.of_nat (String.length ds) <=? n) && (n <=? 21));
    [apply unsigned_append; [exact H | apply unsigned_repeat0] | ].
  destruct ((0 <? n) && (n <=? 21)) eqn:E2;
    [repeat apply unsigned_append; auto using unsigned_substring | ].
  destruct ((-6 <? n) && (n <=? 0)) eqn:E3;
    [repeat apply unsigned_append; auto using unsigned_repeat0 | ].
  assert (P : (n - 1 <? 0) = false).
  { apply Z.ltb_ge. apply andb_false_iff in E3.
    destruct E3 as [E3 | E3]; [apply Z.ltb_ge in E3 | apply Z.leb_gt in E3];
      lia. }
  rewrite P.
  destruct (Z.of_nat (String.length ds) =? 1);
    repeat apply unsigned_append;
    auto using unsigned_substring, unsigned_digits_of.
Qed.

Lemma shortest_exponent (fuel : nat) (incl : bool) (lo hi v : Q) :
  forall p, p - Z.of_nat fuel <= snd (shortest fuel incl lo hi v p).
Proof.
  induction fuel as [ | fuel IH]; intro p.
  - simpl. lia.
  - cbn [shortest]. destruct (candidate incl lo hi v p); [simpl; lia | ].
    specialize (IH (p - 1)). lia.
Qed.

Lemma strip_zeros_exponent (fuel : nat) :
  forall s p, p <= snd (strip_zeros fuel s p).
Proof.
  induction fuel as [ | fuel IH]; intros s p; cbn [strip_zeros].
  - simpl. lia.
  - destruct ((s mod 10 =? 0) && (0 <? s)); [ | simpl; lia].
    specialize (IH (s / 10) (p + 1)). lia.
Qed.

Lemma settle_exponent (fuel : nat) (v : Q) :
  forall p, p - Z.of_nat fuel <= settle fuel v p.
Proof.
  induction fuel as [ | fuel IH]; intro p; cbn [settle].
  - lia.
  - destruct (Qle_bool (Qpower 10 (p - 1)) v); [lia | ].
    specialize (IH (p - 1)). lia.
Qed.

Lemma pos_pow_1 (p : positive) : (1 ^ p)%positive = 1%positive.
Proof.
  apply Pos2Z.inj. rewrite Pos2Z.inj_pow. apply Z.pow_1_l. lia.
Qed.

(** A number of at least [10^21] has seventy binary digits or more. *)
Lemma at_least_1e21_log2 (m : positive) (e : Z) :
  at_least_1e21 m e = true -> 69 <= Z.log2 (Zpos m) + e.
Proof.
  unfold at_least_1e21, exact.
  set (big := 10 ^ 21).
  assert (T : 2 ^ 69 < big) by reflexivity. clearbody big.
  intro H.
  destruct (Z.log2_spec (Zpos m) ltac:(lia)) as [_ U].
  destruct (Z.le_gt_cases 69 (Z.log2 (Zpos m) + e)) as [ | G];
    [assumption | exfalso].
  pose proof (Z.log2_nonneg (Zpos m)) as L0.
  destruct e as [ | p | p]; cbn [Qpower] in H;
    rewrite ?Qpower_decomp_positive, ?pos_pow_1 in H.
  - (* m itself *)
    unfold Qle_bool, Qmult, inject_Z in H. cbn [Qnum Qden] in H.
    apply Z.leb_le in H.
    assert (2 ^ Z.succ (Z.log2 (Zpos m)) <= 2 ^ 69)
      by (apply Z.pow_le_mono_r; lia).
    lia.
  - (* m * 2^p *)
    unfold Qle_bool, Qmult, inject_Z in H. cbn [Qnum Qden] in H.
    apply Z.leb_le in H.
    assert (2 ^ Z.succ (Z.log2 (Zpos m)) * 2 ^ Zpos p <= 2 ^ 69).
    { rewrite <- Z.pow_add_r by lia. apply Z.pow_le_mono_r; lia. }
    assert (0 < 2 ^ Zpos p) by (apply Z.pow_pos_nonneg; lia).
    nia.
  - (* m / 2^p *)
    assert (E : exists q, 2 ^ Zpos p = Zpos q).
    { assert (0 < 2 ^ Zpos p) by (apply Z.pow_pos_nonneg; lia).
      destruct (2 ^ Zpos p) as [ | q | q]; try lia. eauto. }
    destruct E as (q & E). rewrite E in H.
    unfold Qle_bool, Qmult, Qinv, inject_Z in H. cbn [Qnum Qden] in H.
    apply Z.leb_le in H.
    assert (2 ^ Z.succ (Z.log2 (Zpos m)) <= 2 ^ 69 * 2 ^ Zpos p).
    { rewrite <- Z.pow_add_r by lia. apply Z.pow_le_mono_r; lia. }
    rewrite E in *. nia.
Qed.

Lemma shortest_digits_exponent (m : positive) (e : Z) :
  at_least_1e21 m e = true -> -4 < snd (shortest_digits m e).
Proof.
  intro H. apply at_least_1e21_log2 in H.
  unfold shortest_digits, decimal_exponent.
  set (v := exact m e).
  set (est := (Z.log2 (Zpos m) + e) * 30103 / 100000).
  assert (E : 20 <= est)
    by (subst est; apply Z.div_le_lower_bound; lia).
  pose proof (settle_exponent 4 v (est + 2)) as S1.
  match goal with
  | |- context [shortest 20 ?i ?lo ?hi v ?p] =>
      pose proof (shortest_exponent 20 i lo hi v p) as S2;
      destruct (shortest 20 i lo hi v p) as [s p']
  end.
  pose proof (strip_zeros_exponent 400 s p') as S3.
  simpl snd in S2. simpl Z.of_nat in *. lia.
Qed.

Lemma unsigned_positive_toString (m : positive) (e : Z) :
  at_least_1e21 m e = true -> unsigned (positive_toString m e).
Proof.
  intro H. pose proof (shortest_digits_exponent m e H) as P.
  unfold positive_toString, shortest_text.
  destruct (shortest_digits m e) as [s p]. simpl snd in P.
  assert (L : unsigned
                (layout (digits_of s)
                   (p + Z.of_nat (String.length (digits_of s))))).
  { apply unsigned_layout; [apply unsigned_digits_of | lia]. }
  destruct (to_integer m e) as [z | ]; [ | exact L].
  destruct (z <? 2 ^ prec); [apply unsigned_digits_of | exact L].
Qed.

(** What [toFixed] writes for an absolute value has no minus sign. *)
Lemma unsigned_toFixed_abs (f : nat) (x : number) :
  unsigned (toFixed f (Math_abs x)).
Proof.
  destruct x as [s | s | | s m e]; try reflexivity.
  - apply unsigned_fixed_layout.
  - unfold Math_abs, SFabs, toFixed.
    destruct (at_least_1e21 m e) eqn:A.
    + apply (unsigned_positive_toString m e A).
    + apply unsigned_fixed_layout.
Qed.

End Unsigned.

(** X10. The growth rate of the fourth card and the percentage of a
    trend of the table are written without a minus sign, whatever the
    data: they are absolute values, and the direction is shown apart. *)
Theorem growth_is_shown_without_sign :
  (forall data, exists card,
     nth_error (MetricsCards.cards data) 3 = Some card
     /\ MetricsCards.title card = "Growth Rate"%string
     /\ Spec.free_of "-" (MetricsCards.value card) = true)
  /\ (forall data rows r t,
        FinancialTable.body data = FinancialTable.Rows rows ->
        In r rows ->
        FinancialTable.trend_cell r = Some t ->
        Spec.free_of "-" (FinancialTable.percentage t) = true).
Proof.
  split.
  - intro data. unfold MetricsCards.cards. cbn [nth_error].
    eexists. split; [reflexivity | split; [reflexivity | ]].
    cbn [MetricsCards.value]. rewrite free_of_append.
    apply andb_true_iff. split; [ | reflexivity].
    destruct data as [[ | first rest] | ]; try reflexivity.
    rewrite calculateMetrics_cons. apply unsigned_toFixed_abs.
  - intros data rows r t B Hr Ht. apply body_rows in B. subst rows.
    apply In_nth_error in Hr. destruct Hr as (i & Hr).
    rewrite nth_error_mapi in Hr.
    destruct (nth_error data i) as [item | ]; [ | discriminate Hr].
    injection Hr as <-.
    unfold FinancialTable.row, FinancialTable.trend_cell,
      FinancialTable.getProfitTrend in Ht.
    match type of Ht with
    | (if ?b then _ else _) = _ => destruct b; [discriminate Ht | ]
    end.
    injection Ht as <-. apply unsigned_toFixed_abs.
Qed.

Lemma growth_is_shown_without_sign_witness :
  Spec.free_of "-"
    (FinancialTable.percentage
       {| FinancialTable.percentage := "50.0";
          FinancialTable.isPositive := false |}) = true.
Proof.
  apply (proj2 growth_is_shown_without_sign Spec.food_MC_2023
           (FinancialTable.mapi (FinancialTable.row Spec.food_MC_2023) 0%nat
              Spec.food_MC_2023)
           (FinancialTable.row Spec.food_MC_2023
              (Spec.record 2023 2 2000 50) 1)).
  - reflexivity.
  - right. left. reflexivity.
  - reflexivity.
Defined.

(** ** Digits in groups of three *)

Section Grouping.

Local Abbreviation chars := list_ascii_of_string.

Lemma scaled_nearest_integer (z : Z) (m : positive) (e : Z) (f : nat) :
  e <= 0 -> Zpos m = z * 2 ^ (- e) ->
  scaled_nearest m e f = z * 10 ^ Z.of_nat f.
Proof.
  intros He Em. unfold scaled_nearest.
  destruct (Z.leb_spec 0 e).
  - assert (e = 0) by lia. subst e. change (2 ^ (- 0)) with 1 in Em.
    change (2 ^ 0) with 1. rewrite Em. ring.
  - assert (K : 0 < 2 ^ (- e)) by (apply Z.pow_pos_nonneg; lia).
    replace (1 - e) with (Z.succ (- e)) by lia.
    rewrite Z.pow_succ_r by lia. rewrite Em.
    set (k := 2 ^ (- e)) in *. set (u := 10 ^ Z.of_nat f).
    symmetry. apply (Z.div_unique _ _ _ k); [lia | ring].
Qed.

Lemma to_integer_scaled (z : Z) (m : positive) (e : Z) :
  e <= 0 -> Zpos m = z * 2 ^ (- e) -> to_integer m e = Some z.
Proof.
  intros He Em. unfold to_integer.
  destruct (Z.leb_spec 0 e).
  - assert (e = 0) by lia. subst e. change (2 ^ (- 0)) with 1 in Em.
    change (2 ^ 0) with 1. f_equal. lia.
  - assert (K : 0 < 2 ^ (- e)) by (apply Z.pow_pos_nonneg; lia).
    rewrite Em, Z.mod_mul, Z.div_mul by lia. reflexivity.
Qed.

Lemma magnitude_text_integer (z : Z) (m : positive) (e : Z) (f : nat) :
  z < 2 ^ 53 -> e <= 0 -> Zpos m = z * 2 ^ (- e) ->
  magnitude_text f m e
  = (grouped (digits_of z) ++ fraction_text f 0)%string.
Proof.
  intros Hz He Em. unfold magnitude_text, shortest_decimal.
  rewrite (to_integer_scaled z m e He Em).
  apply Z.ltb_lt in Hz. change (2 ^ prec) with (2 ^ 53). rewrite Hz.
  unfold rounded_decimal. cbn [Z.add].
  replace (0 <=? Z.of_nat f) with true by (symmetry; apply Z.leb_le; lia).
  assert (U : 10 ^ Z.of_nat f <> 0) by (apply Z.pow_nonzero; lia).
  rewrite Z.div_mul, Z.mod_mul by exact U. reflexivity.
Qed.

(** The format of an integer: its sign, the symbol, its digits in
    groups; no fraction. *)
Lemma NumberFormat_integer (symbol : string) (f : nat) (z : Z) :
  Z.abs z < 2 ^ 53 -> fraction_text f 0 = EmptyString ->
  NumberFormat symbol f (of_Z z)
  = ((if (z <? 0)%Z then "-" else "") ++ symbol ++
     grouped (digits_of (Z.abs z)))%string.
Proof.
  intros Hz F.
  destruct (Z.eq_dec z 0) as [-> | N]; [reflexivity | ].
  destruct (of_Z_mantissa z N Hz) as (m & e & -> & He & Em).
  unfold NumberFormat.
  rewrite (magnitude_text_integer (Z.abs z) m e f Hz He Em), F.
  f_equal. f_equal.
  clear. induction (grouped (digits_of (Z.abs z))); simpl; congruence.
Qed.

Lemma group3_regroup (r : list ascii) :
  forall n acc, group3 n r acc = (rev (Notions.regroup n r) ++ acc)%list.
Proof.
  induction r as [ | c r IH]; intros n acc; [reflexivity | ].
  destruct n as [ | n]; cbn [group3 Notions.regroup rev]; rewrite IH;
    rewrite <- ?app_assoc; reflexivity.
Qed.

Lemma regroup_filter (r : list ascii) :
  forallb Notions.no_comma r = true ->
  forall n, filter Notions.no_comma (Notions.regroup n r) = r.
Proof.
  induction r as [ | c r IH]; intros H n; [reflexivity | ].
  simpl in H. apply andb_prop in H. destruct H as [Hc Hr].
  destruct n as [ | n]; cbn [Notions.regroup filter]; rewrite ?Hc;
    cbn [Notions.no_comma Ascii.eqb negb]; rewrite ?Hc, IH by exact Hr;
    try reflexivity.
Qed.

Lemma regroup_commas (r : list ascii) :
  forallb Notions.no_comma r = true ->
  forall n i c,
    (n <= 3)%nat ->
    nth_error (Notions.regroup n r) i = Some c ->
    (c = ","%char <-> (n <= i /\ (i - n) mod 4 = 0)%nat).
Proof.
  induction r as [ | x r IH]; intros H n i c Hn Hi.
  - destruct i; discriminate Hi.
  - simpl in H. apply andb_prop in H. destruct H as [Hx Hr].
    assert (X : x <> ","%char).
    { intros ->. discriminate Hx. }
    destruct n as [ | n]; cbn [Notions.regroup] in Hi.
    + destruct i as [ | [ | i]]; cbn [nth_error] in Hi.
      * injection Hi as <-. split; [intros _; split; [lia | reflexivity] | auto].
      * injection Hi as <-. split; [contradiction | ].
        intros [_ E]. discriminate E.
      * rewrite (IH Hr 2%nat i c ltac:(lia) Hi).
        replace (S (S i) - 0)%nat with (S (S i)) by lia.
        destruct (Nat.le_gt_cases 2 i) as [G | G].
        -- replace (S (S i)) with (i - 2 + 1 * 4)%nat by lia.
           rewrite Nat.Div0.mod_add. intuition lia.
        -- assert (i = 0 \/ i = 1)%nat as [-> | ->] by lia;
             (split; [intros [? _]; lia | intros [_ E]; discriminate E]).
    + destruct i as [ | i]; cbn [nth_error] in Hi.
      * injection Hi as <-. split; [contradiction | intros [? _]; lia].
      * rewrite (IH Hr n i c ltac:(lia) Hi).
        replace (S i - S n)%nat with (i - n)%nat by lia. intuition lia.
Qed.

Lemma no_comma_digits (n : Z) :
  forallb Notions.no_comma (chars (digits_of n)) = true.
Proof.
  apply (forallb_weaken JSON.is_digit); [ | apply forallb_digits_of].
  intros d Hd. unfold Notions.no_comma.
  destruct (Ascii.eqb d ",") eqn:E; [ | reflexivity].
  apply Ascii.eqb_eq in E. subst d. discriminate Hd.
Qed.

Lemma forallb_rev {A : Type} (P : A -> bool) (l : list A) :
  forallb P (rev l) = forallb P l.
Proof.
  induction l as [ | a l IH]; [reflexivity | ].
  simpl. rewrite forallb_app, IH. simpl. rewrite andb_true_r.
  apply andb_comm.
Qed.

Lemma chars_string (l : list ascii) : chars (string_of_list_ascii l) = l.
Proof. apply list_ascii_of_string_of_list_ascii. Qed.

Lemma string_chars (s : string) : string_of_list_ascii (chars s) = s.
Proof. apply string_of_list_ascii_of_string. Qed.

Lemma without_grouped (n : Z) :
  Notions.without "," (grouped (digits_of n)) = digits_of n.
Proof.
  unfold Notions.without, grouped.
  rewrite chars_string, group3_regroup, List.app_nil_r.
  change (fun x => negb (Ascii.eqb x ",")) with Notions.no_comma.
  rewrite <- (rev_involutive (filter Notions.no_comma _)).
  rewrite <- filter_rev, rev_involutive.
  rewrite regroup_filter by (rewrite forallb_rev; apply no_comma_digits).
  rewrite rev_involutive. apply string_chars.
Qed.

Lemma without_append (c : ascii) (a b : string) :
  Notions.without c (a ++ b)
  = (Notions.without c a ++ Notions.without c b)%string.
Proof.
  unfold Notions.without. rewrite chars_app, filter_app.
  generalize (filter (fun x => negb (Ascii.eqb x c)) (chars a)).
  intro l. induction l; simpl; congruence.
Qed.

Lemma comma_every_fourth_grouped (n : Z) :
  Notions.comma_every_fourth (grouped (digits_of n)).
Proof.
  intros i c. unfold grouped.
  rewrite chars_string, group3_regroup, List.app_nil_r, rev_involutive.
  intro H.
  rewrite (regroup_commas _ (eq_trans (forallb_rev _ _) (no_comma_digits n))
             3%nat i c (le_n 3) H).
  destruct (Nat.le_gt_cases 3 i) as [G | G].
  - replace i with (i - 3 + 3)%nat at 3 by lia.
    rewrite <- (Nat.Div0.add_mod_idemp_l (i - 3) 3 4).
    split.
    + intros [_ E]. rewrite E. reflexivity.
    + intro E. split; [exact G | ].
      pose proof (Nat.mod_upper_bound (i - 3) 4 ltac:(lia)) as B.
      destruct ((i - 3) mod 4)%nat as [ | [ | [ | [ | k]]]];
        try reflexivity; try discriminate E. lia.
  - assert (i = 0 \/ i = 1 \/ i = 2)%nat as [-> | [-> | ->]] by lia;
      (split; [intros [? _]; lia | intro E; discriminate E]).
Qed.

End Grouping.

Section Determined.

Local Abbreviation chars := list_ascii_of_string.

Lemma regroup_snoc (c : ascii) (r : list ascii) :
  forall n, exists pre, Notions.regroup n (r ++ [c]) = (pre ++ [c])%list.
Proof.
  induction r as [ | x r IH]; intro n.
  - destruct n; [exists [","%char] | exists []]; reflexivity.
  - destruct n as [ | n]; cbn [app Notions.regroup].
    + destruct (IH 2%nat) as (pre & ->). exists (","%char :: x :: pre).
      reflexivity.
    + destruct (IH n) as (pre & ->). exists (x :: pre). reflexivity.
Qed.

Lemma grouped_head (n : Z) :
  Notions.starts_with_digit (grouped (digits_of n)).
Proof.
  destruct (digits_of_head n) as (c & s & E & D).
  unfold grouped. rewrite E, group3_regroup, List.app_nil_r.
  cbn [list_ascii_of_string rev].
  destruct (regroup_snoc c (rev (chars s)) 3) as (pre & ->).
  rewrite rev_app_distr. exact D.
Qed.

(** Two texts read from the right end, with the same characters other
    than commas, their commas at the same places, and no comma at the
    left end, are the same text. *)
Lemma commas_determined (r1 : list ascii) :
  forall (r2 : list ascii) (k : nat),
    (forall i c, nth_error r1 i = Some c ->
                 (c = ","%char <-> ((k + i) mod 4 = 3)%nat)) ->
    (forall i c, nth_error r2 i = Some c ->
                 (c = ","%char <-> ((k + i) mod 4 = 3)%nat)) ->
    filter Notions.no_comma r1 = filter Notions.no_comma r2 ->
    List.last r1 "0"%char <> ","%char ->
    List.last r2 "0"%char <> ","%char ->
    r1 = r2.
Proof.
  assert (E : forall (r : list ascii) (k : nat),
             (forall i c, nth_error r i = Some c ->
                          (c = ","%char <-> ((k + i) mod 4 = 3)%nat)) ->
             filter Notions.no_comma r = [] ->
             List.last r "0"%char <> ","%char ->
             r = []).
  { induction r as [ | x r IH]; intros k C F L; [reflexivity | exfalso].
    cbn [filter] in F.
    destruct (Notions.no_comma x) eqn:X; [discriminate F | ].
    assert (r = []).
    { apply (IH (S k)); [ | exact F | ].
      - intros i c Hi. rewrite (C (S i) c Hi).
        replace (k + S i)%nat with (S k + i)%nat by lia. tauto.
      - destruct r as [ | y r]; [discriminate | exact L]. }
    subst r. simpl in L. apply L.
    unfold Notions.no_comma in X. apply negb_false_iff in X.
    apply Ascii.eqb_eq in X. exact X. }
  induction r1 as [ | x r1 IH]; intros r2 k C1 C2 F L1 L2.
  - symmetry. apply (E r2 k C2); [symmetry; exact F | exact L2].
  - destruct r2 as [ | y r2].
    + apply (E (x :: r1) k C1); [exact F | exact L1].
    + pose proof (C1 0%nat x eq_refl) as Hx.
      pose proof (C2 0%nat y eq_refl) as Hy.
      assert (T1 : forall i c, nth_error r1 i = Some c ->
                     (c = ","%char <-> ((S k + i) mod 4 = 3)%nat)).
      { intros i c Hi. rewrite (C1 (S i) c Hi).
        replace (k + S i)%nat with (S k + i)%nat by lia. tauto. }
      assert (T2 : forall i c, nth_error r2 i = Some c ->
                     (c = ","%char <-> ((S k + i) mod 4 = 3)%nat)).
      { intros i c Hi. rewrite (C2 (S i) c Hi).
        replace (k + S i)%nat with (S k + i)%nat by lia. tauto. }
      assert (N1 : r1 <> [] -> List.last r1 "0"%char <> ","%char)
        by (destruct r1; [congruence | intros _; exact L1]).
      assert (N2 : r2 <> [] -> List.last r2 "0"%char <> ","%char)
        by (destruct r2; [congruence | intros _; exact L2]).
      assert (Z1 : List.last r1 "0"%char <> ","%char)
        by (destruct r1; [discriminate | apply N1; discriminate]).
      assert (Z2 : List.last r2 "0"%char <> ","%char)
        by (destruct r2; [discriminate | apply N2; discriminate]).
      assert (Q : forall c, Notions.no_comma c = false <-> c = ","%char).
      { intro c. unfold Notions.no_comma. rewrite negb_false_iff.
        apply Ascii.eqb_eq. }
      cbn [filter] in F.
      destruct (Notions.no_comma x) eqn:X, (Notions.no_comma y) eqn:Y.
      * injection F as -> F. f_equal. apply (IH r2 (S k)); assumption.
      * exfalso. apply Q in Y. apply Hy in Y. apply Hx in Y. apply Q in Y.
        congruence.
      * exfalso. apply Q in X. apply Hx in X. apply Hy in X. apply Q in X.
        congruence.
      * apply Q in X. apply Q in Y. subst x y. f_equal.
        apply (IH r2 (S k)); assumption.
Qed.

Lemma last_rev_head (c : ascii) (s : string) (d : ascii) :
  List.last (rev (chars (String c s))) d = c.
Proof. cbn [list_ascii_of_string rev]. apply last_last. Qed.

Lemma groups_determined (a b : string) :
  Notions.without "," a = Notions.without "," b ->
  Notions.comma_every_fourth a -> Notions.comma_every_fourth b ->
  Notions.starts_with_digit a -> Notions.starts_with_digit b ->
  a = b.
Proof.
  intros W Ca Cb Sa Sb.
  rewrite <- (string_of_list_ascii_of_string a),
    <- (string_of_list_ascii_of_string b).
  f_equal. apply rev_inj.
  apply (commas_determined _ _ 0%nat).
  - exact Ca.
  - exact Cb.
  - unfold Notions.without in W.
    apply (f_equal list_ascii_of_string) in W.
    rewrite !list_ascii_of_string_of_list_ascii in W.
    rewrite !filter_rev. f_equal. exact W.
  - destruct a as [ | c s]; [contradiction | ].
    rewrite last_rev_head. intros ->. discriminate Sa.
  - destruct b as [ | c s]; [contradiction | ].
    rewrite last_rev_head. intros ->. discriminate Sb.
Qed.

End Determined.

Section Formats.

Lemma or_else_integer (z : Z) :
  Z.abs z < 2 ^ 53 -> or_else (Num (of_Z z)) (of_Z 0) = of_Z z.
Proof.
  intro H. unfold or_else, ToBoolean, ToNumber.
  destruct (truthy (of_Z z)) eqn:T; [reflexivity | ].
  unfold truthy in T. apply negb_false_iff, orb_true_iff in T.
  destruct T as [T | T].
  - destruct (Z.eq_dec z 0) as [-> | N]; [reflexivity | ].
    destruct (of_Z_mantissa z N H) as (m & e & E & _).
    rewrite E in T. discriminate T.
  - pose proof (of_Z_finite z H) as F.
    destruct (of_Z z); discriminate.
Qed.

End Formats.

(** X11. The six formatters write an integer (below 2^53 in magnitude)
    as its sign, the dollar sign for a currency, and its decimal digits
    in groups: the text of the groups begins with a digit, has the
    digits of the integer in their order and, counted from the right,
    a comma as every fourth character and nowhere else, which makes it
    the one text of that kind; there is no fraction. *)
Theorem integers_are_formatted_in_groups :
  forall z : Z,
    Z.abs z < 2 ^ 53 ->
    let sign := if z <? 0 then "-"%string else ""%string in
    let x := Num (of_Z z) in
    exists groups : string,
      Notions.without "," groups = digits_of (Z.abs z)
      /\ Notions.comma_every_fourth groups
      /\ Notions.starts_with_digit groups
      /\ (forall other : string,
            Notions.without "," other = digits_of (Z.abs z) ->
            Notions.comma_every_fourth other ->
            Notions.starts_with_digit other ->
            other = groups)
      /\ FinancialTable.formatNumber x = (sign ++ groups)%string
      /\ FinancialTable.formatCurrency x = (sign ++ "$" ++ groups)%string
      /\ MetricsCards.formatNumber x = (sign ++ groups)%string
      /\ MetricsCards.formatCurrency x = (sign ++ "$" ++ groups)%string
      /\ FinancialChart.formatNumber x = (sign ++ groups)%string
      /\ FinancialChart.formatCurrency x = (sign ++ "$" ++ groups)%string.
Proof.
  intros z H sign x. subst sign x.
  exists (grouped (digits_of (Z.abs z))).
  split; [apply without_grouped | ].
  split; [apply comma_every_fourth_grouped | ].
  split; [apply grouped_head | ].
  split.
  { intros other W C S. apply groups_determined; try assumption.
    - rewrite W. symmetry. apply without_grouped.
    - apply comma_every_fourth_grouped.
    - apply grouped_head. }
  unfold FinancialChart.formatNumber, FinancialChart.formatCurrency.
  rewrite (or_else_integer z H).
  unfold FinancialTable.formatNumber, FinancialTable.formatCurrency,
    MetricsCards.formatNumber, MetricsCards.formatCurrency,
    format_decimal, format_currency, ToNumber.
  rewrite !NumberFormat_integer by (assumption || reflexivity).
  repeat split.
Qed.

Lemma integers_are_formatted_in_groups_witness :
  exists groups : string,
    Notions.without "," groups = "1234567"%string
    /\ Notions.starts_with_digit groups
    /\ FinancialTable.formatCurrency (Num (of_Z (-1234567)))
       = ("-" ++ "$" ++ groups)%string.
Proof.
  destruct (integers_are_formatted_in_groups (-1234567))
    as (groups & H1 & _ & H3 & _ & _ & H6 & _); [simpl; lia | ].
  exists groups. split; [exact H1 | split; [exact H3 | exact H6]].
Defined.

(** ** Totals *)

Section Orders.

Lemma total_perm (a b : list Z) :
  Permutation a b -> Spec.total a = Spec.total b.
Proof. induction 1; simpl; lia. Qed.

Lemma magnitude_perm (a b : list Z) :
  Permutation a b -> Spec.magnitude a = Spec.magnitude b.
Proof. induction 1; simpl; lia. Qed.

Lemma sum_whatever_order (xs ys : list number) (zs : list Z) :
  Permutation xs ys -> xs = map of_Z zs -> Spec.magnitude zs < 2 ^ 53 ->
  Spec.sum xs = Spec.sum ys.
Proof.
  intros P E H. subst xs.
  apply Permutation_sym, Permutation_map_inv in P.
  destruct P as (zs' & -> & P).
  rewrite !sum_integers;
    [ | rewrite <- (magnitude_perm _ _ P) | ]; try assumption.
  rewrite (total_perm _ _ P). reflexivity.
Qed.

End Orders.

(** X12. For integer figures whose magnitudes add up to less than 2^53,
    the total sales, the total profit and the average margin do not
    depend on the order of the records. *)
Theorem totals_whatever_the_order :
  forall (data data' : list PeriodRecord) (sales profits : list Z),
    Permutation data data' ->
    map sales_volume data = map of_Z sales ->
    map profit data = map of_Z profits ->
    Spec.magnitude sales < 2 ^ 53 ->
    Spec.magnitude profits < 2 ^ 53 ->
    let m := MetricsCards.calculateMetrics (Some data) in
    let m' := MetricsCards.calculateMetrics (Some data') in
    MetricsCards.totalSales m = MetricsCards.totalSales m'
    /\ MetricsCards.totalProfit m = MetricsCards.totalProfit m'
    /\ MetricsCards.avgProfitMargin m = MetricsCards.avgProfitMargin m'.
Proof.
  intros data data' sales profits P Es Ep Hs Hp m m'. subst m m'.
  destruct data as [ | a d].
  - apply Permutation_nil in P. subst data'. repeat split.
  - destruct data' as [ | b d'];
      [apply Permutation_sym, Permutation_nil in P; discriminate P | ].
    rewrite !calculateMetrics_cons.
    cbn [MetricsCards.totalSales MetricsCards.totalProfit
         MetricsCards.avgProfitMargin].
    assert (S : Spec.sum (map sales_volume (a :: d))
                = Spec.sum (map sales_volume (b :: d')))
      by (eapply sum_whatever_order;
          [apply Permutation_map, P | exact Es | exact Hs]).
    assert (T : Spec.sum (map profit (a :: d))
                = Spec.sum (map profit (b :: d')))
      by (eapply sum_whatever_order;
          [apply Permutation_map, P | exact Ep | exact Hp]).
    rewrite S, T. repeat split.
Qed.

Lemma totals_whatever_the_order_witness :
  MetricsCards.totalSales
    (MetricsCards.calculateMetrics (Some Spec.food_MC_2023))
  = MetricsCards.totalSales
      (MetricsCards.calculateMetrics (Some (rev Spec.food_MC_2023))).
Proof.
  apply (totals_whatever_the_order Spec.food_MC_2023 (rev Spec.food_MC_2023)
           [1000; 2000; 1800; 2200] [100; 50; 120; 180]).
  - apply Permutation_rev.
  - reflexivity.
  - reflexivity.
  - simpl. lia.
  - simpl. lia.
Defined.

(** The growth does depend on the order. *)
Example growth_depends_on_the_order :
  MetricsCards.isGrowthPositive
    (MetricsCards.calculateMetrics (Some Spec.food_MC_2023)) = true
  /\ MetricsCards.isGrowthPositive
       (MetricsCards.calculateMetrics (Some (rev Spec.food_MC_2023))) = false.
Proof. vm_compute. split; reflexivity. Qed.

(** ** The selections *)

Section Selections.
Import Dashboard.

Lemma among_cases (v : string) (items : list string) :
  among v items = true -> In v items.
Proof.
  unfold among. intro H. apply existsb_exists in H.
  destruct H as (x & Hx & E). apply String.eqb_eq in E. subst. exact Hx.
Qed.

Lemma companies_settled (category v : string) :
  among v (FinancialDashboard.companies category) = true ->
  among v ["MC"; "TECH"]%string = true.
Proof.
  unfold FinancialDashboard.companies, FinancialDashboard.sampleData.
  cbn [get].
  destruct (String.eqb "food" category);
    [intro H; apply among_cases in H; destruct H as [<- | []]; reflexivity | ].
  destruct (String.eqb "technology" category);
    [intro H; apply among_cases in H; destruct H as [<- | []]; reflexivity | ].
  discriminate.
Qed.

Lemma play_settled (events : list Event) :
  forall s s', Notions.settled s = true -> play s events = Some s' ->
               Notions.settled s' = true.
Proof.
  induction events as [ | e events IH]; intros s s' H P; simpl in P.
  - injection P as <-. exact H.
  - destruct (offered s e) eqn:O; [ | discriminate P].
    apply (IH (update s e) s'); [ | exact P]. clear IH P.
    unfold Notions.settled in *.
    apply andb_prop in H. destruct H as [H H3].
    apply andb_prop in H. destruct H as [H1 H2].
    destruct e as [v | v | v];
      cbn [update offered selectedCategory selectedYear selectedCompany] in *.
    + rewrite H2, H3. change FinancialDashboard.categories
        with ["food"; "technology"]%string in O. rewrite O. reflexivity.
    + rewrite H1, H3. unfold FinancialDashboard.years in O. rewrite O.
      reflexivity.
    + rewrite H1, H2. apply companies_settled in O. rewrite O. reflexivity.
Qed.

End Selections.

(** X13. After any sequence of selections, each among the items
    offered when it is made, the dashboard shows the eight quarters of
    the two years or the four of one year when the company selected
    belongs to the category selected, and nothing when it does not (the
    company is kept when the category changes). *)
Theorem selections_show_whole_years :
  forall (events : list Dashboard.Event) (s : Dashboard.State),
    Dashboard.play Dashboard.initial events = Some s ->
    exists shown,
      Dashboard.filteredData s = Normal shown
      /\ if Dashboard.among (Dashboard.selectedCompany s)
              (FinancialDashboard.companies (Dashboard.selectedCategory s))
         then List.length shown
              = (if String.eqb (Dashboard.selectedYear s) "all"
                 then 8 else 4)%nat
         else shown = [].
Proof.
  intros events s P.
  apply (play_settled events Dashboard.initial s eq_refl) in P.
  unfold Notions.settled in P.
  apply andb_prop in P. destruct P as [P H3].
  apply andb_prop in P. destruct P as [H1 H2].
  apply among_cases in H1, H2, H3.
  destruct s as [category year company]. simpl in H1, H2, H3.
  destruct H1 as [<- | [<- | []]];
    destruct H2 as [<- | [<- | [<- | []]]];
    destruct H3 as [<- | [<- | []]];
    (eexists; split; [reflexivity | reflexivity]).
Qed.

Lemma selections_show_whole_years_witness :
  exists shown,
    Dashboard.filteredData
      {| Dashboard.selectedCategory := "technology";
         Dashboard.selectedYear := "all";
         Dashboard.selectedCompany := "MC" |} = Normal shown
    /\ shown = [].
Proof.
  exact (selections_show_whole_years
           [Dashboard.setSelectedCategory "technology"]
           {| Dashboard.selectedCategory := "technology";
              Dashboard.selectedYear := "all";
              Dashboard.selectedCompany := "MC" |} eq_refl).
Defined.

(** X14. When the filter finds nothing, the exports do nothing, the
    cards read [0], [$0], [0.00%] and [0.0%] with the labels
    [Below Target] and [Declining], and the charts and the table show
    their messages. *)
Theorem no_data_is_shown_as_such :
  forall s : Dashboard.State,
    Dashboard.filteredData s = Normal [] ->
    exists r,
      Dashboard.render s = Normal r
      /\ Dashboard.exportToCSV r = []
      /\ Dashboard.exportToJSON r = []
      /\ map MetricsCards.value (Dashboard.cards r)
         = ["0"; "$0"; "0.00%"; "0.0%"]%string
      /\ map (fun card =>
                option_map MetricsCards.label (MetricsCards.trend card))
             (Dashboard.cards r)
         = [None; None; Some "Below Target"%string; Some "Declining"%string]
      /\ Dashboard.chart r
         = FinancialChart.NoData "No data available" "No data to display"
      /\ Dashboard.table r
         = FinancialTable.NoData "No data available for the selected filters".
Proof.
  intros s H. unfold Dashboard.render. rewrite H.
  eexists. split; [reflexivity | ]. repeat split.
Qed.

Lemma no_data_is_shown_as_such_witness :
  exists r,
    Dashboard.render
      {| Dashboard.selectedCategory := "technology";
         Dashboard.selectedYear := "all";
         Dashboard.selectedCompany := "MC" |} = Normal r
    /\ Dashboard.table r
       = FinancialTable.NoData "No data available for the selected filters".
Proof.
  destruct (no_data_is_shown_as_such
              {| Dashboard.selectedCategory := "technology";
                 Dashboard.selectedYear := "all";
                 Dashboard.selectedCompany := "MC" |} eq_refl)
    as (r & R & _ & _ & _ & _ & _ & T).
  exists r. split; [exact R | exact T].
Defined.

(** X15. When the filter finds records, the table has a row, the charts
    have a point and the CSV text has a line (after the header) for each
    of them, in the order of the filter; the row and the point of a
    record carry its year and its quarter, and the fields of its line
    are the year, the quarter and the margin as the row shows them, with
    the sales volume and the profit in between. *)
Theorem every_record_is_shown_once :
  forall (s : Dashboard.State) (first : PeriodRecord)
         (rest : list PeriodRecord),
    let data := first :: rest in
    Dashboard.filteredData s = Normal data ->
    exists r rows points lines,
      Dashboard.render s = Normal r
      /\ Dashboard.table r = FinancialTable.Rows rows
      /\ Dashboard.chart r = FinancialChart.Charts points
      /\ Dashboard.exportToCSV r
         = ExportButtons.download (ExportButtons.csvContent data)
             "text/csv;charset=utf-8;" "financial-data.csv"
      /\ Spec.split_on "010" (ExportButtons.csvContent data)
         = Spec.csv_header :: lines
      /\ List.length rows = List.length data
      /\ List.length points = List.length data
      /\ List.length lines = List.length data
      /\ (forall i item,
            nth_error data i = Some item ->
            exists row point line,
              nth_error rows i = Some row
              /\ nth_error points i = Some point
              /\ nth_error lines i = Some line
              /\ FinancialTable.year_cell row = Number_toString (year item)
              /\ FinancialTable.quarter_cell row
                 = ("Q" ++ Number_toString (quarter item))%string
              /\ FinancialChart.Point.year point = Num (year item)
              /\ FinancialChart.Point.quarter point = Num (quarter item)
              /\ Spec.split_on "," line
                 = [ FinancialTable.year_cell row;
                     FinancialTable.quarter_cell row;
                     Number_toString (sales_volume item);
                     Number_toString (profit item);
                     FinancialTable.margin_cell row ]).
Proof.
  intros s first rest data H. unfold Dashboard.render.
  rewrite H. subst data. cbn [bind].
  eexists.
  exists (FinancialTable.mapi (FinancialTable.row (first :: rest)) 0%nat
            (first :: rest)),
         (FinancialChart.chartData
            (Some (map FinancialChart.of_record (first :: rest)))),
         (map ExportButtons.csv_row (first :: rest)).
  split; [reflexivity | ].
  split; [reflexivity | split; [reflexivity | split; [reflexivity | ]]].
  split; [apply csvContent_lines | ].
  split; [apply length_mapi | split; [ | split]].
  - unfold FinancialChart.chartData. rewrite !length_map. reflexivity.
  - apply length_map.
  - intros i item Hi.
    exists (FinancialTable.row (first :: rest) item (0 + i)),
           {| FinancialChart.Point.quarter := Num (quarter item);
              FinancialChart.Point.year := Num (year item);
              FinancialChart.Point.period :=
                (FinancialChart.text_or (Num (year item)) "N/A" ++ " Q" ++
                 FinancialChart.text_or (Num (quarter item)) "N/A")%string;
              FinancialChart.Point.sales_volume :=
                or_else (Num (sales_volume item)) (of_Z 0);
              FinancialChart.Point.profit :=
                or_else (Num (profit item)) (of_Z 0) |},
           (ExportButtons.csv_row item).
    split; [rewrite nth_error_mapi, Hi; reflexivity | ].
    split; [unfold FinancialChart.chartData;
            rewrite nth_error_map, nth_error_map, Hi; reflexivity | ].
    split; [rewrite nth_error_map, Hi; reflexivity | ].
    repeat (split; [reflexivity | ]).
    apply csv_row_fields.
Qed.

Lemma every_record_is_shown_once_witness :
  exists r rows points (lines : list string),
    Dashboard.render Dashboard.initial = Normal r
    /\ Dashboard.table r = FinancialTable.Rows rows
    /\ Dashboard.chart r = FinancialChart.Charts points
    /\ List.length rows = 8%nat
    /\ List.length points = 8%nat
    /\ List.length lines = 8%nat.
Proof.
  destruct (every_record_is_shown_once Dashboard.initial
              (Spec.record 2023 1 1000 100)
              [ Spec.record 2023 2 2000 50; Spec.record 2023 3 1800 120;
                Spec.record 2023 4 2200 180; Spec.record 2024 1 2100 150;
                Spec.record 2024 2 2400 200; Spec.record 2024 3 2600 220;
                Spec.record 2024 4 2800 250 ] eq_refl)
    as (r & rows & points & lines & R & H1 & H2 & _ & _ & H4 & H5 & H6 & _).
  exists r, rows, points, lines. auto 10.
Defined.

(** ** The direction of a change *)

Section Directions.

Local Abbreviation emin := (SpecFloat.emin prec emax).
Local Abbreviation fexp := (SpecFloat.fexp prec emax).

(** The number of an integer other than zero: fifty-three digits. *)
Lemma of_Z_canonical (z : Z) :
  z <> 0 -> Z.abs z < 2 ^ 53 ->
  exists m,
    of_Z z = S754_finite (z <? 0) m (Z.log2 (Z.abs z) - 52)
    /\ Zpos m = Z.abs z * 2 ^ (52 - Z.log2 (Z.abs z))
    /\ Zdigits2 (Zpos m) = 53.
Proof.
  intros Hz Hb.
  assert (H : exists p, Z.abs z = Zpos p)
    by (destruct z; [lia | eexists; reflexivity | eexists; reflexivity]).
  destruct H as (p & Ep). rewrite Ep in *.
  assert (D : Zdigits2 (Zpos p) = Z.log2 (Zpos p) + 1).
  { apply digits_unique.
    destruct (Z.log2_spec (Zpos p) ltac:(lia)) as [L U].
    replace (Z.log2 (Zpos p) + 1 - 1) with (Z.log2 (Zpos p)) by lia.
    replace (Z.log2 (Zpos p) + 1) with (Z.succ (Z.log2 (Zpos p))) by lia.
    split; assumption. }
  destruct (binary_round_canonical (z <? 0) p p 0 Hb (Z.le_refl 0))
    as (m & Em & R); [change (2 ^ 0) with 1; lia | ].
  rewrite D in *. exists m.
  split; [ | split].
  - replace (Z.log2 (Zpos p) - 52) with (Z.log2 (Zpos p) + 1 - 53) by lia.
    unfold of_Z, binary_normalize.
    destruct z as [ | q | q]; try lia; simpl Z.abs in Ep;
      injection Ep as ->; exact R.
  - rewrite Em. f_equal. f_equal. lia.
  - pose proof (digits_upper p Hb) as Up. simpl Zdigits2 in D.
    replace 53 with (Zdigits2 (Zpos p) + (53 - (Z.log2 (Zpos p) + 1))).
    + apply digits_scaled; [simpl Zdigits2; lia | exact Em].
    + simpl Zdigits2. lia.
Qed.

Lemma sub_integers (a b : Z) :
  Z.abs a < 2 ^ 53 -> Z.abs b < 2 ^ 53 -> Z.abs (a - b) < 2 ^ 53 ->
  sub (of_Z a) (of_Z b) = of_Z (a - b).
Proof.
  intros Ha Hb Hab.
  destruct (Z.eq_dec b 0) as [-> | Nb].
  { rewrite Z.sub_0_r.
    destruct (Z.eq_dec a 0) as [-> | Na]; [reflexivity | ].
    destruct (of_Z_mantissa a Na Ha) as (m & e & E & _).
    rewrite E. reflexivity. }
  destruct (Z.eq_dec a 0) as [-> | Na].
  { rewrite Z.sub_0_l.
    destruct (of_Z_canonical b Nb Hb) as (m & E & _).
    destruct (of_Z_canonical (- b) ltac:(lia) ltac:(lia)) as (m' & E' & Em' & _).
    destruct (of_Z_canonical b Nb Hb) as (m2 & E2 & Em2 & _).
    rewrite E2, E'. change (of_Z 0) with (S754_zero false).
    unfold sub, SFsub.
    rewrite Z.abs_opp in *.
    assert (m' = m2) by (apply Pos2Z.inj; congruence). subst m'.
    f_equal. destruct (Z.ltb_spec b 0), (Z.ltb_spec (- b) 0);
      try reflexivity; lia. }
  destruct (of_Z_mantissa a Na Ha) as (ma & ea & Ea & Hea & Ema).
  destruct (of_Z_mantissa b Nb Hb) as (mb & eb & Eb & Heb & Emb).
  rewrite Ea, Eb.
  unfold sub, SFsub.
  set (ez := Z.min ea eb).
  assert (Hz : ez <= 0) by (subst ez; lia).
  assert (Hza : ez <= ea) by (subst ez; lia).
  assert (Hzb : ez <= eb) by (subst ez; lia).
  replace ez with (- (- ez)) at 3 by lia.
  apply binary_normalize_scaled; [assumption | lia | ].
  rewrite !shl_align_value by assumption.
  rewrite Ema, Emb.
  rewrite <- !Z.mul_assoc, <- !Z.pow_add_r by lia.
  replace (- ea + (ea - ez)) with (- ez) by lia.
  replace (- eb + (eb - ez)) with (- ez) by lia.
  unfold cond_Zopp.
  destruct (Z.ltb_spec a 0), (Z.ltb_spec b 0); nia.
Qed.

(** Rounding a positive mantissa that is wide enough never gives zero,
    whatever was lost before. *)
Lemma binary_round_aux_not_zero (s : bool) (m : positive) (e : Z)
  (l : location) :
  emin - e < Zdigits2 (Zpos m) ->
  (exists m' e', binary_round_aux prec emax s (Zpos m) e l
                 = S754_finite s m' e')
  \/ binary_round_aux prec emax s (Zpos m) e l = S754_infinity s.
Proof.
  intro H. unfold binary_round_aux.
  pose proof (shr_fexp_positive m e l H) as H1.
  pose proof (shr_fexp_exponent (Zpos m) e l) as He1.
  destruct (shr_fexp prec emax (Zpos m) e l) as [mrs1 e1].
  simpl fst in H1. simpl snd in He1.
  pose proof (round_nearest_even_ge (shr_m mrs1) (loc_of_shr_record mrs1))
    as H2.
  destruct (round_nearest_even (shr_m mrs1) (loc_of_shr_record mrs1))
    as [ | m2 | m2] eqn:E2; try lia.
  assert (H3 : emin - e1 < Zdigits2 (Zpos m2)) by (simpl Zdigits2; lia).
  pose proof (shr_fexp_positive m2 e1 loc_Exact H3) as H4.
  destruct (shr_fexp prec emax (Zpos m2) e1 loc_Exact) as [mrs2 e2].
  simpl fst in H4.
  destruct (shr_m mrs2) as [ | m3 | m3]; try lia.
  destruct (e2 <=? emax - prec); [left; eauto | right; reflexivity].
Qed.

(** The quotient of two integers other than zero is not zero, and has
    the sign of their product. *)
Lemma div_integers_sign (a b : Z) :
  a <> 0 -> b <> 0 -> Z.abs a < 2 ^ 53 -> Z.abs b < 2 ^ 53 ->
  gt (div (of_Z a) (of_Z b)) (of_Z 0) = (0 <? a * b).
Proof.
  intros Na Nb Ha Hb.
  destruct (of_Z_canonical a Na Ha) as (ma & Ea & Ema & Da).
  destruct (of_Z_canonical b Nb Hb) as (mb & Eb & Emb & Db).
  rewrite Ea, Eb. unfold div, SFdiv, SFdiv_core_binary.
  rewrite Da, Db.
  set (ea := Z.log2 (Z.abs a) - 52). set (eb := Z.log2 (Z.abs b) - 52).
  assert (La : 0 <= Z.log2 (Z.abs a) < 53).
  { split; [apply Z.log2_nonneg | ]. apply Z.log2_lt_pow2; lia. }
  assert (Lb : 0 <= Z.log2 (Z.abs b) < 53).
  { split; [apply Z.log2_nonneg | ]. apply Z.log2_lt_pow2; lia. }
  assert (F : fexp (53 + ea - (53 + eb)) = ea - eb - 53).
  { unfold SpecFloat.fexp. rewrite emin_value. change prec with 53.
    subst ea eb. lia. }
  rewrite F.
  replace (Z.min (ea - eb - 53) (ea - eb)) with (ea - eb - 53) by lia.
  replace (ea - eb - (ea - eb - 53)) with 53 by lia.
  cbv iota.
  rewrite Z.shiftl_mul_pow2 by lia.
  pose proof (digits_lower ma) as Lma. rewrite Da in Lma.
  assert (Uma : Zpos mb < 2 ^ 53).
  { pose proof (digits_lower mb) as Lmb.
    assert (U : Zpos mb < 2 ^ Zdigits2 (Zpos mb)).
    { simpl Zdigits2. rewrite digits2_size.
      pose proof (Pos.size_gt mb) as G.
      change (Zpos mb < Zpos (2 ^ Pos.size mb)) in G.
      rewrite Pos2Z.inj_pow in G. exact G. }
    rewrite Db in U. exact U. }
  pose proof (Z.div_eucl_eq (Zpos ma * 2 ^ 53) (Zpos mb) ltac:(lia)) as Q.
  pose proof (Z.mod_pos_bound (Zpos ma * 2 ^ 53) (Zpos mb) ltac:(lia)) as R.
  unfold Z.modulo in R.
  destruct (Z.div_eucl (Zpos ma * 2 ^ 53) (Zpos mb)) as [q r].
  assert (Hq : 2 ^ 52 <= q).
  { change (2 ^ (53 - 1)) with (2 ^ 52) in Lma.
    assert (2 ^ 52 * Zpos mb <= Zpos mb * q + r) by nia.
    nia. }
  destruct q as [ | q | q]; try lia.
  assert (W : emin - (ea - eb - 53) < Zdigits2 (Zpos q)).
  { rewrite emin_value. subst ea eb.
    assert (0 < Zdigits2 (Zpos q)) by (simpl; lia). lia. }
  assert (S : xorb (a <? 0) (b <? 0) = negb (0 <? a * b)).
  { destruct (Z.ltb_spec a 0), (Z.ltb_spec b 0), (Z.ltb_spec 0 (a * b));
      simpl; try reflexivity; nia. }
  rewrite S.
  destruct (binary_round_aux_not_zero (negb (0 <? a * b)) q
              (ea - eb - 53) (new_location (Zpos mb) r) W)
    as [(m' & e' & ->) | ->];
    destruct (0 <? a * b); reflexivity.
Qed.

(** The direction of the change from one integer to another. *)
Lemma change_direction (c p : Z) :
  p <> 0 -> Z.abs c < 2 ^ 53 -> Z.abs p < 2 ^ 53 ->
  Z.abs (c - p) < 2 ^ 53 ->
  gt (mul (div (sub (of_Z c) (of_Z p)) (of_Z p)) (of_Z 100)) (of_Z 0)
  = (0 <? (c - p) * p).
Proof.
  intros Np Hc Hp Hcp.
  rewrite mul_100_sign by (intros s m e; apply div_exponent).
  rewrite sub_integers by assumption.
  destruct (Z.eq_dec (c - p) 0) as [E | N].
  - rewrite E. simpl Z.mul.
    destruct (of_Z_canonical p Np Hp) as (m & -> & _).
    destruct (p <? 0); reflexivity.
  - apply div_integers_sign; assumption.
Qed.

(** The number of an integer other than zero, written with an exponent
    that is not below the least one, is finite or infinite and has the
    sign of the integer. *)
Lemma binary_normalize_sign (M e : Z) :
  M <> 0 -> emin <= e ->
  (exists m' e',
     binary_normalize prec emax M e false = S754_finite (M <? 0) m' e')
  \/ binary_normalize prec emax M e false = S754_infinity (M <? 0).
Proof.
  intros N He.
  assert (R : forall s (m : positive),
             (exists m' e', binary_round prec emax s m e
                            = S754_finite s m' e')
             \/ binary_round prec emax s m e = S754_infinity s).
  { intros s m. unfold binary_round.
    destruct (shl_align m e (SpecFloat.fexp prec emax
                               (Zpos (digits2_pos m) + e)))
      as [mz ez] eqn:A.
    apply binary_round_aux_positive.
    assert (emin <= ez).
    { unfold shl_align in A.
      pose proof (fexp_ge_emin (Zpos (digits2_pos m) + e)) as F.
      destruct (SpecFloat.fexp prec emax (Zpos (digits2_pos m) + e) - e);
        injection A as _ A2; rewrite <- A2; [exact He | exact He | exact F]. }
    assert (0 < Zdigits2 (Zpos mz)) by (simpl; lia).
    lia. }
  destruct M as [ | m | m]; [lia | apply R | apply R].
Qed.

Lemma of_Z_exponent (z : Z) (s : bool) (m : positive) (e : Z) :
  of_Z z = S754_finite s m e -> emin <= e.
Proof.
  unfold of_Z, binary_normalize, binary_round.
  destruct z as [ | p | p]; try discriminate;
    destruct (shl_align p 0 (SpecFloat.fexp prec emax
                               (Zpos (digits2_pos p) + 0))) as [mz ez];
    apply binary_round_aux_exponent.
Qed.

(** The difference of two integers, exact or rounded, has the sign of
    their difference. *)
Lemma sub_integers_sign (a b : Z) :
  a <> 0 -> b <> 0 -> a <> b ->
  Z.abs a < 2 ^ 53 -> Z.abs b < 2 ^ 53 ->
  (exists m e, sub (of_Z a) (of_Z b) = S754_finite (a - b <? 0) m e)
  \/ sub (of_Z a) (of_Z b) = S754_infinity (a - b <? 0).
Proof.
  intros Na Nb Nab Ha Hb.
  destruct (of_Z_mantissa a Na Ha) as (ma & ea & Ea & Hea & Ema).
  destruct (of_Z_mantissa b Nb Hb) as (mb & eb & Eb & Heb & Emb).
  pose proof (of_Z_exponent _ _ _ _ Ea) as La.
  pose proof (of_Z_exponent _ _ _ _ Eb) as Lb.
  rewrite Ea, Eb. unfold sub, SFsub.
  set (ez := Z.min ea eb).
  assert (Hza : ez <= ea) by (subst ez; lia).
  assert (Hzb : ez <= eb) by (subst ez; lia).
  match goal with
  | |- context [binary_normalize _ _ ?z _ _] => set (M := z)
  end.
  assert (EM : M = (a - b) * 2 ^ (- ez)).
  { subst M. rewrite !shl_align_value by assumption.
    rewrite Ema, Emb.
    rewrite <- !Z.mul_assoc, <- !Z.pow_add_r by lia.
    replace (- ea + (ea - ez)) with (- ez) by lia.
    replace (- eb + (eb - ez)) with (- ez) by lia.
    unfold cond_Zopp.
    destruct (Z.ltb_spec a 0), (Z.ltb_spec b 0); simpl negb; cbv iota; nia. }
  assert (K : 0 < 2 ^ (- ez)) by (apply Z.pow_pos_nonneg; lia).
  assert (S : (M <? 0) = (a - b <? 0)).
  { destruct (Z.ltb_spec M 0), (Z.ltb_spec (a - b) 0); try reflexivity; nia. }
  rewrite <- S.
  apply binary_normalize_sign; [nia | subst ez; lia].
Qed.

(** A quotient of numbers of opposite signs is not above zero. *)
Lemma div_opposite (x y : number) (s : bool) :
  (exists m e, x = S754_finite s m e) \/ x = S754_infinity s ->
  (exists m e, y = S754_finite (negb s) m e) ->
  gt (div x y) (of_Z 0) = false.
Proof.
  intros [(m & e & ->) | ->] (m' & e' & ->).
  - unfold div, SFdiv.
    destruct (SFdiv_core_binary prec emax (Zpos m) e (Zpos m') e')
      as [[mz ez] lz].
    replace (xorb s (negb s)) with true by (destruct s; reflexivity).
    apply binary_round_aux_sign.
  - unfold div, SFdiv.
    replace (xorb s (negb s)) with true by (destruct s; reflexivity).
    reflexivity.
Qed.

(** The direction of the change from one integer to another. *)
Lemma change_of_integers (c p : Z) :
  p <> 0 -> Z.abs c < 2 ^ 53 -> Z.abs p < 2 ^ 53 ->
  gt (mul (div (sub (of_Z c) (of_Z p)) (of_Z p)) (of_Z 100)) (of_Z 0)
  = (0 <? (c - p) * p).
Proof.
  intros Np Hc Hp.
  destruct (Z.lt_ge_cases (Z.abs (c - p)) (2 ^ 53)) as [Hcp | Hcp];
    [apply change_direction; assumption | ].
  rewrite mul_100_sign by (intros s m e; apply div_exponent).
  assert (Nc : c <> 0) by lia.
  assert (Ncp : c <> p) by lia.
  assert (O : (p <? 0) = negb (c - p <? 0)).
  { destruct (Z.ltb_spec p 0), (Z.ltb_spec (c - p) 0); try reflexivity; lia. }
  replace (0 <? (c - p) * p) with false
    by (symmetry; apply Z.ltb_ge; nia).
  apply (div_opposite _ _ (c - p <? 0)).
  - apply sub_integers_sign; assumption.
  - destruct (of_Z_mantissa p Np Hp) as (m & e & E & _).
    exists m, e. rewrite E, O. reflexivity.
Qed.

End Directions.

(** X16. For integer profits (below 2^53 in magnitude, the earlier one
    not zero) a trend, and likewise the growth of the cards, is marked
    positive exactly when the difference and the earlier profit have the
    same sign: a loss that shrinks is marked as a decline. *)
Theorem direction_of_a_change :
  forall c p : Z,
    p <> 0 -> Z.abs c < 2 ^ 53 -> Z.abs p < 2 ^ 53 ->
    (exists t,
       FinancialTable.getProfitTrend (of_Z c) (Num (of_Z p)) = Some t
       /\ FinancialTable.isPositive t = (0 <? (c - p) * p))
    /\ (forall first rest,
          profit first = of_Z p ->
          profit (List.last rest first) = of_Z c ->
          MetricsCards.isGrowthPositive
            (MetricsCards.calculateMetrics (Some (first :: rest)))
          = (0 <? (c - p) * p)).
Proof.
  intros c p Np Hc Hp. split.
  - assert (T : truthy (of_Z p) = true).
    { destruct (of_Z_canonical p Np Hp) as (m & -> & _). reflexivity. }
    unfold FinancialTable.getProfitTrend, ToBoolean, ToNumber.
    rewrite T. cbn [negb]. cbv iota.
    eexists. split; [reflexivity | ].
    cbn [FinancialTable.isPositive].
    apply change_of_integers; assumption.
  - intros first rest Ef El.
    rewrite calculateMetrics_cons. cbn [MetricsCards.isGrowthPositive].
    rewrite Ef, El. apply change_of_integers; assumption.
Qed.

(** A loss that shrinks is marked as a decline. *)
Lemma direction_of_a_change_witness :
  exists t,
    FinancialTable.getProfitTrend (of_Z (-50)) (Num (of_Z (-100))) = Some t
    /\ FinancialTable.isPositive t = false.
Proof.
  destruct (direction_of_a_change (-50) (-100)) as [(t & H1 & H2) _];
    try (simpl; lia).
  exists t. split; [exact H1 | exact H2].
Defined.

(** ** The badge of a margin *)

Section AboveTen.

Local Abbreviation emin := (SpecFloat.emin prec emax).
Local Abbreviation fexp := (SpecFloat.fexp prec emax).

Lemma shr_fexp_ge (m e : Z) (l : location) :
  e <= snd (shr_fexp prec emax m e l)
  /\ fexp (Zdigits2 m + e) <= snd (shr_fexp prec emax m e l).
Proof.
  unfold shr_fexp, shr.
  destruct (fexp (Zdigits2 m + e) - e) eqn:E; simpl snd; lia.
Qed.

(** Rounding a positive mantissa that is wide enough: a number that is
    not zero, with an exponent that is not below the one of its width. *)
Lemma binary_round_aux_above (s : bool) (m : positive) (e : Z)
  (l : location) (B : Z) :
  emin - e < Zdigits2 (Zpos m) ->
  B <= fexp (Zdigits2 (Zpos m) + e) ->
  (exists m' e', binary_round_aux prec emax s (Zpos m) e l
                 = S754_finite s m' e' /\ B <= e')
  \/ binary_round_aux prec emax s (Zpos m) e l = S754_infinity s.
Proof.
  intros H HB. unfold binary_round_aux.
  pose proof (shr_fexp_positive m e l H) as H1.
  pose proof (shr_fexp_exponent (Zpos m) e l) as He1.
  pose proof (shr_fexp_ge (Zpos m) e l) as [_ Hb1].
  destruct (shr_fexp prec emax (Zpos m) e l) as [mrs1 e1].
  simpl fst in H1. simpl snd in He1, Hb1.
  pose proof (round_nearest_even_ge (shr_m mrs1) (loc_of_shr_record mrs1))
    as H2.
  destruct (round_nearest_even (shr_m mrs1) (loc_of_shr_record mrs1))
    as [ | m2 | m2] eqn:E2; try lia.
  assert (H3 : emin - e1 < Zdigits2 (Zpos m2)) by (simpl Zdigits2; lia).
  pose proof (shr_fexp_positive m2 e1 loc_Exact H3) as H4.
  pose proof (shr_fexp_ge (Zpos m2) e1 loc_Exact) as [Hb2 _].
  destruct (shr_fexp prec emax (Zpos m2) e1 loc_Exact) as [mrs2 e2].
  simpl fst in H4. simpl snd in Hb2.
  destruct (shr_m mrs2) as [ | m3 | m3]; try lia.
  destruct (e2 <=? emax - prec); [left | right; reflexivity].
  exists m3, e2. split; [reflexivity | lia].
Qed.

Lemma digits_at_least (q : positive) (k : Z) :
  2 ^ k <= Zpos q -> k + 1 <= Zdigits2 (Zpos q).
Proof.
  intro H.
  assert (U : Zpos q < 2 ^ Zdigits2 (Zpos q)).
  { simpl Zdigits2. rewrite digits2_size.
    pose proof (Pos.size_gt q) as G.
    change (Zpos q < Zpos (2 ^ Pos.size q)) in G.
    rewrite Pos2Z.inj_pow in G. exact G. }
  destruct (Z.le_gt_cases (k + 1) (Zdigits2 (Zpos q))) as [ | G];
    [assumption | exfalso].
  assert (0 < Zdigits2 (Zpos q)) by (simpl; lia).
  assert (2 ^ Zdigits2 (Zpos q) <= 2 ^ k) by (apply Z.pow_le_mono_r; lia).
  lia.
Qed.

(** Sixteen hundredths and more, read as a number: above ten. *)
Lemma of_decimal_above (n : Z) :
  1600 <= n -> gt (JSON.of_decimal false n (-2)) (of_Z 10) = true.
Proof.
  intro H. unfold JSON.of_decimal.
  replace (n =? 0) with false by (symmetry; apply Z.eqb_neq; lia).
  change (0 <=? -2) with false. cbv iota.
  change (10 ^ (- -2)) with 100.
  unfold SFdiv_core_binary.
  change (Zdigits2 100) with 7.
  set (e' := Z.min (fexp (Zdigits2 n + 0 - (7 + 0))) (0 - 0)).
  assert (He' : e' <= 0) by (subst e'; lia).
  assert (Hs : 0 - 0 - e' = - e') by lia. rewrite Hs.
  assert (M : match - e' with
              | 0 => n
              | Zpos _ => Z.shiftl n (- e')
              | Zneg _ => 0
              end = n * 2 ^ (- e')).
  { destruct (- e') as [ | k | k] eqn:K;
      [change (2 ^ 0) with 1; lia | apply Z.shiftl_mul_pow2; lia | lia]. }
  rewrite M.
  assert (P : 0 < 2 ^ (- e')) by (apply Z.pow_pos_nonneg; lia).
  pose proof (Z.div_eucl_eq (n * 2 ^ (- e')) 100 ltac:(lia)) as Q.
  pose proof (Z.mod_pos_bound (n * 2 ^ (- e')) 100 ltac:(lia)) as R.
  unfold Z.modulo in R.
  destruct (Z.div_eucl (n * 2 ^ (- e')) 100) as [q r].
  assert (Hq : 2 ^ (4 - e') <= q).
  { replace (4 - e') with (4 + - e') by lia.
    rewrite Z.pow_add_r by lia. change (2 ^ 4) with 16. nia. }
  assert (Pq : 0 < 2 ^ (4 - e')) by (apply Z.pow_pos_nonneg; lia).
  destruct q as [ | q | q]; try lia.
  pose proof (digits_at_least q (4 - e') Hq) as D.
  destruct (binary_round_aux_above false q e' (new_location 100 r) (-48))
    as [(m' & e'' & -> & B) | ->].
  - rewrite emin_value. lia.
  - unfold SpecFloat.fexp. change prec with 53. lia.
  - change (of_Z 10) with (S754_finite false 5629499534213120 (-49)).
    unfold gt, SFltb, SFcompare.
    replace (-49 ?= e'') with Lt by (symmetry; apply Z.compare_lt_iff; lia).
    reflexivity.
  - reflexivity.
Qed.

Lemma of_decimal_small :
  forallb
    (fun k => Bool.eqb (gt (JSON.of_decimal false (Z.of_nat k) (-2)) (of_Z 10))
                       (1000 <? Z.of_nat k))
    (seq 0 1600) = true.
Proof. vm_compute. reflexivity. Qed.

(** Hundredths read as a number are above ten exactly when there are
    more than a thousand of them. *)
Lemma of_decimal_above_ten (n : Z) :
  0 <= n -> gt (JSON.of_decimal false n (-2)) (of_Z 10) = (1000 <? n).
Proof.
  intro H. destruct (Z.lt_ge_cases n 1600) as [L | G].
  - pose proof of_decimal_small as S. rewrite forallb_forall in S.
    specialize (S (Z.to_nat n)). rewrite Z2Nat.id in S by exact H.
    apply eqb_prop, S, in_seq. lia.
  - rewrite of_decimal_above by lia. symmetry. apply Z.ltb_lt. lia.
Qed.

Lemma binary_round_aux_below (m e : Z) (l : location) :
  gt (binary_round_aux prec emax true m e l) (of_Z 10) = false.
Proof.
  unfold binary_round_aux.
  destruct (shr_fexp prec emax m e l) as [mrs' e'].
  destruct (shr_fexp prec emax _ e' loc_Exact) as [mrs'' e''].
  destruct (shr_m mrs''); try reflexivity.
  destruct (e'' <=? emax - prec); reflexivity.
Qed.

Lemma of_decimal_negative (n : Z) :
  gt (JSON.of_decimal true n (-2)) (of_Z 10) = false.
Proof.
  unfold JSON.of_decimal. destruct (n =? 0); [reflexivity | ].
  change (0 <=? -2) with false. cbv iota.
  destruct (SFdiv_core_binary prec emax n 0 (10 ^ (- -2)) 0) as [[q e'] l].
  apply binary_round_aux_below.
Qed.

End AboveTen.

Section ReadingFixed.
Import JSON NumberParsing.

Local Abbreviation chars := list_ascii_of_string.

(** What [toFixed(2)] writes for a number of hundredths is read back as
    the number nearest to them. *)
Lemma parseFloat_fixed (s : bool) (n : Z) :
  0 <= n ->
  parseFloat ((if s then "-" else "") ++ fixed_layout 2 n)
  = of_decimal s n (-2).
Proof.
  intro H. unfold fixed_layout.
  set (m' := (repeat0 (3 - String.length (digits_of n)) ++ digits_of n)%string).
  assert (L : (3 <= String.length m')%nat).
  { unfold m'. rewrite length_append, length_repeat0. lia. }
  assert (D : forallb is_digit (chars m') = true).
  { unfold m'. rewrite forallb_append, forallb_repeat0, forallb_digits_of.
    reflexivity. }
  set (k := String.length m') in *.
  set (I := substring 0 (k - 2) m'). set (F := substring (k - 2) 2 m').
  assert (IF : (I ++ F)%string = m')
    by (apply substring_split; subst k; lia).
  assert (DI : forallb is_digit (chars I) = true)
    by (apply forallb_substring, D).
  assert (DF : forallb is_digit (chars F) = true)
    by (apply forallb_substring, D).
  assert (LF : String.length F = 2%nat)
    by (apply length_substring; subst k; lia).
  assert (LI : String.length I = (k - 2)%nat)
    by (apply length_substring; subst k; lia).
  destruct I as [ | c I'] eqn:EI; [simpl in LI; lia | ].
  simpl in DI. apply andb_prop in DI. destruct DI as [Hc DI'].
  assert (V : digits_value (chars m') = n)
    by (apply digits_value_padded, H).
  rewrite <- IF in V. rewrite chars_app in V.
  unfold parseFloat.
  assert (T : strip_sign
                (skip_whitespace
                   (chars ((if s then "-" else "") ++
                           String c I' ++ "." ++ F)))
              = (s, c :: chars I' ++ "."%char :: chars F)).
  { assert (E : chars ((if s then "-" else "") ++ String c I' ++ "." ++ F)
                = ((if s then ["-"%char] else []) ++
                   c :: chars I' ++ "."%char :: chars F)%list).
    { rewrite !chars_app. destruct s; reflexivity. }
    rewrite E.
    destruct (digit_plain c (chars I' ++ "."%char :: chars F) Hc)
      as (W & S & _).
    destruct s; cbn [app].
    - reflexivity.
    - rewrite W, S. reflexivity. }
  rewrite T.
  destruct (digit_plain c (chars I' ++ "."%char :: chars F) Hc)
    as (_ & _ & -> & _).
  change (c :: chars I' ++ "."%char :: chars F)
    with ((c :: chars I') ++ "."%char :: chars F).
  rewrite span_digits_app; [ | simpl; rewrite Hc; exact DI' | reflexivity].
  cbn [fraction_prefix]. change (Ascii.eqb "." ".") with true. cbv iota.
  rewrite (span_digits_all _ DF). cbn [app].
  replace (digits_value (c :: chars I' ++ chars F)) with n
    by (symmetry; exact V).
  replace (List.length (chars F)) with 2%nat; [reflexivity | ].
  rewrite <- LF. clear. induction F; simpl; congruence.
Qed.

End ReadingFixed.

Lemma scaled_nearest_nonneg (m : positive) (e : Z) (f : nat) :
  0 <= scaled_nearest m e f.
Proof.
  unfold scaled_nearest.
  assert (0 < 10 ^ Z.of_nat f) by (apply Z.pow_pos_nonneg; lia).
  destruct (0 <=? e) eqn:E.
  - apply Z.leb_le in E.
    assert (0 < 2 ^ e) by (apply Z.pow_pos_nonneg; lia). nia.
  - apply Z.leb_gt in E.
    assert (0 < 2 ^ (- e)) by (apply Z.pow_pos_nonneg; lia).
    assert (0 < 2 ^ (1 - e)) by (apply Z.pow_pos_nonneg; lia).
    apply Z.div_pos; nia.
Qed.

(** X17. The badge of a margin is [default] exactly when the text of
    the margin, read back by [parseFloat], exceeds ten: for a margin
    that is finite and below 10^21, when its hundredths are more than a
    thousand; for one that is not finite, when it is the positive
    infinity. *)
Theorem margin_badge :
  forall item : PeriodRecord,
    let margin := Spec.margin item in
    let badge (above : bool) : string :=
      if above then "default"%string else "secondary"%string in
    (is_finite margin = false ->
       FinancialTable.margin_variant item = badge (gt margin (of_Z 10)))
    /\ (Spec.below_1e21 margin = true ->
        FinancialTable.margin_variant item
        = badge (1000 <? Notions.hundredths margin)).
Proof.
  intros item margin badge. subst badge.
  unfold FinancialTable.margin_variant.
  change (mul (div (profit item) (sales_volume item)) (of_Z 100))
    with margin.
  split.
  - intro F.
    destruct (is_finite_false_cases margin F) as [-> | [-> | ->]];
      reflexivity.
  - intro B. destruct margin as [s | s | | s m e]; try discriminate B.
    + change (toFixed 2 (S754_zero s)) with ("" ++ fixed_layout 2 0)%string.
      rewrite (parseFloat_fixed false 0) by lia.
      rewrite of_decimal_above_ten by lia. reflexivity.
    + simpl in B. apply negb_true_iff in B.
      unfold toFixed. rewrite B.
      pose proof (scaled_nearest_nonneg m e 2) as N.
      rewrite (parseFloat_fixed s _ N).
      unfold Notions.hundredths. destruct s.
      * rewrite of_decimal_negative.
        replace (1000 <? - scaled_nearest m e 2) with false
          by (symmetry; apply Z.ltb_ge; lia).
        reflexivity.
      * rewrite of_decimal_above_ten by exact N. reflexivity.
Qed.

Lemma margin_badge_witness :
  FinancialTable.margin_variant (Spec.record 2023 1 100000 10004)
  = "secondary"%string
  /\ FinancialTable.margin_variant (Spec.record 2023 1 0 5)
     = "default"%string.
Proof.
  split.
  - apply (proj2 (margin_badge (Spec.record 2023 1 100000 10004))).
    reflexivity.
  - apply (proj1 (margin_badge (Spec.record 2023 1 0 5))). reflexivity.
Defined.

(** A margin of 10.004 per cent is above ten for the metric card and is
    not for the badge of the table, which reads it as 10.00. *)
Example badge_and_card_disagree :
  let item := Spec.record 2023 1 100000 10004 in
  FinancialTable.margin_variant item = "secondary"%string
  /\ option_map (fun card => option_map MetricsCards.label
                               (MetricsCards.trend card))
       (nth_error (MetricsCards.cards (Some [item])) 2)
     = Some (Some "Healthy"%string).
Proof. vm_compute. split; reflexivity. Qed.

(** ** Figures that are not finite *)

Section Nulls.
Import JSON.

Local Abbreviation chars := list_ascii_of_string.

Lemma scan_figure (x : number) (c : ascii) (tc : list token)
  (rest : list ascii) :
  Notions.exportable x ->
  is_number_char c = false ->
  is_letter c = false ->
  idle_step c = Some (tc, Idle) ->
  scan_run Idle (chars (number_text x) ++ c :: rest)
  = match scan_run Idle rest with
    | Some (ts, st) => Some (Notions.figure_token x :: tc ++ ts, st)%list
    | None => None
    end.
Proof.
  intros [R | F] Hc Hl Hi; unfold Notions.figure_token.
  - rewrite (readable_finite x R). apply scan_number; assumption.
  - unfold number_text. rewrite F. rewrite scan_run_app.
    change (scan_run Idle (chars "null"))
      with (Some (@nil token, InWord ["l"; "l"; "u"; "n"]%char)).
    cbn [scan_run scan_step]. rewrite Hl.
    change (keyword (rev ["l"; "l"; "u"; "n"]%char)) with (Some TNull).
    unfold after. rewrite Hi.
    destruct (scan_run Idle rest) as [[ts st] | ]; reflexivity.
Qed.

Lemma scan_figure_comma (x : number) (rest : list ascii) :
  Notions.exportable x ->
  scan_run Idle (chars (number_text x) ++ chars "," ++ rest)
  = match scan_run Idle rest with
    | Some (ts, st) => Some (Notions.figure_token x :: TComma :: ts, st)
    | None => None
    end.
Proof. intro R. apply (scan_figure x "," [TComma] rest); auto. Qed.

Lemma scan_figure_newline (x : number) (rest : list ascii) :
  Notions.exportable x ->
  scan_run Idle (chars (number_text x) ++ chars newline ++ rest)
  = match scan_run Idle rest with
    | Some (ts, st) => Some (Notions.figure_token x :: ts, st)
    | None => None
    end.
Proof. intro R. apply (scan_figure x "010" [] rest); auto. Qed.

Ltac scan_figure_piece :=
  first [ rewrite scan_figure_comma by assumption
        | rewrite scan_figure_newline by assumption
        | erewrite scan_literal by reflexivity ].

Lemma scan_record_figures (item : PeriodRecord) (rest : list ascii) :
  Notions.exportable_record item ->
  scan_run Idle (chars (stringify "  " (ExportButtons.record_json item))
                 ++ rest)
  = match scan_run Idle rest with
    | Some (ts, st) => Some ((Notions.record_tokens item ++ ts)%list, st)
    | None => None
    end.
Proof.
  destruct item as [q sv p y]. unfold Notions.exportable_record.
  cbn [quarter sales_volume profit year].
  intros (Hq & Hs & Hp & Hy).
  unfold ExportButtons.record_json, Notions.record_tokens.
  cbn [stringify map JSON.join fst snd quarter sales_volume profit year].
  rewrite !chars_app, <- !app_assoc.
  repeat scan_figure_piece.
  destruct (scan_run Idle rest) as [[ts st] | ]; reflexivity.
Qed.

Lemma scan_items_figures (first : PeriodRecord) (rest : list PeriodRecord) :
  forall tail,
    Forall Notions.exportable_record (first :: rest) ->
    scan_run Idle
      (chars (JSON.join ("," ++ newline ++ "  ")
                (map (stringify "  ")
                   (map ExportButtons.record_json (first :: rest))))
       ++ tail)
    = match scan_run Idle tail with
      | Some (ts, st) =>
          Some ((Notions.items_tokens first rest ++ ts)%list, st)
      | None => None
      end.
Proof.
  revert first. induction rest as [ | next rest IH]; intros first tail H.
  - inversion H; subst. apply scan_record_figures. assumption.
  - inversion H as [ | x l Hfirst Hrest]; subst.
    change (JSON.join ("," ++ newline ++ "  ")
              (map (stringify "  ")
                 (map ExportButtons.record_json (first :: next :: rest))))
      with (stringify "  " (ExportButtons.record_json first)
            ++ ("," ++ newline ++ "  ")
            ++ JSON.join ("," ++ newline ++ "  ")
                 (map (stringify "  ")
                    (map ExportButtons.record_json (next :: rest))))%string.
    rewrite !chars_app, <- !app_assoc.
    rewrite (scan_record_figures first _ Hfirst).
    do 3 (erewrite scan_literal by reflexivity).
    rewrite (IH next tail Hrest).
    destruct (scan_run Idle tail) as [[ts st] | ]; [ | reflexivity].
    cbn [Notions.items_tokens]. rewrite <- app_assoc. reflexivity.
Qed.

Lemma scan_jsonContent_figures (first : PeriodRecord)
  (rest : list PeriodRecord) :
  Forall Notions.exportable_record (first :: rest) ->
  scan (chars (ExportButtons.jsonContent (first :: rest)))
  = Some (TLBracket :: Notions.items_tokens first rest ++ [TRBracket])%list.
Proof.
  intro H. unfold ExportButtons.jsonContent, JSON_stringify,
    ExportButtons.data_json, scan.
  change (stringify "" (JArr (map ExportButtons.record_json (first :: rest))))
    with ("[" ++ newline ++ "  "
          ++ JSON.join ("," ++ newline ++ "  ")
               (map (stringify "  ")
                  (map ExportButtons.record_json (first :: rest)))
          ++ newline ++ "" ++ "]")%string.
  rewrite !chars_app, <- ?app_assoc.
  do 3 (erewrite scan_literal by reflexivity).
  rewrite (scan_items_figures first rest _ H).
  change (scan_run Idle (chars newline ++ chars "" ++ chars "]"))
    with (Some ([TRBracket], Idle)).
  cbn [scan_end app]. rewrite List.app_nil_r. reflexivity.
Qed.

Lemma parse_record_figures (item : PeriodRecord) (fuel : nat)
  (rest : list token) :
  parse_value (S (S (S (S (S (S fuel))))))
    (Notions.record_tokens item ++ rest)
  = Some (Notions.record_read item, rest).
Proof.
  unfold Notions.record_tokens, Notions.record_read, Notions.figure_token,
    Notions.figure_read.
  destruct (is_finite (quarter item)), (is_finite (sales_volume item)),
    (is_finite (profit item)), (is_finite (year item)); reflexivity.
Qed.

Lemma items_tokens_head_figures (first : PeriodRecord)
  (rest : list PeriodRecord) :
  exists ts, Notions.items_tokens first rest = TLBrace :: ts.
Proof. destruct rest; eexists; reflexivity. Qed.

Lemma parse_items_figures (rest : list PeriodRecord) :
  forall first fuel tail,
    parse_items (S (S (S (S (S (S (S (List.length rest + fuel))))))))
      (Notions.items_tokens first rest ++ TRBracket :: tail)
    = Some (map Notions.record_read (first :: rest), tail).
Proof.
  induction rest as [ | next rest IH]; intros first fuel tail.
  - rewrite parse_items_step. cbn [Notions.items_tokens].
    rewrite parse_record_figures. reflexivity.
  - rewrite parse_items_step. cbn [Notions.items_tokens].
    rewrite <- app_assoc, parse_record_figures.
    rewrite <- app_comm_cons.
    change (S (S (S (S (S (S (List.length (next :: rest) + fuel)))))))
      with (S (S (S (S (S (S (S (List.length rest + fuel)))))))).
    rewrite IH. reflexivity.
Qed.

Lemma length_items_figures (rest : list PeriodRecord) :
  forall first,
    List.length (Notions.items_tokens first rest)
    = (17 + 18 * List.length rest)%nat.
Proof.
  induction rest as [ | next rest IH]; intro first.
  - reflexivity.
  - cbn [Notions.items_tokens]. rewrite length_app. cbn [List.length].
    rewrite IH. simpl List.length. lia.
Qed.

Lemma parse_array_figures (first : PeriodRecord) (rest : list PeriodRecord)
  (fuel : nat) :
  parse_value (S (S (S (S (S (S (S (S (List.length rest + fuel)))))))))
    (TLBracket :: Notions.items_tokens first rest ++ [TRBracket])
  = Some (JArr (map Notions.record_read (first :: rest)), []).
Proof.
  pose proof (parse_items_figures rest first fuel []) as P.
  destruct (items_tokens_head_figures first rest) as (ts & E).
  rewrite E in *. rewrite <- app_comm_cons in *.
  rewrite parse_value_array, P. reflexivity.
Qed.

Lemma JSON_parse_figures (first : PeriodRecord) (rest : list PeriodRecord) :
  Forall Notions.exportable_record (first :: rest) ->
  JSON_parse (ExportButtons.jsonContent (first :: rest))
  = Some (JArr (map Notions.record_read (first :: rest))).
Proof.
  intro H. unfold JSON_parse.
  rewrite (scan_jsonContent_figures first rest H).
  assert (L : S (List.length (TLBracket :: Notions.items_tokens first rest
                                ++ [TRBracket]))
              = S (S (S (S (S (S (S (S (List.length rest
                                         + (12 + 17 * List.length rest)))))))))).
  { cbn [List.length]. rewrite length_app, length_items_figures.
    cbn [List.length]. lia. }
  rewrite L, parse_array_figures. reflexivity.
Qed.

Lemma json_record_read (item : PeriodRecord) :
  Notions.all_finite item = false ->
  ExportButtons.json_record (Notions.record_read item) = None.
Proof.
  unfold Notions.all_finite, Notions.record_read, Notions.figure_read.
  destruct (is_finite (quarter item)), (is_finite (sales_volume item)),
    (is_finite (profit item)), (is_finite (year item));
    try discriminate; reflexivity.
Qed.

Lemma json_records_read (data : list PeriodRecord) :
  forallb Notions.all_finite data = false ->
  ExportButtons.json_records (map Notions.record_read data) = None.
Proof.
  induction data as [ | item data IH]; [discriminate | ].
  cbn [forallb map ExportButtons.json_records].
  destruct (Notions.all_finite item) eqn:A.
  - cbn [andb]. intro H. rewrite (IH H).
    destruct (ExportButtons.json_record (Notions.record_read item));
      reflexivity.
  - intros _. rewrite (json_record_read item A). reflexivity.
Qed.

End Nulls.

(** X18. A figure that is not finite (NaN or an infinity; the year of a
    key that is no numeral) is exported to JSON as [null]: the text
    parses to the records with [null] in its place, and the records
    cannot be read back from it. *)
Theorem json_export_of_figures_that_are_not_finite :
  forall first rest,
    let data := first :: rest in
    Forall Notions.exportable_record data ->
    JSON.JSON_parse (ExportButtons.jsonContent data)
    = Some (JSON.JArr (map Notions.record_read data))
    /\ (forallb Notions.all_finite data = false ->
        ExportButtons.read_back (ExportButtons.jsonContent data) = None).
Proof.
  intros first rest data H. subst data. split.
  - apply JSON_parse_figures, H.
  - intro N. unfold ExportButtons.read_back.
    rewrite (JSON_parse_figures first rest H).
    apply json_records_read, N.
Qed.

Lemma json_export_of_figures_that_are_not_finite_witness :
  FinancialDashboard.filteredData Notions.fiscal_year "food" "FY23" "MC"
  = Normal [ {| quarter := of_Z 1; sales_volume := of_Z 1000;
                profit := of_Z 100; year := S754_nan |} ]
  /\ JSON.JSON_parse
       (ExportButtons.jsonContent
          [ {| quarter := of_Z 1; sales_volume := of_Z 1000;
               profit := of_Z 100; year := S754_nan |} ])
     = Some (JSON.JArr
               [JSON.JObj [ ("quarter"%string, JSON.JNum (of_Z 1));
                            ("sales_volume"%string, JSON.JNum (of_Z 1000));
                            ("profit"%string, JSON.JNum (of_Z 100));
                            ("year"%string, JSON.JNull) ]]).
Proof.
  split; [reflexivity | ].
  apply (json_export_of_figures_that_are_not_finite
           {| quarter := of_Z 1; sales_volume := of_Z 1000;
              profit := of_Z 100; year := S754_nan |} []).
  constructor; [ | constructor].
  split; [ | split; [ | split]];
    try (left; apply integral_readable; eexists;
         split; [ | reflexivity]; simpl; lia).
  right. reflexivity.
Defined.

Section Spoiled.

Lemma sum_from_nan (xs : list number) :
  forall acc,
    is_nan acc = true \/ (exists x, In x xs /\ is_nan x = true) ->
    Spec.sum_from acc xs = S754_nan.
Proof.
  induction xs as [ | y xs IH]; intros acc H; simpl.
  - destruct H as [H | (x & [] & _)].
    destruct acc; try discriminate H. reflexivity.
  - apply IH.
    destruct H as [H | (x & [<- | Hx] & N)].
    + left. destruct acc; try discriminate H. reflexivity.
    + left. destruct y; try discriminate N.
      destruct acc as [ | | | ]; reflexivity.
    + right. exists x. auto.
Qed.

Lemma sum_nan (f : PeriodRecord -> number) (data : list PeriodRecord)
  (item : PeriodRecord) :
  In item data -> is_nan (f item) = true ->
  Spec.sum (map f data) = S754_nan.
Proof.
  intros I N. apply sum_from_nan. right. exists (f item).
  split; [apply in_map, I | exact N].
Qed.

End Spoiled.

(** X19. One record whose sales volume or profit is NaN makes the total
    of that figure and the average margin NaN: the cards read [NaN] or
    [$NaN], and [NaN%]. *)
Theorem a_figure_that_is_no_number_spoils_the_totals :
  forall first rest item,
    let data := first :: rest in
    let shown := map MetricsCards.value (MetricsCards.cards (Some data)) in
    In item data ->
    (is_nan (sales_volume item) = true ->
       nth_error shown 0 = Some "NaN"%string
       /\ nth_error shown 2 = Some "NaN%"%string)
    /\ (is_nan (profit item) = true ->
        nth_error shown 1 = Some "$NaN"%string
        /\ nth_error shown 2 = Some "NaN%"%string).
Proof.
  intros first rest item data shown I. subst shown data.
  unfold MetricsCards.cards. rewrite calculateMetrics_cons.
  split; intro N.
  - rewrite (sum_nan sales_volume _ item I N). split; [reflexivity | ].
    cbn [map nth_error MetricsCards.value MetricsCards.avgProfitMargin].
    destruct (Spec.sum (profit first :: map profit rest)); reflexivity.
  - rewrite (sum_nan profit _ item I N). split; reflexivity.
Qed.

Lemma a_figure_that_is_no_number_spoils_the_totals_witness :
  nth_error
    (map MetricsCards.value
       (MetricsCards.cards
          (Some [Spec.record 2023 1 1000 100;
                 {| quarter := of_Z 2; sales_volume := of_Z 2000;
                    profit := S754_nan; year := of_Z 2023 |}]))) 1
  = Some "$NaN"%string.
Proof.
  apply (a_figure_that_is_no_number_spoils_the_totals
           (Spec.record 2023 1 1000 100)
           [{| quarter := of_Z 2; sales_volume := of_Z 2000;
               profit := S754_nan; year := of_Z 2023 |}]
           {| quarter := of_Z 2; sales_volume := of_Z 2000;
              profit := S754_nan; year := of_Z 2023 |}).
  - right. left. reflexivity.
  - reflexivity.
Defined.

(** ** The row keys of a well-formed company *)

Section WellFormed.
Import FinancialDashboard.

Lemma of_Z_inj (a b : Z) :
  Z.abs a < 2 ^ 53 -> Z.abs b < 2 ^ 53 -> of_Z a = of_Z b -> a = b.
Proof.
  intros Ha Hb E. apply numeral_inj.
  rewrite <- !Number_toString_numeral by assumption. rewrite E. reflexivity.
Qed.

(** The year that a numeral key reads as. *)
Lemma indexed_key_year (o : object (list Stored.entry)) (k : string) :
  Notions.indexed_keys o -> In k (map fst o) ->
  exists n, 0 <= n < 2 ^ 32 - 1 /\ k = digits_of n /\ parseInt k = of_Z n.
Proof.
  intros K I. destruct (K k I) as (n & Hn & ->).
  exists n. split; [exact Hn | split; [reflexivity | ]].
  apply parseInt_numeral. lia.
Qed.

Lemma year_of_key_inj (o : object (list Stored.entry)) (k k' : string) :
  Notions.indexed_keys o -> In k (map fst o) -> In k' (map fst o) ->
  parseInt k = parseInt k' -> k = k'.
Proof.
  intros K I I' E.
  destruct (indexed_key_year o k K I) as (n & Hn & -> & En).
  destruct (indexed_key_year o k' K I') as (n' & Hn' & -> & En').
  rewrite En, En' in E. apply of_Z_inj in E; [congruence | lia | lia].
Qed.

Lemma periods_of_a_year (k : string) (quarters : list Stored.entry) :
  map Notions.period (map (with_year k) quarters)
  = map (pair (parseInt k)) (map Stored.quarter quarters).
Proof. rewrite !map_map. reflexivity. Qed.

Lemma periods_of_a_year_NoDup (k : string) (quarters : list Stored.entry) :
  NoDup (map Stored.quarter quarters) ->
  NoDup (map Notions.period (map (with_year k) quarters)).
Proof.
  intro N. rewrite periods_of_a_year.
  apply Finite.Injective_map_NoDup_in; [ | exact N].
  intros x y _ _ E. injection E. auto.
Qed.

Lemma records_of_a_year_integral (n : Z) (quarters : list Stored.entry) :
  0 <= n < 2 ^ 32 - 1 ->
  Forall Notions.integral_entry quarters ->
  Forall Spec.integral_record (map (with_year (digits_of n)) quarters).
Proof.
  intros Hn H. apply Forall_forall. intros r Hr.
  apply in_map_iff in Hr. destruct Hr as (q & <- & Hq).
  rewrite Forall_forall in H. destruct (H q Hq) as (Iq & Is & Ip).
  unfold with_year. repeat split; simpl; try assumption.
  exists n. split; [lia | apply parseInt_numeral; lia].
Qed.

(** The records of all the years of entries whose keys are numerals,
    each once. *)
Lemma all_years_periods (o : object (list Stored.entry))
  (entries : list (string * list Stored.entry)) :
  Notions.indexed_keys o ->
  incl (map fst entries) (map fst o) ->
  NoDup (map fst entries) ->
  Forall (fun entry =>
            NoDup (map Stored.quarter (snd entry))
            /\ Forall Notions.integral_entry (snd entry)) entries ->
  let records :=
    flat_map (fun entry => map (with_year (fst entry)) (snd entry)) entries in
  Forall Spec.integral_record records
  /\ NoDup (map Notions.period records).
Proof.
  intros K. induction entries as [ | [k quarters] entries IH];
    intros I N F records; subst records.
  - split; constructor.
  - simpl in I. apply incl_cons_inv in I. destruct I as [Ik I].
    inversion N as [ | ? ? Nk N']; subst.
    inversion F as [ | ? ? [Fq Fi] F']; subst. simpl in Fq, Fi.
    destruct (IH I N' F') as [IH1 IH2]. clear IH.
    destruct (indexed_key_year o k K Ik) as (n & Hn & -> & En).
    cbn [flat_map fst snd]. split.
    + apply Forall_app. split; [ | exact IH1].
      apply records_of_a_year_integral; assumption.
    + rewrite map_app. apply NoDup_app.
      * apply periods_of_a_year_NoDup, Fq.
      * exact IH2.
      * intros p Hp Hp'. rewrite periods_of_a_year in Hp.
        apply in_map_iff in Hp. destruct Hp as (x & <- & _).
        apply in_map_iff in Hp'. destruct Hp' as (r & Er & Hr).
        apply in_flat_map in Hr. destruct Hr as ([k' quarters'] & He & Hr).
        simpl in Hr. apply in_map_iff in Hr. destruct Hr as (q & <- & _).
        unfold Notions.period, with_year in Er. simpl in Er.
        injection Er as Ey _.
        assert (Ik' : In k' (map fst entries))
          by (apply (in_map fst _ _ He)).
        apply Nk.
        rewrite (year_of_key_inj o (digits_of n) k' K Ik (I _ Ik')
                   (eq_sym Ey)).
        exact Ik'.
Qed.

Lemma well_formed_view (dataset : Dataset)
  (category year company : string) categoryData companyData records :
  get dataset category = Some categoryData ->
  get categoryData company = Some companyData ->
  Notions.well_formed companyData ->
  filteredData dataset category year company = Normal records ->
  Forall Spec.integral_record records
  /\ NoDup (map Notions.period records).
Proof.
  intros H1 H2 (N & K & F) R.
  rewrite (filteredData_own dataset category year company _ _ H1 H2) in R.
  destruct (String.eqb year "all").
  - injection R as <-.
    pose proof (Object_entries_perm companyData) as P.
    apply (all_years_periods companyData); try assumption.
    + intros k Hk. eapply Permutation_in; [ | exact Hk].
      apply Permutation_map, P.
    + eapply Permutation_NoDup; [ | exact N].
      apply Permutation_sym, Permutation_map, P.
    + eapply Permutation_Forall; [apply Permutation_sym, P | exact F].
  - destruct (get companyData year) as [quarters | ] eqn:G;
      [injection R as <-
      | destruct (existsb (String.eqb year) Realm.inherited_names);
        [discriminate R | injection R as <-; split; constructor]].
    apply get_In in G.
    rewrite Forall_forall in F. destruct (F _ G) as [Fq Fi]. simpl in Fq, Fi.
    destruct (indexed_key_year companyData year K (in_map fst _ _ G))
      as (n & Hn & -> & _).
    split; [apply records_of_a_year_integral; assumption | ].
    apply periods_of_a_year_NoDup, Fq.
Qed.

End WellFormed.

(** X20. For a company of the data set whose year keys are numerals,
    each there once, and whose quarters under a year are integers, each
    quarter there once, the keys of the table's rows are pairwise
    distinct, whatever year is selected, "all" included. *)
Theorem keys_of_a_well_formed_company :
  forall (dataset : Dataset) (category year company : string)
         categoryData companyData records rows,
    get dataset category = Some categoryData ->
    get categoryData company = Some companyData ->
    Notions.well_formed companyData ->
    FinancialDashboard.filteredData dataset category year company
    = Normal records ->
    FinancialTable.body records = FinancialTable.Rows rows ->
    NoDup (map FinancialTable.key rows).
Proof.
  intros dataset category year company cd o records rows H1 H2 W R B.
  destruct (well_formed_view dataset category year company cd o records
              H1 H2 W R) as [I N].
  apply body_rows in B. subst rows. rewrite keys_mapi.
  apply (NoDup_map_same Notions.key_of Notions.period); [ | exact N].
  intros a b Ha Hb. rewrite Forall_forall in I. split.
  - intro E. apply key_of_inj in E; auto. destruct E as [E1 E2].
    unfold Notions.period. rewrite E1, E2. reflexivity.
  - intro E. injection E as E1 E2. unfold Notions.key_of.
    rewrite E1, E2. reflexivity.
Qed.

Lemma integral_entry_q (a b c : Z) :
  Z.abs a < 2 ^ 53 -> Z.abs b < 2 ^ 53 -> Z.abs c < 2 ^ 53 ->
  Notions.integral_entry (FinancialDashboard.q a b c).
Proof.
  intros. split; [ | split]; eexists; (split; [ | reflexivity]); assumption.
Qed.

Lemma keys_of_a_well_formed_company_witness :
  exists records rows,
    FinancialDashboard.filteredData FinancialDashboard.sampleData
      "food" "all" "MC" = Normal records
    /\ FinancialTable.body records = FinancialTable.Rows rows
    /\ NoDup (map FinancialTable.key rows).
Proof.
  do 2 eexists. split; [reflexivity | split; [reflexivity | ]].
  eapply (keys_of_a_well_formed_company FinancialDashboard.sampleData
            "food" "all" "MC");
    [reflexivity | reflexivity | | reflexivity | reflexivity].
  split; [ | split].
  - repeat constructor; simpl; [intros [H | []]; discriminate H | tauto].
  - intros k [<- | [<- | []]]; [exists 2023 | exists 2024];
      (split; [lia | reflexivity]).
  - apply Forall_cons; [split | apply Forall_cons; [split | apply Forall_nil]].
    + vm_compute.
      repeat (apply NoDup_cons;
              [intro H; simpl in H;
               repeat (destruct H as [H | H]; [discriminate H | ]);
               exact H | ]).
      apply NoDup_nil.
    + repeat (apply Forall_cons; [apply integral_entry_q; simpl; lia | ]).
      apply Forall_nil.
    + vm_compute.
      repeat (apply NoDup_cons;
              [intro H; simpl in H;
               repeat (destruct H as [H | H]; [discriminate H | ]);
               exact H | ]).
      apply NoDup_nil.
    + repeat (apply Forall_cons; [apply integral_entry_q; simpl; lia | ]).
      apply Forall_nil.
Defined.
